(** * ReMarkSync: the .rm decoder and the Excalidraw converter

    A shallow embedding of [src/parser.ts], [src/converter.ts],
    [src/utils.ts], [src/constants.ts] and [src/types.ts], with the
    properties the specification states about them, and of the parts of
    [src/sync.ts] and [src/settings.ts] that do not depend on the contents
    of the file system, with further properties of all of them.

    Conventions of the embedding.
    - Integers (cursor, counts, enum values, 32-bit reads) are [Z]; the 32-bit
      wrap-around of the JavaScript bit operators is written out.
    - The input buffer is a [list byte]; the [DataView] accessors fail with a
      [RangeError] outside it, which is the [Throw] result of the reader monad.
    - A JavaScript [number] holding a fractional value is an extended
      rational: [NaN], the two infinities, or a finite rational.  A 32- or
      64-bit float read from the buffer is decoded to its exact value;
      arithmetic on finite values is exact (binary64 rounding and the sign of
      zero are outside the model), while [NaN] and the infinities propagate
      as IEEE-754 and ECMAScript prescribe.
    - [crypto.randomUUID], [crypto.getRandomValues] and [Date.now] are
      services outside the repository: the converter is parameterised by a
      generator state with two operations and by a clock.
    - The vault and the file system are states outside the repository as
      well: the functions of [src/sync.ts] take them as a state with the
      operations they call, each of which returns or throws.
    - A call with spread arguments returns what the language defines for it;
      the bound an engine sets on the number of arguments of a call is the
      parameter of [Module Engine], where such a call throws beyond it. *)

From Stdlib Require Import ZArith QArith Lia Lqa String Ascii.
From Stdlib Require Strings.Byte.
From stdpp Require Import base option list gmap strings pretty.

Local Open Scope Z_scope.

(* ===================================================================== *)
(** ** JavaScript numbers                                                 *)
(* ===================================================================== *)

Inductive number : Type :=
| NaN
| NegInf
| Fin (q : Q)
| PosInf.

Definition Qltb (x y : Q) : bool := (Qnum x * QDen y <? Qnum y * QDen x)%Z.

(** [a < b] *)
Definition num_ltb (a b : number) : bool :=
  match a, b with
  | NaN, _ | _, NaN => false
  | _, NegInf => false
  | NegInf, _ => true
  | PosInf, _ => false
  | Fin _, PosInf => true
  | Fin x, Fin y => Qltb x y
  end.

(** [a <= b] *)
Definition num_leb (a b : number) : bool :=
  match a, b with
  | NaN, _ | _, NaN => false
  | NegInf, _ => true
  | _, PosInf => true
  | _, NegInf => false
  | PosInf, _ => false
  | Fin x, Fin y => Qle_bool x y
  end.

(** [a === b] *)
Definition num_eqb (a b : number) : bool :=
  match a, b with
  | NegInf, NegInf | PosInf, PosInf => true
  | Fin x, Fin y => Qeq_bool x y
  | _, _ => false
  end.

Definition num_lt (a b : number) : Prop := num_ltb a b = true.
Definition num_le (a b : number) : Prop := num_leb a b = true.

Definition isNaN (a : number) : bool :=
  match a with NaN => true | _ => false end.

Definition isFinite (a : number) : bool :=
  match a with Fin _ => true | _ => false end.

(** The same mathematical value (the representation of a rational is not
    unique); [NaN] is the same value as itself here, unlike [===]. *)
Definition num_same (a b : number) : Prop :=
  match a, b with
  | NaN, NaN | NegInf, NegInf | PosInf, PosInf => True
  | Fin x, Fin y => (x == y)%Q
  | _, _ => False
  end.

(** An infinity multiplied by the finite [x]: the sign of [x] decides, and
    zero times infinity is [NaN]. *)
Definition inf_scaled (positive : bool) (x : Q) : number :=
  match (x ?= 0)%Q with
  | Eq => NaN
  | Gt => if positive then PosInf else NegInf
  | Lt => if positive then NegInf else PosInf
  end.

(** [a * b] *)
Definition num_mul (a b : number) : number :=
  match a, b with
  | NaN, _ | _, NaN => NaN
  | Fin x, Fin y => Fin (x * y)
  | PosInf, Fin x | Fin x, PosInf => inf_scaled true x
  | NegInf, Fin x | Fin x, NegInf => inf_scaled false x
  | PosInf, PosInf | NegInf, NegInf => PosInf
  | PosInf, NegInf | NegInf, PosInf => NegInf
  end.

(** [a - b] *)
Definition num_sub (a b : number) : number :=
  match a, b with
  | NaN, _ | _, NaN => NaN
  | Fin x, Fin y => Fin (x - y)
  | PosInf, PosInf | NegInf, NegInf => NaN
  | PosInf, _ => PosInf
  | NegInf, _ => NegInf
  | Fin _, PosInf => NegInf
  | Fin _, NegInf => PosInf
  end.

(** [a / b]; a zero divisor counts as [+0]. *)
Definition num_div (a b : number) : number :=
  match a, b with
  | NaN, _ | _, NaN => NaN
  | Fin x, Fin y => if Qeq_bool y 0 then inf_scaled true x else Fin (x / y)
  | Fin _, _ => Fin 0
  | PosInf, Fin y => if Qle_bool 0 y then PosInf else NegInf
  | NegInf, Fin y => if Qle_bool 0 y then NegInf else PosInf
  | _, _ => NaN
  end.

Definition num_of_Z (z : Z) : number := Fin (inject_Z z).

Definition min2 (a b : number) : number :=
  if isNaN a || isNaN b then NaN else if num_ltb b a then b else a.

Definition max2 (a b : number) : number :=
  if isNaN a || isNaN b then NaN else if num_ltb a b then b else a.

(** [Math.min(...l)], when the call returns: [+Infinity] for no argument,
    [NaN] when an argument is. *)
Definition Math_min (l : list number) : number := foldr min2 PosInf l.

(** [Math.max(...l)], when the call returns: [-Infinity] for no argument,
    [NaN] when an argument is. *)
Definition Math_max (l : list number) : number := foldr max2 NegInf l.

(* ===================================================================== *)
(** ** types.ts                                                           *)
(* ===================================================================== *)

Inductive RMVersion : Type := V3 | V5 | V6 | UNKNOWN.

(** [enum PenType]; a stroke carries whatever integer the file holds. *)
Module PenType.
Definition BALLPOINT : Z := 0.
Definition MARKER : Z := 1.
Definition FINELINER : Z := 2.
Definition HIGHLIGHTER : Z := 3.
Definition ERASER : Z := 4.
Definition MECHANICAL_PENCIL : Z := 5.
Definition PAINTBRUSH : Z := 6.
Definition CALLIGRAPHY : Z := 7.
Definition PENCIL : Z := 8.
Definition BALLPOINT_V2 : Z := 12.
Definition MARKER_V2 : Z := 13.
Definition FINELINER_V2 : Z := 14.
Definition HIGHLIGHTER_V2 : Z := 15.
Definition ERASER_V2 : Z := 16.
Definition MECHANICAL_PENCIL_V2 : Z := 17.
Definition PAINTBRUSH_V2 : Z := 18.

(** The members of the enumeration, in declaration order. *)
Definition members : list Z :=
  [BALLPOINT; MARKER; FINELINER; HIGHLIGHTER; ERASER; MECHANICAL_PENCIL;
   PAINTBRUSH; CALLIGRAPHY; PENCIL; BALLPOINT_V2; MARKER_V2; FINELINER_V2;
   HIGHLIGHTER_V2; ERASER_V2; MECHANICAL_PENCIL_V2; PAINTBRUSH_V2].
End PenType.

(** [enum RMColor] *)
Module RMColor.
Definition BLACK : Z := 0.
Definition GRAY : Z := 1.
Definition WHITE : Z := 2.
Definition YELLOW : Z := 3.
Definition GREEN : Z := 4.
Definition PINK : Z := 5.
Definition BLUE : Z := 6.
Definition RED : Z := 7.
Definition GRAY_OVERLAP : Z := 8.

Definition members : list Z :=
  [BLACK; GRAY; WHITE; YELLOW; GREEN; PINK; BLUE; RED; GRAY_OVERLAP].
End RMColor.

Record Point : Type := mkPoint {
  p_x : number;
  p_y : number;
  p_pressure : number;
  p_width : number;
  p_speed : number;
  p_direction : number
}.

Record Stroke : Type := mkStroke {
  pen : Z;
  color : Z;
  width : number;
  points : list Point;
  layerIndex : Z
}.

Record ParsedDocument : Type := mkParsedDocument {
  doc_version : RMVersion;
  layers : list (list Stroke)
}.

Record PenCharacteristics : Type := mkPen {
  baseMultiplier : number;
  pressureSensitive : bool;
  opacity : Z;
  roughness : Z;
  strokeStyle : string;
  simulatePressure : bool
}.

(* ===================================================================== *)
(** ** constants.ts                                                       *)
(* ===================================================================== *)

Definition COLOR_MAP : gmap Z string :=
  list_to_map
    [ (RMColor.BLACK, "#000000"); (RMColor.GRAY, "#808080");
      (RMColor.WHITE, "#FFFFFF"); (RMColor.YELLOW, "#FFEB3B");
      (RMColor.GREEN, "#4CAF50"); (RMColor.PINK, "#E91E63");
      (RMColor.BLUE, "#2196F3"); (RMColor.RED, "#F44336");
      (RMColor.GRAY_OVERLAP, "#A0A0A0") ].

Definition PEN_CHARACTERISTICS : gmap Z PenCharacteristics :=
  list_to_map
    [ (PenType.BALLPOINT, mkPen (Fin 1.0) true 100 0 "solid" false);
      (PenType.BALLPOINT_V2, mkPen (Fin 1.0) true 100 0 "solid" false);
      (PenType.MARKER, mkPen (Fin 1.8) true 100 1 "solid" false);
      (PenType.MARKER_V2, mkPen (Fin 1.8) true 100 1 "solid" false);
      (PenType.FINELINER, mkPen (Fin 0.6) false 100 0 "solid" true);
      (PenType.FINELINER_V2, mkPen (Fin 0.6) false 100 0 "solid" true);
      (PenType.HIGHLIGHTER, mkPen (Fin 8.0) false 40 1 "solid" true);
      (PenType.HIGHLIGHTER_V2, mkPen (Fin 8.0) false 40 1 "solid" true);
      (PenType.ERASER, mkPen (Fin 2.0) true 100 0 "solid" false);
      (PenType.ERASER_V2, mkPen (Fin 2.0) true 100 0 "solid" false);
      (PenType.MECHANICAL_PENCIL, mkPen (Fin 0.5) true 90 1 "solid" false);
      (PenType.MECHANICAL_PENCIL_V2, mkPen (Fin 0.5) true 90 1 "solid" false);
      (PenType.PAINTBRUSH, mkPen (Fin 2.5) true 100 2 "solid" false);
      (PenType.PAINTBRUSH_V2, mkPen (Fin 2.5) true 100 2 "solid" false);
      (PenType.CALLIGRAPHY, mkPen (Fin 1.5) true 100 0 "solid" false);
      (PenType.PENCIL, mkPen (Fin 1.0) true 85 2 "solid" false) ].

Definition DEFAULT_PEN_CHARACTERISTICS : PenCharacteristics :=
  mkPen (Fin 1.0) true 100 1 "solid" false.

(** [PEN_CHARACTERISTICS[pen] ?? DEFAULT_PEN_CHARACTERISTICS] *)
Definition getPenCharacteristics (pen : Z) : PenCharacteristics :=
  default DEFAULT_PEN_CHARACTERISTICS (PEN_CHARACTERISTICS !! pen).

(** [COLOR_MAP[color] ?? COLOR_MAP[RMColor.BLACK]] *)
Definition getHexColor (color : Z) : string :=
  default (COLOR_MAP !!! RMColor.BLACK) (COLOR_MAP !! color).

(* ===================================================================== *)
(** ** utils.ts                                                           *)
(* ===================================================================== *)

(** [Math.max(0, Math.min(1, pressure))] *)
Definition normalizePressure (pressure : number) : number :=
  Math_max [Fin 0; Math_min [Fin 1; pressure]].

(** [calculateStrokeWidth(baseWidth, multiplier, scale)]; the converter always
    passes [scale], so the default value of the parameter plays no part. *)
Definition calculateStrokeWidth (baseWidth multiplier scale : number) : number :=
  let width := num_mul (num_mul baseWidth multiplier) scale in
  Math_max [Fin 1; Math_min [Fin 16; width]].

(** The [Math.max(1, Math.min(16, width))] of [calculateStrokeWidth]. *)
Definition clampWidth (w : number) : number :=
  Math_max [Fin 1; Math_min [Fin 16; w]].

(** The specification's [clamp(v, lo, hi)], for comparison with the
    [Math.max]/[Math.min] composition of the code. *)
Definition clamp (v lo hi : number) : number :=
  if num_ltb v lo then lo else if num_ltb hi v then hi else v.

(* ===================================================================== *)
(** ** The reader: cursor, DataView and exceptions                        *)
(* ===================================================================== *)

(** A thrown [Error]: its [message] and its [stack]. *)
Record JsError : Type := mkJsError {
  err_message : string;
  err_stack : string
}.

(** What [DataView.prototype.get*] throws outside the buffer (V8's wording). *)
Definition RangeError : JsError :=
  mkJsError "Offset is outside the bounds of the DataView"
            "RangeError: Offset is outside the bounds of the DataView".

(** The outcome of a method run from some cursor: a value and the new cursor,
    an exception (with the cursor at the time of the throw), or [Diverge]
    when a [while] loop of the source would not leave. *)
Inductive Res (A : Type) : Type :=
| Ret (a : A) (cursor : Z)
| Throw (e : JsError) (cursor : Z)
| Diverge.
Arguments Ret {A} a cursor.
Arguments Throw {A} e cursor.
Arguments Diverge {A}.

(** A method of [RemarkableParser]: it reads and moves [this.cursor]. *)
Definition M (A : Type) : Type := Z -> Res A.

Definition ret {A} (a : A) : M A := fun cursor => Ret a cursor.

Definition bind {A B} (m : M A) (k : A -> M B) : M B :=
  fun cursor =>
    match m cursor with
    | Ret a cursor' => k a cursor'
    | Throw e c => Throw e c
    | Diverge => Diverge
    end.

Definition getCursor : M Z := fun cursor => Ret cursor cursor.
Definition setCursor (c : Z) : M unit := fun _ => Ret tt c.

Declare Scope reader_scope.
Delimit Scope reader_scope with reader.
Notation "'do' x <- m ; k" := (bind m (fun x => k))
  (at level 10, x name, m at level 100, k at level 200,
   format "'[v' 'do'  x  <-  m ; '/' k ']'") : reader_scope.
Notation "'run' m ; k" := (bind m (fun _ => k))
  (at level 10, m at level 100, k at level 200,
   format "'[v' 'run'  m ; '/' k ']'") : reader_scope.

(** 2 to the power [k], as a rational, for any integer [k]. *)
Definition Qpow2 (k : Z) : Q :=
  if 0 <=? k then inject_Z (2 ^ k) else Qmake 1 (Z.to_pos (2 ^ (- k))).

(** The value of an IEEE-754 word with [ebits] exponent bits and [mbits]
    fraction bits, given as the unsigned integer [bits]. *)
Definition decodeFloat (ebits mbits : Z) (bits : Z) : number :=
  let sign := Z.testbit bits (ebits + mbits) in
  let e := (bits / 2 ^ mbits) mod 2 ^ ebits in
  let m := bits mod 2 ^ mbits in
  let bias := 2 ^ (ebits - 1) - 1 in
  if e =? 2 ^ ebits - 1 then
    if m =? 0 then (if sign then NegInf else PosInf) else NaN
  else
    let mag :=
      if e =? 0 then (inject_Z m * Qpow2 (1 - bias - mbits))%Q
      else (inject_Z (2 ^ mbits + m) * Qpow2 (e - bias - mbits))%Q in
    Fin (Qred (if sign then (- mag)%Q else mag)).

Definition decodeFloat32 : Z -> number := decodeFloat 8 23.
Definition decodeFloat64 : Z -> number := decodeFloat 11 52.

(** [ToInt32]: the wrap-around of the bit operators. *)
Definition toInt32 (z : Z) : Z := (z + 2 ^ 31) mod 2 ^ 32 - 2 ^ 31.

(** [a << s] on 32-bit integers: the shift count is taken modulo 32. *)
Definition int32_shl (a s : Z) : Z := toInt32 (Z.shiftl a (s mod 32)).

(** [a | b] on 32-bit integers. *)
Definition int32_or (a b : Z) : Z := toInt32 (Z.lor (toInt32 a) (toInt32 b)).

(** UTF-16 code units of a literal. *)
Definition codeUnits (s : string) : list Z :=
  (fun c : ascii => Z.of_nat (nat_of_ascii c)) <$> list_ascii_of_string s.

(** [StrokeResult], [LayerResult], [ParseError], [ParseResult] *)
Inductive StrokeResult : Type :=
| StrokeOk (stroke : Stroke)
| StrokeErr (error : string).

Inductive LayerResult : Type :=
| LayerOk (strokes : list Stroke)
| LayerErr (error : string).

Record ParseError : Type := mkParseError {
  message : string;
  offset : option Z;
  details : option string
}.

Inductive ParseResult : Type :=
| Success (document : ParsedDocument)
| Failure (error : ParseError).

Record HeaderValidation : Type := mkHeaderValidation {
  valid : bool;
  hv_version : RMVersion;
  hv_error : option string
}.

(** The numeric value of an [RMVersion] member. *)
Definition versionNumber (v : RMVersion) : Z :=
  match v with V3 => 3 | V5 => 5 | V6 => 6 | UNKNOWN => -1 end.

Definition HEADER_V3 : string := "reMarkable .lines file, version=3".
Definition HEADER_V5 : string := "reMarkable .lines file, version=5".
Definition HEADER_V6 : string := "reMarkable .lines file, version=6".

Definition HEADER_SIZES : gmap Z Z :=
  list_to_map [ (3, 33); (5, 43); (6, 43) ].

Definition V6_HEADER_SIZE : Z := 43.
Definition V6_POINT_SIZE : Z := 14.

Module V6TagType.
Definition ID : Z := 0xF.
Definition Length4 : Z := 0xC.
Definition Byte8 : Z := 0x8.
Definition Byte4 : Z := 0x4.
Definition Byte1 : Z := 0x1.
End V6TagType.

Module V6BlockType.
Definition LAYER_DEF : Z := 0x1010100.
Definition LAYER_NAMES : Z := 0x2020100.
Definition TEXT_DEF : Z := 0x7010100.
Definition LAYER_INFO : Z := 0x4010100.
Definition LINE_DEF : Z := 0x5020200.
End V6BlockType.

(** [text.startsWith(prefix)] *)
Definition startsWith (text : list Z) (prefix : string) : bool :=
  bool_decide (codeUnits prefix `prefix_of` text).

(** The regular expression class [\d]. *)
Definition isDigit (c : Z) : bool := (48 <=? c) && (c <=? 57).

Fixpoint takeDigits (text : list Z) : list Z :=
  match text with
  | c :: rest => if isDigit c then c :: takeDigits rest else []
  | [] => []
  end.

(** The remainder of [text] after [prefix], when [text] starts with it. *)
Fixpoint stripPrefix (prefix text : list Z) : option (list Z) :=
  match prefix, text with
  | [], _ => Some text
  | p :: prefix', c :: text' =>
      if p =? c then stripPrefix prefix' text' else None
  | _ :: _, [] => None
  end.

(** [text.match(/version=(\d+)/)]: the capture group of the leftmost match. *)
Fixpoint matchVersion (text : list Z) : option (list Z) :=
  match text with
  | [] => None
  | _ :: rest =>
      match stripPrefix (codeUnits "version=") text with
      | Some after =>
          match takeDigits after with
          | [] => matchVersion rest
          | ds => Some ds
          end
      | None => matchVersion rest
      end
  end.

(** [parseInt(digits, 10)] on a run of decimal digits.  The header text has at
    most 43 code units, so the run has at most 11 digits and the result is an
    exact integer, printed in plain decimal by a template literal. *)
Definition parseInt10 (digits : list Z) : Z :=
  foldl (fun acc c => 10 * acc + (c - 48)) 0 digits.

(** The local variables of [parseV6Stroke]. *)
Record V6Fields : Type := mkV6Fields {
  f_pen : Z;
  f_color : Z;
  f_thickness : number;
  f_points : list Point
}.

Section Parser.

(** [this.buffer] *)
Variable buffer : list Byte.byte.

Definition byteLength : Z := Z.of_nat (length buffer).

(** The byte at index [i] of the buffer (0 outside it). *)
Definition byteAt (i : Z) : Z :=
  if i <? 0 then 0
  else match buffer !! Z.to_nat i with
       | Some b => Z.of_N (Byte.to_N b)
       | None => 0
       end.

(** The little-endian unsigned integer of the [n] bytes from [offset]. *)
Fixpoint leUnsigned (n : nat) (offset : Z) : Z :=
  match n with
  | O => 0
  | S n' => byteAt offset + 256 * leUnsigned n' (offset + 1)
  end.

(** [this.view.getUintN(offset, true)]: a [RangeError] unless the [n] bytes
    lie inside the buffer. *)
Definition view_get (n : nat) (offset : Z) : option Z :=
  if (0 <=? offset) && (offset + Z.of_nat n <=? byteLength)
  then Some (leUnsigned n offset) else None.

Definition readLE {A} (n : nat) (conv : Z -> A) : M A :=
  fun cursor =>
    match view_get n cursor with
    | Some v => Ret (conv v) (cursor + Z.of_nat n)
    | None => Throw RangeError cursor
    end.

Definition getUint8 : M Z := readLE 1 id.
Definition getUint16 : M Z := readLE 2 id.
Definition getUint32 : M Z := readLE 4 id.
Definition getInt32 : M Z :=
  readLE 4 (fun u => if u <? 2 ^ 31 then u else u - 2 ^ 32).
Definition getFloat32 : M number := readLE 4 decodeFloat32.
Definition getFloat64 : M number := readLE 8 decodeFloat64.

(** *** Revisions 3 and 5 *)

(** The [for (j ...)] loop of [parseStroke]. *)
Fixpoint readPoints (n : nat) (points : list Point) : M (list Point) :=
  match n with
  | O => ret points
  | S n' =>
      (do x <- getFloat32;
       do y <- getFloat32;
       do speed <- getFloat32;
       do direction <- getFloat32;
       do width <- getFloat32;
       do pressure <- getFloat32;
       readPoints n' (points ++ [mkPoint x y pressure width speed direction]))%reader
  end.

Definition parseStroke (version : RMVersion) (layerIndex : Z) : M StrokeResult :=
  (let headerSize := match version with V3 => 20 | _ => 24 end in
   do cursor <- getCursor;
   if cursor + headerSize >? byteLength then
     ret (StrokeErr "Cannot read stroke header")
   else
     do pen <- getInt32;
     do color <- getInt32;
     run getInt32;
     do baseWidth <- getFloat32;
     run (match version with V3 => ret 0 | _ => getInt32 end);
     do numPoints <- getInt32;
     if (numPoints <? 0) || (numPoints >? 100000) then
       ret (StrokeErr ("Invalid point count: " +:+ pretty numPoints))
     else
       let pointSize := 24 in
       do cursor <- getCursor;
       if cursor + numPoints * pointSize >? byteLength then
         ret (StrokeErr ("Not enough bytes for " +:+ pretty numPoints +:+ " points"))
       else
         do points <- readPoints (Z.to_nat numPoints) [];
         ret (StrokeOk (mkStroke pen color baseWidth points layerIndex)))%reader.

(** The [for (i ...)] loop of [parseLayer], from stroke index [i]. *)
Fixpoint parseStrokes (version : RMVersion) (layerIndex : Z)
    (n : nat) (i : Z) (strokes : list Stroke) : M LayerResult :=
  match n with
  | O => ret (LayerOk strokes)
  | S n' =>
      (do strokeResult <- parseStroke version layerIndex;
       match strokeResult with
       | StrokeErr e =>
           ret (LayerErr ("Stroke " +:+ pretty i +:+ ": " +:+ e))
       | StrokeOk stroke =>
           parseStrokes version layerIndex n' (i + 1) (strokes ++ [stroke])
       end)%reader
  end.

Definition parseLayer (version : RMVersion) (layerIndex : Z) : M LayerResult :=
  (do cursor <- getCursor;
   if cursor + 4 >? byteLength then
     ret (LayerErr "Cannot read stroke count")
   else
     do numStrokes <- getInt32;
     if (numStrokes <? 0) || (numStrokes >? 100000) then
       ret (LayerErr ("Invalid stroke count: " +:+ pretty numStrokes))
     else
       parseStrokes version layerIndex (Z.to_nat numStrokes) 0 [])%reader.

(** The [for (layerIndex ...)] loop of [parseV5]. *)
Fixpoint parseLayers (version : RMVersion) (n : nat) (layerIndex : Z)
    (layers : list (list Stroke)) : M ParseResult :=
  match n with
  | O => ret (Success (mkParsedDocument version layers))
  | S n' =>
      (do layerResult <- parseLayer version layerIndex;
       match layerResult with
       | LayerErr e =>
           do cursor <- getCursor;
           ret (Failure (mkParseError
                  ("Failed to parse layer " +:+ pretty layerIndex +:+ ": " +:+ e)
                  (Some cursor) None))
       | LayerOk strokes =>
           parseLayers version n' (layerIndex + 1) (layers ++ [strokes])
       end)%reader
  end.

(** [HEADER_SIZES[this.version] || 43] *)
Definition headerSizeOf (version : RMVersion) : Z :=
  match HEADER_SIZES !! versionNumber version with
  | Some n => if n =? 0 then 43 else n
  | None => 43
  end.

Definition parseV5 (version : RMVersion) : M ParseResult :=
  (run setCursor (headerSizeOf version);
   do cursor <- getCursor;
   if cursor + 4 >? byteLength then
     ret (Failure (mkParseError
            "Unexpected end of file: cannot read layer count" (Some cursor) None))
   else
     do numLayers <- getInt32;
     if (numLayers <? 0) || (numLayers >? 100) then
       do cursor <- getCursor;
       ret (Failure (mkParseError
              ("Invalid layer count: " +:+ pretty numLayers +:+ ". Expected 0-100.")
              (Some (cursor - 4)) None))
     else
       parseLayers version (Z.to_nat numLayers) 0 [])%reader.

(** *** Revision 6 *)

(** The [while] loop of [readVaruint]; [fuel] bounds its iterations. *)
Fixpoint readVaruint_loop (fuel : nat) (result shift : Z) : M Z :=
  match fuel with
  | O => fun _ => Diverge
  | S fuel' =>
      (do cursor <- getCursor;
       if cursor <? byteLength then
         do byte <- getUint8;
         let result := int32_or result (int32_shl (Z.land byte 0x7F) shift) in
         if Z.land byte 0x80 =? 0 then ret result
         else readVaruint_loop fuel' result (shift + 7)
       else ret result)%reader
  end.

Definition readVaruint : M Z :=
  fun cursor =>
    readVaruint_loop (S (Z.to_nat (byteLength - cursor))) 0 0 cursor.

Definition skipCrdtId : M unit :=
  (run readVaruint; run readVaruint; ret tt)%reader.

(** One 14-byte point record of the points sub-block. *)
Definition readV6Point : M Point :=
  (do x <- getFloat32;
   do y <- getFloat32;
   do speed <- getUint16;
   do width <- getUint16;
   do direction <- getUint8;
   do pressure <- getUint8;
   ret (mkPoint x y
          (num_div (num_of_Z pressure) (num_of_Z 255))
          (num_div (num_of_Z width) (num_of_Z 65535))
          (num_div (num_of_Z speed) (num_of_Z 65535))
          (num_mul (num_div (num_of_Z direction) (num_of_Z 255)) (num_of_Z 360))))%reader.

(** The [for (i ...)] loop over the points sub-block: at most [n] records,
    and only while a whole record fits before [blockEnd]. *)
Fixpoint readV6Points (n : nat) (blockEnd : Z) (points : list Point)
    : M (list Point) :=
  match n with
  | O => ret points
  | S n' =>
      (do cursor <- getCursor;
       if cursor + V6_POINT_SIZE <=? blockEnd then
         do p <- readV6Point;
         readV6Points n' blockEnd (points ++ [p])
       else ret points)%reader
  end.

(** [this.cursor += n] *)
Definition advance (n : Z) : M unit :=
  (do cursor <- getCursor; setCursor (cursor + n))%reader.

(** The [switch (index)] of [parseV6Stroke]. *)
Definition v6FieldSwitch (blockEnd : Z) (st : V6Fields) (index type : Z)
    : M V6Fields :=
  (match index with
   | 1 =>
       if type =? V6TagType.Byte4 then
         do v <- getUint32;
         ret (mkV6Fields v (f_color st) (f_thickness st) (f_points st))
       else if type =? V6TagType.ID then run skipCrdtId; ret st
       else ret st
   | 2 =>
       if type =? V6TagType.Byte4 then
         do v <- getUint32;
         ret (mkV6Fields (f_pen st) v (f_thickness st) (f_points st))
       else if type =? V6TagType.ID then run skipCrdtId; ret st
       else ret st
   | 3 =>
       if type =? V6TagType.Byte8 then
         do v <- getFloat64;
         ret (mkV6Fields (f_pen st) (f_color st) v (f_points st))
       else ret st
   | 4 =>
       if type =? V6TagType.Byte4 then run getFloat32; ret st
       else ret st
   | 5 =>
       if type =? V6TagType.Length4 then
         do pointsLen <- getUint32;
         let numPoints := pointsLen / V6_POINT_SIZE in
         do points <- readV6Points (Z.to_nat numPoints) blockEnd (f_points st);
         ret (mkV6Fields (f_pen st) (f_color st) (f_thickness st) points)
       else ret st
   | 6 | 7 =>
       if type =? V6TagType.ID then run skipCrdtId; ret st
       else ret st
   | _ =>
       if type =? V6TagType.Byte1 then run advance 1; ret st
       else if type =? V6TagType.Byte4 then run advance 4; ret st
       else if type =? V6TagType.Byte8 then run advance 8; ret st
       else if type =? V6TagType.Length4 then
         do len <- getUint32; run advance len; ret st
       else if type =? V6TagType.ID then run skipCrdtId; ret st
       else ret st
   end)%reader.

(** One iteration of the [while] loop of [parseV6Stroke]: the tag, its
    [index] and [type], and the [switch]. *)
Definition parseV6Field (blockEnd : Z) (st : V6Fields) : M V6Fields :=
  (do tag <- readVaruint;
   let index := Z.shiftr tag 4 in
   let type := Z.land tag 0xF in
   v6FieldSwitch blockEnd st index type)%reader.

(** The [while (this.cursor < blockEnd)] loop of [parseV6Stroke]. *)
Fixpoint parseV6Fields (fuel : nat) (blockEnd : Z) (st : V6Fields) : M V6Fields :=
  match fuel with
  | O => fun _ => Diverge
  | S fuel' =>
      (do cursor <- getCursor;
       if cursor <? blockEnd then
         do st' <- parseV6Field blockEnd st;
         parseV6Fields fuel' blockEnd st'
       else ret st)%reader
  end.

(** [parseV6Stroke]: the [try] block, and the [catch] that turns an
    exception into a failed result. *)
Definition parseV6Stroke (blockEnd : Z) : M StrokeResult :=
  fun cursor =>
    let st0 := mkV6Fields PenType.BALLPOINT RMColor.BLACK (Fin 1.0) [] in
    match parseV6Fields (S (Z.to_nat (blockEnd - cursor))) blockEnd st0 cursor with
    | Ret st c =>
        Ret (StrokeOk (mkStroke (f_pen st) (f_color st) (f_thickness st)
                                (f_points st) 0)) c
    | Throw e c =>
        Ret (StrokeErr ("V6 stroke parse error: " +:+ err_message e)) c
    | Diverge => Diverge
    end.

(** [length === 0 || length > byteLength - cursor || length > 10000000] *)
Definition invalidBlock (length cursor : Z) : bool :=
  (length =? 0) || (length >? byteLength - cursor) || (length >? 10000000).

(** The block scan: the [while (this.cursor + 8 <= byteLength)] loop. *)
Fixpoint parseV6Blocks (fuel : nat) (strokes : list Stroke) : M (list Stroke) :=
  match fuel with
  | O => fun _ => Diverge
  | S fuel' =>
      (do blockStart <- getCursor;
       if blockStart + 8 <=? byteLength then
         do length <- getUint32;
         do flag <- getUint32;
         do cursor <- getCursor;
         if invalidBlock length cursor then
           run setCursor (blockStart + 1);
           parseV6Blocks fuel' strokes
         else if flag =? V6BlockType.LINE_DEF then
           let blockEnd := cursor + length in
           do strokeResult <- parseV6Stroke blockEnd;
           let strokes' :=
             match strokeResult with
             | StrokeOk stroke =>
                 if Z.of_nat (List.length (points stroke)) >? 0
                 then strokes ++ [stroke] else strokes
             | StrokeErr _ => strokes
             end in
           run setCursor blockEnd;
           parseV6Blocks fuel' strokes'
         else
           run advance length;
           parseV6Blocks fuel' strokes
       else ret strokes)%reader
  end.

Definition parseV6 (version : RMVersion) : M ParseResult :=
  (run setCursor V6_HEADER_SIZE;
   do cursor <- getCursor;
   do strokes <- parseV6Blocks (S (Z.to_nat (byteLength - cursor))) [];
   ret (Success (mkParsedDocument version [strokes])))%reader.

(** *** Header and entry point *)

(** [TextDecoder("utf-8").decode]: bytes to UTF-16 code units. *)
Variable decode : list Byte.byte -> list Z.

Definition invalidHeader (error : string) : HeaderValidation :=
  mkHeaderValidation false UNKNOWN (Some error).

Definition validateHeader : HeaderValidation :=
  if byteLength <? 33 then
    invalidHeader ("File too small: " +:+ pretty byteLength
                   +:+ " bytes, minimum 33 required")
  else
    let headerBytes := take (Z.to_nat (Z.min 43 byteLength)) buffer in
    let headerText := decode headerBytes in
    let generic :=
      invalidHeader "Invalid file format: missing reMarkable header magic string" in
    if startsWith headerText HEADER_V6 then mkHeaderValidation true V6 None
    else if startsWith headerText HEADER_V5 then mkHeaderValidation true V5 None
    else if startsWith headerText HEADER_V3 then mkHeaderValidation true V3 None
    else if startsWith headerText "reMarkable .lines file, version=" then
      match matchVersion headerText with
      | Some digits =>
          let versionNum := parseInt10 digits in
          invalidHeader ("Unsupported version: " +:+ pretty versionNum
                         +:+ ". Supported versions: 3, 5, 6")
      | None => generic
      end
    else generic.

(** [parse]: [None] stands for a call that would not return. *)
Definition parse : option ParseResult :=
  let headerResult := validateHeader in
  if negb (valid headerResult) then
    let msg := match hv_error headerResult with
               | Some e => if String.eqb e EmptyString then "Invalid header" else e
               | None => "Invalid header"
               end in
    Some (Failure (mkParseError msg (Some 0) None))
  else
    let version := hv_version headerResult in
    let body : M ParseResult :=
      match version with
      | V6 => parseV6 version
      | V5 | V3 => parseV5 version
      | UNKNOWN =>
          ret (Failure (mkParseError
                 ("Cannot parse version " +:+ pretty (versionNumber version))
                 (Some 0) None))
      end in
    match body 0 with
    | Ret r _ => Some r
    | Throw e c =>
        Some (Failure (mkParseError ("Parse error: " +:+ err_message e)
                                    (Some c) (Some (err_stack e))))
    | Diverge => None
    end.

End Parser.

(** A decoder for examples: it agrees with [TextDecoder] on ASCII bytes, and
    gives U+FFFD for any other byte. *)
Definition asciiDecode (bytes : list Byte.byte) : list Z :=
  (fun b => let n := Z.of_N (Byte.to_N b) in if n <? 128 then n else 0xFFFD)
    <$> bytes.

(** The bytes of an ASCII literal, and of a list of integers below 256. *)
Definition bytesOfString (s : string) : list Byte.byte := list_byte_of_string s.

Definition bytesOf (l : list Z) : list Byte.byte :=
  (fun z => default Byte.x00 (Byte.of_N (Z.to_N z))) <$> l.

(** The four bytes of a little-endian 32-bit word. *)
Definition le32 (z : Z) : list Z :=
  [z mod 256; (z / 256) mod 256; (z / 65536) mod 256; (z / 16777216) mod 256].

(* ===================================================================== *)
(** ** converter.ts                                                       *)
(* ===================================================================== *)

(** The type [null]. *)
Inductive JsNull : Type := null.

Record ExcalidrawFreedrawElement : Type := mkFreedraw {
  fd_type : string;
  fd_version : Z;
  fd_versionNonce : Z;
  fd_isDeleted : bool;
  fd_id : string;
  fd_fillStyle : string;
  fd_strokeWidth : number;
  fd_strokeStyle : string;
  fd_roughness : Z;
  fd_opacity : Z;
  fd_angle : Z;
  fd_x : number;
  fd_y : number;
  fd_strokeColor : string;
  fd_backgroundColor : string;
  fd_width : number;
  fd_height : number;
  fd_seed : Z;
  fd_groupIds : list string;
  fd_frameId : option string;
  fd_roundness : JsNull;
  fd_boundElements : JsNull;
  fd_updated : Z;
  fd_link : JsNull;
  fd_locked : bool;
  fd_points : list (number * number);
  fd_pressures : list number;
  fd_simulatePressure : bool;
  fd_lastCommittedPoint : option (list number)
}.

Record ExcalidrawImageElement : Type := mkImage {
  im_type : string;
  im_version : Z;
  im_versionNonce : Z;
  im_isDeleted : bool;
  im_id : string;
  im_fillStyle : string;
  im_strokeWidth : Z;
  im_strokeStyle : string;
  im_roughness : Z;
  im_opacity : Z;
  im_angle : Z;
  im_x : Z;
  im_y : Z;
  im_strokeColor : string;
  im_backgroundColor : string;
  im_width : number;
  im_height : number;
  im_seed : Z;
  im_groupIds : list string;
  im_frameId : option string;
  im_roundness : JsNull;
  im_boundElements : JsNull;
  im_updated : Z;
  im_link : JsNull;
  im_locked : bool;
  im_status : string;
  im_fileId : string;
  im_scale : Z * Z
}.

Inductive ExcalidrawElement : Type :=
| Freedraw (e : ExcalidrawFreedrawElement)
| Image (e : ExcalidrawImageElement).

Record ExcalidrawFile : Type := mkFile {
  file_mimeType : string;
  file_id : string;
  file_dataURL : string;
  file_created : Z
}.

Record AppState : Type := mkAppState {
  viewBackgroundColor : string;
  currentItemFontFamily : Z
}.

Record ExcalidrawDocument : Type := mkDocument {
  out_type : string;
  out_version : Z;
  out_source : string;
  elements : list ExcalidrawElement;
  appState : AppState;
  files : gmap string ExcalidrawFile
}.

Record ConversionOptions : Type := mkOptions {
  preserveLayers : bool;
  includeEraser : bool;
  strokeWidthScale : number
}.

Definition DEFAULT_OPTIONS : ConversionOptions :=
  mkOptions true false (Fin 0.5).

(** [Partial<ConversionOptions>]: a key is present or not. *)
Record PartialOptions : Type := mkPartialOptions {
  opt_preserveLayers : option bool;
  opt_includeEraser : option bool;
  opt_strokeWidthScale : option number
}.

Record BackgroundImage : Type := mkBackgroundImage {
  bg_dataUrl : string;
  bg_width : number;
  bg_height : number
}.

(** The fields of an [ExcalidrawConverter] instance. *)
Record ExcalidrawConverter : Type := mkConverter {
  options : ConversionOptions;
  layerGroupIds : gmap Z string;
  backgroundImage : option BackgroundImage
}.

(** [new ExcalidrawConverter(options)]: [{ ...DEFAULT_OPTIONS, ...options }] *)
Definition newConverter (o : PartialOptions) : ExcalidrawConverter :=
  mkConverter
    (mkOptions
       (default (preserveLayers DEFAULT_OPTIONS) (opt_preserveLayers o))
       (default (includeEraser DEFAULT_OPTIONS) (opt_includeEraser o))
       (default (strokeWidthScale DEFAULT_OPTIONS) (opt_strokeWidthScale o)))
    ∅ None.

Definition setBackgroundImage (this : ExcalidrawConverter)
    (dataUrl : string) (width height : number) : ExcalidrawConverter :=
  mkConverter (options this) (layerGroupIds this)
              (Some (mkBackgroundImage dataUrl width height)).

(** [stroke.pen === PenType.ERASER || stroke.pen === PenType.ERASER_V2] *)
Definition isEraserStroke (stroke : Stroke) : bool :=
  (pen stroke =? PenType.ERASER) || (pen stroke =? PenType.ERASER_V2).

(** [calculatePressures] *)
Definition calculatePressures (stroke : Stroke) (penChar : PenCharacteristics)
    : list number :=
  if negb (pressureSensitive penChar) then
    (fun _ => Fin 0.5) <$> points stroke
  else
    (fun point => normalizePressure (p_pressure point)) <$> points stroke.

Section Converter.

(** The state of the identifier and seed generators, and of the clock. *)
Variables G C : Type.

(** [generateId()], [generateSeed()] and [Date.now()] *)
Variable generateId : G -> string * G.
Variable generateSeed : G -> Z * G.
Variable Date_now : C -> Z * C.

(** A computation that calls the services. *)
Definition Svc (A : Type) : Type := G * C -> A * (G * C).

Definition sret {A} (a : A) : Svc A := fun w => (a, w).

Definition sbind {A B} (m : Svc A) (k : A -> Svc B) : Svc B :=
  fun w => let '(a, w') := m w in k a w'.

Definition callId : Svc string :=
  fun w => let '(v, g) := generateId (fst w) in (v, (g, snd w)).

Definition callSeed : Svc Z :=
  fun w => let '(v, g) := generateSeed (fst w) in (v, (g, snd w)).

Definition callNow : Svc Z :=
  fun w => let '(v, c) := Date_now (snd w) in (v, (fst w, c)).

Notation "'let*' x := m 'in' k" := (sbind m (fun x => k))
  (at level 10, x name, m at level 100, k at level 200,
   format "'[v' 'let*'  x  :=  m  'in' '/' k ']'").

(** [createBackgroundImageElement]; the properties of the literal are
    evaluated in source order. *)
Definition createBackgroundImageElement (fileId : string)
    (width height : number) : Svc ExcalidrawImageElement :=
  let* versionNonce := callNow in
  let* id := callId in
  let* seed := callSeed in
  let* updated := callNow in
  sret (mkImage "image" 1 versionNonce false id "solid" 1 "solid" 0 100 0
                0 0 "transparent" "transparent" width height seed []
                None null null updated null true "saved" fileId (1, 1)).

(** [convertStroke]: [None] is the [null] result.  The four spread calls
    return their minimum or maximum here; [Engine.convertStroke] below
    makes them under the bound of an engine. *)
Definition convertStroke (this : ExcalidrawConverter)
    (stroke : Stroke) (layerIndex : Z)
    : Svc (option ExcalidrawFreedrawElement) :=
  if Z.of_nat (length (points stroke)) =? 0 then sret None
  else
    let penChar := getPenCharacteristics (pen stroke) in
    let strokeColor := getHexColor (color stroke) in
    let strokeWidth :=
      calculateStrokeWidth (width stroke) (baseMultiplier penChar)
                           (strokeWidthScale (options this)) in
    let rawPoints := (fun p => (p_x p, p_y p)) <$> points stroke in
    let xs := fst <$> rawPoints in
    let ys := snd <$> rawPoints in
    let minX := Math_min xs in
    let minY := Math_min ys in
    let maxX := Math_max xs in
    let maxY := Math_max ys in
    let relativePoints :=
      (fun p => (num_sub (fst p) minX, num_sub (snd p) minY)) <$> rawPoints in
    let pressures := calculatePressures stroke penChar in
    let groupIds :=
      if preserveLayers (options this) then
        match layerGroupIds this !! layerIndex with
        | Some groupId => if String.eqb groupId EmptyString then [] else [groupId]
        | None => []
        end
      else [] in
    let* versionNonce := callNow in
    let* id := callId in
    let* seed := callSeed in
    let* updated := callNow in
    sret (Some (mkFreedraw "freedraw" 1 versionNonce false id "solid"
                  strokeWidth (strokeStyle penChar) (roughness penChar)
                  (opacity penChar) 0 minX minY strokeColor "transparent"
                  (num_sub maxX minX) (num_sub maxY minY) seed groupIds
                  None null null updated null false relativePoints pressures
                  (simulatePressure penChar) None)).

(** [document.layers.forEach((_, index) => this.layerGroupIds.set(index,
    generateId()))], from layer index [index]. *)
Fixpoint assignGroupIds (layers : list (list Stroke)) (index : Z)
    (ids : gmap Z string) : Svc (gmap Z string) :=
  match layers with
  | [] => sret ids
  | _ :: rest =>
      let* id := callId in
      assignGroupIds rest (index + 1) (<[index := id]> ids)
  end.

(** [layer.forEach(stroke => ...)]: the elements pushed for one layer. *)
Fixpoint convertLayer (this : ExcalidrawConverter) (layer : list Stroke)
    (layerIndex : Z) (elements : list ExcalidrawElement)
    : Svc (list ExcalidrawElement) :=
  match layer with
  | [] => sret elements
  | stroke :: rest =>
      if negb (includeEraser (options this)) && isEraserStroke stroke then
        convertLayer this rest layerIndex elements
      else
        let* element := convertStroke this stroke layerIndex in
        match element with
        | Some e => convertLayer this rest layerIndex (elements ++ [Freedraw e])
        | None => convertLayer this rest layerIndex elements
        end
  end.

(** [document.layers.forEach((layer, layerIndex) => ...)] *)
Fixpoint convertLayers (this : ExcalidrawConverter)
    (layers : list (list Stroke)) (layerIndex : Z)
    (elements : list ExcalidrawElement) : Svc (list ExcalidrawElement) :=
  match layers with
  | [] => sret elements
  | layer :: rest =>
      let* elements' := convertLayer this layer layerIndex elements in
      convertLayers this rest (layerIndex + 1) elements'
  end.

(** [convert]: the output document and the converter after the call (its
    [layerGroupIds] table is updated in place). *)
Definition convert (this : ExcalidrawConverter) (document : ParsedDocument)
    : Svc (ExcalidrawDocument * ExcalidrawConverter) :=
  let* start :=
    match backgroundImage this with
    | Some bg =>
        let* fileId := callId in
        let* imageElement :=
          createBackgroundImageElement fileId (bg_width bg) (bg_height bg) in
        let* created := callNow in
        sret ([Image imageElement],
              <[fileId := mkFile "image/png" fileId (bg_dataUrl bg) created]>
                (∅ : gmap string ExcalidrawFile))
    | None => sret ([], ∅)
    end in
  let* ids :=
    if preserveLayers (options this)
    then assignGroupIds (layers document) 0 (layerGroupIds this)
    else sret (layerGroupIds this) in
  let this' := mkConverter (options this) ids (backgroundImage this) in
  let* elements := convertLayers this' (layers document) 0 (fst start) in
  sret (mkDocument "excalidraw" 2 "obsidian-remarkable-import" elements
                   (mkAppState "#ffffff" 1) (snd start),
        this').

End Converter.

(* ===================================================================== *)
(** ** Calls with spread arguments                                        *)
(* ===================================================================== *)

(** [Math.min(...xs)] passes one argument per element of [xs].  The language
    sets no bound on the number of arguments of a call, and [Math_min] and
    [Math_max] are what such a call returns when it returns: that is the
    converter of the section above.  An engine accepts only so many
    arguments and throws a [RangeError] on a call with more (V8, the engine
    the plugin runs on, from about 125000 arguments with its default stack).
    In this module the bound is the parameter [maxArguments] and the four
    spread calls of [convertStroke] are made under it; nothing in
    [convertStroke], in the two [forEach] loops or in [convert] catches the
    exception, so it leaves [convert]. *)

(** What V8 throws on a call with too many arguments. *)
Definition StackSizeError : JsError :=
  mkJsError "Maximum call stack size exceeded"
            "RangeError: Maximum call stack size exceeded".

Module Engine.
Section Bounded.

(** The number of arguments the engine accepts in one call. *)
Variable maxArguments : Z.

Variables G C : Type.
Variable generateId : G -> string * G.
Variable generateSeed : G -> Z * G.
Variable Date_now : C -> Z * C.

(** A computation that calls the services and returns or throws. *)
Definition SvcE (A : Type) : Type := G * C -> (A + JsError) * (G * C).

Definition eret {A} (a : A) : SvcE A := fun w => (inl a, w).

Definition throw {A} (e : JsError) : SvcE A := fun w => (inr e, w).

Definition ebind {A B} (m : SvcE A) (k : A -> SvcE B) : SvcE B :=
  fun w =>
    match m w with
    | (inl a, w') => k a w'
    | (inr e, w') => (inr e, w')
    end.

(** A computation of the section above, which always returns. *)
Definition lift {A} (m : Svc G C A) : SvcE A :=
  fun w => let '(a, w') := m w in (inl a, w').

(** [f(...args)] *)
Definition spread {A} (f : list number -> A) (args : list number) : SvcE A :=
  if maxArguments <? Z.of_nat (length args) then throw StackSizeError
  else eret (f args).

Notation "'let*' x := m 'in' k" := (ebind m (fun x => k))
  (at level 10, x name, m at level 100, k at level 200,
   format "'[v' 'let*'  x  :=  m  'in' '/' k ']'").

(** [convertStroke]: [None] is the [null] result. *)
Definition convertStroke (this : ExcalidrawConverter)
    (stroke : Stroke) (layerIndex : Z)
    : SvcE (option ExcalidrawFreedrawElement) :=
  if Z.of_nat (length (points stroke)) =? 0 then eret None
  else
    let penChar := getPenCharacteristics (pen stroke) in
    let strokeColor := getHexColor (color stroke) in
    let strokeWidth :=
      calculateStrokeWidth (width stroke) (baseMultiplier penChar)
                           (strokeWidthScale (options this)) in
    let rawPoints := (fun p => (p_x p, p_y p)) <$> points stroke in
    let xs := fst <$> rawPoints in
    let ys := snd <$> rawPoints in
    let* minX := spread Math_min xs in
    let* minY := spread Math_min ys in
    let* maxX := spread Math_max xs in
    let* maxY := spread Math_max ys in
    let relativePoints :=
      (fun p => (num_sub (fst p) minX, num_sub (snd p) minY)) <$> rawPoints in
    let pressures := calculatePressures stroke penChar in
    let groupIds :=
      if preserveLayers (options this) then
        match layerGroupIds this !! layerIndex with
        | Some groupId => if String.eqb groupId EmptyString then [] else [groupId]
        | None => []
        end
      else [] in
    let* versionNonce := lift (callNow G C Date_now) in
    let* id := lift (callId G C generateId) in
    let* seed := lift (callSeed G C generateSeed) in
    let* updated := lift (callNow G C Date_now) in
    eret (Some (mkFreedraw "freedraw" 1 versionNonce false id "solid"
                  strokeWidth (strokeStyle penChar) (roughness penChar)
                  (opacity penChar) 0 minX minY strokeColor "transparent"
                  (num_sub maxX minX) (num_sub maxY minY) seed groupIds
                  None null null updated null false relativePoints pressures
                  (simulatePressure penChar) None)).

(** [layer.forEach(stroke => ...)] *)
Fixpoint convertLayer (this : ExcalidrawConverter) (layer : list Stroke)
    (layerIndex : Z) (elements : list ExcalidrawElement)
    : SvcE (list ExcalidrawElement) :=
  match layer with
  | [] => eret elements
  | stroke :: rest =>
      if negb (includeEraser (options this)) && isEraserStroke stroke then
        convertLayer this rest layerIndex elements
      else
        let* element := convertStroke this stroke layerIndex in
        match element with
        | Some e => convertLayer this rest layerIndex (elements ++ [Freedraw e])
        | None => convertLayer this rest layerIndex elements
        end
  end.

(** [document.layers.forEach((layer, layerIndex) => ...)] *)
Fixpoint convertLayers (this : ExcalidrawConverter)
    (layers : list (list Stroke)) (layerIndex : Z)
    (elements : list ExcalidrawElement) : SvcE (list ExcalidrawElement) :=
  match layers with
  | [] => eret elements
  | layer :: rest =>
      let* elements' := convertLayer this layer layerIndex elements in
      convertLayers this rest (layerIndex + 1) elements'
  end.

(** [convert]: the output document or the exception, and the converter
    after the call (its [layerGroupIds] table is updated in place before
    the layers are processed, so also when the call throws). *)
Definition convert (this : ExcalidrawConverter) (document : ParsedDocument)
    : G * C -> (ExcalidrawDocument + JsError) * ExcalidrawConverter * (G * C) :=
  fun w =>
    let '(start, w1) :=
      match backgroundImage this with
      | Some bg =>
          sbind G C (callId G C generateId) (fun fileId =>
          sbind G C (createBackgroundImageElement G C generateId generateSeed
                       Date_now fileId (bg_width bg) (bg_height bg))
                    (fun imageElement =>
          sbind G C (callNow G C Date_now) (fun created =>
          sret G C
            ([Image imageElement],
             <[fileId := mkFile "image/png" fileId (bg_dataUrl bg) created]>
               (∅ : gmap string ExcalidrawFile))))) w
      | None => sret G C ([], ∅) w
      end in
    let '(ids, w2) :=
      if preserveLayers (options this)
      then assignGroupIds G C generateId (layers document) 0
                          (layerGroupIds this) w1
      else sret G C (layerGroupIds this) w1 in
    let this' := mkConverter (options this) ids (backgroundImage this) in
    match convertLayers this' (layers document) 0 (fst start) w2 with
    | (inl elements, w3) =>
        (inl (mkDocument "excalidraw" 2 "obsidian-remarkable-import" elements
                         (mkAppState "#ffffff" 1) (snd start)),
         this', w3)
    | (inr e, w3) => (inr e, this', w3)
    end.

End Bounded.
End Engine.

(* ===================================================================== *)
(** ** The file layouts, as the specification describes them              *)
(* ===================================================================== *)

Section Layout.

Variable buffer : list Byte.byte.
Variable version : RMVersion.

Definition uint32At (c : Z) : Z := leUnsigned buffer 4 c.

Definition int32At (c : Z) : Z :=
  let u := leUnsigned buffer 4 c in if u <? 2 ^ 31 then u else u - 2 ^ 32.

Definition float32At (c : Z) : number := decodeFloat32 (leUnsigned buffer 4 c).

(** Revision 3/5 point record: six packed 32-bit floats, in the order
    x, y, speed, direction, width, pressure. *)
Definition v5PointAt (c : Z) : Point :=
  mkPoint (float32At c) (float32At (c + 4))
          (float32At (c + 20)) (float32At (c + 16))
          (float32At (c + 8)) (float32At (c + 12)).

Fixpoint v5PointsAt (n : nat) (c : Z) : list Point :=
  match n with
  | O => []
  | S n' => v5PointAt c :: v5PointsAt n' (c + 24)
  end.

(** Stroke header: pen, colour, a reserved word, the base width, for
    revision 5 one more reserved word, and the point count. *)
Definition strokeHeaderSize : Z := match version with V3 => 20 | _ => 24 end.

Definition pointCountAt (c : Z) : Z := int32At (c + strokeHeaderSize - 4).

Definition strokeAt (layerIndex c : Z) : Stroke :=
  mkStroke (int32At c) (int32At (c + 4)) (float32At (c + 12))
           (v5PointsAt (Z.to_nat (pointCountAt c)) (c + strokeHeaderSize))
           layerIndex.

Definition strokeEnd (c : Z) : Z := c + strokeHeaderSize + 24 * pointCountAt c.

(** A stroke record that passes every check of the decoder. *)
Definition strokeFits (c : Z) : Prop :=
  c + strokeHeaderSize <= byteLength buffer /\
  0 <= pointCountAt c <= 100000 /\
  strokeEnd c <= byteLength buffer.

(** Why the stroke record at [c] is refused, and with which message. *)
Definition strokeRefused (c : Z) (error : string) : Prop :=
  (byteLength buffer < c + strokeHeaderSize /\
   error = "Cannot read stroke header") \/
  (c + strokeHeaderSize <= byteLength buffer /\
   (pointCountAt c < 0 \/ 100000 < pointCountAt c) /\
   error = "Invalid point count: " +:+ pretty (pointCountAt c)) \/
  (c + strokeHeaderSize <= byteLength buffer /\
   0 <= pointCountAt c <= 100000 /\
   byteLength buffer < strokeEnd c /\
   error = "Not enough bytes for " +:+ pretty (pointCountAt c) +:+ " points").

(** [strokes] are the consecutive well-formed stroke records from [c],
    ending at [e]. *)
Fixpoint strokesAt (layerIndex : Z) (c : Z) (strokes : list Stroke) (e : Z) : Prop :=
  match strokes with
  | [] => e = c
  | s :: rest =>
      strokeFits c /\ s = strokeAt layerIndex c /\
      strokesAt layerIndex (strokeEnd c) rest e
  end.

(** A layer: a stroke count within 0..100000, then that many strokes. *)
Definition layerAt (layerIndex c : Z) (strokes : list Stroke) (e : Z) : Prop :=
  c + 4 <= byteLength buffer /\
  0 <= int32At c <= 100000 /\
  int32At c = Z.of_nat (length strokes) /\
  strokesAt layerIndex (c + 4) strokes e.

(** Why the layer at [c] is refused: its count, or its stroke number [i]
    after [i] well-formed strokes. *)
Definition layerRefused (layerIndex c : Z) (error : string) : Prop :=
  (byteLength buffer < c + 4 /\ error = "Cannot read stroke count") \/
  (c + 4 <= byteLength buffer /\
   (int32At c < 0 \/ 100000 < int32At c) /\
   error = "Invalid stroke count: " +:+ pretty (int32At c)) \/
  (c + 4 <= byteLength buffer /\ 0 <= int32At c <= 100000 /\
   exists (done : list Stroke) (c' : Z) (e : string),
     strokesAt layerIndex (c + 4) done c' /\
     Z.of_nat (length done) < int32At c /\
     strokeRefused c' e /\
     error = "Stroke " +:+ pretty (Z.of_nat (length done)) +:+ ": " +:+ e).

(** [layers] are the consecutive well-formed layers from [c], the first of
    them with index [layerIndex], ending at [e]. *)
Fixpoint layersAt (layerIndex : Z) (c : Z) (layers : list (list Stroke)) (e : Z)
    : Prop :=
  match layers with
  | [] => e = c
  | l :: rest =>
      exists c', layerAt layerIndex c l c' /\
                 layersAt (layerIndex + 1) c' rest e
  end.

(** The size of the header: 33 bytes for revision 3, 43 otherwise. *)
Definition layoutHeaderSize : Z := match version with V3 => 33 | _ => 43 end.

(** A well-formed revision 3/5 file holding [layers]. *)
Definition wellFormedV5 (layers : list (list Stroke)) : Prop :=
  layoutHeaderSize + 4 <= byteLength buffer /\
  0 <= int32At layoutHeaderSize <= 100 /\
  int32At layoutHeaderSize = Z.of_nat (length layers) /\
  exists e, layersAt 0 (layoutHeaderSize + 4) layers e /\ e <= byteLength buffer.

(** The structural errors of a revision 3/5 file: the layer count, or the
    layer number [length done] after that many well-formed layers. *)
Definition structuralError (err : ParseError) : Prop :=
  details err = None /\
  ((byteLength buffer < layoutHeaderSize + 4 /\
    message err = "Unexpected end of file: cannot read layer count" /\
    offset err = Some layoutHeaderSize) \/
   (layoutHeaderSize + 4 <= byteLength buffer /\
    (int32At layoutHeaderSize < 0 \/ 100 < int32At layoutHeaderSize) /\
    message err = "Invalid layer count: " +:+ pretty (int32At layoutHeaderSize)
                  +:+ ". Expected 0-100." /\
    offset err = Some layoutHeaderSize) \/
   (layoutHeaderSize + 4 <= byteLength buffer /\
    0 <= int32At layoutHeaderSize <= 100 /\
    exists (done : list (list Stroke)) (c : Z) (e : string),
      layersAt 0 (layoutHeaderSize + 4) done c /\
      Z.of_nat (length done) < int32At layoutHeaderSize /\
      layerRefused (Z.of_nat (length done)) c e /\
      message err = "Failed to parse layer " +:+ pretty (Z.of_nat (length done))
                    +:+ ": " +:+ e)).

End Layout.

Section LayoutV6.

Variable buffer : list Byte.byte.

(** The extent of a varuint: the bytes up to and including the first one
    whose continuation bit is clear, or all of them when there is none. *)
Fixpoint varuintSize (bytes : list Byte.byte) : Z :=
  match bytes with
  | [] => 0
  | b :: rest =>
      if Z.land (Z.of_N (Byte.to_N b)) 0x80 =? 0 then 1
      else 1 + varuintSize rest
  end.

(** The extent of the varuint that starts at offset [c]. *)
Definition varuintSizeAt (c : Z) : Z := varuintSize (drop (Z.to_nat c) buffer).

(** The number a varuint writes, whatever its size: seven bits per byte, the
    low group first, up to and including the first byte whose continuation
    bit is clear. *)
Fixpoint varuintValue (bytes : list Byte.byte) : Z :=
  match bytes with
  | [] => 0
  | b :: rest =>
      let n := Z.of_N (Byte.to_N b) in
      if Z.land n 0x80 =? 0 then n
      else n mod 128 + 128 * varuintValue rest
  end.

(** The number written by the varuint that starts at offset [c]. *)
Definition varuintValueAt (c : Z) : Z := varuintValue (drop (Z.to_nat c) buffer).

Definition uint16At (c : Z) : Z := leUnsigned buffer 2 c.

(** Revision 6 point record of 14 bytes: x and y as 32-bit floats, speed and
    width as 16-bit integers over 65535, direction as a byte over 255 times
    360 degrees, pressure as a byte over 255. *)
Definition v6PointAt (c : Z) : Point :=
  mkPoint (float32At buffer c) (float32At buffer (c + 4))
          (num_div (num_of_Z (byteAt buffer (c + 13))) (num_of_Z 255))
          (num_div (num_of_Z (uint16At (c + 10))) (num_of_Z 65535))
          (num_div (num_of_Z (uint16At (c + 8))) (num_of_Z 65535))
          (num_mul (num_div (num_of_Z (byteAt buffer (c + 12))) (num_of_Z 255))
                   (num_of_Z 360)).

(** The block scan of [parseV6] from cursor [c], with [strokes] collected
    so far. *)
Definition scanV6 (strokes : list Stroke) (c : Z) : Res (list Stroke) :=
  parseV6Blocks buffer (S (Z.to_nat (byteLength buffer - c))) strokes c.

(** The [(length, flag)] pair at [c] fails the acceptance check. *)
Definition rejectedAt (c : Z) : Prop :=
  invalidBlock buffer (uint32At buffer c) (c + 8) = true.

End LayoutV6.

(* ===================================================================== *)
(** ** Stand-ins for the services, and the time-based fields              *)
(* ===================================================================== *)

(** A counter as generator state: the [n]-th identifier and seed. *)
Definition stubId (n : nat) : string * nat := ("id-" +:+ pretty (Z.of_nat n), S n).
Definition stubSeed (n : nat) : Z * nat := (Z.of_nat n, S n).

(** A clock that advances by one at each reading. *)
Definition stubNow (t : Z) : Z * Z := (t, t + 1).

(** The fields filled from [Date.now()], put to zero. *)
Definition eraseTimeElement (e : ExcalidrawElement) : ExcalidrawElement :=
  match e with
  | Freedraw f =>
      Freedraw (mkFreedraw (fd_type f) (fd_version f) 0 (fd_isDeleted f) (fd_id f)
        (fd_fillStyle f) (fd_strokeWidth f) (fd_strokeStyle f) (fd_roughness f)
        (fd_opacity f) (fd_angle f) (fd_x f) (fd_y f) (fd_strokeColor f)
        (fd_backgroundColor f) (fd_width f) (fd_height f) (fd_seed f)
        (fd_groupIds f) (fd_frameId f) (fd_roundness f) (fd_boundElements f) 0
        (fd_link f) (fd_locked f) (fd_points f) (fd_pressures f)
        (fd_simulatePressure f) (fd_lastCommittedPoint f))
  | Image i =>
      Image (mkImage (im_type i) (im_version i) 0 (im_isDeleted i) (im_id i)
        (im_fillStyle i) (im_strokeWidth i) (im_strokeStyle i) (im_roughness i)
        (im_opacity i) (im_angle i) (im_x i) (im_y i) (im_strokeColor i)
        (im_backgroundColor i) (im_width i) (im_height i) (im_seed i)
        (im_groupIds i) (im_frameId i) (im_roundness i) (im_boundElements i) 0
        (im_link i) (im_locked i) (im_status i) (im_fileId i) (im_scale i))
  end.

Definition eraseTimeFile (f : ExcalidrawFile) : ExcalidrawFile :=
  mkFile (file_mimeType f) (file_id f) (file_dataURL f) 0.

Definition eraseTime (d : ExcalidrawDocument) : ExcalidrawDocument :=
  mkDocument (out_type d) (out_version d) (out_source d)
             (eraseTimeElement <$> elements d) (appState d)
             (eraseTimeFile <$> files d).

(** The freehand elements of an element list, in order. *)
Definition freehandElements (l : list ExcalidrawElement)
    : list ExcalidrawFreedrawElement :=
  omap (fun e => match e with Freedraw f => Some f | Image _ => None end) l.

Definition imageElements (l : list ExcalidrawElement)
    : list ExcalidrawImageElement :=
  omap (fun e => match e with Image i => Some i | Freedraw _ => None end) l.

(** A stroke for which [convert] emits an element: it has a point, and it is
    not an eraser stroke unless [includeEraser] is set. *)
Definition emitted (o : ConversionOptions) (s : Stroke) : bool :=
  negb (Nat.eqb (length (points s)) 0) &&
  (includeEraser o || negb (isEraserStroke s)).

(* ===================================================================== *)
(** ** Partial correctness of reader computations                         *)
(* ===================================================================== *)

(** [m], run from cursor [c], does not diverge, and when it returns, its
    value and cursor satisfy [post]; it may throw. *)
Definition safe {A} (m : M A) (c : Z) (post : A -> Z -> Prop) : Prop :=
  match m c with
  | Ret a c' => post a c'
  | Throw _ _ => True
  | Diverge => False
  end.

(** [p] is the decoding of a 14-byte record lying inside the buffer. *)
Definition fromV6Record (buffer : list Byte.byte) (p : Point) : Prop :=
  exists o, 0 <= o /\ o + 14 <= byteLength buffer /\ p = v6PointAt buffer o.

(** What [parseV6] pushes for the result of [parseV6Stroke]: the stroke when
    it has a point. *)
Definition pushed (r : StrokeResult) : list Stroke :=
  match r with
  | StrokeOk s => if Z.of_nat (length (points s)) >? 0 then [s] else []
  | StrokeErr _ => []
  end.

(** A stroke the block scan collects: it comes from layer 0, has a point, and
    each of its points is a decoded 14-byte record. *)
Definition collectedV6 (buffer : list Byte.byte) (s : Stroke) : Prop :=
  points s <> [] /\ layerIndex s = 0 /\ Forall (fromV6Record buffer) (points s).

(** The prefix every revision's header shares. *)
Definition HEADER_MAGIC : string := "reMarkable .lines file, version=".

(** The header text [validateHeader] inspects, and its three outcomes. *)
Definition headerTextOf (decode : list Byte.byte -> list Z)
    (buffer : list Byte.byte) : list Z :=
  decode (take (Z.to_nat (Z.min 43 (byteLength buffer))) buffer).

Definition recognized (text : list Z) : bool :=
  startsWith text HEADER_V6 || startsWith text HEADER_V5 || startsWith text HEADER_V3.

Definition unsupportedVersionError (n : Z) : ParseError :=
  mkParseError ("Unsupported version: " +:+ pretty n +:+ ". Supported versions: 3, 5, 6")
               (Some 0) None.

Definition invalidFormatError : ParseError :=
  mkParseError "Invalid file format: missing reMarkable header magic string"
               (Some 0) None.

Definition fileTooSmallError (size : Z) : ParseError :=
  mkParseError ("File too small: " +:+ pretty size +:+ " bytes, minimum 33 required")
               (Some 0) None.

(** [rest] does not go on with a digit. *)
Definition noDigitAhead (rest : list Z) : Prop :=
  match rest with
  | [] => True
  | c :: _ => isDigit c = false
  end.

Section ConverterSpec.

Variables G C : Type.
Variable generateId : G -> string * G.
Variable generateSeed : G -> Z * G.
Variable Date_now : C -> Z * C.

(** [e] is the element [convertStroke] builds for [s], at some layer index
    and some state of the services. *)
Definition convertedFrom (this : ExcalidrawConverter)
    (e : ExcalidrawFreedrawElement) (s : Stroke) : Prop :=
  exists layerIndex w w',
    convertStroke G C generateId generateSeed Date_now this s layerIndex w
      = (Some e, w').

(** The converter as [convert] leaves it: same options and background, the
    group identifiers as assigned. *)
Definition converterAfter (this : ExcalidrawConverter)
    (document : ParsedDocument) (w : G * C) : ExcalidrawConverter :=
  snd (fst (convert G C generateId generateSeed Date_now this document w)).

Definition convertOutput (this : ExcalidrawConverter)
    (document : ParsedDocument) (w : G * C) : ExcalidrawDocument :=
  fst (fst (convert G C generateId generateSeed Date_now this document w)).

End ConverterSpec.

Section TimeBlind.

Variables G C : Type.

(** Two computations that, started from the same generator state and any
    two clock states, end in the same generator state with results related
    by [R]. *)
Definition timeBlind {A} (R : A -> A -> Prop) (m1 m2 : Svc G C A) : Prop :=
  forall g c1 c2,
    R (fst (m1 (g, c1))) (fst (m2 (g, c2))) /\
    fst (snd (m1 (g, c1))) = fst (snd (m2 (g, c2))).

(** Element lists that differ in time-based fields only. *)
Definition sameButTime (l1 l2 : list ExcalidrawElement) : Prop :=
  eraseTimeElement <$> l1 = eraseTimeElement <$> l2.

End TimeBlind.

(* ===================================================================== *)
(** ** Sample files                                                       *)
(* ===================================================================== *)

(** A 43-byte header: the magic of revision [digit], padded with spaces. *)
Definition paddedHeader (digit : string) : list Byte.byte :=
  bytesOfString (HEADER_MAGIC +:+ digit +:+ "          ").

(** A revision 3/5 point record with the given x and y words. *)
Definition v5PointBytes (x y : Z) : list Z :=
  le32 x ++ le32 y ++ le32 0 ++ le32 0 ++ le32 0x3f000000 ++ le32 0x3f800000.

(** The end-to-end scenario of the specification: revision 5, one layer, one
    fineliner stroke in black of width 2.0 through (0,0), (10,0), (10,10). *)
Definition sampleV5 : list Byte.byte :=
  paddedHeader "5" ++
  bytesOf (le32 1 ++ le32 1 ++
           le32 PenType.FINELINER ++ le32 RMColor.BLACK ++ le32 0 ++
           le32 0x40000000 ++ le32 0 ++ le32 3 ++
           v5PointBytes 0 0 ++ v5PointBytes 0x41200000 0 ++
           v5PointBytes 0x41200000 0x41200000).

(** The same file with the x coordinate of its first point replaced by the
    quiet NaN [0x7fc00000]. *)
Definition sampleV5_NaN : list Byte.byte :=
  paddedHeader "5" ++
  bytesOf (le32 1 ++ le32 1 ++
           le32 PenType.FINELINER ++ le32 RMColor.BLACK ++ le32 0 ++
           le32 0x40000000 ++ le32 0 ++ le32 3 ++
           v5PointBytes 0x7fc00000 0 ++ v5PointBytes 0x41200000 0 ++
           v5PointBytes 0x41200000 0x41200000).

(** The same file with the base width of its stroke replaced by the quiet
    NaN [0x7fc00000]. *)
Definition sampleV5_NaNwidth : list Byte.byte :=
  paddedHeader "5" ++
  bytesOf (le32 1 ++ le32 1 ++
           le32 PenType.FINELINER ++ le32 RMColor.BLACK ++ le32 0 ++
           le32 0x7fc00000 ++ le32 0 ++ le32 3 ++
           v5PointBytes 0 0 ++ v5PointBytes 0x41200000 0 ++
           v5PointBytes 0x41200000 0x41200000).

(** A revision-5 header followed by the layer count 101. *)
Definition sampleV5_layers101 : list Byte.byte :=
  paddedHeader "5" ++ bytesOf (le32 101).

(** A header that reads [version=9]. *)
Definition sampleV9 : list Byte.byte := paddedHeader "9".

(** A file whose header reads [version=30]: the byte after the revision-3
    prefix is the digit 0 (the value 48), which is also the low byte of the
    layer count; 48 empty layers follow. *)
Definition sampleV30 : list Byte.byte :=
  bytesOfString (HEADER_MAGIC +:+ "30") ++ bytesOf (replicate 195 0).

(** A revision 6 line-definition block: the pen, and one point. *)
Definition v6StrokeBlock (pen x y : Z) : list Z :=
  le32 24 ++ le32 V6BlockType.LINE_DEF ++
  [0x14] ++ le32 pen ++ [0x5C] ++ le32 14 ++
  le32 x ++ le32 y ++ [0xFF; 0xFF] ++ [0xFF; 0xFF] ++ [255] ++ [255].

(** A block of another type with a four-byte payload. *)
Definition v6OtherBlock (length : Z) (payload : list Z) : list Z :=
  le32 length ++ le32 V6BlockType.LAYER_DEF ++ payload.

(** Three blocks: a stroke, a layer definition, a stroke. *)
Definition intactV6 : list Byte.byte :=
  paddedHeader "6" ++
  bytesOf (v6StrokeBlock 2 0x41200000 0 ++ v6OtherBlock 4 [0; 0; 0; 0] ++
           v6StrokeBlock 3 0 0x41200000).

(** The same file with the length field of its second block (offsets 75 to
    78) put to zero. *)
Definition corruptedV6 : list Byte.byte :=
  take 75 intactV6 ++ bytesOf [0; 0; 0; 0] ++ drop 79 intactV6.

(** A file whose second block has a zero length field and a payload that no
    offset of the rescan accepts. *)
Definition recoverableV6 : list Byte.byte :=
  paddedHeader "6" ++
  bytesOf (v6StrokeBlock 2 0x41200000 0 ++
           v6OtherBlock 0 [0xFF; 0xFF; 0xFF; 0xFF] ++
           v6StrokeBlock 3 0 0x41200000).



(** One 14-byte point record of revision 6. *)
Definition v6RecordBytes : list Z :=
  le32 0x41200000 ++ le32 0 ++ [0xFF; 0xFF] ++ [0xFF; 0xFF] ++ [255] ++ [255].

(** A revision-6 file with one line-definition block whose points sub-block
    holds [n] records. *)
Definition longStrokeV6 (n : nat) : list Byte.byte :=
  paddedHeader "6" ++
  bytesOf (le32 (5 + 14 * Z.of_nat n) ++ le32 V6BlockType.LINE_DEF ++
           [0x5C] ++ le32 (14 * Z.of_nat n)) ++
  concat (replicate n (bytesOf v6RecordBytes)).

(** A stroke through (0,0), (10,0), (10,10), and one whose only point has a
    NaN abscissa. *)
Definition pointAt (x y : number) : Point :=
  mkPoint x y (Fin 0.5) (Fin 0.5) (Fin 0) (Fin 0).

Definition cornerStroke : Stroke :=
  mkStroke PenType.FINELINER RMColor.BLACK (Fin 2.0)
           [pointAt (Fin 0) (Fin 0); pointAt (Fin 10) (Fin 0); pointAt (Fin 10) (Fin 10)] 0.

Definition eraserStroke : Stroke :=
  mkStroke PenType.ERASER RMColor.BLACK (Fin 2.0) [pointAt (Fin 0) (Fin 0)] 0.

(** The converter with the stand-in services. *)
Definition stubConvert (this : ExcalidrawConverter) (d : ParsedDocument)
    : ExcalidrawDocument :=
  convertOutput nat Z stubId stubSeed stubNow this d (O, 0).

Definition stubConvertStroke (s : Stroke) : option ExcalidrawFreedrawElement :=
  fst (convertStroke nat Z stubId stubSeed stubNow
         (newConverter (mkPartialOptions None None None)) s 0 (O, 0)).

(* ===================================================================== *)
(** ** The varuint encoding                                               *)
(* ===================================================================== *)

(** The byte sequence [readVaruint] is written to decode: seven bits per
    byte, the low group first, the high bit set on every byte but the last.
    [groups] bounds the number of continuation bytes. *)
Fixpoint varuintBytes (groups : nat) (n : Z) : list Z :=
  match groups with
  | O => [n]
  | S groups' =>
      if n <? 128 then [n]
      else (n mod 128 + 128) :: varuintBytes groups' (n / 128)
  end.

(** Up to five bytes: enough for every value below [2 ^ 35]. *)
Definition encodeVaruint (n : Z) : list Z := varuintBytes 4 n.

(** The bytes of [buffer] from offset [c] are [l]. *)
Definition bytesAt (buffer : list Byte.byte) (c : Z) (l : list Z) : Prop :=
  c + Z.of_nat (length l) <= byteLength buffer /\
  forall (i : nat) b, l !! i = Some b -> byteAt buffer (c + Z.of_nat i) = b.

(** [n] consecutive revision-6 point records from offset [c]. *)
Fixpoint v6PointsAt (buffer : list Byte.byte) (n : nat) (c : Z) : list Point :=
  match n with
  | O => []
  | S n' => v6PointAt buffer c :: v6PointsAt buffer n' (c + V6_POINT_SIZE)
  end.

(* ===================================================================== *)
(** ** Conversion, stroke by stroke                                       *)
(* ===================================================================== *)

(** The strokes of a document in the order [convert] visits them, each with
    the index of its layer; the first layer has index [index]. *)
Fixpoint strokesWithLayer (layers : list (list Stroke)) (index : Z)
    : list (Z * Stroke) :=
  match layers with
  | [] => []
  | layer :: rest =>
      ((fun s => (index, s)) <$> layer) ++ strokesWithLayer rest (index + 1)
  end.

Section ConverterTrace.

Variables G C : Type.
Variable generateId : G -> string * G.
Variable generateSeed : G -> Z * G.
Variable Date_now : C -> Z * C.

(** The elements [es] are the results of [convertStroke] on the strokes
    [ks], called in turn: each call starts from the state of the services
    the call before left, from [w] to [w']. *)
Fixpoint convertedInTurn (this : ExcalidrawConverter) (w : G * C)
    (es : list ExcalidrawFreedrawElement) (ks : list (Z * Stroke))
    (w' : G * C) : Prop :=
  match es, ks with
  | [], [] => w' = w
  | e :: es', (layerIndex, s) :: ks' =>
      exists w1,
        convertStroke G C generateId generateSeed Date_now this s layerIndex w
          = (Some e, w1) /\
        convertedInTurn this w1 es' ks' w'
  | _, _ => False
  end.

End ConverterTrace.

(** The [id] of an element. *)
Definition elementId (e : ExcalidrawElement) : string :=
  match e with
  | Freedraw f => fd_id f
  | Image i => im_id i
  end.

(** The identifiers the stand-in generator has given out when it is in
    state [n]. *)
Definition stubIssued (n : nat) : gset string :=
  list_to_set ((fun k => "id-" +:+ pretty (Z.of_nat k)) <$> seq 0 n).

(* ===================================================================== *)
(** ** utils.ts: [generateId]                                             *)
(* ===================================================================== *)

(** The digit of [n] in base 16, for [n] from 0 to 15. *)
Definition hexDigit (n : Z) : ascii :=
  match n with
  | 0 => "0" | 1 => "1" | 2 => "2" | 3 => "3" | 4 => "4" | 5 => "5"
  | 6 => "6" | 7 => "7" | 8 => "8" | 9 => "9" | 10 => "a" | 11 => "b"
  | 12 => "c" | 13 => "d" | 14 => "e" | _ => "f"
  end%char.

(** [b.toString(16)] for an element [b] of a [Uint8Array]. *)
Definition toString16 (b : Z) : string :=
  if b <? 16 then String (hexDigit b) EmptyString
  else String (hexDigit (b / 16)) (String (hexDigit (b mod 16)) EmptyString).

(** [s.padStart(2, '0')] *)
Definition padStart2 (s : string) : string :=
  String.concat EmptyString (replicate (2 - String.length s) "0") +:+ s.

(** [Array.from(arr, b => b.toString(16).padStart(2, '0')).join('')] *)
Definition hexOfBytes (arr : list Z) : string :=
  String.concat EmptyString ((fun b => padStart2 (toString16 b)) <$> arr).

(** The [replace] that groups the first 32 characters as 8-4-4-4-12, for a
    string without line terminators (here: of hexadecimal digits); a string
    of fewer than 32 characters is left as it is. *)
Definition groupAsUuid (s : string) : string :=
  if (String.length s <? 32)%nat then s
  else substring 0 8 s +:+ "-" +:+ substring 8 4 s +:+ "-" +:+
       substring 12 4 s +:+ "-" +:+ substring 16 4 s +:+ "-" +:+
       substring 20 12 s +:+ substring 32 (String.length s - 32) s.

Section GenerateId.

(** The state of the random source and of the clock. *)
Variable R : Type.

(** Whether [crypto.randomUUID] and [crypto.getRandomValues] are there. *)
Variables hasRandomUUID hasGetRandomValues : bool.

(** [crypto.randomUUID()]; [crypto.getRandomValues] on a [Uint8Array(n)];
    [Date.now().toString(36)] and [Math.random().toString(36)]. *)
Variable crypto_randomUUID : R -> string * R.
Variable crypto_getRandomValues : nat -> R -> list Z * R.
Variable Date_now_base36 : R -> string * R.
Variable Math_random_base36 : R -> string * R.

Definition generateId (r : R) : string * R :=
  if hasRandomUUID then crypto_randomUUID r
  else if hasGetRandomValues then
    let '(arr, r') := crypto_getRandomValues 16 r in
    (groupAsUuid (hexOfBytes arr), r')
  else
    let '(now, r1) := Date_now_base36 r in
    let '(random, r2) := Math_random_base36 r1 in
    (now +:+ "-" +:+ substring 2 9 random, r2).

End GenerateId.

(** The elements of a [Uint8Array(16)]. *)
Definition sixteenBytes (arr : list Z) : Prop :=
  length arr = 16%nat /\ Forall (fun b => 0 <= b < 256) arr.

(** A digit, or a letter from a to f in lower case. *)
Definition isHexDigit (c : ascii) : bool :=
  let n := Z.of_nat (nat_of_ascii c) in
  ((48 <=? n) && (n <=? 57)) || ((97 <=? n) && (n <=? 102)).

(** [s] with each of its hexadecimal digits replaced by the letter x. *)
Fixpoint hexMask (s : string) : string :=
  match s with
  | EmptyString => EmptyString
  | String c rest => String (if isHexDigit c then "x"%char else c) (hexMask rest)
  end.

(* ===================================================================== *)
(** ** utils.ts: [getUniqueFileName]                                      *)
(* ===================================================================== *)

Section UniqueFileName.

(** [vault.adapter.exists], for the state of the vault during the call. *)
Variable adapter_exists : string -> bool.

(** The template [basePath (counter).extension]. *)
Definition numberedPath (basePath extension : string) (counter : Z) : string :=
  basePath +:+ " (" +:+ pretty counter +:+ ")." +:+ extension.

(** The [do ... while] loop, entered with [counter]; [fuel] bounds its
    iterations. *)
Fixpoint uniqueFileName_loop (fuel : nat) (basePath extension : string)
    (counter : Z) : option string :=
  match fuel with
  | O => None
  | S fuel' =>
      let newPath := numberedPath basePath extension counter in
      let counter := counter + 1 in
      if adapter_exists newPath && (counter <? 1000)
      then uniqueFileName_loop fuel' basePath extension counter
      else Some newPath
  end.

(** [getUniqueFileName]: [None] stands for a call that would not return. *)
Definition getUniqueFileName (basePath extension : string) : option string :=
  let fullPath := basePath +:+ "." +:+ extension in
  if negb (adapter_exists fullPath) then Some fullPath
  else uniqueFileName_loop 1000 basePath extension 1.

End UniqueFileName.

(* ===================================================================== *)
(** ** sync.ts                                                            *)
(* ===================================================================== *)

(** *** [sanitizeName]

    Names are sequences of UTF-16 code units. *)

(** The class of the first [replace]: backslash, slash, colon, asterisk,
    question mark, double quote, the two angle brackets and the bar. *)
Definition isForbidden (c : Z) : bool :=
  (c =? 92) || (c =? 47) || (c =? 58) || (c =? 42) || (c =? 63) ||
  (c =? 34) || (c =? 60) || (c =? 62) || (c =? 124).

(** The class [\s], which is also what [trim] removes: white space and line
    terminators. *)
Definition isWhiteSpace (c : Z) : bool :=
  ((9 <=? c) && (c <=? 13)) || (c =? 32) || (c =? 0xA0) || (c =? 0x1680) ||
  ((0x2000 <=? c) && (c <=? 0x200A)) || (c =? 0x2028) || (c =? 0x2029) ||
  (c =? 0x202F) || (c =? 0x205F) || (c =? 0x3000) || (c =? 0xFEFF).

(** The first [replace]: every character of the class becomes a hyphen. *)
Definition replaceForbidden (name : list Z) : list Z :=
  (fun c => if isForbidden c then 45 else c) <$> name.

(** The second [replace]: every maximal run of white space becomes one
    space; [inRun] tells that the character before belongs to a run. *)
Fixpoint collapseWhiteSpace (inRun : bool) (name : list Z) : list Z :=
  match name with
  | [] => []
  | c :: rest =>
      if isWhiteSpace c then
        if inRun then collapseWhiteSpace true rest
        else 32 :: collapseWhiteSpace true rest
      else c :: collapseWhiteSpace false rest
  end.

(** [trim] *)
Fixpoint trimStart (name : list Z) : list Z :=
  match name with
  | [] => []
  | c :: rest => if isWhiteSpace c then trimStart rest else name
  end.

Definition trimEnd (name : list Z) : list Z := rev (trimStart (rev name)).

Definition trim (name : list Z) : list Z := trimEnd (trimStart name).

Definition sanitizeName (name : list Z) : list Z :=
  trim (collapseWhiteSpace false (replaceForbidden name)).

(** A name that needs no sanitizing: no character of the forbidden class, no
    white space other than the space, no two spaces in a row, and no white
    space at either end. *)
Definition cleanName (name : list Z) : Prop :=
  Forall (fun c => isForbidden c = false) name /\
  Forall (fun c => isWhiteSpace c = true -> c = 32) name /\
  (forall before after, name <> before ++ [32; 32] ++ after) /\
  (forall c rest, name = c :: rest -> isWhiteSpace c = false) /\
  (forall c before, name = before ++ [c] -> isWhiteSpace c = false).

(** *** The documents and the result of a sync *)

Record RemarkablePage : Type := mkRemarkablePage {
  page_id : string;
  rmPath : string
}.

Record RemarkableDocument : Type := mkRemarkableDocument {
  uuid : string;
  visibleName : string;
  doc_type : string;
  parent : string;
  lastModified : Z;
  isPdf : bool;
  pdfPath : option string;
  pages : list RemarkablePage
}.

Record SyncResult : Type := mkSyncResult {
  imported : Z;
  updated : Z;
  skipped : Z;
  errors : list string
}.

(** The result of [syncDocument]: ['new'], ['updated'] or ['skipped']. *)
Inductive SyncOutcome : Type := OutcomeNew | OutcomeUpdated | OutcomeSkipped.

(** *** settings.ts: the settings and the sync interval *)

Module Settings.

Inductive SyncIntervalUnit : Type := minutes | hours.

Record RemarkableSyncSettings : Type := mkSettings {
  remarkablePath : string;
  syncFolder : string;
  autoSync : bool;
  syncInterval : number;
  syncIntervalUnit : SyncIntervalUnit;
  syncNotebooks : bool;
  syncPDFAnnotations : bool;
  preserveLayers : bool;
  includeEraser : bool;
  strokeWidthScale : number;
  lastSyncTime : number
}.

Definition DEFAULT_SETTINGS : RemarkableSyncSettings :=
  mkSettings EmptyString "ReMarkSync" false (Fin 30) minutes true true
             true false (Fin 0.5) (Fin 0).

Definition getSyncIntervalMs (settings : RemarkableSyncSettings) : number :=
  let multiplier :=
    match syncIntervalUnit settings with
    | hours => num_of_Z (60 * 60 * 1000)
    | minutes => num_of_Z (60 * 1000)
    end in
  num_mul (syncInterval settings) multiplier.

End Settings.

(** The two [filter] steps of [runSync]. *)
Definition filterDocuments (settings : Settings.RemarkableSyncSettings)
    (documents : list RemarkableDocument) : list RemarkableDocument :=
  let filteredDocs := documents in
  let filteredDocs :=
    if negb (Settings.syncNotebooks settings)
    then List.filter (fun d => isPdf d) filteredDocs else filteredDocs in
  let filteredDocs :=
    if negb (Settings.syncPDFAnnotations settings)
    then List.filter (fun d => negb (isPdf d)) filteredDocs else filteredDocs in
  filteredDocs.

(** *** [ensureFolderExists] *)

(** [s.split(sep)] for a separator of one character. *)
Fixpoint splitOn (sep : ascii) (s : string) : list string :=
  match s with
  | EmptyString => [EmptyString]
  | String c rest =>
      if Ascii.eqb c sep then EmptyString :: splitOn sep rest
      else match splitOn sep rest with
           | part :: parts => String c part :: parts
           | [] => [String c EmptyString]
           end
  end.

(** [currentPath ? `${currentPath}/${part}` : part] *)
Definition extendPath (currentPath part : string) : string :=
  if negb (String.eqb currentPath EmptyString) then currentPath +:+ "/" +:+ part else part.

(** The path reached from [currentPath] after the parts [parts]. *)
Definition pathAfter (currentPath : string) (parts : list string) : string :=
  foldl extendPath currentPath parts.

Section SyncManager.

(** The state of the file system and of the vault. *)
Variable W : Type.

(** An operation on that state: it returns a value or throws. *)
Definition IO (A : Type) : Type := W -> (A + JsError) * W.

(** [normalizePath], [vault.adapter.exists] and [vault.createFolder] *)
Variable normalizePath : string -> string.
Variable adapter_exists : string -> W -> bool.
Variable createFolder : string -> IO unit.

(** The [for (const part of parts)] loop of [ensureFolderExists]. *)
Fixpoint ensureFolder_loop (parts : list string) (currentPath : string)
    : IO unit :=
  match parts with
  | [] => fun w => (inl tt, w)
  | part :: rest =>
      fun w =>
        let currentPath := extendPath currentPath part in
        if negb (adapter_exists currentPath w) then
          match createFolder currentPath w with
          | (inr e, w') => (inr e, w')
          | (inl _, w') => ensureFolder_loop rest currentPath w'
          end
        else ensureFolder_loop rest currentPath w
  end.

Definition ensureFolderExists (folderPath : string) : IO unit :=
  fun w =>
    let normalizedPath := normalizePath folderPath in
    if adapter_exists normalizedPath w then (inl tt, w)
    else ensureFolder_loop (splitOn "/" normalizedPath) EmptyString w.

(** *** [runSync] *)

(** The other methods [runSync] calls, and the callback it is given. *)
Variable discoverDocuments : IO (list RemarkableDocument).
Variable syncDocument :
  RemarkableDocument -> list RemarkableDocument -> bool -> IO SyncOutcome.
Variable progressCallback : option (string -> number -> IO unit).

Variable settings : Settings.RemarkableSyncSettings.

(** [progressCallback?.(status, percent)] *)
Definition callProgress (status : string) (percent : number) : IO unit :=
  match progressCallback with
  | Some f => f status percent
  | None => fun w => (inl tt, w)
  end.

(** The body of the inner [try]: the counters after [syncDocument]
    returned or threw. *)
Definition countOutcome (doc : RemarkableDocument)
    (r : SyncOutcome + JsError) (result : SyncResult) : SyncResult :=
  match r with
  | inl OutcomeNew =>
      mkSyncResult (imported result + 1) (updated result) (skipped result)
                   (errors result)
  | inl OutcomeUpdated =>
      mkSyncResult (imported result) (updated result + 1) (skipped result)
                   (errors result)
  | inl OutcomeSkipped =>
      mkSyncResult (imported result) (updated result) (skipped result + 1)
                   (errors result)
  | inr e =>
      mkSyncResult (imported result) (updated result) (skipped result)
                   (errors result ++ [visibleName doc +:+ ": " +:+ err_message e])
  end.

(** The [for] loop over [filteredDocs], from index [i]: the counters at
    the end, and the exception that left the loop, if any. *)
Fixpoint syncLoop (rest : list RemarkableDocument) (i n : Z)
    (documents : list RemarkableDocument) (forceReimport : bool)
    (result : SyncResult) (w : W) : SyncResult * option JsError * W :=
  match rest with
  | [] => (result, None, w)
  | doc :: rest' =>
      let percent := Fin (10 + (inject_Z i / inject_Z n) * 85) in
      match callProgress ("Processing: " +:+ visibleName doc) percent w with
      | (inr e, w1) => (result, Some e, w1)
      | (inl _, w1) =>
          let '(r, w2) := syncDocument doc documents forceReimport w1 in
          syncLoop rest' (i + 1) n documents forceReimport
                   (countOutcome doc r result) w2
      end
  end.

(** The body of the outer [try]. *)
Definition runSync_try (forceReimport : bool) (result : SyncResult) (w : W)
    : SyncResult * option JsError * W :=
  match callProgress "Discovering documents..." (Fin 5) w with
  | (inr e, w1) => (result, Some e, w1)
  | (inl _, w1) =>
      match discoverDocuments w1 with
      | (inr e, w2) => (result, Some e, w2)
      | (inl documents, w2) =>
          let filteredDocs := filterDocuments settings documents in
          let n := Z.of_nat (length filteredDocs) in
          match callProgress ("Found " +:+ pretty n +:+ " documents") (Fin 10) w2 with
          | (inr e, w3) => (result, Some e, w3)
          | (inl _, w3) =>
              match ensureFolderExists (Settings.syncFolder settings) w3 with
              | (inr e, w4) => (result, Some e, w4)
              | (inl _, w4) =>
                  match syncLoop filteredDocs 0 n documents forceReimport result w4 with
                  | (result', Some e, w5) => (result', Some e, w5)
                  | (result', None, w5) =>
                      match callProgress "Sync complete" (Fin 100) w5 with
                      | (inr e, w6) => (result', Some e, w6)
                      | (inl _, w6) => (result', None, w6)
                      end
                  end
              end
          end
      end
  end.

(** [runSync]: the outer [catch] records the message of the exception. *)
Definition runSync (forceReimport : bool) (w : W) : SyncResult * W :=
  let result := mkSyncResult 0 0 0 [] in
  match runSync_try forceReimport result w with
  | (result', Some e, w') =>
      (mkSyncResult (imported result') (updated result') (skipped result')
                    (errors result' ++ [err_message e]), w')
  | (result', None, w') => (result', w')
  end.

End SyncManager.

(** The white space of [name] is made of single spaces; [afterSpace] tells
    that the character before [name] is a space. *)
Fixpoint singleSpaced (afterSpace : bool) (name : list Z) : Prop :=
  match name with
  | [] => True
  | c :: rest =>
      if isWhiteSpace c
      then c = 32 /\ afterSpace = false /\ singleSpaced true rest
      else singleSpaced false rest
  end.

(* ===================================================================== *)
(** ** Further samples                                                    *)
(* ===================================================================== *)

(** The document [sampleV5] holds: one layer with the stroke whose record
    starts at offset 51. *)
Definition sampleV5_document : ParsedDocument :=
  mkParsedDocument V5 [[strokeAt sampleV5 V5 0 51]].

(** The two strokes of [intactV6]; their point records start at offsets 61
    and 105. *)
Definition intactV6_document : ParsedDocument :=
  mkParsedDocument V6
    [[mkStroke 2 RMColor.BLACK (Fin 1.0) [v6PointAt intactV6 61] 0;
      mkStroke 3 RMColor.BLACK (Fin 1.0) [v6PointAt intactV6 105] 0]].

(** A converter with the default options and a background image. *)
Definition backgroundConverter : ExcalidrawConverter :=
  setBackgroundImage (newConverter (mkPartialOptions None None None))
                     "data:image/png;base64,AAAA" (Fin 1404) (Fin 1872).

(** A notebook and an annotated PDF, and stand-ins for the methods of the
    sync manager: discovery finds the two documents, the folder can be
    created, the notebook is new and the PDF cannot be read. *)
Definition sampleDocuments : list RemarkableDocument :=
  [ mkRemarkableDocument "0001" "Notes" "DocumentType" EmptyString 10 false None
      [mkRemarkablePage "p1" "0001/p1.rm"];
    mkRemarkableDocument "0002" "Paper" "DocumentType" EmptyString 20 true
      (Some "0002.pdf") [mkRemarkablePage "p1" "0002/p1.rm"] ].

Definition stubDiscover : IO (list string) (list RemarkableDocument) :=
  fun w => (inl sampleDocuments, w).

(** A vault as the list of its paths. *)
Definition stubVaultExists (path : string) (w : list string) : bool :=
  bool_decide (path ∈ w).

Definition stubCreateFolder (path : string) : IO (list string) unit :=
  fun w => (inl tt, path :: w).

Definition stubSyncDocument (doc : RemarkableDocument)
    (allDocs : list RemarkableDocument) (forceReimport : bool)
    : IO (list string) SyncOutcome :=
  fun w =>
    if isPdf doc then (inr (mkJsError "cannot read the pages" "at syncDocument"), w)
    else (inl OutcomeNew, w).

Definition stubSettings : Settings.RemarkableSyncSettings :=
  Settings.DEFAULT_SETTINGS.

(** A vault that holds [Page.excalidraw] and its first two numbered
    copies. *)
Definition stubExists (path : string) : bool :=
  bool_decide (path ∈ ["Page.excalidraw"; "Page (1).excalidraw";
                       "Page (2).excalidraw"]).

(** A random source that counts: the [n] bytes from its state on. *)
Definition stubRandomBytes (n : nat) (r : nat) : list Z * nat :=
  ((fun k => Z.of_nat (r + k) mod 256) <$> seq 0 n, (r + n)%nat).

Definition stubGenerateId : nat -> string * nat :=
  generateId nat false true (fun r => (EmptyString, r)) stubRandomBytes
             (fun r => (EmptyString, r)) (fun r => (EmptyString, r)).

(* ===================================================================== *)
(** * Properties                                                          *)
(* ===================================================================== *)

(** ** Comparisons on rationals *)

Lemma Qltb_lt (x y : Q) : Qltb x y = true <-> (x < y)%Q.
Proof. unfold Qltb, Qlt. apply Z.ltb_lt. Qed.

Lemma Qltb_ge (x y : Q) : Qltb x y = false <-> (y <= x)%Q.
Proof. unfold Qltb, Qle. rewrite Z.ltb_ge. reflexivity. Qed.

Lemma Qleb_le (x y : Q) : Qle_bool x y = true <-> (x <= y)%Q.
Proof. apply Qle_bool_iff. Qed.

Lemma Qleb_gt (x y : Q) : Qle_bool x y = false <-> (y < x)%Q.
Proof.
  rewrite <- not_true_iff_false, Qle_bool_iff. split; [apply Qnot_le_lt | apply Qlt_not_le].
Qed.

Ltac qbool :=
  repeat match goal with
  | H : Qltb _ _ = true |- _ => apply Qltb_lt in H
  | H : Qltb _ _ = false |- _ => apply Qltb_ge in H
  | H : Qle_bool _ _ = true |- _ => apply Qleb_le in H
  | H : Qle_bool _ _ = false |- _ => apply Qleb_gt in H
  | |- Qltb _ _ = true => apply Qltb_lt
  | |- Qltb _ _ = false => apply Qltb_ge
  | |- Qle_bool _ _ = true => apply Qleb_le
  | |- Qle_bool _ _ = false => apply Qleb_gt
  end.

Lemma num_same_refl a : num_same a a.
Proof. destruct a; simpl; auto. reflexivity. Qed.

(** ** The pen and colour tables *)
Lemma PEN_lookup_unknown (pen : Z) :
  pen ∉ PenType.members -> PEN_CHARACTERISTICS !! pen = None.
Proof.
  intros H. unfold PEN_CHARACTERISTICS.
  apply not_elem_of_list_to_map_1.
  intros Hin. apply H. simpl in Hin.
  repeat (apply elem_of_cons in Hin as [->|Hin]; [compute_done|]).
  inversion Hin.
Qed.

Lemma COLOR_lookup_unknown (c : Z) :
  c ∉ RMColor.members -> COLOR_MAP !! c = None.
Proof.
  intros H. unfold COLOR_MAP. apply not_elem_of_list_to_map_1.
  intros Hin. apply H. exact Hin.
Qed.

Lemma PEN_multiplier_positive (pen : Z) :
  exists q, baseMultiplier (getPenCharacteristics pen) = Fin q /\ (0 < q)%Q.
Proof.
  unfold getPenCharacteristics.
  destruct (PEN_CHARACTERISTICS !! pen) as [c|] eqn:E.
  - apply elem_of_list_to_map_2 in E. simpl.
    repeat (apply elem_of_cons in E as [E|E];
            [inversion E; subst; eexists; split; [reflexivity | reflexivity] |]).
    inversion E.
  - eexists; split; [reflexivity | reflexivity].
Qed.

Lemma PEN_lookup_known (pen : Z) :
  pen ∈ PenType.members -> is_Some (PEN_CHARACTERISTICS !! pen).
Proof.
  intros H. unfold PenType.members in H.
  repeat (apply elem_of_cons in H as [->|H]; [eexists; reflexivity|]).
  inversion H.
Qed.

(** C8. Pen and colour resolution are total functions.  The pens of the
    enumeration are the keys of the style table; every other pen value
    resolves to the fallback style (multiplier 1.0, pressure-sensitive,
    opacity 100, roughness 1, solid, no simulated pressure), and every colour
    value outside the enumeration resolves to black, #000000. *)
Theorem pen_color_fallback :
  (forall pen : Z, pen ∈ PenType.members ->
     PEN_CHARACTERISTICS !! pen = Some (getPenCharacteristics pen)) /\
  (forall pen : Z, pen ∉ PenType.members ->
     getPenCharacteristics pen = DEFAULT_PEN_CHARACTERISTICS) /\
  DEFAULT_PEN_CHARACTERISTICS = mkPen (Fin 1.0) true 100 1 "solid" false /\
  (forall c : Z, c ∉ RMColor.members -> getHexColor c = "#000000").
Proof.
  split; [|split; [|split]].
  - intros pen H. unfold getPenCharacteristics.
    destruct (PEN_lookup_known pen H) as [c ->]. reflexivity.
  - intros pen H. unfold getPenCharacteristics. now rewrite PEN_lookup_unknown.
  - reflexivity.
  - intros c H. unfold getHexColor. now rewrite COLOR_lookup_unknown.
Qed.

(** ** The stroke width *)

Lemma max2_NegInf v : max2 v NegInf = v.
Proof. destruct v; reflexivity. Qed.

Lemma min2_PosInf v : min2 v PosInf = v.
Proof. destruct v; reflexivity. Qed.

Lemma clampWidth_cases (w : number) :
  match w with
  | NaN => clampWidth w = NaN
  | NegInf => clampWidth w = Fin 1
  | PosInf => clampWidth w = Fin 16
  | Fin q => (q <= 1 /\ clampWidth w = Fin 1)%Q \/
             (1 < q /\ q < 16 /\ clampWidth w = Fin q)%Q \/
             (16 <= q /\ clampWidth w = Fin 16)%Q
  end.
Proof.
  destruct w as [| |q|]; try reflexivity.
  unfold clampWidth, Math_max, Math_min. cbn [foldr].
  rewrite max2_NegInf, min2_PosInf.
  unfold min2, max2; cbn [isNaN orb num_ltb].
  destruct (Qltb q 16) eqn:E16; cbn [isNaN orb num_ltb].
  - destruct (Qltb 1 q) eqn:E1; qbool.
    + right; left. repeat split; auto.
    + left. split; auto.
  - right; right. qbool. split; auto.
Qed.

Lemma calculateStrokeWidth_eq b m s :
  calculateStrokeWidth b m s = clampWidth (num_mul (num_mul b m) s).
Proof. reflexivity. Qed.

Lemma clamp_cases (w : number) :
  match w with
  | NaN => clamp w (Fin 1) (Fin 16) = NaN
  | NegInf => clamp w (Fin 1) (Fin 16) = Fin 1
  | PosInf => clamp w (Fin 1) (Fin 16) = Fin 16
  | Fin q => (q < 1 /\ clamp w (Fin 1) (Fin 16) = Fin 1)%Q \/
             (1 <= q /\ q <= 16 /\ clamp w (Fin 1) (Fin 16) = Fin q)%Q \/
             (16 < q /\ clamp w (Fin 1) (Fin 16) = Fin 16)%Q
  end.
Proof.
  destruct w as [| |q|]; try reflexivity.
  unfold clamp; cbn [num_ltb].
  destruct (Qltb q 1) eqn:E1; qbool.
  - left; auto.
  - destruct (Qltb 16 q) eqn:E16; qbool.
    + right; right; auto.
    + right; left; auto.
Qed.

Lemma clampWidth_is_clamp w : num_same (clampWidth w) (clamp w (Fin 1) (Fin 16)).
Proof.
  pose proof (clampWidth_cases w) as H1. pose proof (clamp_cases w) as H2.
  destruct w as [| |q|]; cbv beta iota in H1, H2; try (rewrite H1, H2; apply num_same_refl).
  destruct H1 as [[? ->]|[(? & ? & ->)|[? ->]]];
  destruct H2 as [[? ->]|[(? & ? & ->)|[? ->]]]; simpl; lra.
Qed.

Lemma clampWidth_range w :
  num_ltb (clampWidth w) (Fin 1) = false /\ num_ltb (Fin 16) (clampWidth w) = false /\
  (isNaN w = false -> num_le (Fin 1) (clampWidth w) /\ num_le (clampWidth w) (Fin 16)).
Proof.
  pose proof (clampWidth_cases w) as H1.
  destruct w as [| |q|]; cbv beta iota in H1; try (rewrite H1; repeat split; (reflexivity || discriminate)).
  destruct H1 as [[? ->]|[(? & ? & ->)|[? ->]]]; unfold num_le; cbn [num_ltb num_leb];
    repeat split; intros; qbool; try lra; reflexivity.
Qed.

Lemma clampWidth_mono w w' : num_le w w' -> num_le (clampWidth w) (clampWidth w').
Proof.
  intros H.
  pose proof (clampWidth_cases w) as H1. pose proof (clampWidth_cases w') as H2.
  destruct w as [| |q|], w' as [| |q'|]; try discriminate H; cbv beta iota in H1, H2;
    try (rewrite H1); try (rewrite H2); try reflexivity;
    unfold num_le in *; cbn [num_leb] in *; qbool;
    repeat match goal with
           | H : _ \/ _ |- _ => destruct H as [H|H]
           | H : _ /\ _ |- _ => destruct H as [? H]
           end;
    repeat match goal with H : clampWidth _ = _ |- _ => rewrite H; clear H end;
    cbn [num_leb]; qbool; try lra; try reflexivity.
Qed.

Lemma product_mono (b b' : number) (m s : Q) :
  (0 < m)%Q -> (0 < s)%Q -> num_le b b' ->
  num_le (num_mul (num_mul b (Fin m)) (Fin s)) (num_mul (num_mul b' (Fin m)) (Fin s)).
Proof.
  intros Hm Hs H.
  assert (Em : (m ?= 0)%Q = Gt) by (apply Qgt_alt; exact Hm).
  assert (Es : (s ?= 0)%Q = Gt) by (apply Qgt_alt; exact Hs).
  destruct b as [| |q|], b' as [| |q'|]; try discriminate H;
    unfold num_le in *; cbn [num_mul num_leb] in *; unfold inf_scaled;
    rewrite ?Em; cbn [num_mul num_leb]; unfold inf_scaled; rewrite ?Es;
    try reflexivity.
  qbool. apply Qmult_le_compat_r; [apply Qmult_le_compat_r|]; lra.
Qed.

(** C5. The effective stroke width is [clamp(baseWidth * multiplier * scale, 1, 16)].
    Whenever the product is a number, the width lies between 1 and 16; the
    width is NaN exactly when the product is, which a NaN base width makes it.
    Every pen has a positive multiplier, and for a positive multiplier and a
    positive scale a larger base width never gives a smaller width. *)
Theorem calculateStrokeWidth_clamp (baseWidth multiplier scale : number) :
  let w := calculateStrokeWidth baseWidth multiplier scale in
  let product := num_mul (num_mul baseWidth multiplier) scale in
  num_same w (clamp product (Fin 1) (Fin 16)) /\
  (isNaN product = false -> num_le (Fin 1) w /\ num_le w (Fin 16)) /\
  isNaN w = isNaN product /\
  (isNaN baseWidth = true -> w = NaN) /\
  (forall pen : Z, exists m,
     baseMultiplier (getPenCharacteristics pen) = Fin m /\ (0 < m)%Q) /\
  (forall (m s : Q) (baseWidth' : number),
     multiplier = Fin m -> scale = Fin s -> (0 < m)%Q -> (0 < s)%Q ->
     num_le baseWidth baseWidth' ->
     num_le w (calculateStrokeWidth baseWidth' multiplier scale)).
Proof.
  intros w product. subst w product. rewrite calculateStrokeWidth_eq.
  split; [apply clampWidth_is_clamp|].
  destruct (clampWidth_range (num_mul (num_mul baseWidth multiplier) scale))
    as (_ & _ & H3).
  split; [exact H3|]. split.
  { pose proof (clampWidth_cases (num_mul (num_mul baseWidth multiplier) scale)) as Hc.
    destruct (num_mul (num_mul baseWidth multiplier) scale) as [| |q|];
      cbv beta iota in Hc; try (rewrite Hc; reflexivity).
    destruct Hc as [[_ ->]|[(_ & _ & ->)|[_ ->]]]; reflexivity. }
  split.
  { intros Hn. destruct baseWidth; try discriminate Hn. reflexivity. }
  split; [exact PEN_multiplier_positive|].
  intros m s b' -> -> Hm Hs Hb.
  rewrite calculateStrokeWidth_eq. apply clampWidth_mono, product_mono; auto.
Qed.

(** ** Reading revisions 3 and 5 *)

Section ReaderFacts.
Variable buffer : list Byte.byte.

Lemma byteLength_nonneg : 0 <= byteLength buffer.
Proof. unfold byteLength. lia. Qed.

Lemma byteAt_range i : 0 <= byteAt buffer i < 256.
Proof.
  unfold byteAt. destruct (i <? 0); [lia|].
  destruct (buffer !! Z.to_nat i) as [b|]; [|lia].
  pose proof (Byte.to_N_bounded b). lia.
Qed.

Lemma leUnsigned_range n c : 0 <= leUnsigned buffer n c < 256 ^ Z.of_nat n.
Proof.
  revert c. induction n as [|n IH]; intros c.
  - simpl. lia.
  - cbn [leUnsigned]. rewrite Nat2Z.inj_succ, Z.pow_succ_r by lia.
    pose proof (byteAt_range c). pose proof (IH (c + 1)). lia.
Qed.

Lemma readLE_ok {A} n (conv : Z -> A) c :
  0 <= c -> c + Z.of_nat n <= byteLength buffer ->
  readLE buffer n conv c = Ret (conv (leUnsigned buffer n c)) (c + Z.of_nat n).
Proof.
  intros H0 H1. unfold readLE, view_get.
  destruct (0 <=? c) eqn:E0; [|lia].
  destruct (c + Z.of_nat n <=? byteLength buffer) eqn:E1; [|lia].
  reflexivity.
Qed.

Lemma readLE_throw {A} n (conv : Z -> A) c :
  c < 0 \/ byteLength buffer < c + Z.of_nat n ->
  readLE buffer n conv c = Throw RangeError c.
Proof.
  intros H. unfold readLE, view_get.
  destruct (0 <=? c) eqn:E0; destruct (c + Z.of_nat n <=? byteLength buffer) eqn:E1;
    simpl; try reflexivity; lia.
Qed.

Lemma getInt32_ok c :
  0 <= c -> c + 4 <= byteLength buffer ->
  getInt32 buffer c = Ret (int32At buffer c) (c + 4).
Proof. intros. unfold getInt32. rewrite readLE_ok by (simpl; lia). reflexivity. Qed.

Lemma getUint32_ok c :
  0 <= c -> c + 4 <= byteLength buffer ->
  getUint32 buffer c = Ret (uint32At buffer c) (c + 4).
Proof. intros. unfold getUint32. rewrite readLE_ok by (simpl; lia). reflexivity. Qed.

Lemma getFloat32_ok c :
  0 <= c -> c + 4 <= byteLength buffer ->
  getFloat32 buffer c = Ret (float32At buffer c) (c + 4).
Proof. intros. unfold getFloat32. rewrite readLE_ok by (simpl; lia). reflexivity. Qed.

Lemma bind_Ret {A B} (m : M A) (k : A -> M B) c a c' :
  m c = Ret a c' -> bind m k c = k a c'.
Proof. intros H. unfold bind. now rewrite H. Qed.

Lemma readPoints_ok n : forall acc c,
  0 <= c -> c + 24 * Z.of_nat n <= byteLength buffer ->
  readPoints buffer n acc c =
    Ret (acc ++ v5PointsAt buffer n c) (c + 24 * Z.of_nat n).
Proof.
  induction n as [|n IH]; intros acc c H0 H1.
  - simpl. unfold ret. rewrite app_nil_r. f_equal. lia.
  - cbn [readPoints v5PointsAt].
    rewrite (bind_Ret _ _ _ _ _ (getFloat32_ok c ltac:(lia) ltac:(lia))).
    rewrite (bind_Ret _ _ _ _ _ (getFloat32_ok (c+4) ltac:(lia) ltac:(lia))).
    rewrite (bind_Ret _ _ _ _ _ (getFloat32_ok (c+4+4) ltac:(lia) ltac:(lia))).
    rewrite (bind_Ret _ _ _ _ _ (getFloat32_ok (c+4+4+4) ltac:(lia) ltac:(lia))).
    rewrite (bind_Ret _ _ _ _ _ (getFloat32_ok (c+4+4+4+4) ltac:(lia) ltac:(lia))).
    rewrite (bind_Ret _ _ _ _ _ (getFloat32_ok (c+4+4+4+4+4) ltac:(lia) ltac:(lia))).
    rewrite IH by lia. rewrite <- app_assoc. cbn [app].
    unfold v5PointAt.
    replace (c+4+4+4+4+4+4) with (c+24) by lia.
    replace (c+4+4+4+4+4) with (c+20) by lia.
    replace (c+4+4+4+4) with (c+16) by lia.
    replace (c+4+4+4) with (c+12) by lia.
    replace (c+4+4) with (c+8) by lia.
    f_equal. lia.
Qed.

Lemma bind_getCursor {B} (k : Z -> M B) c : bind getCursor k c = k c c.
Proof. reflexivity. Qed.

Lemma bind_setCursor {B} n (k : unit -> M B) c : bind (setCursor n) k c = k tt n.
Proof. reflexivity. Qed.

Lemma bind_ret {A B} (a : A) (k : A -> M B) c : bind (ret a) k c = k a c.
Proof. reflexivity. Qed.

Ltac step_read :=
  first
    [ rewrite bind_getCursor
    | rewrite bind_setCursor
    | rewrite bind_ret
    | erewrite bind_Ret
        by (first [apply getInt32_ok | apply getFloat32_ok | apply getUint32_ok];
            lia) ].

Lemma parseStroke_outcome version layerIndex c :
  0 <= c ->
  (strokeFits buffer version c /\
   parseStroke buffer version layerIndex c =
     Ret (StrokeOk (strokeAt buffer version layerIndex c))
         (strokeEnd buffer version c)) \/
  (exists e c', strokeRefused buffer version c e /\
     parseStroke buffer version layerIndex c = Ret (StrokeErr e) c').
Proof.
  intros H0. unfold parseStroke, strokeFits, strokeRefused, strokeAt, strokeEnd,
    pointCountAt.
  set (hs := strokeHeaderSize version).
  assert (Hhs : (hs = 20 /\ version = V3) \/ (hs = 24 /\ version <> V3))
    by (subst hs; destruct version; simpl; auto; right; split; congruence).
  replace (match version with V3 => 20 | _ => 24 end) with hs
    by (subst hs; reflexivity).
  step_read.
  destruct (c + hs >? byteLength buffer) eqn:Ehdr.
  { right. eexists _, _. split; [|reflexivity]. left. split; [lia|reflexivity]. }
  rewrite Z.gtb_ltb in Ehdr; apply Z.ltb_ge in Ehdr.
  assert (Hhs' : 20 <= hs) by (destruct Hhs as [[-> _]|[-> _]]; lia).
  do 4 step_read.
  assert (Hk : forall k : Z -> M StrokeResult,
    bind (match version with V3 => ret 0 | _ => getInt32 buffer end)
         (fun _ => bind (getInt32 buffer) k) (c + 4 + 4 + 4 + 4)
    = k (int32At buffer (c + hs - 4)) (c + hs)).
  { intros k.
    destruct Hhs as [[Hh ->]|[Hh Hv]].
    - rewrite bind_ret. erewrite bind_Ret by (apply getInt32_ok; lia).
      f_equal; [f_equal|]; lia.
    - replace (match version with V3 => ret 0 | _ => getInt32 buffer end)
        with (getInt32 buffer) by (destruct version; congruence).
      erewrite bind_Ret by (apply getInt32_ok; lia).
      erewrite bind_Ret by (apply getInt32_ok; lia).
      f_equal; [f_equal|]; lia. }
  rewrite !Hk. clear Hk.
  set (n := int32At buffer (c + hs - 4)).
  destruct ((n <? 0) || (n >? 100000)) eqn:En.
  { right. eexists _, _. split; [|reflexivity]. right; left.
    split; [lia|]. split; [|reflexivity].
    apply orb_true_iff in En as [En|En]; [apply Z.ltb_lt in En|rewrite Z.gtb_ltb in En; apply Z.ltb_lt in En]; lia. }
  apply orb_false_iff in En as [En1 En2].
  apply Z.ltb_ge in En1. rewrite Z.gtb_ltb in En2. apply Z.ltb_ge in En2.
  rewrite !bind_getCursor.
  destruct (c + hs + n * 24 >? byteLength buffer) eqn:Epts.
  { right. eexists _, _. split; [|reflexivity]. right; right.
    rewrite Z.gtb_ltb in Epts; apply Z.ltb_lt in Epts.
    repeat split; try lia; reflexivity. }
  rewrite Z.gtb_ltb in Epts; apply Z.ltb_ge in Epts.
  left. split; [repeat split; lia|].
  erewrite bind_Ret by (apply readPoints_ok; lia).
  unfold ret. cbn [app]. replace (c + 4 + 4 + 4) with (c + 12) by lia. f_equal. lia.
Qed.

Lemma strokeEnd_ge version c :
  strokeFits buffer version c -> c < strokeEnd buffer version c.
Proof.
  unfold strokeFits, strokeEnd. intros (H1 & H2 & H3).
  unfold strokeHeaderSize. destruct version; lia.
Qed.


Lemma parseStrokes_outcome version layerIndex n : forall i acc c,
  0 <= c ->
  (exists strokes e,
     strokesAt buffer version layerIndex c strokes e /\
     length strokes = n /\ c <= e /\
     parseStrokes buffer version layerIndex n i acc c =
       Ret (LayerOk (acc ++ strokes)) e) \/
  (exists (done : list Stroke) c' e cur,
     strokesAt buffer version layerIndex c done c' /\
     (length done < n)%nat /\
     strokeRefused buffer version c' e /\
     parseStrokes buffer version layerIndex n i acc c =
       Ret (LayerErr ("Stroke " +:+ pretty (i + Z.of_nat (length done))
                      +:+ ": " +:+ e)) cur).
Proof.
  induction n as [|n IH]; intros i acc c H0.
  - left. exists [], c. simpl. rewrite app_nil_r. repeat split; auto; lia.
  - cbn [parseStrokes].
    destruct (parseStroke_outcome version layerIndex c H0)
      as [[Hfit Hrun]|(e & c' & Href & Hrun)].
    + erewrite bind_Ret by exact Hrun.
      pose proof (strokeEnd_ge _ _ Hfit) as Hge.
      destruct (IH (i + 1) (acc ++ [strokeAt buffer version layerIndex c])
                   (strokeEnd buffer version c) ltac:(lia))
        as [(strokes & e & Hat & Hlen & Hle & Hrun')
           |(dn & c' & e & cur & Hat & Hlen & Href & Hrun')].
      * left. exists (strokeAt buffer version layerIndex c :: strokes), e.
        split; [simpl; auto|]. split; [simpl; lia|]. split; [lia|].
        rewrite Hrun'. rewrite <- app_assoc. reflexivity.
      * right. exists (strokeAt buffer version layerIndex c :: dn), c', e, cur.
        split; [simpl; auto|]. split; [simpl; lia|]. split; [exact Href|].
        rewrite Hrun'. cbn [length].
        replace (i + 1 + Z.of_nat (length dn)) with (i + Z.of_nat (S (length dn))) by lia.
        reflexivity.
    + right. exists [], c, e, c'. split; [reflexivity|]. split; [simpl; lia|].
      split; [exact Href|].
      erewrite bind_Ret by exact Hrun. cbn [length]. rewrite Z.add_0_r. reflexivity.
Qed.

Lemma parseLayer_outcome version layerIndex c :
  0 <= c ->
  (exists strokes e,
     layerAt buffer version layerIndex c strokes e /\ c <= e /\
     parseLayer buffer version layerIndex c = Ret (LayerOk strokes) e) \/
  (exists e cur,
     layerRefused buffer version layerIndex c e /\
     parseLayer buffer version layerIndex c = Ret (LayerErr e) cur).
Proof.
  intros H0. unfold parseLayer, layerAt, layerRefused.
  rewrite bind_getCursor.
  destruct (c + 4 >? byteLength buffer) eqn:E4.
  { right. eexists _, _. split; [|reflexivity]. left.
    rewrite Z.gtb_ltb in E4; apply Z.ltb_lt in E4. split; [lia|reflexivity]. }
  rewrite Z.gtb_ltb in E4; apply Z.ltb_ge in E4.
  erewrite bind_Ret by (apply getInt32_ok; lia).
  set (n := int32At buffer c).
  destruct ((n <? 0) || (n >? 100000)) eqn:En.
  { right. eexists _, _. split; [|reflexivity]. right; left.
    split; [lia|]. split; [|reflexivity].
    apply orb_true_iff in En as [En|En];
      [apply Z.ltb_lt in En|rewrite Z.gtb_ltb in En; apply Z.ltb_lt in En]; lia. }
  apply orb_false_iff in En as [En1 En2].
  apply Z.ltb_ge in En1. rewrite Z.gtb_ltb in En2. apply Z.ltb_ge in En2.
  destruct (parseStrokes_outcome version layerIndex (Z.to_nat n) 0 [] (c + 4) ltac:(lia))
    as [(strokes & e & Hat & Hlen & Hle & Hrun)
       |(dn & c' & e & cur & Hat & Hlen & Href & Hrun)].
  - left. exists strokes, e. rewrite Hrun. cbn [app].
    repeat split; auto; lia.
  - right. eexists _, cur. split; [|rewrite Hrun; reflexivity].
    right; right. split; [lia|]. split; [lia|].
    exists dn, c', e. rewrite Z.add_0_l. repeat split; auto. lia.
Qed.

Lemma parseLayers_outcome version n : forall layerIndex acc c,
  0 <= c ->
  (exists layers e,
     layersAt buffer version layerIndex c layers e /\
     length layers = n /\ c <= e /\
     parseLayers buffer version n layerIndex acc c =
       Ret (Success (mkParsedDocument version (acc ++ layers))) e) \/
  (exists (done : list (list Stroke)) c' e cur,
     layersAt buffer version layerIndex c done c' /\
     (length done < n)%nat /\
     layerRefused buffer version (layerIndex + Z.of_nat (length done)) c' e /\
     parseLayers buffer version n layerIndex acc c =
       Ret (Failure (mkParseError
              ("Failed to parse layer " +:+ pretty (layerIndex + Z.of_nat (length done))
               +:+ ": " +:+ e) (Some cur) None)) cur).
Proof.
  induction n as [|n IH]; intros layerIndex acc c H0.
  - left. exists [], c. simpl. rewrite app_nil_r. repeat split; auto; lia.
  - cbn [parseLayers].
    destruct (parseLayer_outcome version layerIndex c H0)
      as [(strokes & e & Hat & Hle & Hrun)|(e & cur & Href & Hrun)].
    + erewrite bind_Ret by exact Hrun.
      destruct (IH (layerIndex + 1) (acc ++ [strokes]) e ltac:(lia))
        as [(ls & e' & Hat' & Hlen & Hle' & Hrun')
           |(dn & c' & e' & cur & Hat' & Hlen & Href & Hrun')].
      * left. exists (strokes :: ls), e'.
        split; [simpl; eauto|]. split; [simpl; lia|]. split; [lia|].
        rewrite Hrun'. rewrite <- app_assoc. reflexivity.
      * right. exists (strokes :: dn), c', e', cur.
        split; [simpl; eauto|]. split; [simpl; lia|].
        cbn [length].
        replace (layerIndex + Z.of_nat (S (length dn)))
          with (layerIndex + 1 + Z.of_nat (length dn)) by lia.
        split; [exact Href|]. exact Hrun'.
    + right. exists [], c, e, cur. split; [reflexivity|]. split; [simpl; lia|].
      cbn [length]. rewrite Z.add_0_r. split; [exact Href|].
      erewrite bind_Ret by exact Hrun. cbv beta iota. rewrite bind_getCursor. reflexivity.
Qed.

Lemma strokesAt_end version layerIndex strokes : forall c e,
  c <= byteLength buffer ->
  strokesAt buffer version layerIndex c strokes e -> e <= byteLength buffer.
Proof.
  induction strokes as [|s rest IH]; intros c e Hc H; simpl in H.
  - lia.
  - destruct H as (Hfit & _ & Hrest). eapply IH; [|exact Hrest].
    destruct Hfit as (_ & _ & ?). exact H.
Qed.

Lemma layersAt_end version ls : forall layerIndex c e,
  c <= byteLength buffer ->
  layersAt buffer version layerIndex c ls e -> e <= byteLength buffer.
Proof.
  induction ls as [|l rest IH]; intros layerIndex c e Hc H; simpl in H.
  - lia.
  - destruct H as (c' & Hl & Hrest). eapply IH; [|exact Hrest].
    destruct Hl as (H4 & _ & _ & Hs). eapply strokesAt_end; [|exact Hs]. lia.
Qed.

Lemma headerSizeOf_layout version :
  version = V3 \/ version = V5 -> headerSizeOf version = layoutHeaderSize version.
Proof. intros [->| ->]; reflexivity. Qed.

Lemma parseV5_outcome version c0 :
  version = V3 \/ version = V5 ->
  exists r c, parseV5 buffer version c0 = Ret r c /\
    match r with
    | Success doc =>
        doc_version doc = version /\ wellFormedV5 buffer version (layers doc)
    | Failure err => structuralError buffer version err
    end.
Proof.
  intros Hv. unfold parseV5. rewrite bind_setCursor. cbv beta. rewrite bind_getCursor.
  rewrite (headerSizeOf_layout _ Hv).
  set (h := layoutHeaderSize version).
  assert (Hh : 33 <= h) by (subst h; destruct Hv as [->| ->]; simpl; lia).
  destruct (h + 4 >? byteLength buffer) eqn:E4.
  { eexists _, _. split; [reflexivity|]. split; [reflexivity|]. left.
    rewrite Z.gtb_ltb in E4; apply Z.ltb_lt in E4. repeat split; auto. }
  rewrite Z.gtb_ltb in E4; apply Z.ltb_ge in E4.
  erewrite bind_Ret by (apply getInt32_ok; lia).
  set (n := int32At buffer h).
  destruct ((n <? 0) || (n >? 100)) eqn:En.
  { rewrite bind_getCursor. eexists _, _. split; [reflexivity|].
    split; [reflexivity|]. right; left.
    apply orb_true_iff in En.
    split; [lia|]. split.
    { destruct En as [En|En];
        [apply Z.ltb_lt in En|rewrite Z.gtb_ltb in En; apply Z.ltb_lt in En];
        subst n h; lia. }
    split; [reflexivity|]. cbn [offset]. f_equal. lia. }
  apply orb_false_iff in En as [En1 En2].
  apply Z.ltb_ge in En1. rewrite Z.gtb_ltb in En2. apply Z.ltb_ge in En2.
  destruct (parseLayers_outcome version (Z.to_nat n) 0 [] (h + 4) ltac:(lia))
    as [(ls & e & Hat & Hlen & Hle & Hrun)
       |(dn & c' & e & cur & Hat & Hlen & Href & Hrun)].
  - eexists _, _. split; [exact Hrun|]. cbn [app doc_version layers].
    split; [reflexivity|]. unfold wellFormedV5. fold h. fold n.
    repeat split; auto; try lia.
    exists e. split; auto.
    eapply layersAt_end; [|exact Hat]. lia.
  - eexists _, _. split; [exact Hrun|]. split; [reflexivity|].
    right; right. fold h. fold n. repeat split; auto; try lia.
    exists dn, c', e. rewrite Z.add_0_l in *. repeat split; auto. lia.
Qed.

End ReaderFacts.

(** ** Varuints *)

Ltac mstep :=
  first
    [ rewrite bind_getCursor
    | rewrite bind_setCursor
    | rewrite bind_ret
    | erewrite bind_Ret
        by (first [apply getInt32_ok | apply getFloat32_ok | apply getUint32_ok];
            lia) ];
  cbv beta.

(** Bits of a byte. *)
Lemma land_128_small x : 0 <= x < 128 -> Z.land x 128 = 0.
Proof.
  intros Hx. apply Z.bits_inj'. intros i Hi.
  rewrite Z.land_spec, Z.bits_0.
  destruct (Z.eq_dec i 7) as [->|Hne].
  - rewrite <- (Z.mod_small x (2 ^ 7)) by lia.
    rewrite Z.mod_pow2_bits_high by lia. reflexivity.
  - change 128 with (2 ^ 7). rewrite Z.pow2_bits_false by lia.
    apply andb_false_r.
Qed.

Lemma land_128_large x : 0 <= x < 128 -> Z.land (x + 128) 128 = 128.
Proof.
  intros Hx.
  assert (Hd : Z.land x 128 = 0) by (apply land_128_small; exact Hx).
  rewrite (Z.add_nocarry_lxor x 128 Hd), (Z.lxor_lor x 128 Hd).
  rewrite Z.land_lor_distr_l, Hd, Z.land_diag. reflexivity.
Qed.

Lemma land_127 x : 0 <= x -> Z.land x 127 = x mod 128.
Proof. intros Hx. change 127 with (Z.ones 7). rewrite Z.land_ones by lia. reflexivity. Qed.

Lemma toInt32_small x : - 2 ^ 31 <= x < 2 ^ 31 -> toInt32 x = x.
Proof. intros Hx. unfold toInt32. rewrite Z.mod_small by lia. lia. Qed.

(** One step of the accumulation [result |= (byte & 0x7F) << shift], while
    nothing reaches bit 31. *)
Lemma varuint_accumulate r b shift :
  0 <= shift < 32 -> 0 <= r < 2 ^ shift -> 0 <= b ->
  r + b * 2 ^ shift < 2 ^ 31 ->
  int32_or r (int32_shl b shift) = r + b * 2 ^ shift.
Proof.
  intros Hs Hr Hb Hlt.
  assert (Hp : 0 < 2 ^ shift) by (apply Z.pow_pos_nonneg; lia).
  unfold int32_or, int32_shl. rewrite Z.mod_small by lia.
  rewrite Z.shiftl_mul_pow2 by lia.
  rewrite (toInt32_small (b * 2 ^ shift)) by nia.
  rewrite (toInt32_small (b * 2 ^ shift)) by nia.
  rewrite (toInt32_small r) by lia.
  assert (Hd : Z.land r (b * 2 ^ shift) = 0).
  { apply Z.bits_inj'. intros i Hi. rewrite Z.land_spec, Z.bits_0.
    destruct (Z_lt_le_dec i shift) as [Hlo|Hhi].
    - rewrite Z.mul_pow2_bits_low by lia. apply andb_false_r.
    - rewrite <- (Z.mod_small r (2 ^ shift)) by lia.
      rewrite Z.mod_pow2_bits_high by lia. reflexivity. }
  rewrite <- (Z.lxor_lor _ _ Hd), <- (Z.add_nocarry_lxor _ _ Hd).
  apply toInt32_small. lia.
Qed.

(** The same step for any shift count, when the group is zero or nothing
    reaches bit 31. *)
Lemma varuint_accumulate_any r b shift :
  0 <= shift -> 0 <= r < 2 ^ shift -> 0 <= b ->
  r + b * 2 ^ shift < 2 ^ 31 ->
  int32_or r (int32_shl b shift) = r + b * 2 ^ shift.
Proof.
  intros Hs Hr Hb Hlt.
  assert (Hp : 0 < 2 ^ shift) by (apply Z.pow_pos_nonneg; lia).
  destruct (Z.eq_dec b 0) as [->|Hne].
  - unfold int32_or, int32_shl. rewrite Z.shiftl_0_l.
    change (toInt32 0) with 0. rewrite (toInt32_small r) by lia.
    rewrite Z.lor_0_r, toInt32_small by lia. lia.
  - apply varuint_accumulate; try lia.
    assert (Hlt' : 2 ^ shift < 2 ^ 31) by nia.
    apply Z.pow_lt_mono_r_iff in Hlt'; lia.
Qed.

Section V6Facts.
Variable buffer : list Byte.byte.

Lemma getUint8_ok c :
  0 <= c -> c + 1 <= byteLength buffer ->
  getUint8 buffer c = Ret (byteAt buffer c) (c + 1).
Proof.
  intros. unfold getUint8. rewrite readLE_ok by (simpl; lia).
  cbn [leUnsigned]. unfold id. f_equal. lia.
Qed.

Lemma getUint16_ok c :
  0 <= c -> c + 2 <= byteLength buffer ->
  getUint16 buffer c = Ret (uint16At buffer c) (c + 2).
Proof. intros. unfold getUint16. rewrite readLE_ok by (simpl; lia). reflexivity. Qed.

Lemma varuintSizeAt_inside c :
  0 <= c < byteLength buffer ->
  varuintSizeAt buffer c =
    if Z.land (byteAt buffer c) 0x80 =? 0 then 1
    else 1 + varuintSizeAt buffer (c + 1).
Proof.
  intros Hc. unfold varuintSizeAt, byteAt.
  destruct (c <? 0) eqn:E; [lia|].
  destruct (buffer !! Z.to_nat c) as [b|] eqn:Eb.
  - rewrite (drop_S _ _ _ Eb). cbn [varuintSize].
    replace (Z.to_nat (c + 1)) with (S (Z.to_nat c)) by lia. reflexivity.
  - apply lookup_ge_None in Eb. unfold byteLength in Hc. lia.
Qed.

Lemma varuintSizeAt_outside c :
  byteLength buffer <= c -> varuintSizeAt buffer c = 0.
Proof.
  intros Hc. unfold varuintSizeAt. rewrite drop_ge; [reflexivity|].
  unfold byteLength in Hc. lia.
Qed.

Lemma varuintSizeAt_bounds c :
  0 <= c -> 0 <= varuintSizeAt buffer c /\
  (c < byteLength buffer -> 1 <= varuintSizeAt buffer c) /\
  (c <= byteLength buffer -> c + varuintSizeAt buffer c <= byteLength buffer).
Proof.
  intros Hc.
  remember (Z.to_nat (byteLength buffer - c)) as k eqn:Ek.
  revert c Hc Ek. induction k as [|k IH]; intros c Hc Ek.
  - destruct (Z_lt_le_dec c (byteLength buffer)); [lia|].
    rewrite varuintSizeAt_outside by lia. lia.
  - assert (Hin : 0 <= c < byteLength buffer) by lia.
    rewrite (varuintSizeAt_inside c Hin).
    destruct (Z.land (byteAt buffer c) 128 =? 0); [lia|].
    destruct (IH (c + 1) ltac:(lia) ltac:(lia)) as (H1 & H2 & H3). lia.
Qed.

Lemma readVaruint_loop_run fuel : forall result shift c,
  0 <= c -> (Z.to_nat (byteLength buffer - c) < fuel)%nat ->
  exists v, readVaruint_loop buffer fuel result shift c =
              Ret v (c + varuintSizeAt buffer c).
Proof.
  induction fuel as [|fuel IH]; intros result shift c Hc Hf; [lia|].
  cbn [readVaruint_loop]. rewrite bind_getCursor.
  destruct (c <? byteLength buffer) eqn:E.
  - apply Z.ltb_lt in E.
    erewrite bind_Ret by (apply getUint8_ok; lia). cbv beta zeta.
    rewrite (varuintSizeAt_inside c) by lia.
    destruct (Z.land (byteAt buffer c) 128 =? 0).
    + eexists. reflexivity.
    + destruct (IH (int32_or result (int32_shl (Z.land (byteAt buffer c) 127) shift))
                   (shift + 7) (c + 1) ltac:(lia) ltac:(lia)) as [v Hv].
      exists v. rewrite Hv. f_equal. lia.
  - apply Z.ltb_ge in E. rewrite varuintSizeAt_outside by lia.
    exists result. unfold ret. f_equal. lia.
Qed.

Lemma varuintValueAt_inside c :
  0 <= c < byteLength buffer ->
  varuintValueAt buffer c =
    if Z.land (byteAt buffer c) 0x80 =? 0 then byteAt buffer c
    else byteAt buffer c mod 128 + 128 * varuintValueAt buffer (c + 1).
Proof.
  intros Hc. unfold varuintValueAt, byteAt.
  destruct (c <? 0) eqn:E; [lia|].
  destruct (buffer !! Z.to_nat c) as [b|] eqn:Eb.
  - rewrite (drop_S _ _ _ Eb). cbn [varuintValue].
    replace (Z.to_nat (c + 1)) with (S (Z.to_nat c)) by lia. reflexivity.
  - apply lookup_ge_None in Eb. unfold byteLength in Hc. lia.
Qed.

Lemma varuintValueAt_outside c :
  byteLength buffer <= c -> varuintValueAt buffer c = 0.
Proof.
  intros Hc. unfold varuintValueAt. rewrite drop_ge; [reflexivity|].
  unfold byteLength in Hc. lia.
Qed.

Lemma varuintValueAt_nonneg c : 0 <= c -> 0 <= varuintValueAt buffer c.
Proof.
  intros Hc.
  remember (Z.to_nat (byteLength buffer - c)) as k eqn:Ek.
  revert c Hc Ek. induction k as [|k IH]; intros c Hc Ek.
  - rewrite varuintValueAt_outside by lia. lia.
  - rewrite varuintValueAt_inside by lia.
    pose proof (byteAt_range buffer c) as Hb.
    destruct (Z.land (byteAt buffer c) 128 =? 0); [lia|].
    pose proof (IH (c + 1) ltac:(lia) ltac:(lia)).
    pose proof (Z.mod_pos_bound (byteAt buffer c) 128 ltac:(lia)). lia.
Qed.

(** The loop of [readVaruint] adds up the groups of the varuint, as long as
    the number it writes stays below [2 ^ 31]. *)
Lemma readVaruint_loop_value fuel : forall r shift c,
  0 <= c -> (Z.to_nat (byteLength buffer - c) < fuel)%nat ->
  0 <= shift -> 0 <= r < 2 ^ shift ->
  r + varuintValueAt buffer c * 2 ^ shift < 2 ^ 31 ->
  readVaruint_loop buffer fuel r shift c =
    Ret (r + varuintValueAt buffer c * 2 ^ shift) (c + varuintSizeAt buffer c).
Proof.
  induction fuel as [|fuel IH]; intros r shift c Hc Hf Hs Hr Hlt; [lia|].
  cbn [readVaruint_loop]. rewrite bind_getCursor.
  destruct (c <? byteLength buffer) eqn:E.
  - apply Z.ltb_lt in E.
    erewrite bind_Ret by (apply getUint8_ok; lia). cbv beta zeta.
    rewrite (varuintSizeAt_inside c) by lia.
    rewrite (varuintValueAt_inside c) in * by lia.
    pose proof (byteAt_range buffer c) as Hb.
    pose proof (Z.mod_pos_bound (byteAt buffer c) 128 ltac:(lia)) as Hm.
    assert (Hp : 0 < 2 ^ shift) by (apply Z.pow_pos_nonneg; lia).
    rewrite land_127 by lia.
    destruct (Z.land (byteAt buffer c) 128 =? 0) eqn:Econt.
    + assert (Hsmall : byteAt buffer c < 128).
      { destruct (Z_lt_le_dec (byteAt buffer c) 128) as [|Hge]; [assumption|].
        apply Z.eqb_eq in Econt.
        replace (byteAt buffer c) with ((byteAt buffer c - 128) + 128) in Econt by lia.
        rewrite land_128_large in Econt by lia. discriminate. }
      rewrite Z.mod_small by lia.
      rewrite varuint_accumulate_any by lia. reflexivity.
    + pose proof (varuintValueAt_nonneg (c + 1) ltac:(lia)) as Hv.
      assert (Hpow : 2 ^ (shift + 7) = 128 * 2 ^ shift)
        by (rewrite Z.pow_add_r by lia; change (2 ^ 7) with 128; lia).
      rewrite varuint_accumulate_any by nia.
      rewrite (IH _ (shift + 7) (c + 1)); try lia; try (rewrite Hpow; nia).
      f_equal; [rewrite Hpow; nia|lia].
  - apply Z.ltb_ge in E.
    rewrite varuintSizeAt_outside, varuintValueAt_outside by lia.
    unfold ret. f_equal; lia.
Qed.

(** [readVaruint] returns the number the varuint writes when that number is
    below [2 ^ 31]. *)
Lemma readVaruint_value c :
  0 <= c -> varuintValueAt buffer c < 2 ^ 31 ->
  readVaruint buffer c =
    Ret (varuintValueAt buffer c) (c + varuintSizeAt buffer c).
Proof.
  intros Hc Hlt. unfold readVaruint.
  rewrite (readVaruint_loop_value _ 0 0 c); try lia.
  f_equal. lia.
Qed.

Lemma readVaruint_run c :
  0 <= c ->
  exists v, readVaruint buffer c = Ret v (c + varuintSizeAt buffer c).
Proof. intros Hc. unfold readVaruint. apply readVaruint_loop_run; lia. Qed.

Lemma skipCrdtId_run c :
  0 <= c ->
  skipCrdtId buffer c =
    Ret tt (c + varuintSizeAt buffer c
              + varuintSizeAt buffer (c + varuintSizeAt buffer c)).
Proof.
  intros Hc. unfold skipCrdtId.
  destruct (readVaruint_run c Hc) as [v Hv].
  pose proof (varuintSizeAt_bounds c Hc) as (Hs & _).
  destruct (readVaruint_run (c + varuintSizeAt buffer c) ltac:(lia)) as [v' Hv'].
  erewrite bind_Ret by exact Hv. erewrite bind_Ret by exact Hv'. reflexivity.
Qed.

End V6Facts.

(** ** Fields of a line-definition block *)

Lemma safe_ret {A} (a : A) c (post : A -> Z -> Prop) :
  post a c -> safe (ret a) c post.
Proof. intros H. exact H. Qed.

Lemma safe_bind {A B} (m : M A) (k : A -> M B) c (post : B -> Z -> Prop) :
  safe m c (fun a c' => safe (k a) c' post) -> safe (bind m k) c post.
Proof. unfold safe, bind. destruct (m c); auto. Qed.

Lemma safe_weaken {A} (m : M A) c (post post' : A -> Z -> Prop) :
  safe m c post -> (forall a c', post a c' -> post' a c') -> safe m c post'.
Proof. unfold safe. destruct (m c); auto. Qed.

Lemma safe_Ret {A} (m : M A) c a c' (post : A -> Z -> Prop) :
  m c = Ret a c' -> post a c' -> safe m c post.
Proof. unfold safe. intros ->. auto. Qed.

Section V6Safe.
Variable buffer : list Byte.byte.
Local Abbreviation len := (byteLength buffer).

Lemma safe_readLE {A} n (conv : Z -> A) c (post : A -> Z -> Prop) :
  (0 <= c -> c + Z.of_nat n <= len ->
   post (conv (leUnsigned buffer n c)) (c + Z.of_nat n)) ->
  safe (readLE buffer n conv) c post.
Proof.
  intros H. unfold safe.
  destruct (Z_le_dec 0 c) as [H0|H0];
    [destruct (Z_le_dec (c + Z.of_nat n) len) as [H1|H1]|].
  - rewrite readLE_ok by assumption. auto.
  - rewrite readLE_throw by lia. exact I.
  - rewrite readLE_throw by lia. exact I.
Qed.

Lemma safe_getCursor c (post : Z -> Z -> Prop) :
  post c c -> safe getCursor c post.
Proof. auto. Qed.

Lemma safe_setCursor n c (post : unit -> Z -> Prop) :
  post tt n -> safe (setCursor n) c post.
Proof. auto. Qed.

Lemma safe_advance n c (post : unit -> Z -> Prop) :
  post tt (c + n) -> safe (advance n) c post.
Proof. auto. Qed.

Lemma safe_readVaruint c (post : Z -> Z -> Prop) :
  0 <= c -> (forall v, post v (c + varuintSizeAt buffer c)) ->
  safe (readVaruint buffer) c post.
Proof.
  intros Hc H. destruct (readVaruint_run buffer c Hc) as [v Hv].
  eapply safe_Ret; eauto.
Qed.

Lemma safe_skipCrdtId c (post : unit -> Z -> Prop) :
  0 <= c ->
  post tt (c + varuintSizeAt buffer c
             + varuintSizeAt buffer (c + varuintSizeAt buffer c)) ->
  safe (skipCrdtId buffer) c post.
Proof. intros Hc H. eapply safe_Ret; [apply skipCrdtId_run; lia|exact H]. Qed.

Lemma readV6Point_ok c :
  0 <= c -> c + 14 <= len ->
  readV6Point buffer c = Ret (v6PointAt buffer c) (c + 14).
Proof.
  intros H0 H1. unfold readV6Point.
  erewrite bind_Ret by (apply getFloat32_ok; lia).
  erewrite bind_Ret by (apply getFloat32_ok; lia).
  erewrite bind_Ret by (apply getUint16_ok; lia).
  erewrite bind_Ret by (apply getUint16_ok; lia).
  erewrite bind_Ret by (apply getUint8_ok; lia).
  erewrite bind_Ret by (apply getUint8_ok; lia).
  unfold ret, v6PointAt.
  replace (c + 4 + 4 + 2 + 2 + 1 + 1) with (c + 14) by lia.
  replace (c + 4 + 4 + 2 + 2 + 1) with (c + 13) by lia.
  replace (c + 4 + 4 + 2 + 2) with (c + 12) by lia.
  replace (c + 4 + 4 + 2) with (c + 10) by lia.
  replace (c + 4 + 4) with (c + 8) by lia.
  reflexivity.
Qed.

Lemma readV6Points_run n blockEnd : forall acc c,
  0 <= c -> blockEnd <= len ->
  exists pts c',
    readV6Points buffer n blockEnd acc c = Ret (acc ++ pts) c' /\
    c <= c' /\ Forall (fromV6Record buffer) pts.
Proof.
  induction n as [|n IH]; intros acc c H0 Hb.
  - exists [], c. simpl. rewrite app_nil_r. repeat split; auto. lia.
  - cbn [readV6Points]. rewrite bind_getCursor.
    unfold V6_POINT_SIZE.
    destruct (c + 14 <=? blockEnd) eqn:E.
    + apply Z.leb_le in E.
      erewrite bind_Ret by (apply readV6Point_ok; lia).
      destruct (IH (acc ++ [v6PointAt buffer c]) (c + 14) ltac:(lia) Hb)
        as (pts & c' & Hrun & Hle & Hall).
      exists (v6PointAt buffer c :: pts), c'. rewrite Hrun.
      rewrite <- app_assoc. repeat split; auto; try lia.
      constructor; auto. exists c. repeat split; auto; lia.
    + exists [], c. rewrite app_nil_r. repeat split; auto. lia.
Qed.

Lemma safe_readV6Points n blockEnd acc c (post : list Point -> Z -> Prop) :
  0 <= c -> blockEnd <= len ->
  (forall pts c', c <= c' -> Forall (fromV6Record buffer) pts -> post (acc ++ pts) c') ->
  safe (readV6Points buffer n blockEnd acc) c post.
Proof.
  intros H0 Hb H.
  destruct (readV6Points_run n blockEnd acc c H0 Hb) as (pts & c' & Hrun & Hle & Hall).
  eapply safe_Ret; eauto.
Qed.

Ltac safe_step :=
  match goal with
  | |- safe (if ?b then _ else _) _ _ => destruct b
  | |- safe (bind _ _) _ _ => apply safe_bind
  | |- safe (ret _) _ _ => apply safe_ret
  | |- safe (readLE _ _ _) _ _ => apply safe_readLE; intros
  | |- safe (skipCrdtId _) _ _ => apply safe_skipCrdtId; [lia|]
  | |- safe (advance _) _ _ => apply safe_advance
  | |- safe (readV6Points _ _ _ _) _ _ =>
      apply safe_readV6Points; [lia|assumption|intros]
  end.

Lemma v6FieldSwitch_safe blockEnd st index type c :
  0 <= c -> blockEnd <= len ->
  Forall (fromV6Record buffer) (f_points st) ->
  safe (v6FieldSwitch buffer blockEnd st index type) c
       (fun st' c' => c <= c' /\ Forall (fromV6Record buffer) (f_points st')).
Proof.
  intros H0 Hb HP.
  pose proof (varuintSizeAt_bounds buffer c H0) as (Hv1 & _).
  pose proof (varuintSizeAt_bounds buffer (c + varuintSizeAt buffer c) ltac:(lia))
    as (Hv2 & _).
  unfold v6FieldSwitch, getUint32, getFloat32, getFloat64.
  destruct index as [|p|p];
    [|destruct p as [[[p|p|]|[p|p|]|]|[[p|p|]|[p|p|]|]|]|];
    repeat safe_step; cbn [f_points]; try (split; [lia|assumption]).
  all: try (split; [lia|apply Forall_app; split; assumption]).
  all: try (pose proof (leUnsigned_range buffer 4 c); unfold id; split; [lia|assumption]).
Qed.

Lemma parseV6Field_safe blockEnd st c :
  0 <= c < len -> blockEnd <= len ->
  Forall (fromV6Record buffer) (f_points st) ->
  safe (parseV6Field buffer blockEnd st) c
       (fun st' c' => c < c' /\ Forall (fromV6Record buffer) (f_points st')).
Proof.
  intros Hc Hb HP. unfold parseV6Field.
  apply safe_bind. apply safe_readVaruint; [lia|]. intros v. cbv zeta.
  pose proof (varuintSizeAt_bounds buffer c ltac:(lia)) as (Hv1 & Hv2 & _).
  eapply safe_weaken; [apply v6FieldSwitch_safe; try assumption; lia|].
  cbv beta. intros a c' [H1 H2]. split; [lia|assumption].
Qed.

Lemma parseV6Fields_safe blockEnd fuel : forall st c,
  0 <= c -> blockEnd <= len ->
  (Z.to_nat (blockEnd - c) < fuel)%nat ->
  Forall (fromV6Record buffer) (f_points st) ->
  safe (parseV6Fields buffer fuel blockEnd st) c
       (fun st' c' => c <= c' /\ Forall (fromV6Record buffer) (f_points st')).
Proof.
  induction fuel as [|fuel IH]; intros st c H0 Hb Hf HP; [lia|].
  cbn [parseV6Fields]. apply safe_bind, safe_getCursor.
  destruct (c <? blockEnd) eqn:E.
  - apply Z.ltb_lt in E. apply safe_bind.
    eapply safe_weaken; [apply parseV6Field_safe; try assumption; lia|].
    cbv beta. intros st' c' [H1 H2].
    eapply safe_weaken; [apply IH; try assumption; lia|].
    cbv beta. intros st'' c'' [H3 H4]. split; [lia|assumption].
  - apply safe_ret. split; [lia|assumption].
Qed.

(** [parseV6Stroke] always returns: its [catch] absorbs the exceptions. *)
Lemma parseV6Stroke_run blockEnd c :
  0 <= c -> blockEnd <= len ->
  exists r c', parseV6Stroke buffer blockEnd c = Ret r c' /\
    match r with
    | StrokeOk s => Forall (fromV6Record buffer) (points s) /\ layerIndex s = 0
    | StrokeErr e => True
    end.
Proof.
  intros H0 Hb. unfold parseV6Stroke.
  pose proof (parseV6Fields_safe blockEnd (S (Z.to_nat (blockEnd - c)))
                (mkV6Fields PenType.BALLPOINT RMColor.BLACK (Fin 1.0) []) c
                H0 Hb ltac:(lia) ltac:(constructor)) as Hs.
  unfold safe in Hs.
  destruct (parseV6Fields buffer (S (Z.to_nat (blockEnd - c))) blockEnd _ c)
    as [st c'|e c'|]; [| |contradiction].
  - eexists _, _. split; [reflexivity|]. cbn. split; [apply Hs|reflexivity].
  - eexists _, _. split; [reflexivity|]. exact I.
Qed.

End V6Safe.

(** ** The block scan *)

Section V6Scan.
Variable buffer : list Byte.byte.

Lemma bind_advance {B} n (k : unit -> M B) c : bind (advance n) k c = k tt (c + n).
Proof. reflexivity. Qed.

Lemma pushed_collected r :
  match r with
  | StrokeOk s => Forall (fromV6Record buffer) (points s) /\ layerIndex s = 0
  | StrokeErr _ => True
  end -> Forall (collectedV6 buffer) (pushed r).
Proof.
  destruct r as [s|e]; simpl; [|constructor].
  intros [H1 H2]. destruct (Z.of_nat (length (points s)) >? 0) eqn:E; constructor; [|constructor].
  repeat split; auto. intros Hnil. rewrite Hnil in E. discriminate.
Qed.

Lemma parseV6Blocks_run k : forall c,
  0 <= c -> (Z.to_nat (byteLength buffer - c) <= k)%nat ->
  exists new c',
    Forall (collectedV6 buffer) new /\
    forall fuel acc, (Z.to_nat (byteLength buffer - c) < fuel)%nat ->
      parseV6Blocks buffer fuel acc c = Ret (acc ++ new) c'.
Proof.
  induction k as [|k IH]; intros c H0 Hk.
  - exists [], c. split; [constructor|]. intros fuel acc Hf.
    destruct fuel as [|fuel]; [lia|]. cbn [parseV6Blocks]. rewrite bind_getCursor.
    destruct (c + 8 <=? byteLength buffer) eqn:E; [apply Z.leb_le in E; lia|].
    rewrite app_nil_r. reflexivity.
  - destruct (c + 8 <=? byteLength buffer) eqn:E.
    2:{ exists [], c. split; [constructor|]. intros fuel acc Hf.
        destruct fuel as [|fuel]; [lia|]. cbn [parseV6Blocks]. rewrite bind_getCursor.
        rewrite E. rewrite app_nil_r. reflexivity. }
    apply Z.leb_le in E.
    set (length := uint32At buffer c).
    set (flag := uint32At buffer (c + 4)).
    assert (Hlen : 0 <= length) by (apply leUnsigned_range).
    destruct (invalidBlock buffer length (c + 4 + 4)) eqn:Einv.
    { destruct (IH (c + 1) ltac:(lia) ltac:(lia)) as (new & c' & Hall & Hrun).
      exists new, c'. split; [exact Hall|]. intros fuel acc Hf.
      destruct fuel as [|fuel]; [lia|]. cbn [parseV6Blocks]. rewrite bind_getCursor.
      destruct (c + 8 <=? byteLength buffer) eqn:E'; [|apply Z.leb_gt in E'; lia].
      do 3 mstep. fold length. rewrite Einv. mstep. apply Hrun. lia. }
    assert (Hfit : 0 < length /\ c + 4 + 4 + length <= byteLength buffer).
    { unfold invalidBlock in Einv.
      apply orb_false_iff in Einv as [Einv _].
      apply orb_false_iff in Einv as [E1 E2].
      apply Z.eqb_neq in E1. rewrite Z.gtb_ltb in E2. apply Z.ltb_ge in E2. lia. }
    destruct (flag =? V6BlockType.LINE_DEF) eqn:Eflag.
    + destruct (parseV6Stroke_run buffer (c + 4 + 4 + length) (c + 4 + 4)
                  ltac:(lia) ltac:(lia)) as (r & c'' & Hstroke & Hr).
      destruct (IH (c + 4 + 4 + length) ltac:(lia) ltac:(lia))
        as (new & c' & Hall & Hrun).
      exists (pushed r ++ new), c'. split.
      { apply Forall_app. split; [apply pushed_collected; exact Hr|exact Hall]. }
      intros fuel acc Hf.
      destruct fuel as [|fuel]; [lia|]. cbn [parseV6Blocks]. rewrite bind_getCursor.
      destruct (c + 8 <=? byteLength buffer) eqn:E'; [|apply Z.leb_gt in E'; lia].
      do 3 mstep. fold length. rewrite Einv. fold flag. rewrite Eflag. cbv zeta.
      erewrite bind_Ret by exact Hstroke. cbv beta zeta. mstep.
      rewrite Hrun by lia. f_equal.
      destruct r as [s|e]; cbn [pushed].
      * destruct (Z.of_nat (List.length (points s)) >? 0);
          [rewrite <- app_assoc; reflexivity|reflexivity].
      * reflexivity.
    + destruct (IH (c + 4 + 4 + length) ltac:(lia) ltac:(lia))
        as (new & c' & Hall & Hrun).
      exists new, c'. split; [exact Hall|]. intros fuel acc Hf.
      destruct fuel as [|fuel]; [lia|]. cbn [parseV6Blocks]. rewrite bind_getCursor.
      destruct (c + 8 <=? byteLength buffer) eqn:E'; [|apply Z.leb_gt in E'; lia].
      do 3 mstep. fold length. rewrite Einv. fold flag. rewrite Eflag.
      rewrite bind_advance. apply Hrun. lia.
Qed.

Lemma scanV6_run c :
  0 <= c ->
  exists new c', Forall (collectedV6 buffer) new /\
    forall acc, scanV6 buffer acc c = Ret (acc ++ new) c'.
Proof.
  intros H0.
  destruct (parseV6Blocks_run _ c H0 (Nat.le_refl _)) as (new & c' & Hall & Hrun).
  exists new, c'. split; [exact Hall|]. intros acc. apply Hrun. lia.
Qed.

Lemma parseV6Blocks_fuel fuel acc c :
  0 <= c -> (Z.to_nat (byteLength buffer - c) < fuel)%nat ->
  parseV6Blocks buffer fuel acc c = scanV6 buffer acc c.
Proof.
  intros H0 Hf.
  destruct (parseV6Blocks_run _ c H0 (Nat.le_refl _)) as (new & c' & Hall & Hrun).
  unfold scanV6. rewrite !Hrun by lia. reflexivity.
Qed.

Lemma scanV6_rejected acc c :
  0 <= c -> c + 8 <= byteLength buffer -> rejectedAt buffer c ->
  scanV6 buffer acc c = scanV6 buffer acc (c + 1).
Proof.
  intros H0 H8 Hrej. unfold scanV6 at 1. cbn [parseV6Blocks].
  rewrite bind_getCursor.
  destruct (c + 8 <=? byteLength buffer) eqn:E'; [|apply Z.leb_gt in E'; lia].
  do 3 mstep. unfold rejectedAt in Hrej.
  replace (c + 4 + 4) with (c + 8) by lia. rewrite Hrej. mstep.
  apply parseV6Blocks_fuel; lia.
Qed.

Lemma scanV6_rejected_run acc d : forall c,
  0 <= c ->
  (forall k, c <= k < c + Z.of_nat d ->
     k + 8 <= byteLength buffer /\ rejectedAt buffer k) ->
  scanV6 buffer acc c = scanV6 buffer acc (c + Z.of_nat d).
Proof.
  induction d as [|d IH]; intros c H0 H.
  - f_equal. lia.
  - destruct (H c ltac:(lia)) as [H8 Hrej].
    rewrite scanV6_rejected by assumption.
    rewrite IH; [f_equal; lia|lia|].
    intros k Hk. apply H. lia.
Qed.

(** An accepted block: a positive length, and the whole block inside the
    buffer. *)
Lemma accepted_fits c :
  ~ rejectedAt buffer c ->
  invalidBlock buffer (uint32At buffer c) (c + 8) = false /\
  0 < uint32At buffer c <= 10000000 /\
  c + 8 + uint32At buffer c <= byteLength buffer.
Proof.
  intros Hacc. unfold rejectedAt in Hacc. apply not_true_is_false in Hacc.
  split; [exact Hacc|].
  pose proof (leUnsigned_range buffer 4 c) as Hlen. fold (uint32At buffer c) in Hlen.
  unfold invalidBlock in Hacc.
  apply orb_false_iff in Hacc as [Hacc E3].
  apply orb_false_iff in Hacc as [E1 E2].
  apply Z.eqb_neq in E1. rewrite Z.gtb_ltb in E2, E3.
  apply Z.ltb_ge in E2. apply Z.ltb_ge in E3. lia.
Qed.

Lemma scanV6_accepted_other acc c :
  0 <= c -> c + 8 <= byteLength buffer -> ~ rejectedAt buffer c ->
  uint32At buffer (c + 4) <> V6BlockType.LINE_DEF ->
  scanV6 buffer acc c = scanV6 buffer acc (c + 8 + uint32At buffer c).
Proof.
  intros H0 H8 Hacc Hflag. destruct (accepted_fits c Hacc) as (Hinv & Hlen & Hfit).
  apply Z.eqb_neq in Hflag.
  unfold scanV6 at 1. cbn [parseV6Blocks]. rewrite bind_getCursor.
  destruct (c + 8 <=? byteLength buffer) eqn:E'; [|apply Z.leb_gt in E'; lia].
  do 3 mstep. replace (c + 4 + 4) with (c + 8) by lia.
  fold (uint32At buffer c). fold (uint32At buffer (c + 4)).
  rewrite Hinv, Hflag. rewrite bind_advance.
  apply parseV6Blocks_fuel; lia.
Qed.

Lemma scanV6_accepted_line acc c r c' :
  0 <= c -> c + 8 <= byteLength buffer -> ~ rejectedAt buffer c ->
  uint32At buffer (c + 4) = V6BlockType.LINE_DEF ->
  parseV6Stroke buffer (c + 8 + uint32At buffer c) (c + 8) = Ret r c' ->
  scanV6 buffer acc c
    = scanV6 buffer (acc ++ pushed r) (c + 8 + uint32At buffer c).
Proof.
  intros H0 H8 Hacc Hflag Hstroke.
  destruct (accepted_fits c Hacc) as (Hinv & Hlen & Hfit).
  unfold scanV6 at 1. cbn [parseV6Blocks]. rewrite bind_getCursor.
  destruct (c + 8 <=? byteLength buffer) eqn:E'; [|apply Z.leb_gt in E'; lia].
  do 3 mstep. replace (c + 4 + 4) with (c + 8) by lia.
  fold (uint32At buffer c). fold (uint32At buffer (c + 4)).
  rewrite Hinv, Hflag. cbn [Z.eqb V6BlockType.LINE_DEF Pos.eqb]. cbv zeta.
  erewrite bind_Ret by exact Hstroke. cbv beta zeta. mstep.
  rewrite parseV6Blocks_fuel by lia. f_equal.
  destruct r as [s|e]; cbn [pushed].
  - destruct (Z.of_nat (List.length (points s)) >? 0);
      [reflexivity|rewrite app_nil_r; reflexivity].
  - rewrite app_nil_r. reflexivity.
Qed.

(** Fewer than eight bytes are left: the scan ends. *)
Lemma scanV6_end acc c :
  byteLength buffer < c + 8 -> scanV6 buffer acc c = Ret acc c.
Proof.
  intros H. unfold scanV6. cbn [parseV6Blocks]. rewrite bind_getCursor.
  destruct (c + 8 <=? byteLength buffer) eqn:E; [apply Z.leb_le in E; lia|].
  reflexivity.
Qed.

(** After a run of refused offsets, the stroke of an accepted
    line-definition block is collected, behind the strokes collected
    before it and ahead of those of the blocks that follow. *)
Lemma scanV6_resumes acc (d : nat) c :
  0 <= c ->
  (forall k, c <= k < c + Z.of_nat d ->
     k + 8 <= byteLength buffer /\ rejectedAt buffer k) ->
  c + Z.of_nat d + 8 <= byteLength buffer ->
  ~ rejectedAt buffer (c + Z.of_nat d) ->
  uint32At buffer (c + Z.of_nat d + 4) = V6BlockType.LINE_DEF ->
  exists r c1 rest c',
    parseV6Stroke buffer
      (c + Z.of_nat d + 8 + uint32At buffer (c + Z.of_nat d))
      (c + Z.of_nat d + 8) = Ret r c1 /\
    Forall (collectedV6 buffer) rest /\
    scanV6 buffer acc c = Ret (acc ++ pushed r ++ rest) c'.
Proof.
  intros H0 Hrun H8 Hacc Hflag.
  destruct (accepted_fits _ Hacc) as (_ & Hlen & Hfit).
  destruct (parseV6Stroke_run buffer
              (c + Z.of_nat d + 8 + uint32At buffer (c + Z.of_nat d))
              (c + Z.of_nat d + 8) ltac:(lia) ltac:(lia)) as (r & c1 & Hstroke & _).
  destruct (scanV6_run (c + Z.of_nat d + 8 + uint32At buffer (c + Z.of_nat d))
              ltac:(lia)) as (rest & c' & Hall & Hrest).
  exists r, c1, rest, c'. split; [exact Hstroke|]. split; [exact Hall|].
  rewrite (scanV6_rejected_run acc d c H0 Hrun).
  rewrite (scanV6_accepted_line acc _ r c1) by (assumption || lia).
  rewrite Hrest, <- app_assoc. reflexivity.
Qed.

Lemma parseV6_run version c0 :
  exists strokes c',
    scanV6 buffer [] V6_HEADER_SIZE = Ret strokes c' /\
    Forall (collectedV6 buffer) strokes /\
    parseV6 buffer version c0 =
      Ret (Success (mkParsedDocument version [strokes])) c'.
Proof.
  destruct (scanV6_run V6_HEADER_SIZE ltac:(unfold V6_HEADER_SIZE; lia))
    as (new & c' & Hall & Hrun).
  exists new, c'. split; [apply (Hrun [])|]. split; [exact Hall|].
  unfold parseV6. mstep. mstep.
  erewrite bind_Ret by (apply (Hrun [])). reflexivity.
Qed.

End V6Scan.

(** ** The header *)

Section Header.
Variable buffer : list Byte.byte.
Variable decode : list Byte.byte -> list Z.

Let headerText : list Z := headerTextOf decode buffer.

Lemma validateHeader_small :
  byteLength buffer < 33 ->
  validateHeader buffer decode =
    invalidHeader ("File too small: " +:+ pretty (byteLength buffer)
                   +:+ " bytes, minimum 33 required").
Proof.
  intros H. unfold validateHeader.
  destruct (byteLength buffer <? 33) eqn:E; [reflexivity|apply Z.ltb_ge in E; lia].
Qed.

Lemma validateHeader_large :
  33 <= byteLength buffer ->
  validateHeader buffer decode =
    if startsWith headerText HEADER_V6 then mkHeaderValidation true V6 None
    else if startsWith headerText HEADER_V5 then mkHeaderValidation true V5 None
    else if startsWith headerText HEADER_V3 then mkHeaderValidation true V3 None
    else if startsWith headerText "reMarkable .lines file, version=" then
      match matchVersion headerText with
      | Some digits =>
          invalidHeader ("Unsupported version: " +:+ pretty (parseInt10 digits)
                         +:+ ". Supported versions: 3, 5, 6")
      | None => invalidHeader "Invalid file format: missing reMarkable header magic string"
      end
    else invalidHeader "Invalid file format: missing reMarkable header magic string".
Proof.
  intros H. unfold validateHeader.
  destruct (byteLength buffer <? 33) eqn:E; [apply Z.ltb_lt in E; lia|reflexivity].
Qed.

Lemma parse_invalid e :
  validateHeader buffer decode = invalidHeader e -> e <> EmptyString ->
  parse buffer decode = Some (Failure (mkParseError e (Some 0) None)).
Proof.
  intros H He. unfold parse. rewrite H. cbn.
  destruct (String.eqb e EmptyString) eqn:E; [apply String.eqb_eq in E; contradiction|reflexivity].
Qed.

Lemma parse_total : exists r, parse buffer decode = Some r.
Proof.
  unfold parse.
  destruct (negb (valid (validateHeader buffer decode))); [eauto|].
  destruct (hv_version (validateHeader buffer decode)).
  - destruct (parseV5_outcome buffer V3 0 ltac:(auto)) as (r & c & -> & _). eauto.
  - destruct (parseV5_outcome buffer V5 0 ltac:(auto)) as (r & c & -> & _). eauto.
  - destruct (parseV6_run buffer V6 0) as (s & c & _ & _ & ->). eauto.
  - eauto.
Qed.

Lemma parse_success_valid doc :
  parse buffer decode = Some (Success doc) ->
  valid (validateHeader buffer decode) = true.
Proof.
  unfold parse. destruct (valid (validateHeader buffer decode)); [reflexivity|].
  cbn. discriminate.
Qed.

Lemma takeDigits_run ds rest :
  Forall (fun c => isDigit c = true) ds -> noDigitAhead rest ->
  takeDigits (ds ++ rest) = ds.
Proof.
  intros Hds Hrest. induction Hds as [|d ds Hd _ IH]; cbn [app takeDigits].
  - destruct rest as [|r rest]; [reflexivity|]. simpl in Hrest. cbn [takeDigits]. now rewrite Hrest.
  - rewrite Hd, IH. reflexivity.
Qed.

Lemma stripPrefix_app p t : stripPrefix p (p ++ t) = Some t.
Proof.
  induction p as [|x p IH]; [destruct t; reflexivity|].
  cbn [app stripPrefix]. rewrite Z.eqb_refl. exact IH.
Qed.

Lemma matchVersion_skip c rest :
  c <> 118 -> matchVersion (c :: rest) = matchVersion rest.
Proof.
  intros Hc. cbn [matchVersion].
  replace (stripPrefix (codeUnits "version=") (c :: rest)) with (@None (list Z));
    [reflexivity|].
  let v := eval vm_compute in (codeUnits "version=") in
    change (codeUnits "version=") with v.
  cbn [stripPrefix]. destruct (118 =? c) eqn:E; [apply Z.eqb_eq in E; lia|reflexivity].
Qed.

Lemma matchVersion_hit d ds rest :
  isDigit d = true -> Forall (fun c => isDigit c = true) ds -> noDigitAhead rest ->
  matchVersion (codeUnits "version=" ++ d :: ds ++ rest) = Some (d :: ds).
Proof.
  intros Hd Hds Hrest.
  assert (E : exists x t, codeUnits "version=" ++ d :: ds ++ rest = x :: t)
    by (eexists _, _; reflexivity).
  destruct E as (x & t & E).
  pose proof (stripPrefix_app (codeUnits "version=") (d :: ds ++ rest)) as Hs.
  rewrite E in *. cbn [matchVersion]. rewrite Hs.
  cbn [takeDigits]. rewrite Hd. rewrite takeDigits_run by assumption. reflexivity.
Qed.

Lemma matchVersion_magic d ds rest :
  isDigit d = true -> Forall (fun c => isDigit c = true) ds -> noDigitAhead rest ->
  matchVersion (codeUnits HEADER_MAGIC ++ d :: ds ++ rest) = Some (d :: ds).
Proof.
  intros Hd Hds Hrest.
  change (codeUnits HEADER_MAGIC)
    with (codeUnits "reMarkable .lines file, " ++ codeUnits "version=").
  rewrite <- app_assoc.
  let v := eval vm_compute in (codeUnits "reMarkable .lines file, ") in
    change (codeUnits "reMarkable .lines file, ") with v.
  cbn [app].
  repeat (rewrite matchVersion_skip by discriminate).
  apply matchVersion_hit; assumption.
Qed.

Lemma startsWith_app (p : string) rest : startsWith (codeUnits p ++ rest) p = true.
Proof. unfold startsWith. apply bool_decide_eq_true. apply prefix_app_r. reflexivity. Qed.

Lemma startsWith_magic_digit (d x : Z) rest :
  d <> x ->
  bool_decide ((codeUnits HEADER_MAGIC ++ [x]) `prefix_of`
               (codeUnits HEADER_MAGIC ++ d :: rest)) = false.
Proof.
  intros Hne. apply bool_decide_eq_false. intros Hp.
  apply prefix_app_inv in Hp. apply prefix_cons_inv_1 in Hp. congruence.
Qed.

Lemma recognized_magic_digit d rest :
  d <> 51 -> d <> 53 -> d <> 54 ->
  recognized (codeUnits HEADER_MAGIC ++ d :: rest) = false.
Proof.
  intros H3 H5 H6. unfold recognized, startsWith.
  change (codeUnits HEADER_V6) with (codeUnits HEADER_MAGIC ++ [54]).
  change (codeUnits HEADER_V5) with (codeUnits HEADER_MAGIC ++ [53]).
  change (codeUnits HEADER_V3) with (codeUnits HEADER_MAGIC ++ [51]).
  rewrite !startsWith_magic_digit by assumption. reflexivity.
Qed.

Lemma parse_recognized_false :
  33 <= byteLength buffer -> recognized headerText = false ->
  parse buffer decode =
    Some (Failure
      (if startsWith headerText HEADER_MAGIC then
         match matchVersion headerText with
         | Some digits => unsupportedVersionError (parseInt10 digits)
         | None => invalidFormatError
         end
       else invalidFormatError)).
Proof.
  intros Hlen Hrec. unfold recognized in Hrec.
  apply orb_false_iff in Hrec as [Hrec H3]. apply orb_false_iff in Hrec as [H6 H5].
  pose proof (validateHeader_large Hlen) as Hv. fold headerText in Hv.
  unfold headerTextOf in *. fold headerText in Hv.
  rewrite H6, H5, H3 in Hv.
  change (startsWith headerText "reMarkable .lines file, version=")
    with (startsWith headerText HEADER_MAGIC) in Hv.
  destruct (startsWith headerText HEADER_MAGIC).
  - destruct (matchVersion headerText) as [ds|].
    + apply parse_invalid; [exact Hv|]. discriminate.
    + apply parse_invalid; [exact Hv|]. discriminate.
  - apply parse_invalid; [exact Hv|]. discriminate.
Qed.

(** C1. [parse] succeeds only when the header text starts with
    one of the three recognised prefixes.  A buffer shorter than 33 bytes is
    refused as too small.  A buffer of at least 33 bytes with none of the
    three prefixes gets the generic invalid-format error when its text does
    not start with the general magic, and otherwise the unsupported-version
    error naming the number captured after [version=] (the generic error
    when nothing is captured); when the magic is followed by a run of digits
    whose first digit is not 3, 5 or 6, the error names the value of that
    run.  The unsupported-version message differs from the other two. *)
Theorem header_classification :
  (forall doc, parse buffer decode = Some (Success doc) ->
     recognized headerText = true) /\
  (byteLength buffer < 33 ->
     parse buffer decode = Some (Failure (fileTooSmallError (byteLength buffer)))) /\
  (33 <= byteLength buffer -> recognized headerText = false ->
     startsWith headerText HEADER_MAGIC = false ->
     parse buffer decode = Some (Failure invalidFormatError)) /\
  (33 <= byteLength buffer -> recognized headerText = false ->
     startsWith headerText HEADER_MAGIC = true ->
     parse buffer decode =
       Some (Failure match matchVersion headerText with
                     | Some digits => unsupportedVersionError (parseInt10 digits)
                     | None => invalidFormatError
                     end)) /\
  (forall d ds rest,
     33 <= byteLength buffer ->
     headerText = codeUnits HEADER_MAGIC ++ d :: ds ++ rest ->
     isDigit d = true -> Forall (fun c => isDigit c = true) ds ->
     noDigitAhead rest ->
     d <> 51 -> d <> 53 -> d <> 54 ->
     parse buffer decode =
       Some (Failure (unsupportedVersionError (parseInt10 (d :: ds))))) /\
  (forall n size,
     message (unsupportedVersionError n) <> message invalidFormatError /\
     message (unsupportedVersionError n) <> message (fileTooSmallError size)).
Proof.
  split; [|split; [|split; [|split; [|split]]]].
  - intros doc Hp. pose proof (parse_success_valid _ Hp) as Hv.
    destruct (Z_lt_le_dec (byteLength buffer) 33) as [Hs|Hl].
    + rewrite validateHeader_small in Hv by assumption. discriminate.
    + rewrite validateHeader_large in Hv by assumption.
      unfold recognized. fold headerText in Hv. unfold headerTextOf in *.
      fold headerText in Hv.
      destruct (startsWith headerText HEADER_V6); [reflexivity|].
      destruct (startsWith headerText HEADER_V5); [reflexivity|].
      destruct (startsWith headerText HEADER_V3); [reflexivity|].
      destruct (startsWith headerText "reMarkable .lines file, version=");
        [destruct (matchVersion headerText)|]; discriminate.
  - intros Hs. apply parse_invalid; [apply validateHeader_small; assumption|].
    discriminate.
  - intros Hl Hrec Hm. rewrite parse_recognized_false by assumption.
    rewrite Hm. reflexivity.
  - intros Hl Hrec Hm. rewrite parse_recognized_false by assumption.
    rewrite Hm. reflexivity.
  - intros d ds rest Hl Ht Hd Hds Hrest H3 H5 H6.
    rewrite parse_recognized_false;
      [|assumption|rewrite Ht; apply recognized_magic_digit; assumption].
    rewrite Ht. rewrite startsWith_app.
    rewrite matchVersion_magic by assumption. reflexivity.
  - intros n size. split; discriminate.
Qed.

End Header.

(** ** Math.min and Math.max on finite numbers *)

Lemma min2_Fin a b : min2 (Fin a) (Fin b) = if Qltb b a then Fin b else Fin a.
Proof. reflexivity. Qed.

Lemma Math_min_Fin (qs : list Q) :
  qs <> [] ->
  exists m, Math_min (Fin <$> qs) = Fin m /\ m ∈ qs /\ Forall (fun q => (m <= q)%Q) qs.
Proof.
  induction qs as [|q qs IH]; [congruence|]. intros _.
  destruct qs as [|q' qs].
  - exists q. cbn. split; [reflexivity|]. split; [left|].
    constructor; [apply Qle_refl|constructor].
  - destruct (IH ltac:(discriminate)) as (m & Hm & Hin & Hall).
    change (Math_min (Fin <$> q :: q' :: qs))
      with (min2 (Fin q) (Math_min (Fin <$> q' :: qs))).
    rewrite Hm, min2_Fin.
    destruct (Qltb m q) eqn:E; qbool.
    + exists m. split; [reflexivity|]. split; [right; exact Hin|].
      constructor; [apply Qlt_le_weak; exact E|exact Hall].
    + exists q. split; [reflexivity|]. split; [left|].
      constructor; [apply Qle_refl|].
      eapply Forall_impl; [exact Hall|]. cbv beta. intros x Hx.
      eapply Qle_trans; eauto.
Qed.

Lemma finite_list (l : list number) :
  Forall (fun a => isFinite a = true) l -> exists qs, l = Fin <$> qs.
Proof.
  induction 1 as [|a l Ha _ [qs ->]]; [exists []; reflexivity|].
  destruct a as [| |q|]; try discriminate. exists (q :: qs). reflexivity.
Qed.

(** Translating a non-empty list of finite numbers by its minimum puts the
    minimum at zero. *)
Lemma Math_min_translated (l : list number) :
  l <> [] -> Forall (fun a => isFinite a = true) l ->
  num_eqb (Math_min ((fun a => num_sub a (Math_min l)) <$> l)) (Fin 0) = true.
Proof.
  intros Hne Hfin. destruct (finite_list l Hfin) as [qs ->].
  assert (Hq : qs <> []) by (destruct qs; [contradiction|discriminate]).
  destruct (Math_min_Fin qs Hq) as (m & Hm & Hin & Hall). rewrite Hm.
  rewrite <- list_fmap_compose.
  change ((fun a => num_sub a (Fin m)) ∘ Fin) with (Fin ∘ (fun q => (q - m)%Q)).
  rewrite list_fmap_compose.
  assert (Hq' : (fun q => (q - m)%Q) <$> qs <> []) by (destruct qs; [contradiction|discriminate]).
  destruct (Math_min_Fin _ Hq') as (m' & Hm' & Hin' & Hall'). rewrite Hm'.
  cbn [num_eqb]. apply Qeq_bool_iff.
  apply list_elem_of_fmap in Hin' as (q & -> & Hq_in).
  rewrite Forall_forall in Hall, Hall'.
  pose proof (Hall q Hq_in) as H1.
  pose proof (Hall' (m - m)%Q ltac:(apply list_elem_of_fmap; exists m; auto)) as H2.
  lra.
Qed.

Section ConverterFacts.
Variables G C : Type.
Variable generateId : G -> string * G.
Variable generateSeed : G -> Z * G.
Variable Date_now : C -> Z * C.

Lemma sbind_callNow {B} (k : Z -> Svc G C B) g c :
  sbind G C (callNow G C Date_now) k (g, c) = k (Date_now c).1 (g, (Date_now c).2).
Proof. unfold sbind, callNow. cbn [fst snd]. destruct (Date_now c); reflexivity. Qed.

Lemma sbind_callId {B} (k : string -> Svc G C B) g c :
  sbind G C (callId G C generateId) k (g, c) = k (generateId g).1 ((generateId g).2, c).
Proof. unfold sbind, callId. cbn [fst snd]. destruct (generateId g); reflexivity. Qed.

Lemma sbind_callSeed {B} (k : Z -> Svc G C B) g c :
  sbind G C (callSeed G C generateSeed) k (g, c)
    = k (generateSeed g).1 ((generateSeed g).2, c).
Proof. unfold sbind, callSeed. cbn [fst snd]. destruct (generateSeed g); reflexivity. Qed.

Lemma sbind_proj {A B} (m : Svc G C A) (k : A -> Svc G C B) w :
  sbind G C m k w = k (m w).1 (m w).2.
Proof. unfold sbind. destruct (m w); reflexivity. Qed.

Lemma sbind_sret {A B} (a : A) (k : A -> Svc G C B) w :
  sbind G C (sret G C a) k w = k a w.
Proof. reflexivity. Qed.

Lemma convertStroke_empty this stroke layerIndex w :
  points stroke = [] ->
  convertStroke G C generateId generateSeed Date_now this stroke layerIndex w = (None, w).
Proof. intros H. unfold convertStroke. rewrite H. reflexivity. Qed.

Lemma convertStroke_nonempty this stroke layerIndex w :
  points stroke <> [] ->
  exists e w',
    convertStroke G C generateId generateSeed Date_now this stroke layerIndex w
      = (Some e, w') /\
    let xs := p_x <$> points stroke in
    let ys := p_y <$> points stroke in
    fd_x e = Math_min xs /\ fd_y e = Math_min ys /\
    fd_width e = num_sub (Math_max xs) (Math_min xs) /\
    fd_height e = num_sub (Math_max ys) (Math_min ys) /\
    fd_points e =
      (fun p => (num_sub (p_x p) (Math_min xs), num_sub (p_y p) (Math_min ys)))
        <$> points stroke /\
    fd_strokeWidth e =
      calculateStrokeWidth (width stroke)
        (baseMultiplier (getPenCharacteristics (pen stroke)))
        (strokeWidthScale (options this)) /\
    fd_strokeColor e = getHexColor (color stroke) /\
    fd_type e = "freedraw".
Proof.
  intros Hne. unfold convertStroke.
  destruct (Z.of_nat (length (points stroke)) =? 0) eqn:E.
  { apply Z.eqb_eq in E. destruct (points stroke); [contradiction|simpl in E; lia]. }
  destruct w as [g c].
  rewrite sbind_callNow, sbind_callId, sbind_callSeed, sbind_callNow.
  unfold sret.
  eexists _, _. split; [reflexivity|]. cbn [fd_x fd_y fd_width fd_height fd_points
    fd_strokeWidth fd_strokeColor fd_type].
  rewrite <- !list_fmap_compose.
  repeat split; reflexivity.
Qed.

(** C6. For a stroke with at least one point, the freehand
    element sits at the minimum x and y of the raw points, its width and
    height are [maxX - minX] and [maxY - minY], and every output point is the
    raw point minus that minimum.  When all coordinates are finite, the
    minimum of the relative x coordinates and that of the relative y
    coordinates are 0. *)
Theorem stroke_bounding_box this stroke layerIndex w :
  points stroke <> [] ->
  exists e w',
    convertStroke G C generateId generateSeed Date_now this stroke layerIndex w
      = (Some e, w') /\
    let xs := p_x <$> points stroke in
    let ys := p_y <$> points stroke in
    fd_x e = Math_min xs /\ fd_y e = Math_min ys /\
    fd_width e = num_sub (Math_max xs) (Math_min xs) /\
    fd_height e = num_sub (Math_max ys) (Math_min ys) /\
    fd_points e =
      (fun p => (num_sub (p_x p) (Math_min xs), num_sub (p_y p) (Math_min ys)))
        <$> points stroke /\
    (Forall (fun p => isFinite (p_x p) = true /\ isFinite (p_y p) = true)
            (points stroke) ->
     num_eqb (Math_min (fst <$> fd_points e)) (Fin 0) = true /\
     num_eqb (Math_min (snd <$> fd_points e)) (Fin 0) = true).
Proof.
  intros Hne.
  destruct (convertStroke_nonempty this stroke layerIndex w Hne)
    as (e & w' & Hrun & Hx & Hy & Hw & Hh & Hp & _).
  exists e, w'. split; [exact Hrun|]. cbv zeta in *.
  repeat (split; [assumption|]).
  intros Hfin. rewrite Hp, <- !list_fmap_compose.
  assert (Hxs : p_x <$> points stroke <> [])
    by (destruct (points stroke); [contradiction|discriminate]).
  assert (Hys : p_y <$> points stroke <> [])
    by (destruct (points stroke); [contradiction|discriminate]).
  split.
  - change (fst ∘ _) with
      ((fun a => num_sub a (Math_min (p_x <$> points stroke))) ∘ p_x).
    rewrite list_fmap_compose. apply Math_min_translated; [exact Hxs|].
    apply Forall_fmap. eapply Forall_impl; [exact Hfin|]. cbv beta. tauto.
  - change (snd ∘ _) with
      ((fun a => num_sub a (Math_min (p_y <$> points stroke))) ∘ p_y).
    rewrite list_fmap_compose. apply Math_min_translated; [exact Hys|].
    apply Forall_fmap. eapply Forall_impl; [exact Hfin|]. cbv beta. tauto.
Qed.

Local Abbreviation convertStroke' := (convertStroke G C generateId generateSeed Date_now).
Local Abbreviation convertLayer' := (convertLayer G C generateId generateSeed Date_now).
Local Abbreviation convertLayers' := (convertLayers G C generateId generateSeed Date_now).
Local Abbreviation convert' := (convert G C generateId generateSeed Date_now).
Local Abbreviation convertedFrom' := (convertedFrom G C generateId generateSeed Date_now).

Lemma emitted_false o s :
  emitted o s = false <->
  points s = [] \/ (includeEraser o = false /\ isEraserStroke s = true).
Proof.
  unfold emitted. destruct (points s) as [|p ps]; cbn.
  - split; auto.
  - destruct (includeEraser o), (isEraserStroke s); cbn; split; auto;
      intros [H|[H1 H2]]; congruence.
Qed.

Lemma convertLayer_run this layer : forall layerIndex elements w,
  exists es w',
    convertLayer' this layer layerIndex elements w
      = (elements ++ (Freedraw <$> es), w') /\
    Forall2 (convertedFrom' this) es
            (filter (fun s => emitted (options this) s = true) layer).
Proof.
  induction layer as [|s layer IH]; intros layerIndex elements w.
  - exists [], w. cbn. rewrite app_nil_r. split; [reflexivity|constructor].
  - cbn [convertLayer]. rewrite filter_cons.
    destruct (negb (includeEraser (options this)) && isEraserStroke s) eqn:Eer.
    + destruct (IH layerIndex elements w) as (es & w' & Hrun & Hall).
      exists es, w'. split; [exact Hrun|].
      assert (Hem : emitted (options this) s = false).
      { apply emitted_false. right. apply andb_true_iff in Eer as [H1 H2].
        split; [destruct (includeEraser (options this)); [discriminate|reflexivity]|exact H2]. }
      destruct (decide (emitted (options this) s = true)); [congruence|exact Hall].
    + destruct (points s) as [|p ps] eqn:Ep.
      * unfold sbind. rewrite convertStroke_empty by exact Ep.
        destruct (IH layerIndex elements w) as (es & w' & Hrun & Hall).
        exists es, w'. split; [exact Hrun|].
        assert (Hem : emitted (options this) s = false)
          by (apply emitted_false; left; exact Ep).
        destruct (decide (emitted (options this) s = true)); [congruence|exact Hall].
      * destruct (convertStroke_nonempty this s layerIndex w
                    ltac:(rewrite Ep; discriminate))
          as (e & w1 & Hrun1 & _).
        unfold sbind. rewrite Hrun1.
        destruct (IH layerIndex (elements ++ [Freedraw e]) w1)
          as (es & w' & Hrun & Hall).
        exists (e :: es), w'. split.
        { rewrite Hrun. rewrite <- app_assoc. reflexivity. }
        assert (Hem : emitted (options this) s = true).
        { unfold emitted. rewrite Ep. cbn.
          destruct (includeEraser (options this)), (isEraserStroke s);
            cbn in *; congruence. }
        destruct (decide (emitted (options this) s = true)); [|congruence].
        constructor; [|exact Hall]. exists layerIndex, w, w1. exact Hrun1.
Qed.

Lemma convertLayers_run this layers : forall layerIndex elements w,
  exists es w',
    convertLayers' this layers layerIndex elements w
      = (elements ++ (Freedraw <$> es), w') /\
    Forall2 (convertedFrom' this) es
            (filter (fun s => emitted (options this) s = true) (concat layers)).
Proof.
  induction layers as [|layer layers IH]; intros layerIndex elements w.
  - exists [], w. cbn. rewrite app_nil_r. split; [reflexivity|constructor].
  - cbn [convertLayers concat]. unfold sbind.
    destruct (convertLayer_run this layer layerIndex elements w)
      as (es1 & w1 & Hrun1 & Hall1).
    rewrite Hrun1.
    destruct (IH (layerIndex + 1) (elements ++ (Freedraw <$> es1)) w1)
      as (es2 & w2 & Hrun2 & Hall2).
    exists (es1 ++ es2), w2. split.
    + rewrite Hrun2, fmap_app, app_assoc. reflexivity.
    + rewrite filter_app. apply Forall2_app; assumption.
Qed.

Lemma filter_none {A} (f : A -> bool) (l : list A) :
  Forall (fun a => f a = false) l -> filter (fun a => f a = true) l = [].
Proof.
  induction 1 as [|a l Ha _ IH]; [reflexivity|].
  rewrite filter_cons. destruct (decide (f a = true)); [congruence|exact IH].
Qed.

Lemma freehand_app_Freedraw l es :
  freehandElements (l ++ (Freedraw <$> es)) = freehandElements l ++ es.
Proof.
  unfold freehandElements. rewrite omap_app. f_equal.
  induction es as [|e es IH]; [reflexivity|]. cbn. now rewrite IH.
Qed.

Lemma image_app_Freedraw l es :
  imageElements (l ++ (Freedraw <$> es)) = imageElements l.
Proof.
  unfold imageElements. rewrite omap_app.
  replace (omap _ (Freedraw <$> es)) with (@nil ExcalidrawImageElement);
    [apply app_nil_r|].
  induction es as [|e es IH]; [reflexivity|]. cbn. exact IH.
Qed.

(** The shape of [convert]: a prefix holding at most the background image,
    the group identifiers, then the layers. *)
Lemma convert_shape this document w :
  exists start fs ids w1 w2,
    (match backgroundImage this with
     | Some _ => exists im, start = [Image im]
     | None => start = []
     end) /\
    let this' := mkConverter (options this) ids (backgroundImage this) in
    convertLayers' this' (layers document) 0 start w1 = (elements
       (convertOutput G C generateId generateSeed Date_now this document w), w2) /\
    converterAfter G C generateId generateSeed Date_now this document w = this' /\
    files (convertOutput G C generateId generateSeed Date_now this document w) = fs.
Proof.
  unfold convertOutput, converterAfter, convert.
  rewrite !sbind_proj. unfold sret. cbn [fst snd elements files].
  eexists _, _, _, _, _. split; [|cbv zeta; split; [|split; reflexivity]].
  2:{ apply surjective_pairing. }
  destruct (backgroundImage this) as [bg|].
  - rewrite !sbind_proj. unfold sret. cbn [fst snd]. eexists. reflexivity.
  - reflexivity.
Qed.

(** The elements of [convert]: nothing for a stroke without points or,
    when [includeEraser] is false, for an eraser stroke; one freehand
    element for every other stroke, in order, after at most one background
    image. *)
Lemma convert_filtering this document w :
  let out := convertOutput G C generateId generateSeed Date_now this document w in
  let this' := converterAfter G C generateId generateSeed Date_now this document w in
  let kept := filter (fun s => emitted (options this) s = true)
                     (concat (layers document)) in
  (forall s, emitted (options this) s = false <->
     points s = [] \/ (includeEraser (options this) = false /\ isEraserStroke s = true)) /\
  elements out = (Image <$> imageElements (elements out))
                 ++ (Freedraw <$> freehandElements (elements out)) /\
  Forall2 (convertedFrom G C generateId generateSeed Date_now this')
          (freehandElements (elements out)) kept /\
  length (freehandElements (elements out)) = length kept /\
  length (imageElements (elements out))
    = match backgroundImage this with Some _ => 1%nat | None => 0%nat end /\
  (includeEraser (options this) = false ->
   Forall (fun s => isEraserStroke s = true) (concat (layers document)) ->
   freehandElements (elements out) = []).
Proof.
  cbv zeta.
  destruct (convert_shape this document w)
    as (start & fs & ids & w1 & w2 & Hstart & Hrun & Hafter & _).
  cbv zeta in Hrun. rewrite Hafter.
  destruct (convertLayers_run (mkConverter (options this) ids (backgroundImage this))
              (layers document) 0 start w1) as (es & w2' & Hrun' & Hall).
  rewrite Hrun in Hrun'. injection Hrun' as Hel _. cbn [options] in Hall.
  assert (Hfree : freehandElements start = [] /\
                  start = Image <$> imageElements start /\
                  length (imageElements start)
                    = match backgroundImage this with Some _ => 1%nat | None => 0%nat end).
  { destruct (backgroundImage this); [destruct Hstart as [im ->]|subst start];
      repeat split; reflexivity. }
  destruct Hfree as (Hf1 & Hf2 & Hf3).
  rewrite Hel, freehand_app_Freedraw, image_app_Freedraw, Hf1. cbn [app].
  split; [intros s; apply emitted_false|].
  split; [rewrite <- Hf2; reflexivity|].
  split; [exact Hall|].
  split; [eapply Forall2_length; exact Hall|].
  split; [exact Hf3|].
  intros Hinc Hers.
  assert (Hk : filter (fun s => emitted (options this) s = true)
                      (concat (layers document)) = []).
  { apply filter_none. eapply Forall_impl; [exact Hers|]. cbv beta.
    intros s Hs. apply emitted_false. right. auto. }
  rewrite Hk in Hall. inversion Hall. reflexivity.
Qed.

End ConverterFacts.

(** ** Conversion and the clock *)

Section Determinism.
Variables G C : Type.
Variable generateId : G -> string * G.
Variable generateSeed : G -> Z * G.
Variable Date_now : C -> Z * C.

Local Abbreviation timeBlind' := (timeBlind G C).

Lemma tb_sret {A} (R : A -> A -> Prop) a1 a2 :
  R a1 a2 -> timeBlind' R (sret G C a1) (sret G C a2).
Proof. intros H g c1 c2. split; [exact H|reflexivity]. Qed.

Lemma tb_sbind {A B} (R : A -> A -> Prop) (S : B -> B -> Prop)
    (m1 m2 : Svc G C A) (k1 k2 : A -> Svc G C B) :
  timeBlind' R m1 m2 ->
  (forall a1 a2, R a1 a2 -> timeBlind' S (k1 a1) (k2 a2)) ->
  timeBlind' S (sbind G C m1 k1) (sbind G C m2 k2).
Proof.
  intros Hm Hk g c1 c2. unfold sbind.
  destruct (Hm g c1 c2) as [HR Hg].
  destruct (m1 (g, c1)) as [a1 [g1 c1']], (m2 (g, c2)) as [a2 [g2 c2']].
  cbn [fst snd] in *. subst g2. apply (Hk a1 a2 HR).
Qed.

Lemma tb_callId : timeBlind' eq (callId G C generateId) (callId G C generateId).
Proof.
  intros g c1 c2. unfold callId. cbn [fst snd].
  destruct (generateId g). split; reflexivity.
Qed.

Lemma tb_callSeed :
  timeBlind' eq (callSeed G C generateSeed) (callSeed G C generateSeed).
Proof.
  intros g c1 c2. unfold callSeed. cbn [fst snd].
  destruct (generateSeed g). split; reflexivity.
Qed.

Lemma tb_callNow :
  timeBlind' (fun _ _ => True) (callNow G C Date_now) (callNow G C Date_now).
Proof.
  intros g c1 c2. unfold callNow. cbn [fst snd].
  destruct (Date_now c1), (Date_now c2). split; [exact I|reflexivity].
Qed.

Local Abbreviation convertStroke' := (convertStroke G C generateId generateSeed Date_now).
Local Abbreviation convertLayer' := (convertLayer G C generateId generateSeed Date_now).
Local Abbreviation convertLayers' := (convertLayers G C generateId generateSeed Date_now).
Local Abbreviation assignGroupIds' := (assignGroupIds G C generateId).

Lemma tb_weaken {A} (R S : A -> A -> Prop) (m1 m2 : Svc G C A) :
  timeBlind' R m1 m2 -> (forall a1 a2, R a1 a2 -> S a1 a2) -> timeBlind' S m1 m2.
Proof. intros H HRS g c1 c2. destruct (H g c1 c2). split; auto. Qed.

Lemma tb_convertStroke this1 this2 stroke layerIndex :
  options this1 = options this2 ->
  (layerGroupIds this1 !! layerIndex = layerGroupIds this2 !! layerIndex \/
   preserveLayers (options this2) = false) ->
  timeBlind'
    (fun o1 o2 => (fun e => eraseTimeElement (Freedraw e)) <$> o1
                  = (fun e => eraseTimeElement (Freedraw e)) <$> o2)
    (convertStroke' this1 stroke layerIndex)
    (convertStroke' this2 stroke layerIndex).
Proof.
  intros Ho Hl. unfold convertStroke. rewrite Ho.
  assert (Hg : (if preserveLayers (options this2)
                then match layerGroupIds this1 !! layerIndex with
                     | Some groupId => if String.eqb groupId EmptyString then [] else [groupId]
                     | None => []
                     end
                else [])
             = (if preserveLayers (options this2)
                then match layerGroupIds this2 !! layerIndex with
                     | Some groupId => if String.eqb groupId EmptyString then [] else [groupId]
                     | None => []
                     end
                else [])).
  { destruct Hl as [-> | ->]; reflexivity. }
  rewrite Hg. clear Hg.
  destruct (Z.of_nat (length (points stroke)) =? 0); [apply tb_sret; reflexivity|].
  eapply tb_sbind; [apply tb_callNow|]. intros t1 t2 _.
  eapply tb_sbind; [apply tb_callId|]. intros i1 i2 <-.
  eapply tb_sbind; [apply tb_callSeed|]. intros s1 s2 <-.
  eapply tb_sbind; [apply tb_callNow|]. intros u1 u2 _.
  apply tb_sret. reflexivity.
Qed.

Lemma sameButTime_snoc l1 l2 e1 e2 :
  sameButTime l1 l2 -> eraseTimeElement e1 = eraseTimeElement e2 ->
  sameButTime (l1 ++ [e1]) (l2 ++ [e2]).
Proof. unfold sameButTime. intros H1 H2. rewrite !fmap_app, H1. cbn. now rewrite H2. Qed.

Lemma tb_convertLayer this1 this2 layer layerIndex :
  options this1 = options this2 ->
  (layerGroupIds this1 !! layerIndex = layerGroupIds this2 !! layerIndex \/
   preserveLayers (options this2) = false) ->
  forall els1 els2, sameButTime els1 els2 ->
  timeBlind' sameButTime
    (convertLayer' this1 layer layerIndex els1)
    (convertLayer' this2 layer layerIndex els2).
Proof.
  intros Ho Hl. induction layer as [|s layer IH]; intros els1 els2 Hels.
  - apply tb_sret. exact Hels.
  - cbn [convertLayer]. rewrite Ho.
    destruct (negb (includeEraser (options this2)) && isEraserStroke s);
      [apply IH; exact Hels|].
    eapply tb_sbind; [apply tb_convertStroke; assumption|].
    intros [e1|] [e2|] He; try discriminate He.
    + apply IH. apply sameButTime_snoc; [exact Hels|].
      change (Some (eraseTimeElement (Freedraw e1)) = Some (eraseTimeElement (Freedraw e2))) in He.
      exact (Some_inj _ _ He).
    + apply IH. exact Hels.
Qed.

Lemma tb_convertLayers this1 this2 layers :
  options this1 = options this2 ->
  forall layerIndex,
  (forall k, layerIndex <= k < layerIndex + Z.of_nat (length layers) ->
     layerGroupIds this1 !! k = layerGroupIds this2 !! k \/
     preserveLayers (options this2) = false) ->
  forall els1 els2, sameButTime els1 els2 ->
  timeBlind' sameButTime
    (convertLayers' this1 layers layerIndex els1)
    (convertLayers' this2 layers layerIndex els2).
Proof.
  intros Ho. induction layers as [|layer layers IH]; intros layerIndex Hl els1 els2 Hels.
  - apply tb_sret. exact Hels.
  - cbn [convertLayers].
    eapply tb_sbind.
    + apply tb_convertLayer; [exact Ho| |exact Hels]. apply Hl. cbn [length]. lia.
    + intros l1 l2 Hl12. apply IH; [|exact Hl12].
      intros k Hk. apply Hl. cbn [length]. lia.
Qed.

Lemma assignGroupIds_lookup_lt layers : forall index ids w k,
  k < index -> fst (assignGroupIds' layers index ids w) !! k = ids !! k.
Proof.
  induction layers as [|l layers IH]; intros index ids [g c] k Hk; [reflexivity|].
  cbn [assignGroupIds]. unfold sbind, callId. cbn [fst snd].
  destruct (generateId g) as [id g'].
  rewrite IH by lia. apply lookup_insert_ne. lia.
Qed.

Lemma tb_assignGroupIds layers : forall index ids1 ids2,
  timeBlind'
    (fun m1 m2 : gmap Z string =>
       forall k, index <= k < index + Z.of_nat (length layers) -> m1 !! k = m2 !! k)
    (assignGroupIds' layers index ids1) (assignGroupIds' layers index ids2).
Proof.
  induction layers as [|l layers IH]; intros index ids1 ids2 g c1 c2.
  - cbn. split; [intros k Hk; lia|reflexivity].
  - cbn [assignGroupIds]. unfold sbind, callId. cbn [fst snd].
    destruct (generateId g) as [id g'].
    destruct (IH (index + 1) (<[index:=id]> ids1) (<[index:=id]> ids2) g' c1 c2)
      as [Hagree Hg].
    split; [|exact Hg].
    intros k Hk. cbn [length] in Hk.
    destruct (Z.eq_dec k index) as [->|Hne].
    + rewrite !assignGroupIds_lookup_lt by lia. rewrite !lookup_insert_eq. reflexivity.
    + apply Hagree. lia.
Qed.

Lemma eraseTimeFile_singleton (k : string) f1 f2 :
  eraseTimeFile f1 = eraseTimeFile f2 ->
  eraseTimeFile <$> (<[k := f1]> (∅ : gmap string ExcalidrawFile))
    = eraseTimeFile <$> (<[k := f2]> (∅ : gmap string ExcalidrawFile)).
Proof. intros H. rewrite !fmap_insert, H. reflexivity. Qed.

(** C10. Two conversions of the same document with the same options and
    background, started from the same state of the identifier and seed
    generators, give the same output document up to the fields filled from
    the clock, and leave the generators in the same state; the clock and
    the group identifiers left by an earlier call play no part. *)
Theorem convert_deterministic (opts : ConversionOptions)
    (bg : option BackgroundImage) (ids1 ids2 : gmap Z string)
    (document : ParsedDocument) (g : G) (c1 c2 : C) :
  let run1 := convert G C generateId generateSeed Date_now
                (mkConverter opts ids1 bg) document (g, c1) in
  let run2 := convert G C generateId generateSeed Date_now
                (mkConverter opts ids2 bg) document (g, c2) in
  eraseTime (fst (fst run1)) = eraseTime (fst (fst run2)) /\
  fst (snd run1) = fst (snd run2).
Proof.
  cbv zeta.
  assert (H : timeBlind'
    (fun r1 r2 : ExcalidrawDocument * ExcalidrawConverter =>
       eraseTime (fst r1) = eraseTime (fst r2))
    (convert G C generateId generateSeed Date_now (mkConverter opts ids1 bg) document)
    (convert G C generateId generateSeed Date_now (mkConverter opts ids2 bg) document)).
  2:{ exact (H g c1 c2). }
  unfold convert. cbn [backgroundImage options layerGroupIds].
  eapply tb_sbind with
    (R := fun s1 s2 : list ExcalidrawElement * gmap string ExcalidrawFile =>
            sameButTime (fst s1) (fst s2) /\
            eraseTimeFile <$> snd s1 = eraseTimeFile <$> snd s2).
  { destruct bg as [b|]; [|apply tb_sret; split; reflexivity].
    eapply tb_sbind; [apply tb_callId|]. intros f1 f2 <-.
    eapply tb_sbind with
      (R := fun i1 i2 => eraseTimeElement (Image i1) = eraseTimeElement (Image i2)).
    { unfold createBackgroundImageElement.
      eapply tb_sbind; [apply tb_callNow|]. intros t1 t2 _.
      eapply tb_sbind; [apply tb_callId|]. intros i1 i2 <-.
      eapply tb_sbind; [apply tb_callSeed|]. intros s1 s2 <-.
      eapply tb_sbind; [apply tb_callNow|]. intros u1 u2 _.
      apply tb_sret. reflexivity. }
    intros im1 im2 Him.
    eapply tb_sbind; [apply tb_callNow|]. intros t1 t2 _.
    apply tb_sret. cbn [fst snd]. split.
    - unfold sameButTime. cbn [fmap list_fmap]. now rewrite Him.
    - apply eraseTimeFile_singleton. reflexivity. }
  intros [els1 fs1] [els2 fs2] [Hels Hfs]. cbn [fst snd] in *.
  eapply tb_sbind with
    (R := fun m1 m2 : gmap Z string =>
            forall k, 0 <= k < 0 + Z.of_nat (length (layers document)) ->
                      m1 !! k = m2 !! k \/ preserveLayers opts = false).
  { destruct (preserveLayers opts).
    - eapply tb_weaken; [apply tb_assignGroupIds|].
      cbv beta. intros m1 m2 Hm k Hk. left. apply Hm. exact Hk.
    - apply tb_sret. intros k Hk. right. reflexivity. }
  intros m1 m2 Hm.
  eapply tb_sbind with (R := sameButTime).
  { apply tb_convertLayers; [reflexivity| |exact Hels].
    cbn [layerGroupIds options]. exact Hm. }
  intros l1 l2 Hl. apply tb_sret. cbn [fst].
  unfold eraseTime. cbn [out_type out_version out_source elements appState files].
  unfold sameButTime in Hl. rewrite Hl, Hfs. reflexivity.
Qed.

End Determinism.

(** ** The decoder: main statements *)

Section MainParser.
Variable buffer : list Byte.byte.



(** C9. A 14-byte record decodes to x and y as 32-bit floats, speed and
    width as the 16-bit words over 65535, direction as the byte over 255
    times 360, and pressure as the byte over 255; every point of a decoded
    revision-6 document is such a record.  A width word 0xFFFF gives 1.0, a
    direction byte 255 gives 360.0 and a pressure byte 255 gives 1.0. *)
Theorem v6_point_normalization :
  (forall c, 0 <= c -> c + 14 <= byteLength buffer ->
     exists p, readV6Point buffer c = Ret p (c + 14) /\
       p_x p = float32At buffer c /\
       p_y p = float32At buffer (c + 4) /\
       p_speed p = num_div (num_of_Z (uint16At buffer (c + 8))) (num_of_Z 65535) /\
       p_width p = num_div (num_of_Z (uint16At buffer (c + 10))) (num_of_Z 65535) /\
       p_direction p =
         num_mul (num_div (num_of_Z (byteAt buffer (c + 12))) (num_of_Z 255))
                 (num_of_Z 360) /\
       p_pressure p = num_div (num_of_Z (byteAt buffer (c + 13))) (num_of_Z 255)) /\
  (forall version c0 doc c',
     parseV6 buffer version c0 = Ret (Success doc) c' ->
     Forall (Forall (fun s => Forall (fromV6Record buffer) (points s))) (layers doc)) /\
  num_eqb (num_div (num_of_Z 0xFFFF) (num_of_Z 65535)) (Fin 1.0) = true /\
  num_eqb (num_mul (num_div (num_of_Z 255) (num_of_Z 255)) (num_of_Z 360))
          (Fin 360.0) = true /\
  num_eqb (num_div (num_of_Z 255) (num_of_Z 255)) (Fin 1.0) = true.
Proof.
  split; [|split; [|repeat split]].
  - intros c H0 H1. exists (v6PointAt buffer c).
    split; [apply readV6Point_ok; assumption|]. repeat split.
  - intros version c0 doc c' Hrun.
    destruct (parseV6_run buffer version c0) as (strokes & c'' & _ & Hall & Hrun').
    rewrite Hrun' in Hrun. injection Hrun as <- _. cbn [layers].
    constructor; [|constructor].
    eapply Forall_impl; [exact Hall|]. cbv beta. intros s (_ & _ & H). exact H.
Qed.

(** C4. The block scan always ends with a list of strokes that
    extends the strokes collected so far.  A (length, flag) pair that fails
    the acceptance check moves the cursor to one byte past the start of the
    block and the scan goes on; after a run of offsets that all fail the
    check, it goes on from the first offset past the run.  When that offset
    starts an accepted line-definition block, the stroke decoded from that
    block is collected, behind the strokes collected before the run and
    ahead of the strokes of the blocks after it; when it starts an accepted
    block of another type, the scan goes on from the end of that block. *)
Theorem v6_resynchronization (strokes : list Stroke) (c : Z) :
  0 <= c ->
  (exists new c', Forall (collectedV6 buffer) new /\
     forall acc, scanV6 buffer acc c = Ret (acc ++ new) c') /\
  (c + 8 <= byteLength buffer -> rejectedAt buffer c ->
     scanV6 buffer strokes c = scanV6 buffer strokes (c + 1)) /\
  (forall d : nat,
     (forall k, c <= k < c + Z.of_nat d ->
        k + 8 <= byteLength buffer /\ rejectedAt buffer k) ->
     let b := c + Z.of_nat d in
     scanV6 buffer strokes c = scanV6 buffer strokes b /\
     (b + 8 <= byteLength buffer -> ~ rejectedAt buffer b ->
      uint32At buffer (b + 4) = V6BlockType.LINE_DEF ->
      exists r c1 rest c',
        parseV6Stroke buffer (b + 8 + uint32At buffer b) (b + 8) = Ret r c1 /\
        Forall (collectedV6 buffer) rest /\
        scanV6 buffer strokes c = Ret (strokes ++ pushed r ++ rest) c') /\
     (b + 8 <= byteLength buffer -> ~ rejectedAt buffer b ->
      uint32At buffer (b + 4) <> V6BlockType.LINE_DEF ->
      scanV6 buffer strokes c
        = scanV6 buffer strokes (b + 8 + uint32At buffer b))) /\
  (forall version c0, exists all c',
     scanV6 buffer [] V6_HEADER_SIZE = Ret all c' /\
     parseV6 buffer version c0 = Ret (Success (mkParsedDocument version [all])) c').
Proof.
  intros Hc. split; [apply scanV6_run; exact Hc|].
  split; [apply scanV6_rejected; exact Hc|].
  split.
  - intros d Hrun. cbv zeta.
    split; [apply scanV6_rejected_run; assumption|]. split.
    + intros H8 Hacc Hflag. apply scanV6_resumes; assumption.
    + intros H8 Hacc Hflag.
      rewrite (scanV6_rejected_run buffer strokes d c Hc Hrun).
      apply scanV6_accepted_other; (assumption || lia).
  - intros version c0.
    destruct (parseV6_run buffer version c0) as (all & c' & H1 & _ & H2). eauto.
Qed.

(** C3. For a revision 3 or 5 input, [parse] returns either a document whose
    file is well-formed (every count within its bounds, every record inside
    the buffer) or a structural error and no document: the layer count, or
    the first refused layer after the well-formed ones, with the index of
    the layer and, for a refused stroke, the index of the stroke after the
    well-formed ones.  A layer count below 0 or above 100 gives the
    invalid-layer-count error, and a buffer that is the well-formed layout
    of no document gives a structural error. *)
Theorem v5_structural_errors (decode : list Byte.byte -> list Z) :
  let h := validateHeader buffer decode in
  let version := hv_version h in
  valid h = true -> version = V3 \/ version = V5 ->
  (exists r, parse buffer decode = Some r /\
     match r with
     | Success doc =>
         doc_version doc = version /\ wellFormedV5 buffer version (layers doc)
     | Failure err => structuralError buffer version err
     end) /\
  (layoutHeaderSize version + 4 <= byteLength buffer ->
   int32At buffer (layoutHeaderSize version) < 0 \/
   100 < int32At buffer (layoutHeaderSize version) ->
   parse buffer decode =
     Some (Failure (mkParseError
             ("Invalid layer count: "
              +:+ pretty (int32At buffer (layoutHeaderSize version))
              +:+ ". Expected 0-100.")
             (Some (layoutHeaderSize version)) None))) /\
  ((forall layers, ~ wellFormedV5 buffer version layers) ->
   exists err, parse buffer decode = Some (Failure err) /\
               structuralError buffer version err).
Proof.
  cbv zeta. intros Hvalid Hv.
  assert (Hmain : exists r, parse buffer decode = Some r /\
    match r with
    | Success doc =>
        doc_version doc = hv_version (validateHeader buffer decode) /\
        wellFormedV5 buffer (hv_version (validateHeader buffer decode)) (layers doc)
    | Failure err =>
        structuralError buffer (hv_version (validateHeader buffer decode)) err
    end).
  { unfold parse. rewrite Hvalid. cbn [negb].
    destruct (parseV5_outcome buffer (hv_version (validateHeader buffer decode)) 0 Hv)
      as (r & c & Hrun & Hr).
    exists r. split; [|exact Hr].
    destruct Hv as [Hv|Hv]; rewrite Hv in *; rewrite Hrun; reflexivity. }
  split; [exact Hmain|]. destruct Hmain as (r & Hparse & Hr). split.
  - intros Hfit Hbad. rewrite Hparse. destruct r as [doc|err].
    + destruct Hr as (_ & _ & Hrange & _). lia.
    + destruct Hr as (Hd & [(Hlt & _)|[(_ & _ & Hm & Ho)|(_ & Hrange & _)]]);
        try lia.
      destruct err as [m o d]. cbn [message offset details] in *.
      subst m o d. reflexivity.
  - intros Hnone. destruct r as [doc|err].
    + destruct Hr as (_ & Hwf). exfalso. exact (Hnone _ Hwf).
    + exists err. split; assumption.
Qed.

End MainParser.

(** ** The sample files *)

(** The header [version=9] is reported as unsupported, with its number. *)
Lemma header_classification_witness :
  parse sampleV9 asciiDecode = Some (Failure (unsupportedVersionError 9)).
Proof.
  apply (proj1 (proj2 (proj2 (proj2 (proj2
           (header_classification sampleV9 asciiDecode)))))
           57 [] (replicate 10 32)).
  - vm_compute. discriminate.
  - vm_compute. reflexivity.
  - reflexivity.
  - constructor.
  - reflexivity.
  - discriminate.
  - discriminate.
  - discriminate.
Defined.

(** A revision-3 file with 48 layers: the byte after the revision-3 prefix is
    the digit [0], the header reads [version=30], and the file decodes as
    revision 3. *)
Lemma header_version30_accepted :
  startsWith (headerTextOf asciiDecode sampleV30) HEADER_MAGIC = true /\
  matchVersion (headerTextOf asciiDecode sampleV30) = Some (codeUnits "30") /\
  parseInt10 (codeUnits "30") = 30 /\
  parse sampleV30 asciiDecode
    = Some (Success (mkParsedDocument V3 (replicate 48 []))) /\
  parse sampleV30 asciiDecode <> Some (Failure (unsupportedVersionError 30)).
Proof.
  split; [vm_compute; reflexivity|].
  split; [vm_compute; reflexivity|].
  split; [reflexivity|].
  assert (H : parse sampleV30 asciiDecode
              = Some (Success (mkParsedDocument V3 (replicate 48 []))))
    by (vm_compute; reflexivity).
  split; [exact H|]. rewrite H. discriminate.
Qed.



(** The first hundred bytes of [sampleV5] are the layout of no document: the
    three points of the stroke end at offset 147. *)
Lemma sampleV5_truncated_layout (layers : list (list Stroke)) :
  ~ wellFormedV5 (take 100 sampleV5)
      (hv_version (validateHeader (take 100 sampleV5) asciiDecode)) layers.
Proof.
  assert (Hv : hv_version (validateHeader (take 100 sampleV5) asciiDecode) = V5)
    by (vm_compute; reflexivity).
  rewrite Hv. intros (_ & _ & H3 & e & Hat & _).
  assert (E43 : int32At (take 100 sampleV5) (layoutHeaderSize V5) = 1)
    by (vm_compute; reflexivity).
  rewrite E43 in H3.
  destruct layers as [|l [|l' rest]]; cbn [length] in H3; try lia.
  cbn [layersAt] in Hat. destruct Hat as (c' & (_ & _ & Hn & Hs) & _).
  assert (E47 : int32At (take 100 sampleV5) (layoutHeaderSize V5 + 4) = 1)
    by (vm_compute; reflexivity).
  rewrite E47 in Hn.
  destruct l as [|s [|s' rest']]; cbn [length] in Hn; try lia.
  cbn [strokesAt] in Hs. destruct Hs as ((_ & _ & Hend) & _).
  vm_compute in Hend. exact (Hend eq_refl).
Qed.

(** The sample revision-5 file, which decodes; a file whose layer count is
    101; and the sample file cut after a hundred bytes, in the middle of
    the points of its stroke. *)
Lemma v5_structural_errors_witness :
  (exists r, parse sampleV5 asciiDecode = Some r /\
     match r with
     | Success doc =>
         doc_version doc = hv_version (validateHeader sampleV5 asciiDecode) /\
         wellFormedV5 sampleV5 (hv_version (validateHeader sampleV5 asciiDecode))
                      (layers doc)
     | Failure err =>
         structuralError sampleV5 (hv_version (validateHeader sampleV5 asciiDecode)) err
     end) /\
  parse sampleV5_layers101 asciiDecode
    = Some (Failure (mkParseError "Invalid layer count: 101. Expected 0-100."
                                  (Some 43) None)) /\
  (exists err,
     parse (take 100 sampleV5) asciiDecode = Some (Failure err) /\
     structuralError (take 100 sampleV5)
       (hv_version (validateHeader (take 100 sampleV5) asciiDecode)) err).
Proof.
  split; [|split].
  - apply (proj1 (v5_structural_errors sampleV5 asciiDecode
                    ltac:(vm_compute; reflexivity)
                    ltac:(right; vm_compute; reflexivity))).
  - apply (proj1 (proj2 (v5_structural_errors sampleV5_layers101 asciiDecode
                           ltac:(vm_compute; reflexivity)
                           ltac:(right; vm_compute; reflexivity)))
             ltac:(vm_compute; discriminate)
             ltac:(right; vm_compute; reflexivity)).
  - apply (proj2 (proj2 (v5_structural_errors (take 100 sampleV5) asciiDecode
                           ltac:(vm_compute; reflexivity)
                           ltac:(right; vm_compute; reflexivity)))
             sampleV5_truncated_layout).
Defined.

Example sampleV5_decodes :
  exists s, parse sampleV5 asciiDecode = Some (Success (mkParsedDocument V5 [[s]])) /\
    pen s = PenType.FINELINER /\ color s = RMColor.BLACK /\
    num_eqb (width s) (Fin 2.0) = true /\ length (points s) = 3%nat.
Proof. eexists. split; [vm_compute; reflexivity|]. repeat split. Qed.

Example sampleV5_truncated :
  parse (take 100 sampleV5) asciiDecode
    = Some (Failure (mkParseError
        "Failed to parse layer 0: Stroke 0: Not enough bytes for 3 points"
        (Some 75) None)).
Proof. vm_compute. reflexivity. Qed.

(** The twelve offsets of [recoverableV6] from its zeroed length field on. *)
Lemma recoverableV6_rescans :
  forall k, 75 <= k < 75 + Z.of_nat 12 ->
    k + 8 <= byteLength recoverableV6 /\ rejectedAt recoverableV6 k.
Proof.
  intros k Hk.
  assert (Hc : exists i : nat, (i < 12)%nat /\ k = 75 + Z.of_nat i)
    by (exists (Z.to_nat (k - 75)); lia).
  destruct Hc as (i & Hi & ->).
  do 12 (destruct i as [|i];
         [split; [vm_compute; discriminate|vm_compute; reflexivity]|]).
  lia.
Qed.

(** The zeroed length field of [recoverableV6], at offset 75: the scan moves
    on by one byte, twelve times, and the stroke of the block at offset 87 is
    collected. *)
Lemma v6_resynchronization_witness :
  scanV6 recoverableV6 [cornerStroke] 75 = scanV6 recoverableV6 [cornerStroke] 76 /\
  scanV6 recoverableV6 [cornerStroke] 75 = scanV6 recoverableV6 [cornerStroke] 87 /\
  exists r c1 rest c',
    parseV6Stroke recoverableV6 (87 + 8 + uint32At recoverableV6 87) (87 + 8)
      = Ret r c1 /\
    Forall (collectedV6 recoverableV6) rest /\
    scanV6 recoverableV6 [cornerStroke] 75
      = Ret ([cornerStroke] ++ pushed r ++ rest) c'.
Proof.
  pose proof (v6_resynchronization recoverableV6 [cornerStroke] 75 ltac:(lia))
    as (_ & H1 & H2 & _).
  split; [apply H1; [vm_compute; discriminate|vm_compute; reflexivity]|].
  destruct (H2 12%nat recoverableV6_rescans) as (Hb & Hline & _).
  split; [exact Hb|].
  apply Hline; [vm_compute; discriminate|vm_compute; discriminate
               |vm_compute; reflexivity].
Defined.

Example recoverableV6_stroke :
  exists s, parseV6Stroke recoverableV6 (87 + 8 + uint32At recoverableV6 87) (87 + 8)
              = Ret (StrokeOk s) 119 /\
            pen s = PenType.HIGHLIGHTER /\ length (points s) = 1%nat.
Proof. eexists. split; [vm_compute; reflexivity|]. split; reflexivity. Qed.

Example recoverableV6_decodes :
  exists s1 s2,
    parse recoverableV6 asciiDecode
      = Some (Success (mkParsedDocument V6 [[s1; s2]])) /\
    pen s1 = 2 /\ pen s2 = 3.
Proof. eexists _, _. split; [vm_compute; reflexivity|]. split; reflexivity. Qed.

(** With the length field of the second block of [intactV6] put to zero, the
    rescan accepts the pair at offset 82 (length 1), steps over the header of
    the third block, and the stroke of that block is not decoded. *)
Lemma resync_loses_later_stroke :
  exists s1 s2,
    parse intactV6 asciiDecode = Some (Success (mkParsedDocument V6 [[s1; s2]])) /\
    uint32At intactV6 75 = 4 /\ uint32At corruptedV6 75 = 0 /\
    take 75 corruptedV6 = take 75 intactV6 /\
    drop 79 corruptedV6 = drop 79 intactV6 /\
    uint32At corruptedV6 87 = 24 /\
    uint32At corruptedV6 91 = V6BlockType.LINE_DEF /\
    uint32At corruptedV6 82 = 1 /\
    invalidBlock corruptedV6 (uint32At corruptedV6 82) (82 + 8) = false /\
    parse corruptedV6 asciiDecode = Some (Success (mkParsedDocument V6 [[s1]])).
Proof.
  eexists _, _. split; [vm_compute; reflexivity|].
  repeat split; vm_compute; reflexivity.
Qed.

(** The marker at scale 0.5: base widths 2.0 and 4.0, and a NaN. *)
Lemma calculateStrokeWidth_clamp_witness :
  (num_le (Fin 1) (calculateStrokeWidth (Fin 2.0)
             (baseMultiplier (getPenCharacteristics PenType.MARKER)) (Fin 0.5)) /\
   num_le (calculateStrokeWidth (Fin 2.0)
             (baseMultiplier (getPenCharacteristics PenType.MARKER)) (Fin 0.5))
          (Fin 16)) /\
  calculateStrokeWidth NaN
    (baseMultiplier (getPenCharacteristics PenType.MARKER)) (Fin 0.5) = NaN /\
  num_le (calculateStrokeWidth (Fin 2.0)
            (baseMultiplier (getPenCharacteristics PenType.MARKER)) (Fin 0.5))
         (calculateStrokeWidth (Fin 4.0)
            (baseMultiplier (getPenCharacteristics PenType.MARKER)) (Fin 0.5)).
Proof.
  split; [|split].
  - apply (proj1 (proj2 (calculateStrokeWidth_clamp (Fin 2.0)
             (baseMultiplier (getPenCharacteristics PenType.MARKER)) (Fin 0.5)))).
    reflexivity.
  - apply (proj1 (proj2 (proj2 (proj2 (calculateStrokeWidth_clamp NaN
             (baseMultiplier (getPenCharacteristics PenType.MARKER)) (Fin 0.5)))))).
    reflexivity.
  - apply (proj2 (proj2 (proj2 (proj2 (proj2
             (calculateStrokeWidth_clamp (Fin 2.0)
                (baseMultiplier (getPenCharacteristics PenType.MARKER)) (Fin 0.5))))))
             1.8%Q 0.5%Q (Fin 4.0)).
    + reflexivity.
    + reflexivity.
    + reflexivity.
    + reflexivity.
    + reflexivity.
Defined.

Example fineliner_width :
  calculateStrokeWidth (Fin 2.0)
    (baseMultiplier (getPenCharacteristics PenType.FINELINER)) (Fin 0.5) = Fin 1.
Proof. reflexivity. Qed.

(** A revision-5 file whose stroke has the quiet NaN as base width: the
    element's stroke width is NaN, which is not between 1 and 16.  And with
    the scale -1, the base width -20 gives the width 16 and the larger base
    width 2 gives the width 1. *)
Lemma stroke_width_outside_clamp :
  (exists doc s e,
     parse sampleV5_NaNwidth asciiDecode = Some (Success doc) /\
     layers doc = [[s]] /\ width s = NaN /\
     elements (stubConvert (newConverter (mkPartialOptions None None None)) doc)
       = [Freedraw e] /\
     fd_strokeWidth e = NaN /\
     fd_strokeWidth e
       = calculateStrokeWidth (width s)
           (baseMultiplier (getPenCharacteristics (pen s))) (Fin 0.5) /\
     num_leb (Fin 1) (fd_strokeWidth e) = false /\
     num_leb (fd_strokeWidth e) (Fin 16) = false) /\
  num_leb (Fin (-20)) (Fin 2) = true /\
  calculateStrokeWidth (Fin (-20)) (Fin 1.0) (Fin (-1)) = Fin 16 /\
  calculateStrokeWidth (Fin 2) (Fin 1.0) (Fin (-1)) = Fin 1 /\
  num_leb (Fin 16) (Fin 1) = false.
Proof.
  split.
  - eexists _, _, _. split; [vm_compute; reflexivity|].
    split; [reflexivity|]. split; [reflexivity|].
    split; [vm_compute; reflexivity|].
    repeat split.
  - repeat split.
Qed.

(** The stroke through (0,0), (10,0), (10,10). *)
Lemma stroke_bounding_box_witness :
  points cornerStroke <> [] /\
  exists e w',
    convertStroke nat Z stubId stubSeed stubNow
      (newConverter (mkPartialOptions None None None)) cornerStroke 0 (O, 0)
      = (Some e, w') /\
    let xs := p_x <$> points cornerStroke in
    let ys := p_y <$> points cornerStroke in
    fd_x e = Math_min xs /\ fd_y e = Math_min ys /\
    fd_width e = num_sub (Math_max xs) (Math_min xs) /\
    fd_height e = num_sub (Math_max ys) (Math_min ys) /\
    fd_points e =
      (fun p => (num_sub (p_x p) (Math_min xs), num_sub (p_y p) (Math_min ys)))
        <$> points cornerStroke /\
    (Forall (fun p => isFinite (p_x p) = true /\ isFinite (p_y p) = true)
            (points cornerStroke) ->
     num_eqb (Math_min (fst <$> fd_points e)) (Fin 0) = true /\
     num_eqb (Math_min (snd <$> fd_points e)) (Fin 0) = true).
Proof.
  split; [discriminate|].
  apply (stroke_bounding_box nat Z stubId stubSeed stubNow
           (newConverter (mkPartialOptions None None None)) cornerStroke 0 (O, 0)).
  discriminate.
Defined.

(** A revision-5 file whose first abscissa is a NaN: the relative abscissas
    are all NaN, and so is their minimum. *)
Lemma bounding_box_NaN :
  exists doc s e,
    parse sampleV5_NaN asciiDecode = Some (Success doc) /\
    layers doc = [[s]] /\ length (points s) = 3%nat /\
    elements (stubConvert (newConverter (mkPartialOptions None None None)) doc)
      = [Freedraw e] /\
    Math_min (fst <$> fd_points e) = NaN /\
    num_eqb (Math_min (fst <$> fd_points e)) (Fin 0) = false.
Proof.
  eexists _, _, _. split; [vm_compute; reflexivity|].
  split; [reflexivity|]. split; [reflexivity|].
  split; [vm_compute; reflexivity|].
  split; reflexivity.
Qed.

(** The pen value 9 and the colour value 42 are outside the enumerations. *)
Lemma pen_color_fallback_witness :
  getPenCharacteristics 9 = mkPen (Fin 1.0) true 100 1 "solid" false /\
  getHexColor 42 = "#000000".
Proof.
  pose proof pen_color_fallback as (_ & Hpen & Hdef & Hcol).
  split.
  - rewrite (Hpen 9); [exact Hdef|]. vm_compute. intros H.
    repeat (apply elem_of_cons in H as [H|H]; [discriminate H|]).
    inversion H.
  - apply (Hcol 42). vm_compute. intros H.
    repeat (apply elem_of_cons in H as [H|H]; [discriminate H|]).
    inversion H.
Defined.

Example eraser_only_document :
  elements (stubConvert (newConverter (mkPartialOptions None None None))
              (mkParsedDocument V5 [[eraserStroke]; [eraserStroke; eraserStroke]]))
    = [].
Proof. vm_compute. reflexivity. Qed.

Example sampleV5_converts :
  exists doc e,
    parse sampleV5 asciiDecode = Some (Success doc) /\
    elements (stubConvert
                (newConverter (mkPartialOptions None None (Some (Fin 0.5)))) doc)
      = [Freedraw e] /\
    fd_strokeColor e = "#000000" /\
    fd_strokeWidth e = Fin 1 /\
    Forall2 (fun p q => num_eqb (fst p) (fst q) && num_eqb (snd p) (snd q) = true)
            (fd_points e)
            [(Fin 0, Fin 0); (Fin 10, Fin 0); (Fin 10, Fin 10)].
Proof.
  eexists _, _. split; [vm_compute; reflexivity|].
  split; [vm_compute; reflexivity|].
  repeat split. repeat constructor.
Qed.

Example eraser_only_with_background :
  exists im,
    elements (stubConvert
                (setBackgroundImage (newConverter (mkPartialOptions None None None))
                                    "data:image/png;base64,AA" (Fin 1404) (Fin 1872))
                (mkParsedDocument V5 [[eraserStroke]]))
      = [Image im] /\
    im_locked im = true /\ im_width im = Fin 1404 /\ im_height im = Fin 1872.
Proof. eexists. split; [vm_compute; reflexivity|]. repeat split. Qed.

(** ** Revisions 3 and 5: completeness of the decoder *)

Section V5Complete.
Variable buffer : list Byte.byte.

Lemma strokeFits_not_refused version c e :
  strokeFits buffer version c -> strokeRefused buffer version c e -> False.
Proof.
  unfold strokeFits, strokeRefused.
  intros (H1 & H2 & H3) [(H & _)|[(_ & H & _)|(_ & _ & H & _)]]; lia.
Qed.

Lemma parseStroke_fits version layerIndex c :
  0 <= c -> strokeFits buffer version c ->
  parseStroke buffer version layerIndex c =
    Ret (StrokeOk (strokeAt buffer version layerIndex c))
        (strokeEnd buffer version c).
Proof.
  intros H0 Hfit.
  destruct (parseStroke_outcome buffer version layerIndex c H0)
    as [[_ Hrun]|(e & c' & Href & _)]; [exact Hrun|].
  destruct (strokeFits_not_refused _ _ _ Hfit Href).
Qed.

Lemma parseStrokes_complete version layerIndex strokes : forall i acc c e,
  0 <= c ->
  strokesAt buffer version layerIndex c strokes e ->
  parseStrokes buffer version layerIndex (length strokes) i acc c =
    Ret (LayerOk (acc ++ strokes)) e.
Proof.
  induction strokes as [|s rest IH]; intros i acc c e H0 Hat.
  - simpl in *. subst e. rewrite app_nil_r. reflexivity.
  - destruct Hat as (Hfit & -> & Hrest). cbn [length parseStrokes].
    erewrite bind_Ret by (apply parseStroke_fits; assumption).
    cbv beta iota.
    pose proof (strokeEnd_ge _ _ _ Hfit).
    rewrite (IH (i + 1) _ _ e) by (lia || assumption).
    rewrite <- app_assoc. reflexivity.
Qed.

Lemma parseLayer_complete version layerIndex c strokes e :
  0 <= c ->
  layerAt buffer version layerIndex c strokes e ->
  parseLayer buffer version layerIndex c = Ret (LayerOk strokes) e.
Proof.
  intros H0 (H4 & Hr & Hn & Hat). unfold parseLayer.
  rewrite bind_getCursor.
  destruct (c + 4 >? byteLength buffer) eqn:E4;
    [rewrite Z.gtb_ltb in E4; apply Z.ltb_lt in E4; lia|].
  erewrite bind_Ret by (apply getInt32_ok; lia).
  destruct ((int32At buffer c <? 0) || (int32At buffer c >? 100000)) eqn:En.
  { apply orb_true_iff in En as [En|En];
      [apply Z.ltb_lt in En|rewrite Z.gtb_ltb in En; apply Z.ltb_lt in En]; lia. }
  rewrite Hn, Nat2Z.id.
  rewrite (parseStrokes_complete _ _ _ 0 [] (c + 4) e) by (lia || assumption).
  reflexivity.
Qed.

Lemma strokesAt_ge version layerIndex strokes : forall c e,
  strokesAt buffer version layerIndex c strokes e -> c <= e.
Proof.
  induction strokes as [|s rest IH]; intros c e Hat; simpl in Hat.
  - lia.
  - destruct Hat as (Hfit & _ & Hrest).
    pose proof (strokeEnd_ge _ _ _ Hfit). apply IH in Hrest. lia.
Qed.

Lemma parseLayers_complete version ls : forall layerIndex acc c e,
  0 <= c ->
  layersAt buffer version layerIndex c ls e ->
  parseLayers buffer version (length ls) layerIndex acc c =
    Ret (Success (mkParsedDocument version (acc ++ ls))) e.
Proof.
  induction ls as [|l rest IH]; intros layerIndex acc c e H0 Hat.
  - simpl in *. subst e. rewrite app_nil_r. reflexivity.
  - destruct Hat as (c' & Hl & Hrest). cbn [length parseLayers].
    erewrite bind_Ret by (apply parseLayer_complete; eassumption).
    cbv beta iota.
    assert (c <= c').
    { destruct Hl as (_ & _ & _ & Hs). apply strokesAt_ge in Hs. lia. }
    rewrite (IH (layerIndex + 1) _ _ e) by (lia || assumption).
    rewrite <- app_assoc. reflexivity.
Qed.

Lemma parseV5_complete version ls c0 :
  version = V3 \/ version = V5 ->
  wellFormedV5 buffer version ls ->
  exists e, parseV5 buffer version c0 =
              Ret (Success (mkParsedDocument version ls)) e.
Proof.
  intros Hv (H4 & Hr & Hn & e & Hat & He). exists e.
  unfold parseV5. rewrite bind_setCursor. cbv beta. rewrite bind_getCursor.
  rewrite (headerSizeOf_layout _ Hv).
  assert (Hh : 33 <= layoutHeaderSize version)
    by (destruct Hv as [->| ->]; simpl; lia).
  destruct (layoutHeaderSize version + 4 >? byteLength buffer) eqn:E4;
    [rewrite Z.gtb_ltb in E4; apply Z.ltb_lt in E4; lia|].
  erewrite bind_Ret by (apply getInt32_ok; lia).
  destruct ((int32At buffer (layoutHeaderSize version) <? 0)
            || (int32At buffer (layoutHeaderSize version) >? 100)) eqn:En.
  { apply orb_true_iff in En as [En|En];
      [apply Z.ltb_lt in En|rewrite Z.gtb_ltb in En; apply Z.ltb_lt in En]; lia. }
  rewrite Hn, Nat2Z.id.
  rewrite (parseLayers_complete _ _ 0 [] _ e) by (lia || assumption).
  reflexivity.
Qed.

(** Layer indices. *)
Lemma strokesAt_layerIndex version L strokes : forall c e,
  strokesAt buffer version L c strokes e ->
  Forall (fun s => layerIndex s = L) strokes.
Proof.
  induction strokes as [|s rest IH]; intros c e Hat; [constructor|].
  destruct Hat as (_ & -> & Hrest). constructor; [reflexivity|eauto].
Qed.

Lemma layersAt_layerIndex version ls : forall L c e,
  layersAt buffer version L c ls e ->
  forall (k : nat) l, ls !! k = Some l ->
    Forall (fun s => layerIndex s = L + Z.of_nat k) l.
Proof.
  induction ls as [|l0 rest IH]; intros L c e Hat k l Hk;
    [discriminate|].
  destruct Hat as (c' & (_ & _ & _ & Hs) & Hrest).
  destruct k as [|k]; simpl in Hk.
  - injection Hk as <-. rewrite Z.add_0_r.
    eapply strokesAt_layerIndex; exact Hs.
  - replace (L + Z.of_nat (S k)) with (L + 1 + Z.of_nat k) by lia.
    eapply IH; eassumption.
Qed.

End V5Complete.

Section Extension.
Variables buffer extra : list Byte.byte.

Lemma byteLength_app :
  byteLength (buffer ++ extra) = byteLength buffer + byteLength extra.
Proof. unfold byteLength. rewrite length_app. lia. Qed.

Lemma byteAt_app i :
  i < byteLength buffer -> byteAt (buffer ++ extra) i = byteAt buffer i.
Proof.
  intros Hi. unfold byteAt. destruct (i <? 0) eqn:E; [reflexivity|].
  apply Z.ltb_ge in E. rewrite lookup_app_l; [reflexivity|].
  unfold byteLength in Hi. lia.
Qed.

Lemma leUnsigned_app n : forall c,
  c + Z.of_nat n <= byteLength buffer ->
  leUnsigned (buffer ++ extra) n c = leUnsigned buffer n c.
Proof.
  induction n as [|n IH]; intros c Hc; [reflexivity|].
  cbn [leUnsigned]. rewrite byteAt_app by lia. rewrite IH by lia. reflexivity.
Qed.

Lemma int32At_app c :
  c + 4 <= byteLength buffer -> int32At (buffer ++ extra) c = int32At buffer c.
Proof. intros. unfold int32At. rewrite leUnsigned_app by (simpl; lia). reflexivity. Qed.

Lemma float32At_app c :
  c + 4 <= byteLength buffer -> float32At (buffer ++ extra) c = float32At buffer c.
Proof. intros. unfold float32At. rewrite leUnsigned_app by (simpl; lia). reflexivity. Qed.

Lemma v5PointsAt_app n : forall c,
  c + 24 * Z.of_nat n <= byteLength buffer ->
  v5PointsAt (buffer ++ extra) n c = v5PointsAt buffer n c.
Proof.
  induction n as [|n IH]; intros c Hc; [reflexivity|].
  cbn [v5PointsAt]. rewrite IH by lia. unfold v5PointAt.
  rewrite !float32At_app by lia. reflexivity.
Qed.

Lemma strokeHeaderSize_ge version : 20 <= strokeHeaderSize version.
Proof. destruct version; simpl; lia. Qed.

Lemma strokeFits_app version c :
  strokeFits buffer version c ->
  strokeFits (buffer ++ extra) version c /\
  strokeEnd (buffer ++ extra) version c = strokeEnd buffer version c /\
  forall L, strokeAt (buffer ++ extra) version L c = strokeAt buffer version L c.
Proof.
  unfold strokeFits, strokeEnd, strokeAt, pointCountAt.
  pose proof (strokeHeaderSize_ge version) as Hs.
  intros (H1 & H2 & H3).
  rewrite byteLength_app.
  pose proof (byteLength_nonneg extra).
  rewrite !int32At_app by lia. rewrite float32At_app by lia.
  rewrite v5PointsAt_app by lia.
  repeat split; lia || reflexivity.
Qed.

Lemma strokesAt_app version L strokes : forall c e,
  strokesAt buffer version L c strokes e ->
  strokesAt (buffer ++ extra) version L c strokes e.
Proof.
  induction strokes as [|s rest IH]; intros c e Hat; [exact Hat|].
  destruct Hat as (Hfit & Hs & Hrest).
  destruct (strokeFits_app version c Hfit) as (Hfit' & Hend & Hsame).
  cbn [strokesAt]. rewrite Hend, Hsame. auto.
Qed.

Lemma layersAt_app version ls : forall L c e,
  layersAt buffer version L c ls e ->
  layersAt (buffer ++ extra) version L c ls e.
Proof.
  induction ls as [|l rest IH]; intros L c e Hat; [exact Hat|].
  destruct Hat as (c' & (H4 & Hr & Hn & Hs) & Hrest).
  exists c'. split; [|auto]. unfold layerAt.
  rewrite byteLength_app, int32At_app by lia.
  pose proof (byteLength_nonneg extra).
  repeat split; try lia. apply strokesAt_app. exact Hs.
Qed.

Lemma wellFormedV5_app version ls :
  wellFormedV5 buffer version ls -> wellFormedV5 (buffer ++ extra) version ls.
Proof.
  intros (H4 & Hr & Hn & e & Hat & He). unfold wellFormedV5.
  rewrite byteLength_app, int32At_app by lia.
  pose proof (byteLength_nonneg extra).
  repeat split; try lia. exists e. split; [apply layersAt_app; exact Hat|lia].
Qed.

End Extension.

Section ParseV5.
Variable buffer : list Byte.byte.
Variable decode : list Byte.byte -> list Z.

(** What [parse] does once the header is accepted. *)
Lemma parse_valid :
  valid (validateHeader buffer decode) = true ->
  parse buffer decode =
    match hv_version (validateHeader buffer decode) with
    | V6 => match parseV6 buffer V6 0 with
            | Ret r _ => Some r
            | Throw e c =>
                Some (Failure (mkParseError ("Parse error: " +:+ err_message e)
                                            (Some c) (Some (err_stack e))))
            | Diverge => None
            end
    | V5 => match parseV5 buffer V5 0 with
            | Ret r _ => Some r
            | Throw e c =>
                Some (Failure (mkParseError ("Parse error: " +:+ err_message e)
                                            (Some c) (Some (err_stack e))))
            | Diverge => None
            end
    | V3 => match parseV5 buffer V3 0 with
            | Ret r _ => Some r
            | Throw e c =>
                Some (Failure (mkParseError ("Parse error: " +:+ err_message e)
                                            (Some c) (Some (err_stack e))))
            | Diverge => None
            end
    | UNKNOWN =>
        Some (Failure (mkParseError
               ("Cannot parse version " +:+ pretty (versionNumber UNKNOWN))
               (Some 0) None))
    end.
Proof.
  intros Hv. unfold parse. rewrite Hv. cbn [negb].
  destruct (hv_version (validateHeader buffer decode)); reflexivity.
Qed.

Lemma validateHeader_version :
  valid (validateHeader buffer decode) = true ->
  hv_version (validateHeader buffer decode) <> UNKNOWN.
Proof.
  unfold validateHeader.
  destruct (byteLength buffer <? 33); [discriminate|].
  cbv zeta.
  repeat match goal with
         | |- context [if ?b then _ else _] => destruct b
         | |- context [match ?b with Some _ => _ | None => _ end] => destruct b
         end; cbn; discriminate.
Qed.

(** The outcome of [parse] on an accepted header of revision 3 or 5. *)
Lemma parse_v5_outcome :
  valid (validateHeader buffer decode) = true ->
  hv_version (validateHeader buffer decode) = V3 \/
  hv_version (validateHeader buffer decode) = V5 ->
  exists r c,
    parseV5 buffer (hv_version (validateHeader buffer decode)) 0 = Ret r c /\
    parse buffer decode = Some r.
Proof.
  intros Hvalid Hv.
  destruct (parseV5_outcome buffer _ 0 Hv) as (r & c & Hrun & _).
  exists r, c. split; [exact Hrun|].
  rewrite (parse_valid Hvalid).
  destruct Hv as [Hv|Hv]; rewrite Hv in *; rewrite Hrun; reflexivity.
Qed.

Lemma parse_v6_outcome :
  valid (validateHeader buffer decode) = true ->
  hv_version (validateHeader buffer decode) = V6 ->
  exists strokes,
    Forall (collectedV6 buffer) strokes /\
    parse buffer decode = Some (Success (mkParsedDocument V6 [strokes])).
Proof.
  intros Hvalid Hv.
  destruct (parseV6_run buffer V6 0) as (strokes & c & _ & Hall & Hrun).
  exists strokes. split; [exact Hall|].
  rewrite (parse_valid Hvalid), Hv, Hrun. reflexivity.
Qed.

End ParseV5.

(** ** The decoder: further statements *)

Section ParseFacts.
Variable buffer : list Byte.byte.
Variable decode : list Byte.byte -> list Z.

(** X1. [parse] returns on every buffer, and never through its [catch]
    block: a failure carries no [details] (only the [catch] sets them), and
    a success carries the revision the header announced, one of 3, 5, 6. *)
Theorem parse_always_returns :
  exists r, parse buffer decode = Some r /\
    match r with
    | Success doc =>
        valid (validateHeader buffer decode) = true /\
        doc_version doc = hv_version (validateHeader buffer decode) /\
        doc_version doc <> UNKNOWN
    | Failure err => details err = None
    end.
Proof.
  destruct (valid (validateHeader buffer decode)) eqn:Hvalid.
  - pose proof (validateHeader_version buffer decode Hvalid) as Hk.
    destruct (hv_version (validateHeader buffer decode)) eqn:Hv.
    + destruct (parse_v5_outcome buffer decode Hvalid) as (r & c & Hrun & Hp);
        [rewrite Hv; auto|].
      exists r. split; [exact Hp|].
      destruct (parseV5_outcome buffer V3 0 ltac:(auto)) as (r' & c' & Hrun' & Hr).
      rewrite Hv in Hrun. rewrite Hrun in Hrun'. injection Hrun' as <- <-.
      destruct r as [doc|err]; [|apply Hr].
      destruct Hr as [-> _]. repeat split; discriminate.
    + destruct (parse_v5_outcome buffer decode Hvalid) as (r & c & Hrun & Hp);
        [rewrite Hv; auto|].
      exists r. split; [exact Hp|].
      destruct (parseV5_outcome buffer V5 0 ltac:(auto)) as (r' & c' & Hrun' & Hr).
      rewrite Hv in Hrun. rewrite Hrun in Hrun'. injection Hrun' as <- <-.
      destruct r as [doc|err]; [|apply Hr].
      destruct Hr as [-> _]. repeat split; discriminate.
    + destruct (parse_v6_outcome buffer decode Hvalid Hv) as (strokes & _ & Hp).
      eexists. split; [exact Hp|]. repeat split; discriminate.
    + contradiction.
  - eexists. split; [unfold parse; rewrite Hvalid; reflexivity|]. reflexivity.
Qed.

(** X2. A revision-6 buffer never fails once its header is accepted:
    whatever bytes follow, [parse] succeeds with exactly one layer, and every
    stroke of that layer has at least one point, layer index 0, and points
    that are decoded 14-byte records of the buffer. *)
Theorem v6_always_decodes :
  valid (validateHeader buffer decode) = true ->
  hv_version (validateHeader buffer decode) = V6 ->
  exists strokes,
    parse buffer decode = Some (Success (mkParsedDocument V6 [strokes])) /\
    Forall (collectedV6 buffer) strokes.
Proof.
  intros Hvalid Hv.
  destruct (parse_v6_outcome buffer decode Hvalid Hv) as (strokes & Hall & Hp).
  eauto.
Qed.

(** X3. In every decoded document, of any revision, the [layerIndex] of a
    stroke is the position of the layer that holds it. *)
Theorem stroke_layer_index (doc : ParsedDocument) :
  parse buffer decode = Some (Success doc) ->
  forall (k : nat) (l : list Stroke) (s : Stroke),
    layers doc !! k = Some l -> s ∈ l -> layerIndex s = Z.of_nat k.
Proof.
  intros Hp k l s Hk Hs.
  pose proof (parse_success_valid buffer decode doc Hp) as Hvalid.
  pose proof (validateHeader_version buffer decode Hvalid) as Hu.
  destruct (hv_version (validateHeader buffer decode)) eqn:Hv; [| | |contradiction].
  1,2: destruct (parse_v5_outcome buffer decode Hvalid) as (r & c & Hrun & Hp');
         [rewrite Hv; auto|];
       rewrite Hp in Hp'; injection Hp' as <-;
       destruct (parseV5_outcome buffer (hv_version (validateHeader buffer decode)) 0
                   ltac:(rewrite Hv; auto)) as (r' & c' & Hrun' & Hr);
       rewrite Hrun in Hrun'; injection Hrun' as <- <-;
       destruct Hr as (_ & _ & _ & _ & e & Hat & _);
       pose proof (layersAt_layerIndex buffer _ _ _ _ _ Hat k l Hk) as Hall;
       rewrite Forall_forall in Hall; rewrite (Hall s Hs); lia.
  destruct (parse_v6_outcome buffer decode Hvalid Hv) as (strokes & Hall & Hp').
  rewrite Hp in Hp'. injection Hp' as ->. cbn [layers] in Hk.
  destruct k as [|k]; [|destruct k; discriminate].
  injection Hk as <-. rewrite Forall_forall in Hall.
  destruct (Hall s Hs) as (_ & -> & _). reflexivity.
Qed.

(** X4. The decoder accepts every well-formed revision 3/5 file: when the
    buffer is the well-formed layout of [layers], [parse] returns exactly
    the document with these layers; hence a buffer is the layout of at most
    one list of layers. *)
Theorem v5_layout_decoded (layers : list (list Stroke)) :
  let h := validateHeader buffer decode in
  valid h = true -> hv_version h = V3 \/ hv_version h = V5 ->
  wellFormedV5 buffer (hv_version h) layers ->
  parse buffer decode = Some (Success (mkParsedDocument (hv_version h) layers)) /\
  forall layers', wellFormedV5 buffer (hv_version h) layers' -> layers' = layers.
Proof.
  cbv zeta. intros Hvalid Hv Hwf.
  assert (Hdec : forall ls,
    wellFormedV5 buffer (hv_version (validateHeader buffer decode)) ls ->
    parse buffer decode =
      Some (Success (mkParsedDocument (hv_version (validateHeader buffer decode)) ls))).
  { intros ls Hls.
    destruct (parseV5_complete buffer _ ls 0 Hv Hls) as [e Hrun].
    rewrite (parse_valid buffer decode Hvalid).
    destruct Hv as [Hv|Hv]; rewrite Hv in *; rewrite Hrun; reflexivity. }
  split; [apply Hdec; exact Hwf|].
  intros ls' Hls'. pose proof (Hdec _ Hwf) as H1. pose proof (Hdec _ Hls') as H2.
  rewrite H1 in H2. injection H2 as H2. symmetry. exact H2.
Qed.

End ParseFacts.

Lemma validateHeader_app buffer extra decode :
  43 <= byteLength buffer ->
  validateHeader (buffer ++ extra) decode = validateHeader buffer decode.
Proof.
  intros Hlen. unfold validateHeader. rewrite byteLength_app.
  pose proof (byteLength_nonneg extra).
  destruct (byteLength buffer + byteLength extra <? 33) eqn:E1;
    [apply Z.ltb_lt in E1; lia|].
  destruct (byteLength buffer <? 33) eqn:E2; [apply Z.ltb_lt in E2; lia|].
  rewrite !Z.min_l by lia.
  rewrite take_app_le; [reflexivity|]. unfold byteLength in Hlen. lia.
Qed.

(** X5. Revisions 3 and 5 never look past the last layer: when a buffer of at
    least 43 bytes decodes to a document of revision 3 or 5, the same buffer
    followed by any further bytes decodes to the same document. *)
Theorem trailing_bytes_ignored (buffer extra : list Byte.byte)
    (decode : list Byte.byte -> list Z) (doc : ParsedDocument) :
  43 <= byteLength buffer ->
  parse buffer decode = Some (Success doc) ->
  doc_version doc <> V6 ->
  parse (buffer ++ extra) decode = Some (Success doc).
Proof.
  intros Hlen Hp Hnot6.
  pose proof (parse_success_valid buffer decode doc Hp) as Hvalid.
  pose proof (validateHeader_version buffer decode Hvalid) as Hu.
  assert (Hv : hv_version (validateHeader buffer decode) = V3 \/
               hv_version (validateHeader buffer decode) = V5).
  { destruct (hv_version (validateHeader buffer decode)) eqn:Hv; auto;
      [|contradiction].
    destruct (parse_v6_outcome buffer decode Hvalid Hv) as (strokes & _ & Hp').
    rewrite Hp in Hp'. injection Hp' as ->. contradiction. }
  destruct (parse_v5_outcome buffer decode Hvalid Hv) as (r & c & Hrun & Hp').
  rewrite Hp in Hp'. injection Hp' as <-.
  destruct (parseV5_outcome buffer _ 0 Hv) as (r' & c' & Hrun' & Hr).
  rewrite Hrun in Hrun'. injection Hrun' as <- <-.
  destruct Hr as (Hver & Hwf).
  apply (wellFormedV5_app buffer extra) in Hwf.
  destruct (parseV5_complete (buffer ++ extra) _ _ 0 Hv Hwf) as [e Hext].
  assert (Hvalid' : valid (validateHeader (buffer ++ extra) decode) = true)
    by (rewrite validateHeader_app by exact Hlen; exact Hvalid).
  rewrite (parse_valid _ decode Hvalid'), validateHeader_app by exact Hlen.
  destruct doc as [v ls]. cbn [doc_version layers] in *. subst v.
  destruct Hv as [Hv|Hv]; rewrite Hv in *; rewrite Hext; reflexivity.
Qed.

(** ** Revision 6: varuints, blocks and points *)

Section Varuint.
Variable buffer : list Byte.byte.

Lemma bytesAt_cons c b l :
  bytesAt buffer c (b :: l) ->
  c + 1 <= byteLength buffer /\ byteAt buffer c = b /\ bytesAt buffer (c + 1) l.
Proof.
  intros [Hlen Hat]. cbn [length] in Hlen.
  split; [lia|]. split.
  - rewrite <- (Hat O b eq_refl). f_equal. lia.
  - split; [lia|]. intros i b' Hi.
    rewrite <- (Hat (S i) b' Hi). f_equal. lia.
Qed.

Lemma readVaruint_loop_last fuel n r shift c :
  0 <= c -> 0 <= n < 128 -> 0 <= shift < 32 ->
  0 <= r < 2 ^ shift -> r + n * 2 ^ shift < 2 ^ 31 ->
  bytesAt buffer c [n] ->
  readVaruint_loop buffer (S fuel) r shift c = Ret (r + n * 2 ^ shift) (c + 1).
Proof.
  intros Hc Hn Hs Hr Hlt Hat. apply bytesAt_cons in Hat as (Hlen & Hb & _).
  cbn [readVaruint_loop]. rewrite bind_getCursor.
  destruct (c <? byteLength buffer) eqn:E; [|apply Z.ltb_ge in E; lia].
  erewrite bind_Ret by (apply getUint8_ok; lia). cbv beta zeta.
  rewrite Hb, land_128_small by lia. cbn [Z.eqb].
  rewrite land_127, Z.mod_small by lia.
  rewrite varuint_accumulate by lia. reflexivity.
Qed.

Lemma readVaruint_loop_decodes groups : forall fuel n r shift c,
  (length (varuintBytes groups n) <= fuel)%nat ->
  0 <= c -> 0 <= n < 128 ^ (Z.of_nat groups + 1) ->
  0 <= shift -> shift + 7 * Z.of_nat groups <= 28 ->
  0 <= r < 2 ^ shift -> r + n * 2 ^ shift < 2 ^ 31 ->
  bytesAt buffer c (varuintBytes groups n) ->
  readVaruint_loop buffer fuel r shift c =
    Ret (r + n * 2 ^ shift) (c + Z.of_nat (length (varuintBytes groups n))).
Proof.
  induction groups as [|groups IH]; intros fuel n r shift c Hf Hc Hn Hs Hg Hr Hlt Hat;
    (destruct fuel as [|fuel];
       [cbn [varuintBytes] in Hf; try destruct (n <? 128); cbn [length] in Hf; lia|]).
  - cbn [varuintBytes length] in *.
    apply readVaruint_loop_last; try assumption; lia.
  - cbn [varuintBytes] in *.
    destruct (n <? 128) eqn:En.
    { apply Z.ltb_lt in En. cbn [length].
      apply readVaruint_loop_last; try assumption; lia. }
    apply Z.ltb_ge in En.
    assert (Hp : 0 < 2 ^ shift) by (apply Z.pow_pos_nonneg; lia).
    assert (Hm : 0 <= n mod 128 < 128) by (apply Z.mod_pos_bound; lia).
    assert (Hdiv : n = 128 * (n / 128) + n mod 128) by (apply Z.div_mod; lia).
    assert (Hq : 0 <= n / 128) by (apply Z.div_pos; lia).
    apply bytesAt_cons in Hat as (Hlen & Hb & Hrest).
    cbn [readVaruint_loop]. rewrite bind_getCursor.
    destruct (c <? byteLength buffer) eqn:E; [|apply Z.ltb_ge in E; lia].
    erewrite bind_Ret by (apply getUint8_ok; lia). cbv beta zeta.
    rewrite Hb, land_128_large by lia. cbn [Z.eqb].
    rewrite land_127 by lia.
    replace ((n mod 128 + 128) mod 128) with (n mod 128)
      by (apply (Z.mod_unique _ _ 1); lia).
    rewrite varuint_accumulate by nia.
    assert (Hpow : 2 ^ (shift + 7) = 128 * 2 ^ shift)
      by (rewrite Z.pow_add_r by lia; change (2 ^ 7) with 128; lia).
    rewrite (IH fuel (n / 128) _ (shift + 7) (c + 1)); try lia; try assumption.
    + cbn [length]. f_equal; [rewrite Hpow; nia|lia].
    + cbn [length] in Hf. lia.
    + split; [assumption|].
      apply Z.div_lt_upper_bound; [lia|].
      replace (Z.of_nat (S groups) + 1) with (Z.succ (Z.of_nat groups + 1)) in Hn by lia.
      rewrite Z.pow_succ_r in Hn by lia. lia.
    + rewrite Hpow. nia.
Qed.

Lemma readVaruint_decodes n c :
  0 <= c -> 0 <= n < 2 ^ 31 ->
  bytesAt buffer c (encodeVaruint n) ->
  readVaruint buffer c = Ret n (c + Z.of_nat (length (encodeVaruint n))).
Proof.
  intros Hc Hn Hat. unfold readVaruint, encodeVaruint in *.
  pose proof Hat as [Hlen _].
  rewrite (readVaruint_loop_decodes 4 _ n 0 0 c); try lia; try assumption.
  f_equal. lia.
Qed.
End Varuint.

Lemma varuintBytes_range groups : forall n,
  0 <= n < 128 ^ (Z.of_nat groups + 1) ->
  Forall (fun b => 0 <= b < 256) (varuintBytes groups n).
Proof.
  induction groups as [|groups IH]; intros n Hn; cbn [varuintBytes].
  - constructor; [|constructor]. change (128 ^ (Z.of_nat 0 + 1)) with 128 in Hn. lia.
  - destruct (n <? 128) eqn:En.
    + apply Z.ltb_lt in En. constructor; [lia|constructor].
    + apply Z.ltb_ge in En.
      assert (Hm : 0 <= n mod 128 < 128) by (apply Z.mod_pos_bound; lia).
      constructor; [lia|]. apply IH. split; [apply Z.div_pos; lia|].
      apply Z.div_lt_upper_bound; [lia|].
      replace (Z.of_nat (S groups) + 1) with (Z.succ (Z.of_nat groups + 1)) in Hn by lia.
      rewrite Z.pow_succ_r in Hn by lia. lia.
Qed.

Lemma bytesAt_app (pre post : list Byte.byte) (l : list Z) :
  Forall (fun b => 0 <= b < 256) l ->
  bytesAt (pre ++ bytesOf l ++ post) (byteLength pre) l.
Proof.
  intros Hl. split.
  - unfold byteLength, bytesOf. rewrite !length_app, length_fmap. lia.
  - intros i b Hi. unfold byteAt, byteLength.
    destruct (Z.of_nat (length pre) + Z.of_nat i <? 0) eqn:E;
      [apply Z.ltb_lt in E; lia|].
    replace (Z.to_nat (Z.of_nat (length pre) + Z.of_nat i))
      with (length pre + i)%nat by lia.
    rewrite lookup_app_r by lia.
    replace (length pre + i - length pre)%nat with i by lia.
    rewrite lookup_app_l
      by (unfold bytesOf; rewrite length_fmap; eapply lookup_lt_Some; exact Hi).
    unfold bytesOf. rewrite list_lookup_fmap, Hi. cbn [fmap option_fmap option_map].
    pose proof (Forall_lookup_1 _ _ _ _ Hl Hi) as Hb. cbv beta in Hb.
    destruct (Byte.of_N (Z.to_N b)) as [y|] eqn:Ey.
    + cbn [default]. erewrite Byte.to_of_N by exact Ey. lia.
    + apply Byte.of_N_None_iff in Ey. lia.
Qed.

(** X6. [readVaruint] inverts the little-endian base-128 encoding: for every
    value below [2 ^ 31], written anywhere in a buffer, it returns the value
    and leaves the cursor just past the encoding. *)
Theorem varuint_round_trip (pre post : list Byte.byte) (n : Z) :
  0 <= n < 2 ^ 31 ->
  readVaruint (pre ++ bytesOf (encodeVaruint n) ++ post) (byteLength pre) =
    Ret n (byteLength pre + Z.of_nat (length (encodeVaruint n))).
Proof.
  intros Hn. apply readVaruint_decodes; [apply byteLength_nonneg|exact Hn|].
  apply bytesAt_app. apply varuintBytes_range.
  change (128 ^ (Z.of_nat 4 + 1)) with (2 ^ 35). lia.
Qed.

Section Blocks.
Variable buffer : list Byte.byte.

(** X7. An accepted block is isolated from the blocks after it: the scan
    goes on at the end the block declares.  A block of another type is
    skipped whole; for a line-definition block the stroke decoder runs on
    the block, returns whatever it reads there (a stroke or a failure, with
    its own cursor anywhere), the stroke is collected when it has a point,
    and the scan resumes at the declared end all the same. *)
Theorem accepted_block_isolated (strokes : list Stroke) (c : Z) :
  0 <= c -> c + 8 <= byteLength buffer -> ~ rejectedAt buffer c ->
  let blockEnd := c + 8 + uint32At buffer c in
  blockEnd <= byteLength buffer /\
  (uint32At buffer (c + 4) <> V6BlockType.LINE_DEF ->
     scanV6 buffer strokes c = scanV6 buffer strokes blockEnd) /\
  (uint32At buffer (c + 4) = V6BlockType.LINE_DEF ->
     exists r c',
       parseV6Stroke buffer blockEnd (c + 8) = Ret r c' /\
       scanV6 buffer strokes c = scanV6 buffer (strokes ++ pushed r) blockEnd).
Proof.
  intros H0 H8 Hacc. cbv zeta.
  unfold rejectedAt in Hacc. apply not_true_is_false in Hacc.
  set (length := uint32At buffer c) in *.
  assert (Hlen : 0 <= length) by (apply leUnsigned_range).
  assert (Hfit : 0 < length /\ c + 8 + length <= byteLength buffer).
  { unfold invalidBlock in Hacc.
    apply orb_false_iff in Hacc as [Hacc _].
    apply orb_false_iff in Hacc as [E1 E2].
    apply Z.eqb_neq in E1. rewrite Z.gtb_ltb in E2. apply Z.ltb_ge in E2. lia. }
  split; [lia|]. split.
  - intros Hflag. apply Z.eqb_neq in Hflag.
    unfold scanV6 at 1. cbn [parseV6Blocks]. rewrite bind_getCursor.
    destruct (c + 8 <=? byteLength buffer) eqn:E'; [|apply Z.leb_gt in E'; lia].
    do 3 mstep. fold length. replace (c + 4 + 4) with (c + 8) by lia.
    rewrite Hacc, Hflag. rewrite bind_advance.
    apply parseV6Blocks_fuel; lia.
  - intros Hflag.
    destruct (parseV6Stroke_run buffer (c + 8 + length) (c + 8)
                ltac:(lia) ltac:(lia)) as (r & c'' & Hstroke & _).
    exists r, c''. split; [exact Hstroke|].
    unfold scanV6 at 1. cbn [parseV6Blocks]. rewrite bind_getCursor.
    destruct (c + 8 <=? byteLength buffer) eqn:E'; [|apply Z.leb_gt in E'; lia].
    do 3 mstep. fold length. replace (c + 4 + 4) with (c + 8) by lia.
    rewrite Hacc, Hflag. cbn [Z.eqb V6BlockType.LINE_DEF Pos.eqb]. cbv zeta.
    erewrite bind_Ret by exact Hstroke. cbv beta zeta. mstep.
    rewrite parseV6Blocks_fuel by lia. f_equal.
    destruct r as [s|e]; cbn [pushed].
    + destruct (Z.of_nat (List.length (points s)) >? 0);
        [reflexivity|rewrite app_nil_r; reflexivity].
    + rewrite app_nil_r. reflexivity.
Qed.

Lemma readV6Points_exact n blockEnd : forall acc c,
  0 <= c -> blockEnd <= byteLength buffer ->
  let k := Z.to_nat (Z.min (Z.of_nat n) ((blockEnd - c) / V6_POINT_SIZE)) in
  readV6Points buffer n blockEnd acc c =
    Ret (acc ++ v6PointsAt buffer k c) (c + V6_POINT_SIZE * Z.of_nat k).
Proof.
  unfold V6_POINT_SIZE.
  induction n as [|n IH]; intros acc c H0 Hb; cbv zeta.
  - replace (Z.to_nat (Z.min (Z.of_nat 0) ((blockEnd - c) / 14))) with O by lia.
    cbn [readV6Points v6PointsAt]. unfold ret. rewrite app_nil_r. f_equal. lia.
  - cbn [readV6Points]. rewrite bind_getCursor. unfold V6_POINT_SIZE.
    destruct (c + 14 <=? blockEnd) eqn:E.
    + apply Z.leb_le in E.
      erewrite bind_Ret by (apply readV6Point_ok; lia).
      rewrite (IH _ (c + 14)) by lia. cbv zeta.
      assert (Hq : (blockEnd - (c + 14)) / 14 = (blockEnd - c) / 14 - 1).
      { replace (blockEnd - (c + 14)) with ((blockEnd - c) + (-1) * 14) by lia.
        rewrite Z.div_add by lia. lia. }
      assert (Hq1 : 1 <= (blockEnd - c) / 14)
        by (apply Z.div_le_lower_bound; lia).
      replace (Z.to_nat (Z.min (Z.of_nat (S n)) ((blockEnd - c) / 14)))
        with (S (Z.to_nat (Z.min (Z.of_nat n) ((blockEnd - (c + 14)) / 14))))
        by lia.
      cbn [v6PointsAt]. rewrite <- app_assoc. cbn [app]. f_equal. lia.
    + apply Z.leb_gt in E.
      assert (Hq : (blockEnd - c) / 14 <= 0).
      { destruct (Z_lt_le_dec (blockEnd - c) 0) as [Hneg|Hpos].
        - pose proof (Z.div_lt_upper_bound (blockEnd - c) 14 0 ltac:(lia) ltac:(lia)).
          lia.
        - rewrite Z.div_small by lia. lia. }
      replace (Z.to_nat (Z.min (Z.of_nat (S n)) ((blockEnd - c) / 14))) with O
        by lia.
      cbn [v6PointsAt]. unfold ret. rewrite app_nil_r. f_equal. lia.
Qed.

(** X8. The points sub-block (field 5 of wire type [Length4]) never reads
    across the end of its block: of the [length / 14] records its length
    word declares, it decodes those that lie whole before [blockEnd], in
    order, appends them to the points the stroke already has, and leaves
    the cursor just past the last record read.  When the length word itself
    does not fit in the buffer, the read raises the exception that fails
    the stroke. *)
Theorem points_field_within_block (blockEnd : Z) (st : V6Fields) (c : Z) :
  0 <= c -> blockEnd <= byteLength buffer ->
  (c + 4 <= byteLength buffer ->
   let k := Z.to_nat (Z.min (uint32At buffer c / 14) ((blockEnd - (c + 4)) / 14)) in
   v6FieldSwitch buffer blockEnd st 5 V6TagType.Length4 c =
     Ret (mkV6Fields (f_pen st) (f_color st) (f_thickness st)
            (f_points st ++ v6PointsAt buffer k (c + 4)))
         (c + 4 + 14 * Z.of_nat k) /\
   c + 4 + 14 * Z.of_nat k <= Z.max (c + 4) blockEnd) /\
  (byteLength buffer < c + 4 ->
   v6FieldSwitch buffer blockEnd st 5 V6TagType.Length4 c = Throw RangeError c).
Proof.
  intros H0 Hb. split.
  - intros H4. cbv zeta.
    pose proof (Z.mul_div_le (blockEnd - (c + 4)) 14 ltac:(lia)) as Hq.
    split; [|lia].
    cbn [v6FieldSwitch V6TagType.Length4 Z.eqb Pos.eqb].
    erewrite bind_Ret by (apply getUint32_ok; lia). cbv beta zeta.
    assert (Hu : 0 <= uint32At buffer c) by (apply leUnsigned_range).
    erewrite bind_Ret by (apply readV6Points_exact; lia).
    unfold ret, V6_POINT_SIZE.
    rewrite Z2Nat.id by (apply Z.div_pos; lia).
    reflexivity.
  - intros Hout. cbn [v6FieldSwitch V6TagType.Length4 Z.eqb Pos.eqb].
    unfold bind, getUint32. rewrite readLE_throw by (simpl; lia). reflexivity.
Qed.

End Blocks.

(** ** Pressures *)

Lemma normalizePressure_cases (p : number) :
  match p with
  | NaN => normalizePressure p = NaN
  | NegInf => normalizePressure p = Fin 0
  | PosInf => normalizePressure p = Fin 1
  | Fin q => (q <= 0 /\ normalizePressure p = Fin 0)%Q \/
             (0 < q /\ q < 1 /\ normalizePressure p = Fin q)%Q \/
             (1 <= q /\ normalizePressure p = Fin 1)%Q
  end.
Proof.
  destruct p as [| |q|]; try reflexivity.
  unfold normalizePressure, Math_max, Math_min. cbn [foldr].
  rewrite max2_NegInf, min2_PosInf.
  unfold min2, max2; cbn [isNaN orb num_ltb].
  destruct (Qltb q 1) eqn:E1; cbn [isNaN orb num_ltb].
  - destruct (Qltb 0 q) eqn:E0; qbool.
    + right; left. repeat split; auto.
    + left. split; auto.
  - right; right. qbool. split; auto.
Qed.

Lemma normalizePressure_cases_range (p : number) :
  isNaN (normalizePressure p) = false ->
  num_le (Fin 0) (normalizePressure p) /\ num_le (normalizePressure p) (Fin 1).
Proof.
  pose proof (normalizePressure_cases p) as H.
  destruct p as [| |q|]; cbv beta iota in H; try (rewrite H); try discriminate;
    try (intros _; split; reflexivity).
  intros _. destruct H as [[? ->]|[(? & ? & ->)|[? ->]]];
    unfold num_le; cbn [num_leb]; split; qbool; lra.
Qed.

(** X9. [normalizePressure] brings every number into the interval from 0 to
    1: the result is NaN only for NaN, a value already in the interval is
    returned as it is, and normalizing twice changes nothing. *)
Theorem normalizePressure_range (p : number) :
  (isNaN p = true -> normalizePressure p = NaN) /\
  (isNaN p = false ->
     num_le (Fin 0) (normalizePressure p) /\ num_le (normalizePressure p) (Fin 1)) /\
  (num_le (Fin 0) p -> num_le p (Fin 1) -> num_same (normalizePressure p) p) /\
  normalizePressure (normalizePressure p) = normalizePressure p.
Proof.
  pose proof (normalizePressure_cases p) as H.
  destruct p as [| |q|]; cbv beta iota in H.
  - rewrite H. repeat split; try discriminate; reflexivity.
  - rewrite H. repeat split; try discriminate; reflexivity.
  - split; [discriminate|]. split; [|split].
    + intros _. destruct H as [[? ->]|[(? & ? & ->)|[? ->]]];
        unfold num_le; cbn [num_leb]; split; qbool; lra.
    + unfold num_le; cbn [num_leb]. intros H0 H1. qbool.
      destruct H as [[? ->]|[(? & ? & ->)|[? ->]]]; cbn [num_same]; lra.
    + destruct H as [[? ->]|[(? & ? & Hq)|[? ->]]]; try reflexivity.
      rewrite Hq. exact Hq.
  - rewrite H. repeat split; try discriminate; reflexivity.
Qed.

Lemma PEN_simulatePressure (pen : Z) :
  simulatePressure (getPenCharacteristics pen)
    = negb (pressureSensitive (getPenCharacteristics pen)).
Proof.
  unfold getPenCharacteristics.
  destruct (PEN_CHARACTERISTICS !! pen) as [c|] eqn:E.
  - apply elem_of_list_to_map_2 in E. simpl.
    repeat (apply elem_of_cons in E as [E|E];
            [inversion E; subst; reflexivity |]).
    inversion E.
  - reflexivity.
Qed.

Lemma calculatePressures_length s penChar :
  length (calculatePressures s penChar) = length (points s).
Proof.
  unfold calculatePressures. destruct (negb (pressureSensitive penChar));
    apply length_fmap.
Qed.

Section ConverterMore.
Variables G C : Type.
Variable generateId : G -> string * G.
Variable generateSeed : G -> Z * G.
Variable Date_now : C -> Z * C.

Local Abbreviation convertStroke' := (convertStroke G C generateId generateSeed Date_now).
Local Abbreviation convertLayer' := (convertLayer G C generateId generateSeed Date_now).
Local Abbreviation convertLayers' := (convertLayers G C generateId generateSeed Date_now).
Local Abbreviation convert' := (convert G C generateId generateSeed Date_now).
Local Abbreviation convertOutput' :=
  (convertOutput G C generateId generateSeed Date_now).
Local Abbreviation converterAfter' :=
  (converterAfter G C generateId generateSeed Date_now).
Local Abbreviation convertedInTurn' :=
  (convertedInTurn G C generateId generateSeed Date_now).

(** The group identifiers [convertStroke] gives an element of layer [k]. *)
Local Abbreviation groupIdsOf this k :=
  (if preserveLayers (options this) then
     match layerGroupIds this !! k with
     | Some groupId => if String.eqb groupId EmptyString then [] else [groupId]
     | None => []
     end
   else []).

(** What a successful [convertStroke] did: the services it called, in
    order, and the fields it took from them and from the pen. *)
Lemma convertStroke_Some this s k w e w' :
  convertStroke' this s k w = (Some e, w') ->
  points s <> [] /\
  fd_id e = (fst (generateId (fst w))) /\
  (fst w') = (snd (generateSeed (snd (generateId (fst w))))) /\
  fd_groupIds e = groupIdsOf this k /\
  fd_pressures e = calculatePressures s (getPenCharacteristics (pen s)) /\
  fd_simulatePressure e = simulatePressure (getPenCharacteristics (pen s)) /\
  length (fd_points e) = length (points s).
Proof.
  intros H. destruct (decide (points s = [])) as [Ep|Ep].
  { rewrite convertStroke_empty in H by exact Ep. discriminate. }
  split; [exact Ep|].
  unfold convertStroke in H.
  destruct (Z.of_nat (length (points s)) =? 0) eqn:E;
    [apply Z.eqb_eq in E; destruct (points s); [contradiction|simpl in E; lia]|].
  destruct w as [g c].
  rewrite sbind_callNow, sbind_callId, sbind_callSeed, sbind_callNow in H.
  unfold sret in H. injection H as He Hw. subst e w'.
  cbn [fd_id fd_groupIds fd_pressures fd_simulatePressure fd_points fst snd].
  rewrite !length_fmap. repeat split; reflexivity.
Qed.

(** X10. The pressures of an emitted element: there is one per point; for
    a pen that is not pressure-sensitive they are the constant 0.5 and the
    element asks for simulated pressure; otherwise the element carries the
    normalized pressures of the stroke's points and does not ask for it.
    In both cases every pressure that is a number lies between 0 and 1. *)
Theorem element_pressures this s k w e w' :
  convertStroke' this s k w = (Some e, w') ->
  length (fd_pressures e) = length (fd_points e) /\
  length (fd_points e) = length (points s) /\
  (fd_simulatePressure e = true ->
     fd_pressures e = (fun _ => Fin 0.5) <$> points s) /\
  (fd_simulatePressure e = false ->
     fd_pressures e = (fun p => normalizePressure (p_pressure p)) <$> points s) /\
  Forall (fun pr => isNaN pr = false -> num_le (Fin 0) pr /\ num_le pr (Fin 1))
         (fd_pressures e).
Proof.
  intros H.
  destruct (convertStroke_Some _ _ _ _ _ _ H) as (_ & _ & _ & _ & Hp & Hs & Hl).
  rewrite Hp, Hs, Hl, calculatePressures_length, PEN_simulatePressure.
  unfold calculatePressures.
  split; [reflexivity|]. split; [reflexivity|].
  destruct (pressureSensitive (getPenCharacteristics (pen s))); cbn [negb].
  - split; [discriminate|]. split; [reflexivity|].
    apply Forall_fmap, Forall_forall. intros p _. unfold compose.
    apply (normalizePressure_cases_range (p_pressure p)).
  - split; [reflexivity|]. split; [discriminate|].
    apply Forall_fmap, Forall_forall. intros p _. unfold compose. intros _.
    unfold num_le. split; reflexivity.
Qed.

Lemma sbind_assoc {A B D} (m : Svc G C A) (f : A -> Svc G C B)
    (k : B -> Svc G C D) w :
  sbind G C (sbind G C m f) k w = sbind G C m (fun a => sbind G C (f a) k) w.
Proof. unfold sbind. destruct (m w). reflexivity. Qed.

(** *** The calls of [convertStroke], in turn *)

Lemma convertedInTurn_app this : forall es1 ks1 w w1 es2 ks2 w2,
  convertedInTurn' this w es1 ks1 w1 ->
  convertedInTurn' this w1 es2 ks2 w2 ->
  convertedInTurn' this w (es1 ++ es2) (ks1 ++ ks2) w2.
Proof.
  induction es1 as [|e es1 IH]; intros [|[k s] ks1] w w1 es2 ks2 w2 H1 H2;
    cbn in H1; try contradiction.
  - subst w1. exact H2.
  - destruct H1 as (w0 & Hrun & Hrest). cbn. exists w0. split; [exact Hrun|].
    eapply IH; eassumption.
Qed.

Lemma convertLayer_trace this layer : forall k elements w,
  exists es w',
    convertLayer' this layer k elements w = (elements ++ (Freedraw <$> es), w') /\
    convertedInTurn' this w es
      (filter (fun ks => emitted (options this) (snd ks) = true)
              ((fun s => (k, s)) <$> layer)) w'.
Proof.
  induction layer as [|s layer IH]; intros k elements w.
  - exists [], w. cbn. rewrite app_nil_r. split; reflexivity.
  - cbn [convertLayer fmap list_fmap]. rewrite filter_cons. cbn [snd].
    destruct (negb (includeEraser (options this)) && isEraserStroke s) eqn:Eer.
    + destruct (IH k elements w) as (es & w' & Hrun & Hall).
      exists es, w'. split; [exact Hrun|].
      assert (Hem : emitted (options this) s = false).
      { apply emitted_false. right. apply andb_true_iff in Eer as [H1 H2].
        split; [destruct (includeEraser (options this)); [discriminate|reflexivity]|exact H2]. }
      destruct (decide (emitted (options this) s = true)); [congruence|exact Hall].
    + destruct (points s) as [|p ps] eqn:Ep.
      * unfold sbind. rewrite convertStroke_empty by exact Ep.
        destruct (IH k elements w) as (es & w' & Hrun & Hall).
        exists es, w'. split; [exact Hrun|].
        assert (Hem : emitted (options this) s = false)
          by (apply emitted_false; left; exact Ep).
        destruct (decide (emitted (options this) s = true)); [congruence|exact Hall].
      * destruct (convertStroke_nonempty G C generateId generateSeed Date_now
                    this s k w ltac:(rewrite Ep; discriminate))
          as (e & w1 & Hrun1 & _).
        unfold sbind. rewrite Hrun1.
        destruct (IH k (elements ++ [Freedraw e]) w1) as (es & w' & Hrun & Hall).
        exists (e :: es), w'. split.
        { rewrite Hrun. rewrite <- app_assoc. reflexivity. }
        assert (Hem : emitted (options this) s = true).
        { unfold emitted. rewrite Ep. cbn.
          destruct (includeEraser (options this)), (isEraserStroke s);
            cbn in *; congruence. }
        destruct (decide (emitted (options this) s = true)); [|congruence].
        cbn. exists w1. split; [exact Hrun1|exact Hall].
Qed.

Lemma convertLayers_trace this layers : forall k elements w,
  exists es w',
    convertLayers' this layers k elements w = (elements ++ (Freedraw <$> es), w') /\
    convertedInTurn' this w es
      (filter (fun ks => emitted (options this) (snd ks) = true)
              (strokesWithLayer layers k)) w'.
Proof.
  induction layers as [|layer layers IH]; intros k elements w.
  - exists [], w. cbn. rewrite app_nil_r. split; reflexivity.
  - cbn [convertLayers strokesWithLayer]. unfold sbind.
    destruct (convertLayer_trace this layer k elements w)
      as (es1 & w1 & Hrun1 & Hall1).
    rewrite Hrun1.
    destruct (IH (k + 1) (elements ++ (Freedraw <$> es1)) w1)
      as (es2 & w2 & Hrun2 & Hall2).
    exists (es1 ++ es2), w2. split.
    + rewrite Hrun2, fmap_app, app_assoc. reflexivity.
    + rewrite filter_app. eapply convertedInTurn_app; eassumption.
Qed.

Lemma convertedInTurn_groupIds this : forall es ks w w',
  convertedInTurn' this w es ks w' ->
  Forall2 (fun e ks => fd_groupIds e = groupIdsOf this (fst ks)) es ks.
Proof.
  induction es as [|e es IH]; intros [|[k s] ks] w w' H; cbn in H;
    try contradiction; [constructor|].
  destruct H as (w1 & Hrun & Hrest).
  constructor; [|eapply IH; exact Hrest].
  destruct (convertStroke_Some _ _ _ _ _ _ Hrun) as (_ & _ & _ & Hg & _).
  exact Hg.
Qed.

Lemma assignGroupIds_assigned layers : forall index ids w k,
  index <= k < index + Z.of_nat (length layers) ->
  is_Some (fst (assignGroupIds G C generateId layers index ids w) !! k).
Proof.
  induction layers as [|l layers IH]; intros index ids [g c] k Hk;
    [cbn [length] in Hk; lia|].
  cbn [assignGroupIds]. unfold sbind, callId. cbn [fst snd].
  destruct (generateId g) as [id g'].
  destruct (Z.eq_dec k index) as [->|Hne].
  - rewrite assignGroupIds_lookup_lt by lia. rewrite lookup_insert_eq. eauto.
  - apply IH. cbn [length] in Hk. lia.
Qed.

(** The steps of [convert], with the states of the services between them. *)
Lemma convert_steps this document w :
  exists start fs w0 ids w1 es w2,
    (match backgroundImage this with
     | Some bg =>
         let fileId := (fst (generateId (fst w))) in
         exists im created,
           start = [Image im] /\
           fs = <[fileId := mkFile "image/png" fileId (bg_dataUrl bg) created]>
                  (∅ : gmap string ExcalidrawFile) /\
           im_fileId im = fileId /\
           im_id im = (fst (generateId (snd (generateId (fst w))))) /\
           im_width im = bg_width bg /\ im_height im = bg_height bg /\
           im_x im = 0 /\ im_y im = 0 /\ im_locked im = true /\
           im_status im = "saved" /\
           (fst w0) = (snd (generateSeed (snd (generateId (snd (generateId (fst w)))))))
     | None => start = [] /\ fs = ∅ /\ w0 = w
     end) /\
    (if preserveLayers (options this)
     then assignGroupIds G C generateId (layers document) 0 (layerGroupIds this) w0
            = (ids, w1)
     else ids = layerGroupIds this /\ w1 = w0) /\
    let this' := mkConverter (options this) ids (backgroundImage this) in
    convertedInTurn' this' w1 es
      (filter (fun ks => emitted (options this) (snd ks) = true)
              (strokesWithLayer (layers document) 0)) w2 /\
    convert' this document w =
      (mkDocument "excalidraw" 2 "obsidian-remarkable-import"
         (start ++ (Freedraw <$> es)) (mkAppState "#ffffff" 1) fs, this', w2).
Proof.
  unfold convert. destruct w as [g c].
  destruct (backgroundImage this) as [bg|] eqn:Ebg;
    destruct (preserveLayers (options this)) eqn:Epl;
    unfold createBackgroundImageElement;
    repeat (first [ rewrite sbind_assoc | rewrite sbind_callId
                  | rewrite sbind_callNow | rewrite sbind_callSeed
                  | rewrite sbind_sret ]; cbv beta);
    try rewrite (sbind_proj G C (assignGroupIds _ _ _ _ _ _)); cbv beta;
    match goal with
    | |- context [sbind _ _ (convertLayers _ _ _ _ _ ?t _ 0 ?st) _ ?w1] =>
        destruct (convertLayers_trace t (layers document) 0 st w1)
          as (es & w2 & Hrun & Hall)
    end;
    rewrite (sbind_proj G C), Hrun; unfold sret; cbn [fst snd] in *;
    eexists _, _, _, _, _, es, w2;
    (split; [|split; [|split; [exact Hall|reflexivity]]]).
  all: try apply surjective_pairing.
  all: try (split; reflexivity).
  all: try (eexists _, _; repeat split; reflexivity).
  all: try (repeat split; reflexivity).
Qed.

(** X11. Layer groups.  With [preserveLayers] set, [convert] gives every
    layer of the document a group identifier, and each emitted element
    carries the identifier of the layer its stroke belongs to (no group
    when that identifier is the empty string), so that the elements of one
    layer share their group; without [preserveLayers] no element has a
    group and the table of identifiers is left as it was. *)
Theorem layer_group_ids this document w :
  let out := convertOutput' this document w in
  let this' := converterAfter' this document w in
  let kept := filter (fun ks => emitted (options this) (snd ks) = true)
                     (strokesWithLayer (layers document) 0) in
  (preserveLayers (options this) = true ->
     (forall k, 0 <= k < Z.of_nat (length (layers document)) ->
        is_Some (layerGroupIds this' !! k)) /\
     Forall2 (fun e ks =>
                fd_groupIds e =
                  match layerGroupIds this' !! (fst ks) with
                  | Some groupId => if String.eqb groupId EmptyString then [] else [groupId]
                  | None => []
                  end)
             (freehandElements (elements out)) kept) /\
  (preserveLayers (options this) = false ->
     layerGroupIds this' = layerGroupIds this /\
     length (freehandElements (elements out)) = length kept /\
     Forall (fun e => fd_groupIds e = []) (freehandElements (elements out))).
Proof.
  cbv zeta. unfold convertOutput, converterAfter.
  destruct (convert_steps this document w)
    as (start & fs & w0 & ids & w1 & es & w2 & Hstart & Hids & Hturn & ->).
  cbn [fst snd elements].
  assert (Hfree : freehandElements start = []).
  { destruct (backgroundImage this); [destruct Hstart as (im & cr & -> & _)
                                     |destruct Hstart as (-> & _)]; reflexivity. }
  rewrite freehand_app_Freedraw, Hfree. cbn [app layerGroupIds].
  pose proof (convertedInTurn_groupIds _ _ _ _ _ Hturn) as Hg.
  cbn [options layerGroupIds] in Hg.
  split; intros Hpl; rewrite Hpl in Hids, Hg.
  - split; [|exact Hg].
    intros k Hk.
    replace ids with
      (fst (assignGroupIds G C generateId (layers document) 0 (layerGroupIds this) w0))
      by (rewrite Hids; reflexivity).
    apply assignGroupIds_assigned. lia.
  - destruct Hids as [-> _]. split; [reflexivity|].
    split; [eapply Forall2_length; exact Hg|].
    eapply Forall2_Forall_l; [exact Hg|].
    apply Forall_forall. intros ks _ e He. exact He.
Qed.

(** X12. The background image.  When one is set, the output starts with
    one locked image element at the origin, of the size of the background,
    followed by the freehand elements only; the table of files holds
    exactly one entry, under the element's [fileId], with that identifier,
    the data URL of the background and the type [image/png].  When none is
    set, the output has no image element and no file. *)
Theorem background_image_file this document w :
  let out := convertOutput' this document w in
  match backgroundImage this with
  | Some bg =>
      exists im es f,
        elements out = Image im :: (Freedraw <$> es) /\
        im_x im = 0 /\ im_y im = 0 /\
        im_width im = bg_width bg /\ im_height im = bg_height bg /\
        im_locked im = true /\ im_status im = "saved" /\
        files out = {[ im_fileId im := f ]} /\
        file_id f = im_fileId im /\
        file_dataURL f = bg_dataUrl bg /\
        file_mimeType f = "image/png"
  | None =>
      imageElements (elements out) = [] /\ files out = ∅
  end.
Proof.
  cbv zeta. unfold convertOutput.
  destruct (convert_steps this document w)
    as (start & fs & w0 & ids & w1 & es & w2 & Hstart & _ & _ & ->).
  cbn [fst snd elements files].
  destruct (backgroundImage this) as [bg|].
  - destruct Hstart as (im & created & -> & -> & Hfid & _ & Hw & Hh & Hx & Hy & Hl & Hs & _).
    exists im, es, (mkFile "image/png" (im_fileId im) (bg_dataUrl bg) created).
    rewrite Hfid. repeat split; auto.
  - destruct Hstart as (-> & -> & _). cbn [app].
    split; [|reflexivity]. apply (image_app_Freedraw [] es).
Qed.

End ConverterMore.

Section FreshIds.
Variables G C : Type.
Variable generateId : G -> string * G.
Variable generateSeed : G -> Z * G.
Variable Date_now : C -> Z * C.

(** The identifiers given out so far, as a function of the state of the
    generator: [generateId] returns one that is not among them and records
    it, and neither [generateId] nor [generateSeed] forgets any. *)
Variable issued : G -> gset string.
Hypothesis generateId_fresh : forall g,
  (fst (generateId g) ∉ issued g) /\
  fst (generateId g) ∈ issued (snd (generateId g)) /\
  issued g ⊆ issued (snd (generateId g)).
Hypothesis generateSeed_keeps : forall g,
  issued g ⊆ issued (snd (generateSeed g)).

Lemma convertedInTurn_ids this : forall es ks w w',
  convertedInTurn G C generateId generateSeed Date_now this w es ks w' ->
  issued (fst w) ⊆ issued (fst w') /\
  NoDup (fd_id <$> es) /\
  Forall (fun i => (i ∉ issued (fst w)) /\ i ∈ issued (fst w')) (fd_id <$> es).
Proof.
  induction es as [|e es IH]; intros [|[k s] ks] w w' H; cbn in H;
    try contradiction.
  - subst w'. repeat split; [reflexivity|constructor|constructor].
  - destruct H as (w1 & Hrun & Hrest).
    destruct (convertStroke_Some _ _ _ _ _ _ _ _ _ _ _ Hrun)
      as (_ & Hid & Hw1 & _).
    destruct (IH _ _ _ Hrest) as (Hsub & Hnd & Hall).
    destruct (generateId_fresh (fst w)) as (Hnew & Hrec & Hmono).
    pose proof (generateSeed_keeps (snd (generateId (fst w)))) as Hkeep.
    rewrite <- Hw1 in Hkeep. rewrite <- Hid in Hnew, Hrec.
    assert (Hin : fd_id e ∈ issued (fst w1)) by (eapply elem_of_weaken; eassumption).
    assert (Hsub1 : issued (fst w) ⊆ issued (fst w1)) by (etransitivity; eassumption).
    cbn [fmap list_fmap]. split; [etransitivity; eassumption|]. split.
    + constructor; [|exact Hnd].
      intros Hmem. rewrite Forall_forall in Hall.
      destruct (Hall _ Hmem) as [Hout _]. contradiction.
    + constructor.
      * split; [exact Hnew|eapply elem_of_weaken; eassumption].
      * eapply Forall_impl; [exact Hall|]. cbv beta. intros i [H1 H2].
        split; [|exact H2]. eapply not_elem_of_weaken; eassumption.
Qed.

Lemma assignGroupIds_issued layers : forall index ids w,
  issued (fst w) ⊆ issued (fst (snd (assignGroupIds G C generateId layers index ids w))).
Proof.
  induction layers as [|l layers IH]; intros index ids [g c]; [reflexivity|].
  cbn [assignGroupIds]. unfold sbind, callId. cbn [fst snd].
  destruct (generateId_fresh g) as (_ & _ & Hmono).
  destruct (generateId g) as [id g'] eqn:Eg. cbn [fst snd] in *.
  etransitivity; [exact Hmono|]. apply (IH (index + 1) _ (g', c)).
Qed.

(** X13. With a generator that never gives out an identifier twice, the
    elements of one output document have pairwise distinct [id]s, none of
    which had been given out before the call: [convert] asks for a new
    identifier for the background image and for every emitted stroke. *)
Theorem element_ids_distinct this document w :
  let out := convertOutput G C generateId generateSeed Date_now this document w in
  NoDup (elementId <$> elements out) /\
  Forall (fun i => i ∉ issued (fst w)) (elementId <$> elements out).
Proof.
  cbv zeta. unfold convertOutput.
  destruct (convert_steps G C generateId generateSeed Date_now this document w)
    as (start & fs & w0 & ids & w1 & es & w2 & Hstart & Hids & Hturn & ->).
  cbn [fst snd elements].
  destruct (convertedInTurn_ids _ _ _ _ _ Hturn) as (_ & Hnd & Hall).
  assert (H01 : issued (fst w0) ⊆ issued (fst w1)).
  { destruct (preserveLayers (options this)).
    - replace w1 with
        (snd (assignGroupIds G C generateId (layers document) 0 (layerGroupIds this) w0))
        by (rewrite Hids; reflexivity).
      apply assignGroupIds_issued.
    - destruct Hids as [_ ->]. reflexivity. }
  assert (Hes : elementId <$> (Freedraw <$> es) = fd_id <$> es).
  { rewrite <- list_fmap_compose. reflexivity. }
  rewrite fmap_app, Hes.
  destruct (backgroundImage this) as [bg|].
  - destruct Hstart as (im & created & -> & _ & _ & Hid & _ & _ & _ & _ & _ & _ & Hw0).
    cbn [fmap list_fmap app elementId].
    destruct (generateId_fresh (fst w)) as (_ & _ & Hmono1).
    destruct (generateId_fresh (snd (generateId (fst w)))) as (Hnew2 & Hrec2 & Hmono2).
    pose proof (generateSeed_keeps (snd (generateId (snd (generateId (fst w)))))) as Hkeep.
    rewrite <- Hw0 in Hkeep. rewrite <- Hid in Hnew2, Hrec2.
    assert (Hin1 : im_id im ∈ issued (fst w1)).
    { eapply elem_of_weaken; [|exact H01].
      eapply elem_of_weaken; [exact Hrec2|exact Hkeep]. }
    assert (Hsub : issued (fst w) ⊆ issued (fst w1)).
    { etransitivity; [exact Hmono1|]. etransitivity; [exact Hmono2|].
      etransitivity; [exact Hkeep|exact H01]. }
    split.
    + constructor; [|exact Hnd].
      intros Hmem. rewrite Forall_forall in Hall.
      destruct (Hall _ Hmem) as [Hout _]. contradiction.
    + constructor; [eapply not_elem_of_weaken; [exact Hnew2|exact Hmono1]|].
      eapply Forall_impl; [exact Hall|]. cbv beta. intros i [H1 _].
      eapply not_elem_of_weaken; [exact H1|exact Hsub].
  - destruct Hstart as (-> & _ & ->). cbn [fmap list_fmap app].
    split; [exact Hnd|].
    eapply Forall_impl; [exact Hall|]. cbv beta. intros i [H1 _].
    eapply not_elem_of_weaken; [exact H1|exact H01].
Qed.

End FreshIds.

(** ** File names *)

Section UniqueFileNameFacts.
Variable adapter_exists : string -> bool.
Variables basePath extension : string.

Local Abbreviation candidate := (numberedPath basePath extension).

Lemma uniqueFileName_loop_run fuel : forall counter,
  1 <= counter <= 999 -> (Z.to_nat (999 - counter) < fuel)%nat ->
  (forall j, 1 <= j < counter -> adapter_exists (candidate j) = true) ->
  exists k, counter <= k <= 999 /\
    uniqueFileName_loop adapter_exists fuel basePath extension counter
      = Some (candidate k) /\
    (forall j, 1 <= j < k -> adapter_exists (candidate j) = true) /\
    (k < 999 -> adapter_exists (candidate k) = false).
Proof.
  induction fuel as [|fuel IH]; intros counter Hc Hf Hbelow; [lia|].
  cbn [uniqueFileName_loop]. cbv zeta.
  destruct (adapter_exists (candidate counter)) eqn:Ex; cbn [andb].
  - destruct (counter + 1 <? 1000) eqn:El.
    + apply Z.ltb_lt in El.
      destruct (IH (counter + 1) ltac:(lia) ltac:(lia)) as (k & Hk & Hrun & Hj & Hfree).
      { intros j Hj. destruct (Z.eq_dec j counter) as [->|Hne]; [exact Ex|].
        apply Hbelow. lia. }
      exists k. repeat split; auto; lia.
    + apply Z.ltb_ge in El. exists counter.
      repeat split; auto; lia.
  - exists counter. repeat split; auto; lia.
Qed.

(** X15. [getUniqueFileName] always returns.  It returns
    [basePath.extension] when no such file exists; otherwise the numbered
    name with the least counter from 1 to 999 that no file has.  Only when
    all of the 999 numbered names are taken too does it return a name that
    exists, the one numbered 999. *)
Theorem unique_file_name :
  let fullPath := basePath +:+ "." +:+ extension in
  exists p, getUniqueFileName adapter_exists basePath extension = Some p /\
    ((adapter_exists fullPath = false /\ p = fullPath) \/
     (adapter_exists fullPath = true /\
      exists k, 1 <= k <= 999 /\ p = candidate k /\
        (forall j, 1 <= j < k -> adapter_exists (candidate j) = true) /\
        (k < 999 -> adapter_exists p = false) /\
        (adapter_exists p = true ->
           k = 999 /\ forall j, 1 <= j <= 999 -> adapter_exists (candidate j) = true))).
Proof.
  cbv zeta. unfold getUniqueFileName.
  destruct (adapter_exists (basePath +:+ "." +:+ extension)) eqn:E; cbn [negb].
  - destruct (uniqueFileName_loop_run 1000 1 ltac:(lia) ltac:(lia))
      as (k & Hk & Hrun & Hj & Hfree); [intros j Hj; lia|].
    exists (candidate k). split; [exact Hrun|]. right. split; [reflexivity|].
    exists k. split; [lia|]. split; [reflexivity|]. split; [exact Hj|].
    split; [exact Hfree|].
    intros Hex.
    assert (k = 999).
    { destruct (Z_lt_le_dec k 999) as [Hlt|Hge]; [|lia].
      rewrite (Hfree Hlt) in Hex. discriminate. }
    subst k. split; [reflexivity|].
    intros j Hj'. destruct (Z.eq_dec j 999) as [->|Hne]; [exact Hex|].
    apply Hj. lia.
  - eexists. split; [reflexivity|]. left. split; reflexivity.
Qed.

End UniqueFileNameFacts.

(** ** [sanitizeName] *)

Lemma isWhiteSpace_space : isWhiteSpace 32 = true.
Proof. reflexivity. Qed.

Lemma singleSpaced_weaken b name : singleSpaced b name -> singleSpaced false name.
Proof.
  destruct name as [|c rest]; [auto|]. cbn [singleSpaced].
  destruct (isWhiteSpace c); [|auto]. intros (H1 & _ & H3). auto.
Qed.

Lemma collapse_singleSpaced name : forall b,
  singleSpaced b (collapseWhiteSpace b name).
Proof.
  induction name as [|c rest IH]; intros b; [exact I|].
  cbn [collapseWhiteSpace]. destruct (isWhiteSpace c) eqn:Ec.
  - destruct b; [apply IH|].
    cbn [singleSpaced]. rewrite isWhiteSpace_space. auto.
  - cbn [singleSpaced]. rewrite Ec. apply IH.
Qed.

Lemma collapse_fixed name : forall b,
  singleSpaced b name -> collapseWhiteSpace b name = name.
Proof.
  induction name as [|c rest IH]; intros b H; [reflexivity|].
  cbn [collapseWhiteSpace singleSpaced] in *. destruct (isWhiteSpace c).
  - destruct H as (-> & -> & H). rewrite (IH true H). reflexivity.
  - rewrite (IH false H). reflexivity.
Qed.

Lemma collapse_Forall (P : Z -> Prop) name : forall b,
  P 32 -> Forall P name -> Forall P (collapseWhiteSpace b name).
Proof.
  induction name as [|c rest IH]; intros b H32 H; [constructor|].
  inversion H as [|? ? Hc Hrest]; subst.
  cbn [collapseWhiteSpace]. destruct (isWhiteSpace c); [destruct b|];
    try constructor; auto.
Qed.

Lemma collapse_length name : forall b,
  (length (collapseWhiteSpace b name) <= length name)%nat.
Proof.
  induction name as [|c rest IH]; intros b; [reflexivity|].
  pose proof (IH true). pose proof (IH false).
  cbn [collapseWhiteSpace]. destruct (isWhiteSpace c); [destruct b|];
    cbn [length]; lia.
Qed.

(** [trimStart] keeps a suffix, [trimEnd] a prefix. *)
Lemma trimStart_suffix name :
  exists dropped, name = dropped ++ trimStart name /\
    Forall (fun c => isWhiteSpace c = true) dropped.
Proof.
  induction name as [|c rest (d & Hd & Hall)].
  - exists []. split; [reflexivity|constructor].
  - cbn [trimStart]. destruct (isWhiteSpace c) eqn:Ec.
    + exists (c :: d). split; [cbn; f_equal; exact Hd|constructor; auto].
    + exists []. split; [reflexivity|constructor].
Qed.

Lemma trimStart_head name c rest :
  trimStart name = c :: rest -> isWhiteSpace c = false.
Proof.
  induction name as [|d name IH]; [discriminate|].
  cbn [trimStart]. destruct (isWhiteSpace d) eqn:Ed; [exact IH|].
  intros H. injection H as <- _. exact Ed.
Qed.

Lemma trimStart_fixed name :
  (forall c rest, name = c :: rest -> isWhiteSpace c = false) ->
  trimStart name = name.
Proof.
  destruct name as [|c rest]; [reflexivity|]. intros H.
  cbn [trimStart]. rewrite (H c rest eq_refl). reflexivity.
Qed.

Lemma trimEnd_nil : trimEnd [] = [].
Proof. reflexivity. Qed.

Lemma trimEnd_snoc name c :
  trimEnd (name ++ [c]) = if isWhiteSpace c then trimEnd name else name ++ [c].
Proof.
  unfold trimEnd. rewrite rev_app_distr. cbn [rev app trimStart].
  destruct (isWhiteSpace c); [reflexivity|].
  cbn [rev]. rewrite rev_involutive. reflexivity.
Qed.

Lemma trimEnd_prefix name :
  exists dropped, name = trimEnd name ++ dropped /\
    Forall (fun c => isWhiteSpace c = true) dropped.
Proof.
  induction name as [|c name (d & Hd & Hall)] using rev_ind.
  - exists []. split; [reflexivity|constructor].
  - rewrite trimEnd_snoc. destruct (isWhiteSpace c) eqn:Ec.
    + exists (d ++ [c]). split.
      * rewrite app_assoc, <- Hd. reflexivity.
      * apply Forall_app. split; [exact Hall|constructor; auto].
    + exists []. split; [rewrite app_nil_r; reflexivity|constructor].
Qed.

Lemma trimEnd_last name c before :
  trimEnd name = before ++ [c] -> isWhiteSpace c = false.
Proof.
  induction name as [|d name IH] using rev_ind.
  - rewrite trimEnd_nil. intros H. destruct before; discriminate.
  - rewrite trimEnd_snoc. destruct (isWhiteSpace d) eqn:Ed; [exact IH|].
    intros H. apply app_inj_tail in H as [_ <-]. exact Ed.
Qed.

Lemma trimEnd_fixed name :
  (forall c before, name = before ++ [c] -> isWhiteSpace c = false) ->
  trimEnd name = name.
Proof.
  destruct name as [|c name _] using rev_ind; [reflexivity|]. intros H.
  rewrite trimEnd_snoc, (H c name eq_refl). reflexivity.
Qed.

Lemma trimEnd_head name c rest :
  name = c :: rest -> isWhiteSpace c = false ->
  exists rest', trimEnd name = c :: rest'.
Proof.
  revert c rest. induction name as [|d name IH] using rev_ind; intros c rest Hn Hc;
    [discriminate|].
  rewrite trimEnd_snoc. destruct (isWhiteSpace d) eqn:Ed.
  - destruct name as [|c' name'].
    + cbn in Hn. injection Hn as -> _. congruence.
    + cbn in Hn. injection Hn as -> _. eapply IH; [reflexivity|exact Hc].
  - rewrite Hn. eauto.
Qed.

Lemma singleSpaced_suffix before name : forall b,
  singleSpaced b (before ++ name) -> singleSpaced false name.
Proof.
  induction before as [|c before IH]; intros b H.
  - eapply singleSpaced_weaken. exact H.
  - cbn [app singleSpaced] in H. destruct (isWhiteSpace c).
    + destruct H as (_ & _ & H). eapply IH. exact H.
    + eapply IH. exact H.
Qed.

Lemma singleSpaced_prefix name after : forall b,
  singleSpaced b (name ++ after) -> singleSpaced b name.
Proof.
  induction name as [|c name IH]; intros b H; [exact I|].
  cbn [app singleSpaced] in *. destruct (isWhiteSpace c).
  - destruct H as (H1 & H2 & H3). eauto.
  - eauto.
Qed.

(** [singleSpaced] in terms of the characters of the name. *)
Lemma singleSpaced_spec name : forall b,
  singleSpaced b name <->
  Forall (fun c => isWhiteSpace c = true -> c = 32) name /\
  (forall before after, name <> before ++ [32; 32] ++ after) /\
  (b = true -> forall c rest, name = c :: rest -> isWhiteSpace c = false).
Proof.
  induction name as [|c name IH]; intros b.
  - cbn [singleSpaced]. split; [intros _|auto].
    split; [constructor|]. split; [|discriminate].
    intros before after H. destruct before; discriminate.
  - cbn [singleSpaced]. destruct (isWhiteSpace c) eqn:Ec.
    + split.
      * intros (-> & -> & H). apply IH in H as (H1 & H2 & H3).
        split; [constructor; auto|]. split; [|discriminate].
        intros before after Heq. destruct before as [|d before].
        -- cbn in Heq. injection Heq as Heq.
           pose proof (H3 eq_refl 32 after Heq) as Hw.
           rewrite isWhiteSpace_space in Hw. discriminate.
        -- cbn in Heq. injection Heq as _ Heq. exact (H2 _ _ Heq).
      * intros (H1 & H2 & H3). inversion H1 as [|? ? Hc Hrest]; subst.
        specialize (Hc Ec). subst c.
        split; [reflexivity|]. split.
        { destruct b; [|reflexivity].
          rewrite (H3 eq_refl 32 name eq_refl) in Ec. discriminate. }
        apply IH. split; [exact Hrest|]. split.
        { intros before after Heq. apply (H2 (32 :: before) after).
          cbn. f_equal. exact Heq. }
        intros _ d rest Heq. destruct (isWhiteSpace d) eqn:Ed; [|reflexivity].
        subst name. inversion Hrest as [|? ? Hd _]; subst.
        specialize (Hd Ed). subst d.
        exfalso. apply (H2 [] rest). reflexivity.
    + split.
      * intros H. apply IH in H as (H1 & H2 & _).
        split; [constructor; [congruence|exact H1]|]. split.
        { intros before after Heq. destruct before as [|d before].
          - cbn in Heq. injection Heq as -> _. rewrite isWhiteSpace_space in Ec.
            discriminate Ec.
          - cbn in Heq. injection Heq as _ Heq. exact (H2 _ _ Heq). }
        intros _ d rest Heq. injection Heq as <- _. exact Ec.
      * intros (H1 & H2 & _). inversion H1 as [|? ? _ Hrest]; subst.
        apply IH. split; [exact Hrest|]. split; [|discriminate].
        intros before after Heq. apply (H2 (c :: before) after).
        cbn. f_equal. exact Heq.
Qed.

Lemma replaceForbidden_clean name :
  Forall (fun c => isForbidden c = false) (replaceForbidden name).
Proof.
  unfold replaceForbidden. apply Forall_fmap, Forall_forall. intros c _.
  unfold compose. destruct (isForbidden c) eqn:E; [reflexivity|exact E].
Qed.

Lemma replaceForbidden_fixed name :
  Forall (fun c => isForbidden c = false) name -> replaceForbidden name = name.
Proof.
  unfold replaceForbidden. induction 1 as [|c name Hc _ IH]; [reflexivity|].
  cbn [fmap list_fmap] in *. rewrite Hc, IH. reflexivity.
Qed.

Lemma Forall_trim (P : Z -> Prop) name : Forall P name -> Forall P (trim name).
Proof.
  intros H. unfold trim.
  destruct (trimStart_suffix name) as (d1 & H1 & _).
  destruct (trimEnd_prefix (trimStart name)) as (d2 & H2 & _).
  rewrite H1, H2 in H.
  apply Forall_app in H as [_ H]. apply Forall_app in H as [H _]. exact H.
Qed.

Lemma trim_length name : (length (trim name) <= length name)%nat.
Proof.
  unfold trim.
  destruct (trimStart_suffix name) as (d1 & H1 & _).
  destruct (trimEnd_prefix (trimStart name)) as (d2 & H2 & _).
  rewrite H1 at 2. rewrite H2 at 2. rewrite !length_app. lia.
Qed.

Lemma sanitizeName_cleanName name : cleanName (sanitizeName name).
Proof.
  unfold sanitizeName.
  set (s := collapseWhiteSpace false (replaceForbidden name)).
  assert (Hs : singleSpaced false s) by apply collapse_singleSpaced.
  assert (Hf : Forall (fun c => isForbidden c = false) s)
    by (apply collapse_Forall; [reflexivity|apply replaceForbidden_clean]).
  assert (Ht : singleSpaced false (trim s)).
  { unfold trim.
    destruct (trimStart_suffix s) as (d1 & H1 & _).
    destruct (trimEnd_prefix (trimStart s)) as (d2 & H2 & _).
    rewrite H1 in Hs. apply singleSpaced_suffix in Hs.
    rewrite H2 in Hs. eapply singleSpaced_prefix. exact Hs. }
  apply singleSpaced_spec in Ht as (H1 & H2 & _).
  split; [apply Forall_trim; exact Hf|]. split; [exact H1|]. split; [exact H2|].
  split.
  - intros c rest Heq. unfold trim in Heq.
    destruct (trimStart s) as [|d rest'] eqn:Et.
    + rewrite trimEnd_nil in Heq. discriminate.
    + pose proof (trimStart_head _ _ _ Et) as Hd.
      destruct (trimEnd_head (d :: rest') d rest' eq_refl Hd) as [r Hr].
      rewrite Hr in Heq. injection Heq as <- _. exact Hd.
  - intros c before Heq. unfold trim in Heq. eapply trimEnd_last. exact Heq.
Qed.

Lemma sanitizeName_fixed name : cleanName name -> sanitizeName name = name.
Proof.
  intros (H1 & H2 & H3 & H4 & H5). unfold sanitizeName.
  rewrite replaceForbidden_fixed by exact H1.
  rewrite collapse_fixed
    by (apply singleSpaced_spec; split; [exact H2|split; [exact H3|discriminate]]).
  unfold trim. rewrite trimStart_fixed by exact H4. apply trimEnd_fixed. exact H5.
Qed.

(** X16. The result of [sanitizeName] is fit for a file name: it holds none
    of the nine forbidden characters, its only white space is the space,
    never two in a row and never at either end; and it is not longer than
    the name given.  (It can be empty: a name of white space only.) *)
Theorem sanitizeName_clean (name : list Z) :
  let r := sanitizeName name in
  Forall (fun c => isForbidden c = false) r /\
  Forall (fun c => isWhiteSpace c = true -> c = 32) r /\
  (forall before after, r <> before ++ [32; 32] ++ after) /\
  (forall c rest, r = c :: rest -> isWhiteSpace c = false) /\
  (forall c before, r = before ++ [c] -> isWhiteSpace c = false) /\
  (length r <= length name)%nat /\
  (Forall (fun c => isWhiteSpace c = true) name -> r = []).
Proof.
  cbv zeta. destruct (sanitizeName_cleanName name) as (H1 & H2 & H3 & H4 & H5).
  repeat (split; [assumption|]). split.
  - unfold sanitizeName.
    etransitivity; [apply trim_length|].
    etransitivity; [apply collapse_length|].
    unfold replaceForbidden. rewrite length_fmap. reflexivity.
  - intros Hall.
    destruct (sanitizeName name) as [|c rest] eqn:E; [reflexivity|]. exfalso.
    pose proof (H4 c rest eq_refl) as Hc.
    assert (Hin : Forall (fun c => isWhiteSpace c = true) (sanitizeName name)).
    { unfold sanitizeName. apply Forall_trim. apply collapse_Forall; [reflexivity|].
      unfold replaceForbidden. apply Forall_fmap.
      eapply Forall_impl; [exact Hall|]. intros d Hd. unfold compose.
      destruct (isForbidden d) eqn:Ef; [|exact Hd].
      exfalso. unfold isForbidden in Ef. unfold isWhiteSpace in Hd.
      repeat (apply orb_true_iff in Ef as [Ef|Ef]);
        apply Z.eqb_eq in Ef; subst d; discriminate. }
    rewrite E in Hin. inversion Hin; congruence.
Qed.

(** X17. [sanitizeName] leaves a name that is already clean as it is, and
    is idempotent: sanitizing a sanitized name changes nothing. *)
Theorem sanitizeName_idempotent (name : list Z) :
  (cleanName name -> sanitizeName name = name) /\
  sanitizeName (sanitizeName name) = sanitizeName name.
Proof.
  split; [apply sanitizeName_fixed|].
  apply sanitizeName_fixed, sanitizeName_cleanName.
Qed.

(** ** [ensureFolderExists] *)

Lemma append_cons x (a b : string) : String x a +:+ b = String x (a +:+ b).
Proof. reflexivity. Qed.

Lemma append_assoc (a b c : string) : (a +:+ b) +:+ c = a +:+ (b +:+ c).
Proof.
  induction a as [|x a IH]; [reflexivity|].
  rewrite !append_cons, IH. reflexivity.
Qed.

Lemma append_nonempty (a b : string) : a <> EmptyString -> a +:+ b <> EmptyString.
Proof. destruct a; [contradiction|discriminate]. Qed.

Lemma splitOn_nonempty sep s : splitOn sep s <> [].
Proof.
  destruct s as [|c s]; cbn [splitOn]; [discriminate|].
  destruct (Ascii.eqb c sep); [discriminate|].
  destruct (splitOn sep s); discriminate.
Qed.

(** [s.split('/').join('/')] is [s]. *)
Lemma concat_splitOn s : String.concat "/" (splitOn "/" s) = s.
Proof.
  induction s as [|c s IH]; [reflexivity|].
  cbn [splitOn]. destruct (Ascii.eqb c "/") eqn:E.
  - apply Ascii.eqb_eq in E. subst c.
    pose proof (splitOn_nonempty "/" s) as Hne.
    destruct (splitOn "/" s) as [|p ps]; [contradiction|].
    cbn [String.concat] in *. rewrite IH. reflexivity.
  - destruct (splitOn "/" s) as [|p ps] eqn:Es.
    + exfalso. eapply splitOn_nonempty. exact Es.
    + destruct ps as [|p' ps]; cbn [String.concat] in *.
      * rewrite IH. reflexivity.
      * rewrite append_cons, IH. reflexivity.
Qed.

Lemma splitOn_head s c rest :
  s = String c rest -> c <> "/"%char ->
  exists p ps, splitOn "/" s = p :: ps /\ p <> EmptyString.
Proof.
  intros -> Hc. cbn [splitOn].
  destruct (Ascii.eqb c "/") eqn:E; [apply Ascii.eqb_eq in E; contradiction|].
  destruct (splitOn "/" rest) as [|p ps]; eexists _, _; (split; [reflexivity|discriminate]).
Qed.

(** From a path that is not empty, the loop builds [parts.join('/')]. *)
Lemma pathAfter_concat ps : forall cur,
  cur <> EmptyString -> pathAfter cur ps = String.concat "/" (cur :: ps).
Proof.
  unfold pathAfter.
  induction ps as [|p ps IH]; intros cur Hc; [reflexivity|].
  cbn [foldl]. unfold extendPath at 2.
  destruct (String.eqb cur EmptyString) eqn:E; [apply String.eqb_eq in E; contradiction|].
  cbn [negb]. rewrite IH by (apply append_nonempty; exact Hc).
  destruct ps as [|p' ps]; cbn [String.concat].
  - reflexivity.
  - rewrite !append_assoc. reflexivity.
Qed.

Lemma pathAfter_take (p : string) ps (k : nat) :
  p <> EmptyString -> (0 < k)%nat ->
  pathAfter EmptyString (take k (p :: ps)) = String.concat "/" (take k (p :: ps)).
Proof.
  intros Hp Hk. destruct k as [|k]; [lia|].
  cbn [take]. unfold pathAfter. cbn [foldl]. unfold extendPath at 2. cbn [String.eqb negb].
  apply pathAfter_concat. exact Hp.
Qed.

Section EnsureFolderFacts.
Variable W : Type.
Variable normalizePath : string -> string.
Variable adapter_exists : string -> W -> bool.
Variable createFolder : string -> IO W unit.

Local Abbreviation ensureFolder_loop' :=
  (ensureFolder_loop W adapter_exists createFolder).

(** What the vault is taken to do: a folder that [createFolder] has
    created exists, and [createFolder] removes nothing, even when it
    throws. *)
Hypothesis createFolder_creates : forall path w w',
  createFolder path w = (inl tt, w') -> adapter_exists path w' = true.
Hypothesis createFolder_keeps : forall path w r w' q,
  createFolder path w = (r, w') ->
  adapter_exists q w = true -> adapter_exists q w' = true.

Lemma ensureFolder_loop_run parts : forall cur w r w',
  ensureFolder_loop' parts cur w = (r, w') ->
  (forall q, adapter_exists q w = true -> adapter_exists q w' = true) /\
  (r = inl tt ->
   forall k : nat, (0 < k <= length parts)%nat ->
     adapter_exists (pathAfter cur (take k parts)) w' = true).
Proof.
  induction parts as [|part rest IH]; intros cur w r w' Hrun.
  - cbn in Hrun. injection Hrun as <- <-. split; [auto|].
    intros _ k Hk. cbn [length] in Hk. lia.
  - cbn [ensureFolder_loop] in Hrun. cbv zeta in Hrun.
    assert (Hstep : forall w1,
      ensureFolder_loop' rest (extendPath cur part) w1 = (r, w') ->
      adapter_exists (extendPath cur part) w1 = true ->
      (forall q, adapter_exists q w = true -> adapter_exists q w1 = true) ->
      (forall q, adapter_exists q w = true -> adapter_exists q w' = true) /\
      (r = inl tt ->
       forall k : nat, (0 < k <= length (part :: rest))%nat ->
         adapter_exists (pathAfter cur (take k (part :: rest))) w' = true)).
    { intros w1 Hrest Hex Hmono.
      destruct (IH _ _ _ _ Hrest) as [Hkeep Hall].
      split; [auto|]. intros Hr k Hk.
      destruct k as [|k]; [lia|]. cbn [take]. unfold pathAfter. cbn [foldl].
      destruct k as [|k].
      - cbn [take foldl]. apply Hkeep. exact Hex.
      - apply (Hall Hr (S k)). cbn [length] in Hk. lia. }
    destruct (adapter_exists (extendPath cur part) w) eqn:Ex; cbn [negb] in Hrun.
    + apply (Hstep w Hrun Ex). auto.
    + destruct (createFolder (extendPath cur part) w) as [[[]|e] w1] eqn:Ec.
      * apply (Hstep w1 Hrun (createFolder_creates _ _ _ Ec)).
        intros q. apply (createFolder_keeps _ _ _ _ q Ec).
      * injection Hrun as <- <-. split; [|discriminate].
        intros q. apply (createFolder_keeps _ _ _ _ q Ec).
Qed.

(** X19. [ensureFolderExists] removes nothing from the vault, and does
    nothing at all when the normalized path exists already.  When it
    returns normally for a normalized path that does not begin with a
    slash, the folder exists afterwards; and when the folder did not exist
    before, so does every one of its ancestors: each leading run of the
    parts of the path, joined by slashes. *)
Theorem ensureFolderExists_creates (folderPath : string) (w : W) :
  let normalizedPath := normalizePath folderPath in
  let parts := splitOn "/" normalizedPath in
  let outcome := ensureFolderExists W normalizePath adapter_exists createFolder
               folderPath w in
  (forall q, adapter_exists q w = true -> adapter_exists q (snd outcome) = true) /\
  (adapter_exists normalizedPath w = true -> outcome = (inl tt, w)) /\
  (fst outcome = inl tt ->
   (exists c rest, normalizedPath = String c rest /\ c <> "/"%char) ->
   adapter_exists normalizedPath (snd outcome) = true /\
   (adapter_exists normalizedPath w = false ->
    forall k : nat, (0 < k <= length parts)%nat ->
      adapter_exists (String.concat "/" (take k parts)) (snd outcome) = true)).
Proof.
  cbv zeta. unfold ensureFolderExists.
  destruct (adapter_exists (normalizePath folderPath) w) eqn:Ex.
  - cbn [fst snd]. split; [auto|]. split; [reflexivity|].
    intros _ _. split; [exact Ex|discriminate].
  - destruct (ensureFolder_loop' (splitOn "/" (normalizePath folderPath)) EmptyString w)
      as [r w'] eqn:Hrun.
    destruct (ensureFolder_loop_run _ _ _ _ _ Hrun) as [Hkeep Hall].
    cbn [fst snd]. split; [exact Hkeep|]. split; [discriminate|].
    intros Hr (c & rest & Hs & Hc).
    destruct (splitOn_head _ _ _ Hs Hc) as (p & ps & Hparts & Hp).
    assert (Hanc : forall k : nat,
      (0 < k <= length (splitOn "/" (normalizePath folderPath)))%nat ->
      adapter_exists
        (String.concat "/" (take k (splitOn "/" (normalizePath folderPath)))) w'
        = true).
    { intros k Hk. specialize (Hall Hr k Hk). rewrite Hparts in *.
      rewrite pathAfter_take in Hall by (assumption || lia). exact Hall. }
    split; [|intros _; exact Hanc].
    specialize (Hanc (length (splitOn "/" (normalizePath folderPath)))).
    rewrite firstn_all, concat_splitOn in Hanc. apply Hanc.
    rewrite Hparts. cbn [length]. lia.
Qed.

End EnsureFolderFacts.

(** ** [runSync] *)

Lemma filterDocuments_none (settings : Settings.RemarkableSyncSettings) documents :
  Settings.syncNotebooks settings = false -> Settings.syncPDFAnnotations settings = false ->
  filterDocuments settings documents = [].
Proof.
  intros Hn Hp. unfold filterDocuments. rewrite Hn, Hp. cbn [negb].
  induction documents as [|d documents IH]; [reflexivity|].
  cbn [List.filter]. destruct (isPdf d) eqn:E; cbn [List.filter negb];
    rewrite ?E; cbn [negb]; exact IH.
Qed.

Lemma filterDocuments_incl settings documents d :
  d ∈ filterDocuments settings documents -> d ∈ documents.
Proof.
  unfold filterDocuments. intros H.
  assert (Hf : forall (f : RemarkableDocument -> bool) l, d ∈ List.filter f l -> d ∈ l).
  { intros f l Hin. apply list_elem_of_In in Hin. apply filter_In in Hin as [Hin _].
    apply list_elem_of_In. exact Hin. }
  destruct (negb (Settings.syncPDFAnnotations settings)); [apply Hf in H|];
    (destruct (negb (Settings.syncNotebooks settings)); [apply Hf in H|]); exact H.
Qed.

Section RunSyncFacts.
Variable W : Type.
Variable normalizePath : string -> string.
Variable adapter_exists : string -> W -> bool.
Variable createFolder : string -> IO W unit.
Variable discoverDocuments : IO W (list RemarkableDocument).
Variable syncDocument :
  RemarkableDocument -> list RemarkableDocument -> bool -> IO W SyncOutcome.
Variable progressCallback : option (string -> number -> IO W unit).
Variable settings : Settings.RemarkableSyncSettings.

Local Abbreviation callProgress' := (callProgress W progressCallback).
Local Abbreviation syncLoop' := (syncLoop W syncDocument progressCallback).
Local Abbreviation ensureFolderExists' :=
  (ensureFolderExists W normalizePath adapter_exists createFolder).
Local Abbreviation runSync' :=
  (runSync W normalizePath adapter_exists createFolder discoverDocuments
           syncDocument progressCallback settings).

(** The documents accounted for in a result. *)
Local Abbreviation accounted r :=
  (imported r + updated r + skipped r + Z.of_nat (length (errors r))).

(** The callback reports progress only: it returns, and leaves the file
    system and the vault as they are. *)
Hypothesis callback_reports : forall status percent w,
  callProgress' status percent w = (inl tt, w).

Lemma countOutcome_accounted doc r result :
  0 <= imported result -> 0 <= updated result -> 0 <= skipped result ->
  let result' := countOutcome doc r result in
  0 <= imported result' /\ 0 <= updated result' /\ 0 <= skipped result' /\
  accounted result' = accounted result + 1 /\
  exists new, errors result' = errors result ++ new /\
    Forall (fun msg => exists m, msg = visibleName doc +:+ ": " +:+ m) new.
Proof.
  intros H1 H2 H3. cbv zeta.
  destruct r as [[| |]|e]; cbn [countOutcome imported updated skipped errors];
    repeat split; try lia;
    try (exists []; rewrite app_nil_r; split; [reflexivity|constructor]).
  - rewrite length_app. cbn [length]. lia.
  - eexists. split; [reflexivity|]. constructor; [eauto|constructor].
Qed.

Lemma syncLoop_accounted rest : forall i n documents forceReimport result w,
  0 <= imported result -> 0 <= updated result -> 0 <= skipped result ->
  exists result' w',
    syncLoop' rest i n documents forceReimport result w = (result', None, w') /\
    0 <= imported result' /\ 0 <= updated result' /\ 0 <= skipped result' /\
    accounted result' = accounted result + Z.of_nat (length rest) /\
    exists new, errors result' = errors result ++ new /\
      Forall (fun msg => exists d, d ∈ rest /\
                exists m, msg = visibleName d +:+ ": " +:+ m) new.
Proof.
  induction rest as [|doc rest IH];
    intros i n documents forceReimport result w H1 H2 H3.
  - exists result, w. cbn [syncLoop length]. repeat split; try lia.
    exists []. rewrite app_nil_r. split; [reflexivity|constructor].
  - cbn [syncLoop]. cbv zeta. rewrite callback_reports.
    destruct (syncDocument doc documents forceReimport w) as [r w2].
    destruct (countOutcome_accounted doc r result H1 H2 H3)
      as (H1' & H2' & H3' & Hacc & new1 & Hnew1 & Hall1).
    destruct (IH (i + 1) n documents forceReimport (countOutcome doc r result) w2
                H1' H2' H3')
      as (result' & w' & Hrun & H1'' & H2'' & H3'' & Hacc' & new2 & Hnew2 & Hall2).
    exists result', w'. split; [exact Hrun|].
    repeat (split; [assumption|]). split.
    + rewrite Hacc', Hacc. cbn [length]. lia.
    + exists (new1 ++ new2). split.
      * rewrite Hnew2, Hnew1, app_assoc. reflexivity.
      * apply Forall_app. split.
        -- eapply Forall_impl; [exact Hall1|]. cbv beta. intros msg [m ->].
           exists doc. split; [left|eauto].
        -- eapply Forall_impl; [exact Hall2|]. cbv beta.
           intros msg (d & Hd & m & ->). exists d. split; [right; exact Hd|eauto].
Qed.

(** X18. [runSync] accounts for every document it is to process exactly
    once.  When discovery or the creation of the sync folder throws, the
    result holds that one message and nothing else.  Otherwise the numbers
    of new, updated and unchanged documents and of error messages add up to
    the number of discovered documents that pass the two filters of the
    settings; an exception of [syncDocument] costs one message, which
    starts with the name of its document, and never stops the run; and with
    both kinds of document switched off the result is empty. *)
Theorem runSync_accounts (forceReimport : bool) (w : W) :
  let r := fst (runSync' forceReimport w) in
  match discoverDocuments w with
  | (inr e, _) => r = mkSyncResult 0 0 0 [err_message e]
  | (inl documents, w1) =>
      let filteredDocs := filterDocuments settings documents in
      match ensureFolderExists' (Settings.syncFolder settings) w1 with
      | (inr e, _) => r = mkSyncResult 0 0 0 [err_message e]
      | (inl _, _) =>
          0 <= imported r /\ 0 <= updated r /\ 0 <= skipped r /\
          accounted r = Z.of_nat (length filteredDocs) /\
          Forall (fun msg => exists d, d ∈ filteredDocs /\
                    exists m, msg = visibleName d +:+ ": " +:+ m) (errors r) /\
          (Settings.syncNotebooks settings = false ->
           Settings.syncPDFAnnotations settings = false ->
           r = mkSyncResult 0 0 0 [])
      end
  end.
Proof.
  cbv zeta. unfold runSync, runSync_try. rewrite callback_reports.
  destruct (discoverDocuments w) as [[documents|e] w1]; [|reflexivity].
  rewrite callback_reports.
  destruct (ensureFolderExists' (Settings.syncFolder settings) w1) as [[[]|e] w2];
    [|reflexivity].
  destruct (syncLoop_accounted (filterDocuments settings documents) 0
              (Z.of_nat (length (filterDocuments settings documents)))
              documents forceReimport (mkSyncResult 0 0 0 []) w2)
    as (r & w' & Hrun & H1 & H2 & H3 & Hacc & new & Hnew & Hall);
    cbn [imported updated skipped]; try lia.
  rewrite Hrun, callback_reports. cbn [fst].
  cbn [imported updated skipped errors length app] in Hacc, Hnew.
  change (Z.of_nat 0) with 0 in Hacc.
  repeat (split; [assumption|]). split.
  - rewrite Hnew. exact Hall.
  - intros Hn Hp. rewrite (filterDocuments_none _ documents Hn Hp) in Hacc.
    cbn [length] in Hacc.
    destruct r as [a b c es]. cbn [imported updated skipped errors] in *.
    assert (a = 0 /\ b = 0 /\ c = 0 /\ length es = O) as (-> & -> & -> & Hes) by lia.
    destruct es; [reflexivity|discriminate].
Qed.

End RunSyncFacts.

(** ** From a file to a drawing *)

Section EndToEnd.
Variables G C : Type.
Variable generateId : G -> string * G.
Variable generateSeed : G -> Z * G.
Variable Date_now : C -> Z * C.

Local Abbreviation convertStroke' := (convertStroke G C generateId generateSeed Date_now).
Local Abbreviation convertedInTurn' :=
  (convertedInTurn G C generateId generateSeed Date_now).

Lemma convertedInTurn_layer0 this (strokes : list Stroke) : forall es w w',
  Forall (fun s => points s <> []) strokes ->
  convertedInTurn' this w es
    (filter (fun ks => emitted (options this) (snd ks) = true)
            ((fun s => (0, s)) <$> strokes)) w' ->
  Forall2 (fun e s => exists w1 w2, convertStroke' this s 0 w1 = (Some e, w2)) es
    (filter (fun s => includeEraser (options this) || negb (isEraserStroke s) = true)
            strokes).
Proof.
  induction strokes as [|s strokes IH]; intros es w w' Hne H.
  - cbn in H. destruct es; [constructor|contradiction].
  - inversion Hne as [|? ? Hs Hrest]; subst.
    cbn [fmap list_fmap] in H. rewrite filter_cons in H. cbn [snd] in H.
    rewrite filter_cons.
    assert (Hem : emitted (options this) s
                  = (includeEraser (options this) || negb (isEraserStroke s))).
    { unfold emitted. destruct (points s); [contradiction|reflexivity]. }
    rewrite Hem in H.
    destruct (decide (includeEraser (options this) || negb (isEraserStroke s) = true))
      as [Hd|Hd].
    + destruct es as [|e es]; [contradiction|].
      destruct H as (w1 & Hrun & Hturn).
      constructor; [eauto|]. eapply IH; eassumption.
    + eapply IH; eassumption.
Qed.

(** From a revision-6 file to the elements of the drawing: one freehand
    element for every stroke the decoder returns, unless it is an eraser
    stroke and [includeEraser] is off; none is dropped for having no point,
    since the decoder of revision 6 keeps no such stroke. *)
Lemma v6_document_elements (buffer : list Byte.byte)
    (decode : list Byte.byte -> list Z) (doc : ParsedDocument)
    (this : ExcalidrawConverter) (w : G * C) :
  parse buffer decode = Some (Success doc) -> doc_version doc = V6 ->
  let out := convertOutput G C generateId generateSeed Date_now this doc w in
  let this' := converterAfter G C generateId generateSeed Date_now this doc w in
  exists strokes,
    layers doc = [strokes] /\
    Forall2 (fun e s => exists w1 w2, convertStroke' this' s 0 w1 = (Some e, w2))
      (freehandElements (elements out))
      (filter (fun s => includeEraser (options this) || negb (isEraserStroke s) = true)
              strokes) /\
    (includeEraser (options this) = true ->
       length (freehandElements (elements out)) = length strokes).
Proof.
  intros Hp Hv6. cbv zeta.
  pose proof (parse_success_valid buffer decode doc Hp) as Hvalid.
  assert (Hv : hv_version (validateHeader buffer decode) = V6).
  { pose proof (validateHeader_version buffer decode Hvalid) as Hu.
    destruct (hv_version (validateHeader buffer decode)) eqn:Hv;
      [| |reflexivity|contradiction].
    all: destruct (parse_v5_outcome buffer decode Hvalid) as (r & c & Hrun & Hp');
      [rewrite Hv; auto|];
      rewrite Hp in Hp'; injection Hp' as <-;
      destruct (parseV5_outcome buffer (hv_version (validateHeader buffer decode)) 0
                  ltac:(rewrite Hv; auto)) as (r' & c' & Hrun' & Hr);
      rewrite Hrun in Hrun'; injection Hrun' as <- <-;
      destruct Hr as (Hver & _); rewrite Hv in Hver; congruence. }
  destruct (parse_v6_outcome buffer decode Hvalid Hv) as (strokes & Hall & Hp').
  rewrite Hp in Hp'. injection Hp' as ->.
  exists strokes. split; [reflexivity|].
  unfold convertOutput, converterAfter.
  destruct (convert_steps G C generateId generateSeed Date_now this
              (mkParsedDocument V6 [strokes]) w)
    as (start & fs & w0 & ids & w1 & es & w2 & Hstart & _ & Hturn & ->).
  cbn [fst snd elements layers strokesWithLayer] in *.
  rewrite app_nil_r in Hturn.
  assert (Hfree : freehandElements start = []).
  { destruct (backgroundImage this); [destruct Hstart as (im & cr & -> & _)
                                     |destruct Hstart as (-> & _)]; reflexivity. }
  rewrite freehand_app_Freedraw, Hfree. cbn [app].
  assert (Hne : Forall (fun s => points s <> []) strokes).
  { eapply Forall_impl; [exact Hall|]. cbv beta. intros s (H & _). exact H. }
  pose proof (convertedInTurn_layer0
                (mkConverter (options this) ids (backgroundImage this))
                strokes es w1 w2 Hne Hturn) as H2.
  cbn [options] in H2. split; [exact H2|].
  intros Hinc. rewrite Hinc in H2. cbn [orb] in H2.
  apply Forall2_length in H2. rewrite H2.
  clear. induction strokes as [|s strokes IH]; [reflexivity|].
  rewrite filter_cons. destruct (decide (true = true)); [|congruence].
  cbn [length]. rewrite IH. reflexivity.
Qed.

End EndToEnd.

(** ** The converter under the bound of an engine *)

Section EngineFacts.
Variable maxArguments : Z.
Variables G C : Type.
Variable generateId : G -> string * G.
Variable generateSeed : G -> Z * G.
Variable Date_now : C -> Z * C.

Local Abbreviation convertStroke' := (convertStroke G C generateId generateSeed Date_now).
Local Abbreviation convertLayer' := (convertLayer G C generateId generateSeed Date_now).
Local Abbreviation convertLayers' := (convertLayers G C generateId generateSeed Date_now).
Local Abbreviation convert' := (convert G C generateId generateSeed Date_now).
Local Abbreviation convertStrokeE :=
  (Engine.convertStroke maxArguments G C generateId generateSeed Date_now).
Local Abbreviation convertLayerE :=
  (Engine.convertLayer maxArguments G C generateId generateSeed Date_now).
Local Abbreviation convertLayersE :=
  (Engine.convertLayers maxArguments G C generateId generateSeed Date_now).
Local Abbreviation convertE :=
  (Engine.convert maxArguments G C generateId generateSeed Date_now).

Lemma ebind_lift {A B} (m : Svc G C A) (k : A -> Engine.SvcE G C B) w :
  Engine.ebind G C (Engine.lift G C m) k w = k (fst (m w)) (snd (m w)).
Proof. unfold Engine.ebind, Engine.lift. destruct (m w). reflexivity. Qed.

Lemma spread_within {A B} (f : list number -> A) args
    (k : A -> Engine.SvcE G C B) w :
  Z.of_nat (length args) <= maxArguments ->
  Engine.ebind G C (Engine.spread maxArguments G C f args) k w = k (f args) w.
Proof.
  intros H. unfold Engine.ebind, Engine.spread.
  destruct (maxArguments <? Z.of_nat (length args)) eqn:E;
    [apply Z.ltb_lt in E; lia|reflexivity].
Qed.

(** A stroke with more points than the engine accepts arguments makes the
    first spread call of [convertStroke] throw, before any service is
    called; any other stroke is converted as the language defines. *)
Lemma convertStroke_engine this s layerIndex w :
  convertStrokeE this s layerIndex w =
    if negb (Z.of_nat (length (points s)) =? 0)
       && (maxArguments <? Z.of_nat (length (points s)))
    then (inr StackSizeError, w)
    else (inl (fst (convertStroke' this s layerIndex w)),
          snd (convertStroke' this s layerIndex w)).
Proof.
  unfold Engine.convertStroke, convertStroke.
  destruct (Z.of_nat (length (points s)) =? 0) eqn:E0; [reflexivity|].
  cbn [negb andb].
  destruct (maxArguments <? Z.of_nat (length (points s))) eqn:E.
  - unfold Engine.ebind at 1. unfold Engine.spread.
    rewrite !length_fmap, E. reflexivity.
  - apply Z.ltb_ge in E.
    rewrite !spread_within by (rewrite !length_fmap; exact E).
    rewrite !ebind_lift. destruct w as [g c].
    rewrite sbind_callNow, sbind_callId, sbind_callSeed, sbind_callNow.
    unfold callNow, callId, callSeed. cbn [fst snd].
    destruct (Date_now c) as [t1 c1]. cbn [fst snd].
    destruct (generateId g) as [i1 g1]. cbn [fst snd].
    destruct (generateSeed g1) as [s1 g2]. cbn [fst snd].
    destruct (Date_now c1) as [t2 c2]. reflexivity.
Qed.

Lemma convertStroke_within this s layerIndex w :
  (points s <> [] -> Z.of_nat (length (points s)) <= maxArguments) ->
  convertStrokeE this s layerIndex w =
    (inl (fst (convertStroke' this s layerIndex w)),
     snd (convertStroke' this s layerIndex w)).
Proof.
  intros H. rewrite convertStroke_engine.
  destruct (Z.of_nat (length (points s)) =? 0) eqn:E0; [reflexivity|].
  cbn [negb andb].
  destruct (maxArguments <? Z.of_nat (length (points s))) eqn:E; [|reflexivity].
  apply Z.ltb_lt in E. apply Z.eqb_neq in E0.
  assert (points s <> []) by (intros Hn; rewrite Hn in E0; apply E0; reflexivity).
  specialize (H ltac:(assumption)). lia.
Qed.

Lemma convertStroke_beyond this s layerIndex w :
  points s <> [] -> maxArguments < Z.of_nat (length (points s)) ->
  convertStrokeE this s layerIndex w = (inr StackSizeError, w).
Proof.
  intros Hne H. rewrite convertStroke_engine.
  destruct (Z.of_nat (length (points s)) =? 0) eqn:E0.
  - apply Z.eqb_eq in E0. destruct (points s); [contradiction|simpl in E0; lia].
  - cbn [negb andb]. apply Z.ltb_lt in H. rewrite H. reflexivity.
Qed.

Lemma emitted_points o s : emitted o s = true -> points s <> [].
Proof. unfold emitted. destruct (points s); [discriminate|discriminate]. Qed.

Lemma emitted_reaches o s :
  negb (includeEraser o) && isEraserStroke s = false -> points s <> [] ->
  emitted o s = true.
Proof.
  unfold emitted. intros H Hne. destruct (points s); [contradiction|].
  cbn. destruct (includeEraser o), (isEraserStroke s); cbn in *; congruence.
Qed.

(** When no stroke that is converted has too many points, the loops return
    what the language defines. *)
Lemma convertLayer_within this layer : forall layerIndex elements w,
  Forall (fun s => emitted (options this) s = true ->
                   Z.of_nat (length (points s)) <= maxArguments) layer ->
  convertLayerE this layer layerIndex elements w =
    (inl (fst (convertLayer' this layer layerIndex elements w)),
     snd (convertLayer' this layer layerIndex elements w)).
Proof.
  induction layer as [|s layer IH]; intros layerIndex elements w Hall;
    [reflexivity|].
  inversion Hall as [|? ? Hs Hrest]; subst.
  cbn [Engine.convertLayer convertLayer].
  destruct (negb (includeEraser (options this)) && isEraserStroke s) eqn:Eer;
    [apply IH; exact Hrest|].
  unfold Engine.ebind, sbind.
  rewrite convertStroke_within
    by (intros Hne; apply Hs, emitted_reaches; assumption).
  destruct (convertStroke' this s layerIndex w) as [[e|] w1]; cbn [fst snd];
    apply IH; exact Hrest.
Qed.

Lemma convertLayers_within this layers : forall layerIndex elements w,
  Forall (fun s => emitted (options this) s = true ->
                   Z.of_nat (length (points s)) <= maxArguments)
         (concat layers) ->
  convertLayersE this layers layerIndex elements w =
    (inl (fst (convertLayers' this layers layerIndex elements w)),
     snd (convertLayers' this layers layerIndex elements w)).
Proof.
  induction layers as [|layer layers IH]; intros layerIndex elements w Hall;
    [reflexivity|].
  cbn [concat] in Hall. apply Forall_app in Hall as [H1 H2].
  cbn [Engine.convertLayers convertLayers]. unfold Engine.ebind, sbind.
  rewrite convertLayer_within by exact H1.
  destruct (convertLayer' this layer layerIndex elements w) as [els w1].
  cbn [fst snd]. apply IH. exact H2.
Qed.

(** When a stroke that is converted has too many points, the loops throw. *)
Lemma convertLayer_beyond this layer : forall layerIndex elements w,
  Exists (fun s => emitted (options this) s = true /\
                   maxArguments < Z.of_nat (length (points s))) layer ->
  exists w', convertLayerE this layer layerIndex elements w
               = (inr StackSizeError, w').
Proof.
  induction layer as [|s layer IH]; intros layerIndex elements w Hex;
    [inversion Hex|].
  cbn [Engine.convertLayer].
  destruct (negb (includeEraser (options this)) && isEraserStroke s) eqn:Eer.
  - apply IH. inversion Hex as [? ? [Hem _]|]; subst; [|assumption].
    exfalso. unfold emitted in Hem.
    destruct (includeEraser (options this)), (isEraserStroke s);
      cbn in *; try discriminate;
      rewrite andb_false_r in Hem; discriminate.
  - unfold Engine.ebind. rewrite convertStroke_engine.
    destruct (negb (Z.of_nat (length (points s)) =? 0)
              && (maxArguments <? Z.of_nat (length (points s)))) eqn:Eov;
      [eexists; reflexivity|].
    assert (Hrest : Exists (fun s => emitted (options this) s = true /\
                      maxArguments < Z.of_nat (length (points s))) layer).
    { inversion Hex as [? ? [Hem Hlt]|]; subst; [|assumption].
      exfalso. apply emitted_points in Hem.
      apply andb_false_iff in Eov as [E|E].
      - apply negb_false_iff, Z.eqb_eq in E.
        destruct (points s); [contradiction|simpl in E; lia].
      - apply Z.ltb_ge in E. lia. }
    destruct (fst (convertStroke' this s layerIndex w)); apply IH; exact Hrest.
Qed.

Lemma convertLayers_beyond this layers : forall layerIndex elements w,
  Exists (fun s => emitted (options this) s = true /\
                   maxArguments < Z.of_nat (length (points s)))
         (concat layers) ->
  exists w', convertLayersE this layers layerIndex elements w
               = (inr StackSizeError, w').
Proof.
  induction layers as [|layer layers IH]; intros layerIndex elements w Hex;
    [inversion Hex|].
  cbn [concat] in Hex. apply Exists_app in Hex.
  cbn [Engine.convertLayers]. unfold Engine.ebind.
  destruct (convertLayerE this layer layerIndex elements w) as [[els|e] w1] eqn:E1.
  - destruct Hex as [Hex|Hex]; [|apply IH; exact Hex].
    destruct (convertLayer_beyond this layer layerIndex elements w Hex) as [w' Hw].
    rewrite Hw in E1. discriminate.
  - destruct Hex as [Hex|Hex].
    + destruct (convertLayer_beyond this layer layerIndex elements w Hex) as [w' Hw].
      rewrite Hw in E1. injection E1 as <- <-. eexists; reflexivity.
    + (* an earlier layer threw: it can only be the same exception *)
      assert (Hthrow : forall l li els w0 e0 w0',
                convertLayerE this l li els w0 = (inr e0, w0') ->
                e0 = StackSizeError).
      { clear. induction l as [|s l IHl]; intros li els w0 e0 w0' H;
          [discriminate|].
        cbn [Engine.convertLayer] in H.
        destruct (negb (includeEraser (options this)) && isEraserStroke s);
          [eapply IHl; exact H|].
        unfold Engine.ebind in H. rewrite convertStroke_engine in H.
        destruct (negb (Z.of_nat (length (points s)) =? 0)
                  && (maxArguments <? Z.of_nat (length (points s)))).
        - injection H as <- _. reflexivity.
        - destruct (fst (convertStroke' this s li w0)); eapply IHl; exact H. }
      rewrite (Hthrow _ _ _ _ _ _ E1). eexists; reflexivity.
Qed.

(** The same for [convert]; the converter after the call is the one of a
    call that returns, also when the call throws. *)
Lemma convert_within this document w :
  Forall (fun s => emitted (options this) s = true ->
                   Z.of_nat (length (points s)) <= maxArguments)
         (concat (layers document)) ->
  convertE this document w =
    (inl (convertOutput G C generateId generateSeed Date_now this document w),
     converterAfter G C generateId generateSeed Date_now this document w,
     snd (convert' this document w)).
Proof.
  intros Hall. unfold Engine.convert, convertOutput, converterAfter, convert.
  rewrite !sbind_proj.
  destruct (backgroundImage this) as [bg|] eqn:Ebg;
    destruct (preserveLayers (options this)) eqn:Epl;
    repeat match goal with
           | |- context [let '(a, b) := ?m in _] => rewrite (surjective_pairing m)
           end;
    rewrite convertLayers_within by exact Hall;
    unfold sret; cbn [fst snd]; reflexivity.
Qed.

Lemma convert_beyond this document w :
  Exists (fun s => emitted (options this) s = true /\
                   maxArguments < Z.of_nat (length (points s)))
         (concat (layers document)) ->
  exists w', convertE this document w
               = (inr StackSizeError,
                  converterAfter G C generateId generateSeed Date_now this document w,
                  w').
Proof.
  intros Hex. unfold Engine.convert, converterAfter, convert.
  rewrite !sbind_proj.
  destruct (backgroundImage this) as [bg|] eqn:Ebg;
    destruct (preserveLayers (options this)) eqn:Epl;
    repeat match goal with
           | |- context [let '(a, b) := ?m in _] => rewrite (surjective_pairing m)
           end;
    match goal with
    | |- context [Engine.convertLayers _ _ _ _ _ _ ?t ?ls ?li ?els ?w0] =>
        destruct (convertLayers_beyond t ls li els w0 Hex) as [w' Hw]
    end;
    rewrite Hw; unfold sret; cbn [fst snd]; eexists; reflexivity.
Qed.

End EngineFacts.

(** ** A stroke with many points *)

Lemma length_concat_replicate {A} (n : nat) (l : list A) :
  length (concat (replicate n l)) = (n * length l)%nat.
Proof.
  induction n as [|n IH]; [reflexivity|].
  cbn [replicate concat]. rewrite length_app, IH. lia.
Qed.

Lemma le32_range z : Forall (fun b => 0 <= b < 256) (le32 z).
Proof.
  unfold le32. repeat constructor; apply Z.mod_pos_bound; lia.
Qed.

Lemma bytesAt_app_inv buffer c (l1 l2 : list Z) :
  bytesAt buffer c (l1 ++ l2) ->
  bytesAt buffer c l1 /\ bytesAt buffer (c + Z.of_nat (length l1)) l2.
Proof.
  intros [Hlen Hat]. rewrite length_app in Hlen. split; split.
  - lia.
  - intros i b Hi. apply Hat. apply lookup_app_l_Some. exact Hi.
  - lia.
  - intros i b Hi. rewrite <- (Hat (length l1 + i)%nat b).
    + f_equal. lia.
    + rewrite lookup_app_r by lia.
      replace (length l1 + i - length l1)%nat with i by lia. exact Hi.
Qed.

(** A 32-bit word is read back from its four little-endian bytes. *)
Lemma leUnsigned_le32 buffer c z :
  0 <= z < 2 ^ 32 -> bytesAt buffer c (le32 z) -> leUnsigned buffer 4 c = z.
Proof.
  intros Hz [_ Hat]. cbn [leUnsigned].
  pose proof (Hat 0%nat _ eq_refl) as E0. pose proof (Hat 1%nat _ eq_refl) as E1.
  pose proof (Hat 2%nat _ eq_refl) as E2. pose proof (Hat 3%nat _ eq_refl) as E3.
  change (Z.of_nat 0) with 0 in E0. change (Z.of_nat 1) with 1 in E1.
  change (Z.of_nat 2) with 2 in E2. change (Z.of_nat 3) with 3 in E3.
  rewrite Z.add_0_r in E0.
  replace (c + 1 + 1) with (c + 2) by lia. replace (c + 2 + 1) with (c + 3) by lia.
  rewrite E0, E1, E2, E3. clear E0 E1 E2 E3 Hat.
  pose proof (Z.div_mod z 256 ltac:(lia)).
  pose proof (Z.div_mod (z / 256) 256 ltac:(lia)).
  pose proof (Z.div_mod (z / 256 / 256) 256 ltac:(lia)).
  assert (H3 : z / 256 / 256 / 256 < 256).
  { repeat (apply Z.div_lt_upper_bound; [lia|]). lia. }
  assert (H3' : 0 <= z / 256 / 256 / 256) by (repeat apply Z.div_pos; lia).
  change 65536 with (256 * 256). change 16777216 with (256 * 256 * 256).
  rewrite <- !Z.div_div by lia.
  rewrite (Z.mod_small (z / 256 / 256 / 256)) by lia. lia.
Qed.

Lemma length_v6PointsAt buffer (n : nat) : forall c,
  length (v6PointsAt buffer n c) = n.
Proof.
  induction n as [|k IH]; intros c; [reflexivity|].
  cbn [v6PointsAt length]. rewrite IH. reflexivity.
Qed.

Section LongStroke.
Variable n : nat.
Hypothesis some_point : (0 < n)%nat.
Hypothesis block_accepted : 14 * Z.of_nat n + 5 <= 10000000.

Local Abbreviation buffer := (longStrokeV6 n).

Lemma longStroke_length : byteLength buffer = 56 + 14 * Z.of_nat n.
Proof.
  unfold byteLength, longStrokeV6, bytesOf.
  rewrite !length_app, length_fmap, length_concat_replicate, length_fmap.
  cbn [length app le32 v6RecordBytes].
  change (length (paddedHeader "6")) with 43%nat. lia.
Qed.

Lemma longStroke_fixed :
  uint32At buffer 43 = 5 + 14 * Z.of_nat n /\
  uint32At buffer 47 = V6BlockType.LINE_DEF /\
  byteAt buffer 51 = 0x5C /\
  uint32At buffer 52 = 14 * Z.of_nat n.
Proof.
  assert (Hat : bytesAt buffer 43
                  (le32 (5 + 14 * Z.of_nat n) ++ le32 V6BlockType.LINE_DEF ++
                   [0x5C] ++ le32 (14 * Z.of_nat n))).
  { change 43 with (byteLength (paddedHeader "6")). apply bytesAt_app.
    repeat (apply Forall_app; split); try apply le32_range.
    constructor; [lia|constructor]. }
  apply bytesAt_app_inv in Hat as [H1 Hat].
  apply bytesAt_app_inv in Hat as [H2 Hat].
  apply bytesAt_app_inv in Hat as [H3 H4].
  change (43 + Z.of_nat (length (le32 (5 + 14 * Z.of_nat n)))) with 47 in *.
  change (47 + Z.of_nat (length (le32 V6BlockType.LINE_DEF))) with 51 in *.
  change (51 + Z.of_nat (length [92])) with 52 in *.
  split; [|split; [|split]].
  - apply leUnsigned_le32; [lia|exact H1].
  - apply leUnsigned_le32; [unfold V6BlockType.LINE_DEF; lia|exact H2].
  - destruct H3 as [_ H3]. rewrite <- (H3 0%nat _ eq_refl). f_equal.
  - apply leUnsigned_le32; [lia|exact H4].
Qed.

Lemma longStroke_header :
  validateHeader buffer asciiDecode = mkHeaderValidation true V6 None.
Proof.
  unfold validateHeader. rewrite longStroke_length.
  destruct (56 + 14 * Z.of_nat n <? 33) eqn:E; [apply Z.ltb_lt in E; lia|].
  cbv zeta. rewrite Z.min_l by lia. change (Z.to_nat 43) with 43%nat.
  unfold longStrokeV6. rewrite take_app_length' by reflexivity.
  reflexivity.
Qed.

Lemma longStroke_tag : readVaruint buffer 51 = Ret 0x5C 52.
Proof.
  destruct longStroke_fixed as (_ & _ & Hb & _).
  pose proof longStroke_length as Hlen.
  assert (Hv : varuintValueAt buffer 51 = 0x5C).
  { rewrite varuintValueAt_inside by lia. rewrite Hb. reflexivity. }
  assert (Hs : varuintSizeAt buffer 51 = 1).
  { rewrite varuintSizeAt_inside by lia. rewrite Hb. reflexivity. }
  rewrite readVaruint_value by (rewrite ?Hv; lia).
  rewrite Hv, Hs. reflexivity.
Qed.

(** The points field of the block. *)
Lemma longStroke_field st :
  parseV6Field buffer (56 + 14 * Z.of_nat n) st 51 =
    Ret (mkV6Fields (f_pen st) (f_color st) (f_thickness st)
                    (f_points st ++ v6PointsAt buffer n 56))
        (56 + 14 * Z.of_nat n).
Proof.
  destruct longStroke_fixed as (_ & _ & _ & Hw).
  pose proof longStroke_length as Hlen.
  unfold parseV6Field.
  rewrite (bind_Ret _ _ _ _ _ longStroke_tag). cbv beta zeta.
  change (Z.shiftr 92 4) with 5. change (Z.land 92 15) with V6TagType.Length4.
  cbn [v6FieldSwitch V6TagType.Length4 Z.eqb Pos.eqb].
  rewrite (bind_Ret _ _ _ _ _ (getUint32_ok buffer 52 ltac:(lia) ltac:(lia))).
  cbv beta zeta. change (52 + 4) with 56. fold (uint32At buffer 52). rewrite Hw.
  unfold V6_POINT_SIZE.
  replace (14 * Z.of_nat n / 14) with (Z.of_nat n)
    by (rewrite Z.mul_comm, Z.div_mul; lia).
  rewrite Nat2Z.id.
  rewrite (bind_Ret _ _ _ _ _
             (readV6Points_exact buffer n (56 + 14 * Z.of_nat n) (f_points st) 56
                ltac:(lia) ltac:(lia))).
  unfold V6_POINT_SIZE.
  replace (Z.to_nat (Z.min (Z.of_nat n) ((56 + 14 * Z.of_nat n - 56) / 14)))
    with n.
  2:{ replace (56 + 14 * Z.of_nat n - 56) with (Z.of_nat n * 14) by lia.
      rewrite Z.div_mul by lia. lia. }
  reflexivity.
Qed.

(** The stroke decoder on the block: the default pen, colour and width, and
    the [n] records of the points sub-block. *)
Lemma longStroke_stroke :
  parseV6Stroke buffer (56 + 14 * Z.of_nat n) 51 =
    Ret (StrokeOk (mkStroke PenType.BALLPOINT RMColor.BLACK (Fin 1.0)
                            (v6PointsAt buffer n 56) 0))
        (56 + 14 * Z.of_nat n).
Proof.
  unfold parseV6Stroke.
  replace (S (Z.to_nat (56 + 14 * Z.of_nat n - 51)))
    with (S (S (Z.to_nat (4 + 14 * Z.of_nat n)))) by lia.
  cbn [parseV6Fields]. rewrite bind_getCursor.
  destruct (51 <? 56 + 14 * Z.of_nat n) eqn:E; [|apply Z.ltb_ge in E; lia].
  rewrite (bind_Ret _ _ _ _ _ (longStroke_field _)). cbv beta.
  rewrite bind_getCursor.
  destruct (56 + 14 * Z.of_nat n <? 56 + 14 * Z.of_nat n) eqn:E';
    [apply Z.ltb_lt in E'; lia|].
  reflexivity.
Qed.

(** The file decodes to one stroke of [n] points. *)
Lemma longStroke_parses :
  parse buffer asciiDecode =
    Some (Success (mkParsedDocument V6
            [[mkStroke PenType.BALLPOINT RMColor.BLACK (Fin 1.0)
                       (v6PointsAt buffer n 56) 0]])).
Proof.
  destruct longStroke_fixed as (Hl & Hf & _ & _).
  pose proof longStroke_length as Hlen.
  assert (Hacc : ~ rejectedAt buffer 43).
  { unfold rejectedAt, invalidBlock. rewrite Hl, Hlen.
    change (43 + 8) with 51.
    destruct (5 + 14 * Z.of_nat n =? 0) eqn:E1; [apply Z.eqb_eq in E1; lia|].
    destruct (5 + 14 * Z.of_nat n >? 56 + 14 * Z.of_nat n - 51) eqn:E2;
      [rewrite Z.gtb_ltb in E2; apply Z.ltb_lt in E2; lia|].
    destruct (5 + 14 * Z.of_nat n >? 10000000) eqn:E3;
      [rewrite Z.gtb_ltb in E3; apply Z.ltb_lt in E3; lia|].
    discriminate. }
  assert (Hscan : scanV6 buffer [] 43 =
            Ret [mkStroke PenType.BALLPOINT RMColor.BLACK (Fin 1.0)
                          (v6PointsAt buffer n 56) 0] (56 + 14 * Z.of_nat n)).
  { erewrite scanV6_accepted_line; try exact Hacc; try lia.
    3:{ rewrite Hl. replace (43 + 8 + (5 + 14 * Z.of_nat n))
          with (56 + 14 * Z.of_nat n) by lia.
        exact longStroke_stroke. }
    2:{ exact Hf. }
    rewrite Hl. replace (43 + 8 + (5 + 14 * Z.of_nat n))
      with (56 + 14 * Z.of_nat n) by lia.
    rewrite scanV6_end by lia. cbn [pushed points app].
    rewrite length_v6PointsAt.
    destruct (Z.of_nat n >? 0) eqn:E;
      [reflexivity|rewrite Z.gtb_ltb in E; apply Z.ltb_ge in E; lia]. }
  rewrite parse_valid by (rewrite longStroke_header; reflexivity).
  rewrite longStroke_header. cbn [hv_version].
  destruct (parseV6_run buffer V6 0) as (strokes & c' & Hrun & _ & Hparse).
  rewrite Hparse. change V6_HEADER_SIZE with 43 in Hrun.
  rewrite Hscan in Hrun. injection Hrun as <- _. reflexivity.
Qed.

End LongStroke.

(** ** What [convert] returns and when it throws *)

Lemma Forall_filter_implies {A} (P : A -> Prop) (f g : A -> bool) (l : list A) :
  (forall x, g x = true -> f x = true) ->
  Forall P (filter (fun x => f x = true) l) ->
  Forall (fun x => g x = true -> P x) l.
Proof.
  intros Hfg. induction l as [|x l IH]; intros H; [constructor|].
  rewrite filter_cons in H. destruct (decide (f x = true)) as [Hf|Hf].
  - inversion H; subst. constructor; [auto|]. apply IH. assumption.
  - constructor; [|apply IH; exact H]. intros Hg. apply Hfg in Hg. contradiction.
Qed.

Lemma Exists_filter_and {A} (P : A -> Prop) (f : A -> bool) (l : list A) :
  Exists P (filter (fun x => f x = true) l) ->
  Exists (fun x => f x = true /\ P x) l.
Proof.
  induction l as [|x l IH]; intros H; [inversion H|].
  rewrite filter_cons in H. destruct (decide (f x = true)) as [Hf|Hf].
  - inversion H; subst; [left; auto|right; auto].
  - right. auto.
Qed.

(** The two pens of [isEraserStroke]. *)
Lemma isEraserStroke_pens s :
  isEraserStroke s = (pen s =? 4) || (pen s =? 16).
Proof. reflexivity. Qed.

Lemma emitted_true o s :
  emitted o s = true <->
  points s <> [] /\ (includeEraser o = true \/ (pen s <> 4 /\ pen s <> 16)).
Proof.
  unfold emitted. rewrite isEraserStroke_pens.
  destruct (points s) as [|p ps]; cbn [length Nat.eqb negb andb].
  - split; [discriminate|intros [H _]; contradiction].
  - destruct (includeEraser o); cbn [orb].
    + split; [intros _; split; [discriminate|left; reflexivity]|reflexivity].
    + destruct (Z.eqb_spec (pen s) 4) as [E4|E4];
        destruct (Z.eqb_spec (pen s) 16) as [E16|E16]; cbn [orb negb].
      all: split;
        [ first [discriminate | intros _; split; [discriminate|right; auto]]
        | first [intros _; reflexivity | intros [_ [H|[H1 H2]]]; congruence] ].
Qed.

Lemma Exists_and_Forall {A} (P Q : A -> Prop) (l : list A) :
  Exists P l -> Forall Q l -> Exists (fun x => P x /\ Q x) l.
Proof.
  induction 1 as [x l Hx|x l _ IH]; intros HQ; inversion HQ; subst;
    [left; auto|right; auto].
Qed.

Section EngineTheorems.
Variable maxArguments : Z.
Variables G C : Type.
Variable generateId : G -> string * G.
Variable generateSeed : G -> Z * G.
Variable Date_now : C -> Z * C.

Local Abbreviation convertStroke' := (convertStroke G C generateId generateSeed Date_now).
Local Abbreviation convert' := (convert G C generateId generateSeed Date_now).
Local Abbreviation convertStrokeE :=
  (Engine.convertStroke maxArguments G C generateId generateSeed Date_now).
Local Abbreviation convertE :=
  (Engine.convert maxArguments G C generateId generateSeed Date_now).

(** An element the language defines for a stroke within the bound is the
    element the engine returns. *)
Lemma Forall2_within {X} (this' : ExcalidrawConverter)
    (idx : X -> Stroke -> Z -> Prop) (es : list X) (get : X -> ExcalidrawFreedrawElement)
    (kept : list Stroke) :
  Forall (fun s => Z.of_nat (length (points s)) <= maxArguments) kept ->
  Forall2 (fun e s => exists li w1 w2,
             idx e s li /\ convertStroke' this' s li w1 = (Some (get e), w2)) es kept ->
  Forall2 (fun e s => exists li w1 w2,
             idx e s li /\ convertStrokeE this' s li w1 = (inl (Some (get e)), w2))
          es kept.
Proof.
  intros Hb H. induction H as [|e s es kept (li & w1 & w2 & Hi & Hrun) _ IH];
    [constructor|].
  inversion Hb; subst. constructor; [|apply IH; assumption].
  exists li, w1, w2. split; [exact Hi|].
  rewrite (convertStroke_within maxArguments G C generateId generateSeed Date_now)
    by (intros _; assumption).
  rewrite Hrun. reflexivity.
Qed.

(** X21. On an engine that accepts [maxArguments] arguments in a call,
    [convert] keeps the strokes that have a point and, unless
    [includeEraser] is set, a pen other than 4 and 16.  When no kept
    stroke has more points than the engine accepts, it returns: at most
    one background image, then exactly one freehand element for each kept
    stroke, in order.  When a kept stroke has more, it throws a
    [RangeError] and returns no drawing.  With [includeEraser] off, a
    document of eraser strokes only keeps no stroke. *)
Theorem strokes_filtered_within_bound this document w :
  let kept := filter (fun s => emitted (options this) s = true)
                     (concat (layers document)) in
  (forall s, emitted (options this) s = true <->
     points s <> [] /\
     (includeEraser (options this) = true \/ (pen s <> 4 /\ pen s <> 16))) /\
  (Forall (fun s => Z.of_nat (length (points s)) <= maxArguments) kept ->
   exists out this' w',
     convertE this document w = (inl out, this', w') /\
     elements out = (Image <$> imageElements (elements out))
                    ++ (Freedraw <$> freehandElements (elements out)) /\
     Forall2 (fun e s => exists li w1 w2,
                convertStrokeE this' s li w1 = (inl (Some e), w2))
             (freehandElements (elements out)) kept /\
     length (imageElements (elements out))
       = match backgroundImage this with Some _ => 1%nat | None => 0%nat end) /\
  (Exists (fun s => maxArguments < Z.of_nat (length (points s))) kept ->
   exists this' w', convertE this document w = (inr StackSizeError, this', w')) /\
  (includeEraser (options this) = false ->
   Forall (fun s => pen s = 4 \/ pen s = 16) (concat (layers document)) ->
   kept = []).
Proof.
  cbv zeta. split; [intros s; apply emitted_true|]. split; [|split].
  - intros Hb.
    pose proof (convert_filtering G C generateId generateSeed Date_now this document w)
      as (_ & Hshape & Hall & _ & Him & _). cbv zeta in *.
    eexists _, _, _. split.
    { apply (convert_within maxArguments).
      eapply Forall_filter_implies; [|exact Hb]. auto. }
    split; [exact Hshape|]. split; [|exact Him].
    assert (H2 : Forall2 (fun e s => exists li w1 w2,
                   True /\ convertStrokeE
                     (converterAfter G C generateId generateSeed Date_now
                        this document w) s li w1
                     = (inl (Some (id e)), w2))
                 (freehandElements
                    (elements (convertOutput G C generateId generateSeed Date_now
                                 this document w)))
                 (filter (fun s => emitted (options this) s = true)
                         (concat (layers document)))).
    { apply Forall2_within; [exact Hb|].
      eapply Forall2_impl; [exact Hall|]. cbv beta.
      intros e s (li & w1 & w2 & Hrun). exists li, w1, w2. split; [exact I|exact Hrun]. }
    eapply Forall2_impl; [exact H2|]. cbv beta.
    intros e s (li & w1 & w2 & _ & Hrun). eauto.
  - intros Hex. eexists. apply convert_beyond. apply Exists_filter_and. exact Hex.
  - intros Hinc Hers. apply filter_none.
    eapply Forall_impl; [exact Hers|]. cbv beta. intros s Hs.
    destruct (emitted (options this) s) eqn:E; [|reflexivity].
    apply emitted_true in E as (_ & [E|[E1 E2]]); [congruence|].
    destruct Hs; contradiction.
Qed.

(** X14. From a revision-6 file to the drawing, on an engine that accepts
    [maxArguments] arguments in a call.  The decoder returns one layer of
    strokes; a stroke is kept unless its pen is 4 or 16 and [includeEraser]
    is off.  When no kept stroke has more points than the engine accepts,
    [convert] returns and every kept stroke becomes exactly one freehand
    element, in the order of the file (none is dropped for having no
    point, since the decoder of revision 6 keeps no such stroke).  When a
    kept stroke has more, [convert] throws a [RangeError]: the file
    decodes and gives no drawing. *)
Theorem v6_document_converted (buffer : list Byte.byte)
    (decode : list Byte.byte -> list Z) (doc : ParsedDocument)
    (this : ExcalidrawConverter) (w : G * C) :
  parse buffer decode = Some (Success doc) -> doc_version doc = V6 ->
  exists strokes,
    layers doc = [strokes] /\
    let kept :=
      filter (fun s => includeEraser (options this)
                       || negb ((pen s =? 4) || (pen s =? 16)) = true) strokes in
    (Forall (fun s => Z.of_nat (length (points s)) <= maxArguments) kept ->
     exists out this' w',
       convertE this doc w = (inl out, this', w') /\
       Forall2 (fun e s => exists w1 w2,
                  convertStrokeE this' s 0 w1 = (inl (Some e), w2))
               (freehandElements (elements out)) kept /\
       (includeEraser (options this) = true ->
          length (freehandElements (elements out)) = length strokes)) /\
    (Exists (fun s => maxArguments < Z.of_nat (length (points s))) kept ->
     exists this' w', convertE this doc w = (inr StackSizeError, this', w')).
Proof.
  intros Hp Hv6.
  destruct (v6_document_elements G C generateId generateSeed Date_now
              buffer decode doc this w Hp Hv6) as (strokes & Hl & Hall & Hcount).
  cbv zeta in Hall, Hcount.
  assert (Hne : Forall (fun s => points s <> []) strokes).
  { pose proof (parse_success_valid buffer decode doc Hp) as Hvalid.
    destruct (hv_version (validateHeader buffer decode)) eqn:Ever.
    1-2: destruct (parse_v5_outcome buffer decode Hvalid) as (r & c & Hrun & Hp');
      [rewrite Ever; auto|];
      rewrite Hp in Hp'; injection Hp' as <-;
      destruct (parseV5_outcome buffer (hv_version (validateHeader buffer decode)) 0
                  ltac:(rewrite Ever; auto)) as (r' & c' & Hrun' & Hr);
      rewrite Hrun in Hrun'; injection Hrun' as <- <-;
      destruct Hr as (Hver & _); rewrite Ever in Hver; congruence.
    - destruct (parse_v6_outcome buffer decode Hvalid Ever) as (ss & Hcol & Hp').
      rewrite Hp in Hp'. injection Hp' as ->. cbn [layers] in Hl.
      injection Hl as <-. eapply Forall_impl; [exact Hcol|].
      cbv beta. intros s (H & _). exact H.
    - exfalso. exact (validateHeader_version buffer decode Hvalid Ever). }
  exists strokes. split; [exact Hl|]. cbv zeta.
  change (fun s : Stroke => includeEraser (options this)
                            || negb ((pen s =? 4) || (pen s =? 16)) = true)
    with (fun s : Stroke => includeEraser (options this)
                            || negb (isEraserStroke s) = true).
  split.
  - intros Hb. eexists _, _, _. split.
    { apply (convert_within maxArguments).
      rewrite Hl. cbn [concat]. rewrite app_nil_r.
      eapply (Forall_filter_implies _ _ (emitted (options this))); [|exact Hb].
      intros s. unfold emitted. destruct (negb _); [cbn; auto|discriminate]. }
    split.
    + assert (H2 : Forall2 (fun e s => exists li w1 w2,
                     li = 0 /\ convertStrokeE
                       (converterAfter G C generateId generateSeed Date_now this doc w)
                       s li w1 = (inl (Some (id e)), w2))
                   (freehandElements
                      (elements (convertOutput G C generateId generateSeed Date_now
                                   this doc w)))
                   (filter (fun s => includeEraser (options this)
                                     || negb (isEraserStroke s) = true) strokes)).
      { apply Forall2_within; [exact Hb|].
        eapply Forall2_impl; [exact Hall|]. cbv beta.
        intros e s (w1 & w2 & Hrun). exists 0, w1, w2. split; [reflexivity|exact Hrun]. }
      eapply Forall2_impl; [exact H2|]. cbv beta.
      intros e s (li & w1 & w2 & -> & Hrun). eauto.
    + exact Hcount.
  - intros Hex. eexists. apply convert_beyond.
    rewrite Hl. cbn [concat]. rewrite app_nil_r.
    apply Exists_filter_and in Hex.
    pose proof (Exists_and_Forall _ _ _ Hex Hne) as Hex'.
    eapply Exists_impl; [exact Hex'|]. cbv beta.
    intros s [[Hk Hlt] Hs]. split; [|exact Hlt].
    unfold emitted. rewrite isEraserStroke_pens, Hk.
    destruct (points s); [contradiction|reflexivity].
Qed.

(** C7. A revision-6 file whose one stroke has [n] points, on an engine
    that accepts fewer than [n] arguments in a call.  The file decodes, to
    one ballpoint stroke of [n] points, which [convert] does not filter
    out; as the language defines the spread calls, the drawing has exactly
    one freehand element for it; on the engine, [convert] throws a
    [RangeError] instead, whatever the options, the background and the
    state of the services. *)
Theorem long_stroke_not_converted (n : nat) (this : ExcalidrawConverter)
    (w : G * C) :
  0 <= maxArguments < Z.of_nat n -> 14 * Z.of_nat n + 5 <= 10000000 ->
  exists s,
    parse (longStrokeV6 n) asciiDecode
      = Some (Success (mkParsedDocument V6 [[s]])) /\
    length (points s) = n /\
    pen s = PenType.BALLPOINT /\
    emitted (options this) s = true /\
    length (freehandElements
              (elements (convertOutput G C generateId generateSeed Date_now this
                           (mkParsedDocument V6 [[s]]) w))) = 1%nat /\
    exists this' w', convertE this (mkParsedDocument V6 [[s]]) w
                       = (inr StackSizeError, this', w').
Proof.
  intros Hn Hblock.
  exists (mkStroke PenType.BALLPOINT RMColor.BLACK (Fin 1.0)
                   (v6PointsAt (longStrokeV6 n) n 56) 0).
  assert (Hlen : length (v6PointsAt (longStrokeV6 n) n 56) = n)
    by apply length_v6PointsAt.
  assert (Hem : emitted (options this)
                  (mkStroke PenType.BALLPOINT RMColor.BLACK (Fin 1.0)
                            (v6PointsAt (longStrokeV6 n) n 56) 0) = true).
  { apply emitted_true. cbn [points pen PenType.BALLPOINT]. split.
    - intros Hnil. rewrite Hnil in Hlen. cbn [length] in Hlen. lia.
    - right. split; discriminate. }
  split; [apply longStroke_parses; lia|].
  split; [exact Hlen|]. split; [reflexivity|]. split; [exact Hem|]. split.
  - pose proof (convert_filtering G C generateId generateSeed Date_now this
                  (mkParsedDocument V6
                     [[mkStroke PenType.BALLPOINT RMColor.BLACK (Fin 1.0)
                                (v6PointsAt (longStrokeV6 n) n 56) 0]]) w)
      as (_ & _ & _ & Hcount & _).
    cbv zeta in Hcount. rewrite Hcount. cbn [layers concat app].
    rewrite filter_cons. destruct (decide _) as [|Hd]; [reflexivity|contradiction].
  - eexists. apply convert_beyond. cbn [layers concat app]. left.
    split; [exact Hem|]. cbn [points]. rewrite Hlen. lia.
Qed.

End EngineTheorems.

(** ** [generateId] *)

(** A property of the numbers from 0 to 15, checked on each of them. *)
Lemma below_16 (P : Z -> Prop) :
  Forall P (seqZ 0 16) -> forall n, 0 <= n < 16 -> P n.
Proof.
  intros H n Hn. rewrite Forall_forall in H. apply H. apply elem_of_seqZ. lia.
Qed.

Ltac each_below_16 :=
  match goal with
  | |- forall n, 0 <= n < 16 -> @?P n => apply (below_16 P)
  end;
  let l := eval vm_compute in (seqZ 0 16) in
  change (seqZ 0 16) with l;
  repeat (apply Forall_cons_2; [cbv beta|]); [..|apply Forall_nil_2].

Lemma hexDigit_inj (n m : Z) :
  0 <= n < 16 -> 0 <= m < 16 -> hexDigit n = hexDigit m -> n = m.
Proof.
  intros Hn Hm. revert m Hm. revert n Hn.
  each_below_16; each_below_16; intros H; (reflexivity || discriminate H).
Qed.

Lemma isHexDigit_hexDigit (n : Z) : 0 <= n < 16 -> isHexDigit (hexDigit n) = true.
Proof. revert n. each_below_16; reflexivity. Qed.

(** The two digits of a byte. *)
Lemma byte_hex (b : Z) :
  0 <= b < 256 ->
  padStart2 (toString16 b)
    = String (hexDigit (b / 16)) (String (hexDigit (b mod 16)) EmptyString).
Proof.
  intros Hb. unfold toString16. destruct (b <? 16) eqn:E.
  - apply Z.ltb_lt in E. rewrite Z.div_small, Z.mod_small by lia. reflexivity.
  - reflexivity.
Qed.

Lemma byte_of_digits (b b' : Z) :
  0 <= b < 256 -> 0 <= b' < 256 ->
  hexDigit (b / 16) = hexDigit (b' / 16) ->
  hexDigit (b mod 16) = hexDigit (b' mod 16) -> b = b'.
Proof.
  intros Hb Hb' Hq Hr.
  apply hexDigit_inj in Hq; [|split; [apply Z.div_pos|apply Z.div_lt_upper_bound]; lia ..].
  apply hexDigit_inj in Hr; [|apply Z.mod_pos_bound; lia ..].
  rewrite (Z.div_mod b 16), (Z.div_mod b' 16) by lia. lia.
Qed.

(** The identifier made of sixteen bytes, written out. *)
Lemma groupAsUuid_bytes b0 b1 b2 b3 b4 b5 b6 b7 b8 b9 b10 b11 b12 b13 b14 b15 :
  Forall (fun b => 0 <= b < 256)
         [b0; b1; b2; b3; b4; b5; b6; b7; b8; b9; b10; b11; b12; b13; b14; b15] ->
  let h b := hexDigit (b / 16) in
  let l b := hexDigit (b mod 16) in
  groupAsUuid
    (hexOfBytes [b0; b1; b2; b3; b4; b5; b6; b7; b8; b9; b10; b11; b12; b13; b14; b15])
  = string_of_list_ascii
      [ h b0; l b0; h b1; l b1; h b2; l b2; h b3; l b3; "-"%char;
        h b4; l b4; h b5; l b5; "-"%char;
        h b6; l b6; h b7; l b7; "-"%char;
        h b8; l b8; h b9; l b9; "-"%char;
        h b10; l b10; h b11; l b11; h b12; l b12; h b13; l b13; h b14; l b14;
        h b15; l b15 ].
Proof.
  intros Hall. cbv zeta.
  repeat match goal with
         | H : Forall _ (_ :: _) |- _ =>
             let Hb := fresh "Hb" in
             apply Forall_cons in H as [Hb H]
         end.
  unfold hexOfBytes. cbn [fmap list_fmap].
  rewrite !byte_hex by assumption.
  reflexivity.
Qed.

Ltac string_injection H :=
  match type of H with
  | String _ _ = String _ _ =>
      let Hc := fresh "Hc" in
      let Hs := fresh "Hs" in
      injection H as Hc Hs; string_injection Hs
  | _ => idtac
  end.

Lemma sixteenBytes_inv (arr : list Z) :
  sixteenBytes arr ->
  exists b0 b1 b2 b3 b4 b5 b6 b7 b8 b9 b10 b11 b12 b13 b14 b15,
    arr = [b0; b1; b2; b3; b4; b5; b6; b7; b8; b9; b10; b11; b12; b13; b14; b15] /\
    Forall (fun b => 0 <= b < 256) arr.
Proof.
  intros [Hlen Hall].
  do 16 (destruct arr as [|? arr]; [discriminate Hlen|]; cbn [length] in Hlen;
         apply Nat.succ_inj in Hlen).
  destruct arr; [|discriminate Hlen].
  repeat eexists. exact Hall.
Qed.

Lemma groupAsUuid_shape (arr : list Z) :
  sixteenBytes arr ->
  String.length (groupAsUuid (hexOfBytes arr)) = 36%nat /\
  hexMask (groupAsUuid (hexOfBytes arr)) = "xxxxxxxx-xxxx-xxxx-xxxx-xxxxxxxxxxxx".
Proof.
  intros H. apply sixteenBytes_inv in H
    as (b0 & b1 & b2 & b3 & b4 & b5 & b6 & b7 & b8 & b9 & b10 & b11 & b12 & b13
        & b14 & b15 & -> & Hall).
  rewrite (groupAsUuid_bytes _ _ _ _ _ _ _ _ _ _ _ _ _ _ _ _ Hall). cbv zeta.
  cbn [string_of_list_ascii].
  split; [reflexivity|].
  repeat match goal with
         | H : Forall _ (_ :: _) |- _ =>
             let Hb := fresh "Hb" in
             apply Forall_cons in H as [Hb H]
         end.
  cbn [hexMask].
  rewrite !isHexDigit_hexDigit
    by (first [ split; [apply Z.div_pos|apply Z.div_lt_upper_bound]; lia
              | apply Z.mod_pos_bound; lia ]).
  reflexivity.
Qed.

Lemma groupAsUuid_inj (arr1 arr2 : list Z) :
  sixteenBytes arr1 -> sixteenBytes arr2 ->
  groupAsUuid (hexOfBytes arr1) = groupAsUuid (hexOfBytes arr2) -> arr1 = arr2.
Proof.
  intros H1 H2.
  apply sixteenBytes_inv in H1
    as (b0 & b1 & b2 & b3 & b4 & b5 & b6 & b7 & b8 & b9 & b10 & b11 & b12 & b13
        & b14 & b15 & -> & Hall1).
  apply sixteenBytes_inv in H2
    as (c0 & c1 & c2 & c3 & c4 & c5 & c6 & c7 & c8 & c9 & c10 & c11 & c12 & c13
        & c14 & c15 & -> & Hall2).
  rewrite (groupAsUuid_bytes _ _ _ _ _ _ _ _ _ _ _ _ _ _ _ _ Hall1).
  rewrite (groupAsUuid_bytes _ _ _ _ _ _ _ _ _ _ _ _ _ _ _ _ Hall2).
  cbv zeta. cbn [string_of_list_ascii]. intros Heq. string_injection Heq.
  repeat match goal with
         | H : Forall _ (_ :: _) |- _ =>
             let Hb := fresh "Hb" in
             apply Forall_cons in H as [Hb H]
         end.
  repeat f_equal; eapply byte_of_digits; eassumption.
Qed.

Section GenerateIdFacts.
Variable R : Type.
Variables hasRandomUUID hasGetRandomValues : bool.
Variable crypto_randomUUID : R -> string * R.
Variable crypto_getRandomValues : nat -> R -> list Z * R.
Variable Date_now_base36 : R -> string * R.
Variable Math_random_base36 : R -> string * R.

Local Abbreviation generateId' :=
  (generateId R hasRandomUUID hasGetRandomValues crypto_randomUUID
              crypto_getRandomValues Date_now_base36 Math_random_base36).

(** X20. Where [crypto.randomUUID] is missing and [crypto.getRandomValues]
    is there, [generateId] writes the sixteen random bytes as 32
    hexadecimal digits in lower case, grouped 8-4-4-4-12 by hyphens: the
    identifier has 36 characters, and two identifiers are equal only if
    they come from the same sixteen bytes. *)
Theorem generateId_from_bytes (r1 r2 : R) :
  hasRandomUUID = false -> hasGetRandomValues = true ->
  let arr1 := fst (crypto_getRandomValues 16 r1) in
  let arr2 := fst (crypto_getRandomValues 16 r2) in
  sixteenBytes arr1 -> sixteenBytes arr2 ->
  let id1 := fst (generateId' r1) in
  let id2 := fst (generateId' r2) in
  String.length id1 = 36%nat /\
  hexMask id1 = "xxxxxxxx-xxxx-xxxx-xxxx-xxxxxxxxxxxx" /\
  (id1 = id2 <-> arr1 = arr2).
Proof.
  intros Hu Hg. cbv zeta. intros H1 H2. unfold generateId. rewrite Hu, Hg.
  destruct (crypto_getRandomValues 16 r1) as [arr1 r1'].
  destruct (crypto_getRandomValues 16 r2) as [arr2 r2'].
  cbn [fst] in *.
  destruct (groupAsUuid_shape arr1 H1) as [Hlen Hmask].
  split; [exact Hlen|]. split; [exact Hmask|].
  split; [apply groupAsUuid_inj; assumption|intros ->; reflexivity].
Qed.

End GenerateIdFacts.

(** ** Further samples *)

(** The file [intactV6] decodes to its two strokes. *)
Lemma v6_always_decodes_witness :
  valid (validateHeader intactV6 asciiDecode) = true /\
  hv_version (validateHeader intactV6 asciiDecode) = V6 /\
  exists strokes,
    parse intactV6 asciiDecode = Some (Success (mkParsedDocument V6 [strokes])) /\
    Forall (collectedV6 intactV6) strokes.
Proof.
  split; [vm_compute; reflexivity|].
  split; [vm_compute; reflexivity|].
  apply (v6_always_decodes intactV6 asciiDecode); vm_compute; reflexivity.
Defined.

(** The stroke of [sampleV5] lies in layer 0. *)
Lemma stroke_layer_index_witness :
  parse sampleV5 asciiDecode = Some (Success sampleV5_document) /\
  forall (k : nat) (l : list Stroke) (s : Stroke),
    layers sampleV5_document !! k = Some l -> s ∈ l -> layerIndex s = Z.of_nat k.
Proof.
  split; [vm_compute; reflexivity|].
  apply (stroke_layer_index sampleV5 asciiDecode sampleV5_document).
  vm_compute. reflexivity.
Defined.

Lemma sampleV5_wellFormed :
  wellFormedV5 sampleV5 V5 (layers sampleV5_document).
Proof.
  unfold wellFormedV5.
  split; [vm_compute; discriminate|].
  split; [vm_compute; split; discriminate|].
  split; [vm_compute; reflexivity|].
  exists 147. split; [|vm_compute; discriminate].
  exists 147. split; [|reflexivity].
  split; [vm_compute; discriminate|].
  split; [vm_compute; split; discriminate|].
  split; [vm_compute; reflexivity|].
  split; [|split; [reflexivity|vm_compute; reflexivity]].
  split; [vm_compute; discriminate|].
  split; vm_compute; [split|]; discriminate.
Defined.

(** [sampleV5] is the well-formed layout of its document, and of no other. *)
Lemma v5_layout_decoded_witness :
  valid (validateHeader sampleV5 asciiDecode) = true /\
  wellFormedV5 sampleV5 V5 (layers sampleV5_document) /\
  parse sampleV5 asciiDecode = Some (Success sampleV5_document) /\
  forall layers', wellFormedV5 sampleV5 V5 layers' ->
    layers' = layers sampleV5_document.
Proof.
  split; [vm_compute; reflexivity|].
  split; [exact sampleV5_wellFormed|].
  apply (v5_layout_decoded sampleV5 asciiDecode (layers sampleV5_document)).
  - vm_compute. reflexivity.
  - right. vm_compute. reflexivity.
  - exact sampleV5_wellFormed.
Defined.

(** Three more bytes after [sampleV5]. *)
Lemma trailing_bytes_ignored_witness :
  43 <= byteLength sampleV5 /\
  parse (sampleV5 ++ bytesOf [1; 2; 3]) asciiDecode
    = Some (Success sampleV5_document).
Proof.
  split; [vm_compute; discriminate|].
  apply (trailing_bytes_ignored sampleV5 (bytesOf [1; 2; 3]) asciiDecode
           sampleV5_document).
  - vm_compute. discriminate.
  - vm_compute. reflexivity.
  - discriminate.
Defined.

(** The value 300 is written [0xAC 0x02]. *)
Lemma varuint_round_trip_witness :
  encodeVaruint 300 = [0xAC; 0x02] /\
  readVaruint (bytesOf [7] ++ bytesOf (encodeVaruint 300) ++ bytesOf [9])
              (byteLength (bytesOf [7]))
    = Ret 300 (byteLength (bytesOf [7]) + Z.of_nat (length (encodeVaruint 300))).
Proof.
  split; [reflexivity|].
  apply (varuint_round_trip (bytesOf [7]) (bytesOf [9]) 300). lia.
Defined.

(** The first block of [intactV6], a line definition of 24 bytes. *)
Lemma accepted_block_isolated_witness :
  ~ rejectedAt intactV6 43 /\
  uint32At intactV6 43 = 24 /\
  exists r c',
    parseV6Stroke intactV6 (43 + 8 + uint32At intactV6 43) (43 + 8) = Ret r c' /\
    scanV6 intactV6 [] 43
      = scanV6 intactV6 ([] ++ pushed r) (43 + 8 + uint32At intactV6 43).
Proof.
  assert (Hacc : ~ rejectedAt intactV6 43) by (vm_compute; discriminate).
  split; [exact Hacc|]. split; [vm_compute; reflexivity|].
  apply (proj2 (proj2 (accepted_block_isolated intactV6 [] 43
                         ltac:(lia) ltac:(vm_compute; discriminate) Hacc))).
  vm_compute. reflexivity.
Defined.

(** The points sub-block of the first stroke of [intactV6]: its length word
    is at offset 57, its one record at 61, and the block ends at 75. *)
Lemma points_field_within_block_witness :
  75 <= byteLength intactV6 /\
  v6FieldSwitch intactV6 75 (mkV6Fields 2 0 (Fin 1) []) 5 V6TagType.Length4 57
    = Ret (mkV6Fields 2 0 (Fin 1) ([] ++ v6PointsAt intactV6 1 (57 + 4)))
          (57 + 4 + 14 * Z.of_nat 1).
Proof.
  assert (Hb : 75 <= byteLength intactV6) by (vm_compute; discriminate).
  split; [exact Hb|].
  apply (proj1 (proj1 (points_field_within_block intactV6 75
                         (mkV6Fields 2 0 (Fin 1) []) 57 ltac:(lia) Hb)
                      ltac:(vm_compute; discriminate))).
Defined.

(** The fineliner stroke [cornerStroke]: three points, simulated pressure. *)
Lemma element_pressures_witness :
  exists e w',
    convertStroke nat Z stubId stubSeed stubNow
      (newConverter (mkPartialOptions None None None)) cornerStroke 0 (O, 0)
      = (Some e, w') /\
    length (fd_pressures e) = length (fd_points e) /\
    length (fd_points e) = length (points cornerStroke) /\
    (fd_simulatePressure e = true ->
       fd_pressures e = (fun _ => Fin 0.5) <$> points cornerStroke) /\
    (fd_simulatePressure e = false ->
       fd_pressures e
         = (fun p => normalizePressure (p_pressure p)) <$> points cornerStroke) /\
    Forall (fun pr => isNaN pr = false -> num_le (Fin 0) pr /\ num_le pr (Fin 1))
           (fd_pressures e).
Proof.
  eexists _, _. split; [vm_compute; reflexivity|].
  eapply (element_pressures nat Z stubId stubSeed stubNow
            (newConverter (mkPartialOptions None None None)) cornerStroke 0 (O, 0)).
  vm_compute. reflexivity.
Defined.

(** The stand-in generator never gives out an identifier twice. *)
Lemma stubId_fresh (g : nat) :
  (fst (stubId g) ∉ stubIssued g) /\
  fst (stubId g) ∈ stubIssued (snd (stubId g)) /\
  stubIssued g ⊆ stubIssued (snd (stubId g)).
Proof.
  unfold stubId, stubIssued. cbn [fst snd]. rewrite seq_S, fmap_app. cbn [Nat.add].
  split; [|split].
  - rewrite elem_of_list_to_set, list_elem_of_fmap.
    intros (k & Heq & Hk). apply elem_of_seq in Hk.
    cbn in Heq. injection Heq as Heq. change (pretty (Z.of_nat g) = pretty (Z.of_nat k)) in Heq.
    apply pretty_Z_inj in Heq. lia.
  - rewrite elem_of_list_to_set, elem_of_app. right. cbn. left.
  - intros x. rewrite !elem_of_list_to_set, elem_of_app. auto.
Qed.

Lemma stubSeed_keeps (g : nat) : stubIssued g ⊆ stubIssued (snd (stubSeed g)).
Proof.
  unfold stubSeed, stubIssued. cbn [fst snd]. rewrite seq_S, fmap_app.
  intros x. rewrite !elem_of_list_to_set, elem_of_app. auto.
Qed.

(** The two strokes of [intactV6] on a background image. *)
Lemma element_ids_distinct_witness :
  (forall g, (fst (stubId g) ∉ stubIssued g) /\
             fst (stubId g) ∈ stubIssued (snd (stubId g)) /\
             stubIssued g ⊆ stubIssued (snd (stubId g))) /\
  (forall g, stubIssued g ⊆ stubIssued (snd (stubSeed g))) /\
  NoDup (elementId <$> elements (stubConvert backgroundConverter intactV6_document)) /\
  Forall (fun i => i ∉ stubIssued O)
         (elementId <$> elements (stubConvert backgroundConverter intactV6_document)).
Proof.
  split; [exact stubId_fresh|]. split; [exact stubSeed_keeps|].
  apply (element_ids_distinct nat Z stubId stubSeed stubNow stubIssued
           stubId_fresh stubSeed_keeps backgroundConverter intactV6_document (O, 0)).
Defined.

Example intactV6_element_ids :
  elementId <$> elements (stubConvert backgroundConverter intactV6_document)
    = ["id-1"; "id-4"; "id-6"].
Proof. vm_compute. reflexivity. Qed.

(** [intactV6], converted with the default options on an engine that
    accepts 125000 arguments. *)
Lemma v6_document_converted_witness :
  parse intactV6 asciiDecode = Some (Success intactV6_document) /\
  exists strokes out this' w',
    layers intactV6_document = [strokes] /\
    Engine.convert 125000 nat Z stubId stubSeed stubNow
      (newConverter (mkPartialOptions None None None)) intactV6_document (O, 0)
      = (inl out, this', w') /\
    Forall2 (fun e s => exists w1 w2,
               Engine.convertStroke 125000 nat Z stubId stubSeed stubNow this' s 0 w1
                 = (inl (Some e), w2))
      (freehandElements (elements out))
      (filter (fun s => includeEraser
                          (options (newConverter (mkPartialOptions None None None)))
                        || negb ((pen s =? 4) || (pen s =? 16)) = true) strokes).
Proof.
  split; [vm_compute; reflexivity|].
  destruct (v6_document_converted 125000 nat Z stubId stubSeed stubNow intactV6
              asciiDecode intactV6_document
              (newConverter (mkPartialOptions None None None)) (O, 0)
              ltac:(vm_compute; reflexivity) eq_refl)
    as (strokes & Hl & Hret & _).
  cbv zeta in Hret.
  assert (Hs : strokes
               = [mkStroke 2 RMColor.BLACK (Fin 1.0) [v6PointAt intactV6 61] 0;
                  mkStroke 3 RMColor.BLACK (Fin 1.0) [v6PointAt intactV6 105] 0])
    by (injection Hl as <-; reflexivity).
  destruct Hret as (out & this' & w' & Hrun & Hall & _).
  { rewrite Hs. repeat (rewrite filter_cons; destruct (decide _)); rewrite ?filter_nil;
      repeat constructor; cbn [points length]; lia. }
  exists strokes, out, this', w'. split; [exact Hl|]. split; [exact Hrun|exact Hall].
Defined.

(** A document of a stroke with three points and an eraser stroke, on an
    engine that accepts 125000 arguments and on one that accepts two. *)
Lemma strokes_filtered_within_bound_witness :
  (exists out this' w',
     Engine.convert 125000 nat Z stubId stubSeed stubNow
       (newConverter (mkPartialOptions None None None))
       (mkParsedDocument V5 [[cornerStroke; eraserStroke]]) (O, 0)
       = (inl out, this', w') /\
     Forall2 (fun e s => exists li w1 w2,
                Engine.convertStroke 125000 nat Z stubId stubSeed stubNow this' s li w1
                  = (inl (Some e), w2))
             (freehandElements (elements out)) [cornerStroke]) /\
  (exists this' w',
     Engine.convert 2 nat Z stubId stubSeed stubNow
       (newConverter (mkPartialOptions None None None))
       (mkParsedDocument V5 [[cornerStroke; eraserStroke]]) (O, 0)
       = (inr StackSizeError, this', w')).
Proof.
  split.
  - destruct (proj1 (proj2 (strokes_filtered_within_bound 125000 nat Z stubId stubSeed
                              stubNow (newConverter (mkPartialOptions None None None))
                              (mkParsedDocument V5 [[cornerStroke; eraserStroke]]) (O, 0))))
      as (out & this' & w' & Hrun & _ & Hall & _).
    { repeat constructor. vm_compute. discriminate. }
    exists out, this', w'. split; [exact Hrun|exact Hall].
  - apply (proj1 (proj2 (proj2 (strokes_filtered_within_bound 2 nat Z stubId stubSeed
                              stubNow (newConverter (mkPartialOptions None None None))
                              (mkParsedDocument V5 [[cornerStroke; eraserStroke]]) (O, 0))))).
    left. vm_compute. reflexivity.
Defined.

(** A stroke of 200000 points on an engine that accepts 125000 arguments. *)
Lemma long_stroke_not_converted_witness :
  exists s,
    parse (longStrokeV6 (Z.to_nat 200000)) asciiDecode
      = Some (Success (mkParsedDocument V6 [[s]])) /\
    length (points s) = Z.to_nat 200000 /\
    pen s = PenType.BALLPOINT /\
    emitted (options (newConverter (mkPartialOptions None None None))) s = true /\
    length (freehandElements
              (elements (convertOutput nat Z stubId stubSeed stubNow
                           (newConverter (mkPartialOptions None None None))
                           (mkParsedDocument V6 [[s]]) (O, 0)))) = 1%nat /\
    exists this' w',
      Engine.convert 125000 nat Z stubId stubSeed stubNow
        (newConverter (mkPartialOptions None None None))
        (mkParsedDocument V6 [[s]]) (O, 0) = (inr StackSizeError, this', w').
Proof.
  apply (long_stroke_not_converted 125000 nat Z stubId stubSeed stubNow
           (Z.to_nat 200000) (newConverter (mkPartialOptions None None None)) (O, 0));
    lia.
Defined.

(** A run over the two sample documents, without callback, on an empty
    vault: the notebook is new, the PDF costs one message. *)
Lemma runSync_accounts_witness :
  (forall status percent w,
     callProgress (list string) None status percent w = (inl tt, w)) /\
  let r := fst (runSync (list string) id stubVaultExists stubCreateFolder
                        stubDiscover stubSyncDocument None stubSettings false []) in
  0 <= imported r /\ 0 <= updated r /\ 0 <= skipped r /\
  imported r + updated r + skipped r + Z.of_nat (length (errors r))
    = Z.of_nat (length (filterDocuments stubSettings sampleDocuments)) /\
  Forall (fun msg => exists d, d ∈ filterDocuments stubSettings sampleDocuments /\
            exists m, msg = visibleName d +:+ ": " +:+ m) (errors r) /\
  (Settings.syncNotebooks stubSettings = false ->
   Settings.syncPDFAnnotations stubSettings = false ->
   r = mkSyncResult 0 0 0 []).
Proof.
  split; [intros status percent w; reflexivity|].
  apply (runSync_accounts (list string) id stubVaultExists stubCreateFolder
           stubDiscover stubSyncDocument None stubSettings
           (fun status percent w => eq_refl) false []).
Defined.

Example runSync_sample :
  runSync (list string) id stubVaultExists stubCreateFolder
          stubDiscover stubSyncDocument None stubSettings false []
    = (mkSyncResult 1 0 0 ["Paper: cannot read the pages"], ["ReMarkSync"]).
Proof. vm_compute. reflexivity. Qed.

(** The stand-in vault does what a vault is taken to do. *)
Lemma stubCreateFolder_creates path (w w' : list string) :
  stubCreateFolder path w = (inl tt, w') -> stubVaultExists path w' = true.
Proof.
  unfold stubCreateFolder, stubVaultExists. intros H. injection H as <-.
  apply bool_decide_eq_true. left.
Qed.

Lemma stubCreateFolder_keeps path (w : list string) r (w' : list string) q :
  stubCreateFolder path w = (r, w') ->
  stubVaultExists q w = true -> stubVaultExists q w' = true.
Proof.
  unfold stubCreateFolder, stubVaultExists. intros H Hq. injection H as _ <-.
  apply bool_decide_eq_true. apply bool_decide_eq_true in Hq. right. exact Hq.
Qed.

(** Three folders created in an empty vault. *)
Lemma ensureFolderExists_creates_witness :
  (forall path w w', stubCreateFolder path w = (inl tt, w') ->
                     stubVaultExists path w' = true) /\
  (forall path w r w' q, stubCreateFolder path w = (r, w') ->
                         stubVaultExists q w = true -> stubVaultExists q w' = true) /\
  let outcome := ensureFolderExists (list string) id stubVaultExists stubCreateFolder
                   "ReMarkSync/Notes/2024" [] in
  outcome = (inl tt, ["ReMarkSync/Notes/2024"; "ReMarkSync/Notes"; "ReMarkSync"]) /\
  stubVaultExists "ReMarkSync/Notes/2024" (snd outcome) = true /\
  forall k : nat, (0 < k <= length (splitOn "/" "ReMarkSync/Notes/2024"))%nat ->
    stubVaultExists (String.concat "/" (take k (splitOn "/" "ReMarkSync/Notes/2024")))
                    (snd outcome) = true.
Proof.
  split; [exact stubCreateFolder_creates|].
  split; [exact stubCreateFolder_keeps|].
  cbv zeta. split; [vm_compute; reflexivity|].
  destruct (proj2 (proj2 (ensureFolderExists_creates (list string) id stubVaultExists
                            stubCreateFolder stubCreateFolder_creates
                            stubCreateFolder_keeps "ReMarkSync/Notes/2024" []))
              ltac:(vm_compute; reflexivity)
              ltac:(eexists _, _; split; [reflexivity|discriminate]))
    as [Hexists Hancestors].
  split; [exact Hexists|]. apply Hancestors. vm_compute. reflexivity.
Defined.

Lemma stubRandomBytes_sixteen (r : nat) : sixteenBytes (fst (stubRandomBytes 16 r)).
Proof.
  unfold stubRandomBytes, sixteenBytes. cbn [fst]. split.
  - rewrite length_fmap, length_seq. reflexivity.
  - apply Forall_fmap, Forall_forall. intros k _. unfold compose.
    apply Z.mod_pos_bound. lia.
Qed.

(** Two identifiers of the counting random source. *)
Lemma generateId_from_bytes_witness :
  sixteenBytes (fst (stubRandomBytes 16 250)) /\
  sixteenBytes (fst (stubRandomBytes 16 7)) /\
  String.length (fst (stubGenerateId 250)) = 36%nat /\
  hexMask (fst (stubGenerateId 250)) = "xxxxxxxx-xxxx-xxxx-xxxx-xxxxxxxxxxxx" /\
  (fst (stubGenerateId 250) = fst (stubGenerateId 7) <->
   fst (stubRandomBytes 16 250) = fst (stubRandomBytes 16 7)).
Proof.
  split; [apply stubRandomBytes_sixteen|].
  split; [apply stubRandomBytes_sixteen|].
  apply (generateId_from_bytes nat false true (fun r => (EmptyString, r))
           stubRandomBytes (fun r => (EmptyString, r)) (fun r => (EmptyString, r))
           250%nat 7%nat eq_refl eq_refl
           (stubRandomBytes_sixteen 250) (stubRandomBytes_sixteen 7)).
Defined.

Example generateId_sample :
  fst (stubGenerateId 250) = "fafbfcfd-feff-0001-0203-040506070809".
Proof. vm_compute. reflexivity. Qed.

Example unique_name_sample :
  getUniqueFileName stubExists "Page" "excalidraw" = Some "Page (3).excalidraw".
Proof. vm_compute. reflexivity. Qed.

Example sanitizeName_sample :
  sanitizeName (codeUnits "  My: notes /  2024  ") = codeUnits "My- notes - 2024".
Proof. vm_compute. reflexivity. Qed.
